(* ===== verification/_CoqProject ===== *)
-Q . S2P
Prelude.v
Go.v
Strconv.v
Identifiers.v
Money.v
Transaction.v
Account.v
Book.v
Events.v
Ports.v
LedgerService.v
LedgerSafety.v
LedgerLive.v
Concurrency.v
Transfer.v
TransferService.v
Slices.v
TransferSpec.v
World.v
Sample.v
SharedEntries.v
SharedSteps.v
InMemory.v
Mutex.v
MutexTermination.v
Postgres.v
Projection.v
Production.v
Scenario.v
DomainTheorems.v
LedgerTheorems.v
TransferTheorems.v
ConcurrencyTheorems.v
Reachable.v
Accesses.v
EventLog.v
StorageTheorems.v
OutboxWorker.v
WorkerTheorems.v
Isolation.v
ReadModel.v
Serializability.v
IsolationTheorems.v
ReadModelRows.v
ReadModelTheorems.v
Processes.v
Journal.v
EventSourcing.v
ProcessTheorems.v
Json.v
JsonTheorems.v
Requests.v
Http.v
Handlers.v
Dollars.v
Idempotency.v
IdempotencyTheorems.v
HttpSpec.v
Serving.v
ServingTheorems.v
Durability.v
Observability.v
Router.v
Main.v
HttpTheorems.v
RouterTheorems.v
MainTheorems.v
ServerTheorems.v
RequestTheorems.v
