(* ===== verification/Prelude.v ===== *)
(** * Ledger Engine: a verification of the Go program under src/

    ** The program

    A double-entry ledger behind an HTTP API. [main] connects to Postgres and
    Redis and serves a router. A request passes the stack of middleware, of
    which that for metrics and that for idempotency keys are the program's own,
    and reaches a handler, which decodes its body and calls the ledger service
    or, for transfers, the transfer service. The ledger service
    checks a transaction, posts its entries to the accounts one by one, stores
    the transaction and appends an event to the event log and, in the same
    database transaction, to the outbox; then it projects the event into the
    read model. A worker publishes the outbox to a broker. A transfer is a saga
    of two such transactions over a suspense account, with a compensating
    transaction. All state lives in Postgres, except transactions (a map in
    memory) and idempotency keys (Redis).

    ** How the code is modelled

    Definitions keep the names of the source; a method [T.M] is [T_M], or [M]
    where that is unambiguous, with the prefixes [mem_], [pg_], [store_] and
    [Handler_] for the methods that several packages share. Go's int64 is [Z]
    with [wrap64] where an operation wraps around. Code that reads or changes
    state is a function of type [St W A] or [M W A] (Go.v) over a world [W]; an
    [error] result is [Err e], with the text and the chain of the source. Loops
    are fixpoints over the slice they range over, so that no fuel is needed;
    the one unbounded loop, [Start] of the outbox worker, takes the number of
    ticks before its context is cancelled. The parser of JSON takes fuel, twice
    the length of its text and more ([parse_fuel]: more gives the same result).

    Concurrency is modelled in two ways: loops that are cut between two accesses
    (Concurrency.v, [advance] of Idempotency.v, [batch_step] of Processes.v),
    and programs that are trees of accesses to the shared state and replay the
    sequential code (Accesses.v); their steps are interleaved in any order.
    Isolation.v cuts the transactions of the database at their statements.
    Serving.v puts all but that together: requests that are cut at every command to
    Redis and at every access of their handlers, beside the outbox workers,
    with restarts.

    Third-party code is a parameter: google/uuid ([UuidLib]), the clock and the
    UUID generator ([Runtime], [Oracle]), Redis ([RedisClient]), the broker
    ([EventPublisher]), chi and its middleware ([HttpStack]), OpenTelemetry
    ([Otel]). What is relied on is stated by classes of laws ([UuidLaws],
    [OracleLaws], [RedisLaws], [RedisErrs], [Promise], [HttpStackLaws]), each of
    which has a concrete instance (Sample.v, [map_redis], [LogPublisher],
    [plain_stack]). SQL statements are functions on the tables of migrations/,
    written from their text; each statement, BEGIN and COMMIT included, can be
    lost, or be executed and its answer lost, as the oracle [db_fault] says.

    ** The files

    - Go.v: errors, results, state, frame properties;
    - Identifiers.v, Money.v, Transaction.v, Events.v:
      internal/domain/ledger; Account.v: internal/domain/account; Transfer.v:
      internal/domain/transfer/transfer.go;
    - Book.v: the abstract ledger, a finite map of accounts and the posting of
      entries on it; conservation and solvency are proved on it;
    - Ports.v: the repository interfaces and their laws [SafeRepository]
      (whatever fails) and [LiveRepository] (while storage answers);
    - LedgerService.v: internal/app/ledger_service.go and commands.go;
      LedgerSafety.v and LedgerLive.v: it implements the abstract ledger, up to
      a prefix of the entries when something fails, exactly when nothing does;
    - Concurrency.v: the posting loops of concurrent transactions, interleaved
      between [FindByID] and [Save];
    - TransferService.v: internal/app/transfer_service.go; TransferSpec.v: the
      saga on the abstract ledger and why [Execute] implements it;
    - Slices.v: slices as windows on arrays that they share; SharedEntries.v,
      SharedSteps.v: transactions and transfers over such arrays, for which the
      other files write lists;
    - World.v: the shared state; InMemory.v: internal/infra/inmemory, and
      Mutex.v, MutexTermination.v: the same with its mutexes, cut between their
      operations;
    - Isolation.v: the transactions of projector.go and outbox.go, one statement
      at a time, among other open ones; Serializability.v: the invariant of that;
      Postgres.v: internal/infra/postgres; Projection.v: internal/projection;
      Production.v: the wiring of cmd/api/main.go, and why it satisfies the
      classes above; Reachable.v: invariants of every reachable world;
      EventLog.v, ReadModel.v: the tables of events and of the read model;
    - OutboxWorker.v: internal/app/outbox_worker.go and internal/infra/publisher;
    - Accesses.v: the methods of the services as goroutines that make one access
      to the shared state at a time; Processes.v: any number of requests and
      outbox workers on one database, with restarts; Journal.v: what each row of
      the event log records;
    - Strconv.v, Json.v: the parts of strconv and encoding/json that the program
      uses, on bytes; Requests.v: the request types of handlers.go and how a
      body is decoded into them;
    - Http.v, Handlers.v: internal/infra/http (handlers.go and the two
      recorders); HttpSpec.v: the use case that each request asks for;
    - Dollars.v: what is left of an amount on its way from the literal in the
      body of a request to an int64 of cents;
    - Idempotency.v: internal/infra/redis and internal/infra/http/idempotency.go,
      also cut into the steps between two commands to Redis, so that requests
      interleave, with time passing, commands that fail and locks that expire;
    - Serving.v: the whole server: the requests of Idempotency.v around the
      goroutines of Processes.v, expiry of stored responses, restarts;
    - Observability.v: health.go, metrics.go and metrics_middleware.go;
    - Router.v: internal/infra/http/router.go, the routes and the stack of
      middleware; Main.v: cmd/api/main.go, with the race of its goroutines at
      shutdown;
    - Sample.v, Scenario.v: a concrete environment and worlds reached in it, on
      which the theorems are instantiated.

    ** What is proved

    - DomainTheorems.v: what [NewTransaction] accepts, on every input; accounts
      implement the posting specification, their balance is the sum of what
      they accepted, assets stay solvent, closed accounts stay closed;
    - LedgerTheorems.v: [RecordTransaction] implements the abstract ledger,
      conserves money and keeps assets solvent; what a failure leaves behind;
      the trial balance of any history; opening accounts and deposits;
    - SharedEntries.v, SharedSteps.v: nothing that a client does with the slices
      it is given changes a transaction; [Execute] over shared arrays is
      [Execute] over lists, and what [Steps] returned keeps its contents;
    - TransferTheorems.v: the five outcomes of a saga, and its effect on the
      balances in each case, the loss in the compensated one included;
    - ConcurrencyTheorems.v: concurrent postings are serializable on disjoint
      accounts, and lose updates on a common one;
    - Mutex.v, MutexTermination.v: the in-memory repositories are linearizable,
      without races, and every call returns;
    - IsolationTheorems.v: interleaved transactions of the database leave what
      they leave one after the other, with one exception, which breaks the read
      model; two of them can wait for each other;
    - StorageTheorems.v: both wirings implement the interfaces; the event log is
      atomic with the outbox, has one event per version and reads back what was
      appended;
    - WorkerTheorems.v: at-least-once delivery and draining of the outbox;
    - EventSourcing.v: the accounts table is the replay of the event log, as long
      as calls succeed one after the other;
    - ProcessTheorems.v: in every interleaving of requests, workers and restarts
      the event log is a journal of balanced transactions with a trial balance of
      its own, what was acknowledged is in it, and every event is delivered or
      queued; a request that is not interrupted is the sequential one; two
      deposits, and two workers, that race;
    - ReadModelRows.v: in every interleaving of statements an aggregate has one
      event of each version, and the read model of an account is the running sum
      of its history unless it is opened in the middle of a projection;
      ReadModelTheorems.v: the read model agrees with the write model as long as
      the database answers and requests do not overlap, except on entries of
      unknown types;
    - IdempotencyTheorems.v: replay and mutual exclusion of requests with one
      key for as long as the lock of the key lives, and six ways in which a key
      does not do what it promises;
    - ServingTheorems.v, Durability.v: the interleaved server refines the program
      of Processes.v; a request alone is the sequential middleware around the
      sequential handler; a success that a client is told of, also by a replay,
      is durable;
    - HttpTheorems.v: each route runs its use case and answers with the status
      of its outcome; the books balance after any requests of which no posting
      failed; which requests panic;
    - Dollars.v: an amount with two decimals loses one cent at most;
    - JsonTheorems.v, RequestTheorems.v: round trips of JSON documents and of
      request bodies;
    - RouterTheorems.v: from the text of a request to its response, and requests
      that are sent again;
    - ServerTheorems.v: the trial balance (modulo 2^64) of a server after any
      HTTP requests, one after the other, of which none was answered with 422;
    - MainTheorems.v: every ending of [main], and what shutdown leaves behind.

    Some theorems state defects: a failed transaction is not undone, a
    compensated transfer debits the suspense account twice, a rejected transfer
    panics, the balance check is modulo 2^64 and ignores unknown entry types,
    negative transfers take money, 0.29 dollars are 28 cents, concurrent
    transactions lose updates, a duplicate request can be processed twice, a slow one
    loses its lock and gives back that of another, two workers publish twice, shutdown abandons the requests in flight, an account
    that is opened while it is posted to breaks the read model, two projections
    deadlock.

    ** Bounds

    [headroom], [positive_amounts] and the bounds on sums say that no balance
    overflows an int64; where a theorem does without them its equation is
    modulo 2^64. Amounts in dollars are bounded by 2^50 cents, below which the
    error of three roundings to 53 bits is less than one cent.

    ** What is not modelled, and what is next

    Not modelled: the log lines and the set-up of the logger (pure output), the
    files of the dashboard, the SQL of migrations/ but for the constraints that
    the statements meet, and the inside of third-party code. In
    Processes.v and Serving.v an append to the event log is one step;
    Isolation.v cuts it, and the projections, at their statements, and
    [interleaved_transactions_serialize] shows that nothing more can happen, as
    long as no account is opened in the read model while a projection that
    missed its row is open; [opening_race_breaks_read_model] shows what happens
    otherwise. Of the read model Processes.v and Serving.v say nothing: it may
    change to anything between two of their steps. A statement that Postgres
    refuses (a text with a NUL character) counts as one that is lost. In Serving.v the
    middleware around that of the idempotency keys (Router.v) shows only as looks
    at the clock, and requests for other endpoints are represented by their
    response. [success_is_durable] assumes a Redis that answers and in which the
    status of a stored response outlives it ([replay_loses_status] shows what
    happens otherwise), clients that do not use the names of locks as keys
    ([key_collision_refuses], [lock_is_replayed]), and that send keys to the API
    only. [accounts_rebuilt_from_log] is about calls that succeed: one that
    fails can leave postings, or an account, of which the log does not know.
    In Slices.v slices begin at the first cell of their array, as all slices of
    the program do but for [params[1:]], which is only read. A client that
    writes to what [Steps] returned does change the transfer
    ([Steps_lets_rewrite_history]); the program has none. *)
From stdpp Require Import base gmap strings list fin_maps sorting pretty.
From Stdlib Require Import ZArith Lia.

Set Default Proof Using "Type".
Local Open Scope Z_scope.

(** ** Hint database and tactics of the development *)

Create HintDb ledger discriminated.
Create Rewrite HintDb ledger_rw.

(** Case analysis on the discriminee of a [match] or [if] of the goal or of a
    hypothesis, keeping the equation. *)
Ltac case_goal :=
  match goal with
  | |- context [match ?x with _ => _ end] => destruct x eqn:?
  end.

Ltac case_hyp H :=
  match type of H with
  | context [match ?x with _ => _ end] => destruct x eqn:?
  end.

(** Boolean guards of the code turned into the propositions they decide. *)
Ltac bool_prop :=
  repeat match goal with
  | H : _ && _ = true |- _ => apply andb_true_iff in H as [? ?]
  | H : _ || _ = false |- _ => apply orb_false_iff in H as [? ?]
  | H : negb _ = true |- _ => apply negb_true_iff in H
  | H : negb _ = false |- _ => apply negb_false_iff in H
  | H : (_ =? _)%Z = true |- _ => apply Z.eqb_eq in H
  | H : (_ =? _)%Z = false |- _ => apply Z.eqb_neq in H
  | H : (_ <? _)%Z = true |- _ => apply Z.ltb_lt in H
  | H : (_ <? _)%Z = false |- _ => apply Z.ltb_ge in H
  | H : (_ <=? _)%Z = true |- _ => apply Z.leb_le in H
  | H : (_ <=? _)%Z = false |- _ => apply Z.leb_gt in H
  | H : bool_decide _ = true |- _ => apply bool_decide_eq_true in H
  | H : bool_decide _ = false |- _ => apply bool_decide_eq_false in H
  end.

(** ** Machine integers: Go's [int64] and Postgres' BIGINT *)

Definition min_int64 : Z := - 2 ^ 63.
Definition max_int64 : Z := 2 ^ 63 - 1.
Definition modulus64 : Z := 2 ^ 64.

(** The value of an [int64] expression whose mathematical value is [z]. *)
Definition wrap64 (z : Z) : Z := (z + 2 ^ 63) mod 2 ^ 64 - 2 ^ 63.

Definition in_int64 (z : Z) : Prop := min_int64 <= z <= max_int64.

Definition in_int64b (z : Z) : bool := (min_int64 <=? z) && (z <=? max_int64).

Lemma in_int64b_spec z : in_int64b z = true <-> in_int64 z.
Proof. unfold in_int64b, in_int64. rewrite andb_true_iff, !Z.leb_le. done. Qed.

#[global] Instance in_int64_dec z : Decision (in_int64 z).
Proof. unfold in_int64. apply _. Defined.

Lemma wrap64_range z : in_int64 (wrap64 z).
Proof.
  unfold in_int64, wrap64, min_int64, max_int64.
  pose proof (Z.mod_pos_bound (z + 2 ^ 63) (2 ^ 64) ltac:(lia)). lia.
Qed.

Lemma wrap64_id z : in_int64 z -> wrap64 z = z.
Proof.
  unfold in_int64, wrap64, min_int64, max_int64. intros H.
  rewrite Z.mod_small; lia.
Qed.

(** Equality of integers modulo 2^64: the equality under which [int64]
    arithmetic is exact. *)
Definition eqm64 (a b : Z) : Prop := a mod modulus64 = b mod modulus64.

Infix "≡64" := eqm64 (at level 70, no associativity) : Z_scope.

#[global] Instance eqm64_equiv : Equivalence eqm64.
Proof. split; unfold eqm64; repeat intro; congruence. Qed.

Lemma eqm64_eq a b : a = b -> a ≡64 b.
Proof. by intros ->. Qed.

#[global] Instance eqm64_add : Proper (eqm64 ==> eqm64 ==> eqm64) Z.add.
Proof.
  unfold eqm64, modulus64. intros a a' Ha b b' Hb.
  rewrite (Z.add_mod a), (Z.add_mod a') by lia. congruence.
Qed.

#[global] Instance eqm64_sub : Proper (eqm64 ==> eqm64 ==> eqm64) Z.sub.
Proof.
  unfold eqm64, modulus64. intros a a' Ha b b' Hb.
  rewrite (Zminus_mod a), (Zminus_mod a'). congruence.
Qed.

#[global] Instance eqm64_opp : Proper (eqm64 ==> eqm64) Z.opp.
Proof. intros a a' Ha. rewrite <- !Z.sub_0_l. by rewrite Ha. Qed.

Lemma wrap64_eqm z : wrap64 z ≡64 z.
Proof.
  unfold eqm64, wrap64, modulus64.
  rewrite Zminus_mod, Zmod_mod, <- Zminus_mod. f_equal. lia.
Qed.

Lemma eqm64_wrap a b : a ≡64 b <-> wrap64 a = wrap64 b.
Proof.
  split.
  - intros H. unfold wrap64. f_equal.
    assert (Hs : a + 2 ^ 63 ≡64 b + 2 ^ 63) by (by rewrite H). exact Hs.
  - intros H. by rewrite <- (wrap64_eqm a), <- (wrap64_eqm b), H.
Qed.

Lemma eqm64_in_int64 a b : in_int64 a -> in_int64 b -> a ≡64 b -> a = b.
Proof. intros Ha Hb H. apply eqm64_wrap in H. by rewrite !wrap64_id in H. Qed.

Lemma wrap64_add_l a b : wrap64 (wrap64 a + b) = wrap64 (a + b).
Proof. apply eqm64_wrap. by rewrite wrap64_eqm. Qed.

Lemma wrap64_add_r a b : wrap64 (a + wrap64 b) = wrap64 (a + b).
Proof. apply eqm64_wrap. by rewrite wrap64_eqm. Qed.

Lemma wrap64_sub_l a b : wrap64 (wrap64 a - b) = wrap64 (a - b).
Proof. apply eqm64_wrap. by rewrite wrap64_eqm. Qed.

#[global] Typeclasses Opaque eqm64.
#[export] Hint Resolve wrap64_range wrap64_eqm : ledger.
#[export] Hint Rewrite wrap64_add_l wrap64_add_r wrap64_sub_l : ledger_rw.

(** ** Sums over lists and finite maps *)

Fixpoint sumZ {A} (f : A -> Z) (l : list A) : Z :=
  match l with
  | [] => 0
  | x :: l => f x + sumZ f l
  end.

Lemma sumZ_app {A} (f : A -> Z) l1 l2 : sumZ f (l1 ++ l2) = sumZ f l1 + sumZ f l2.
Proof. induction l1; simpl; lia. Qed.

Lemma sumZ_ext_in {A} (f g : A -> Z) l :
  (forall x, In x l -> f x = g x) -> sumZ f l = sumZ g l.
Proof. induction l as [|x l IH]; simpl; [done|]. intros H. rewrite H, IH; auto. Qed.

Lemma sumZ_fmap {A B} (g : A -> B) (f : B -> Z) l :
  sumZ f (g <$> l) = sumZ (fun x => f (g x)) l.
Proof. induction l; csimpl; [done|]. congruence. Qed.

Lemma sumZ_zero {A} (f : A -> Z) l : (forall x, In x l -> f x = 0) -> sumZ f l = 0.
Proof. induction l as [|x l IH]; simpl; [done|]. intros H. rewrite H, IH; auto. Qed.

Lemma sumZ_nonneg {A} (f : A -> Z) l : (forall x, In x l -> 0 <= f x) -> 0 <= sumZ f l.
Proof.
  induction l as [|x l IH]; simpl; [lia|]. intros H.
  assert (0 <= f x) by auto. assert (0 <= sumZ f l) by auto. lia.
Qed.

Lemma sumZ_opp {A} (f : A -> Z) l : - sumZ f l = sumZ (fun x => - f x) l.
Proof. induction l; simpl; lia. Qed.

#[global] Instance filter_perm {A} (f : A -> bool) : Proper ((≡ₚ) ==> (≡ₚ)) (List.filter f).
Proof.
  induction 1 as [|x l1 l2 _ IH|x y l|l1 l2 l3 _ IH1 _ IH2]; simpl; [done| | |by etrans].
  - destruct (f x); by rewrite IH.
  - destruct (f x), (f y); done || constructor.
Qed.

#[global] Instance sumZ_perm {A} (f : A -> Z) : Proper ((≡ₚ) ==> (=)) (sumZ f).
Proof. induction 1; simpl; lia. Qed.

Section msum.
Context {K A : Type} `{Countable K}.

(** The sum of [f] over the values of a finite map. *)
Definition msum (f : A -> Z) (m : gmap K A) : Z :=
  sumZ (fun kv => f kv.2) (map_to_list m).

Lemma msum_empty f : msum f ∅ = 0.
Proof. unfold msum. by rewrite map_to_list_empty. Qed.

Lemma msum_insert_new f m k x :
  m !! k = None -> msum f (<[k := x]> m) = f x + msum f m.
Proof. intros Hk. unfold msum. by rewrite (map_to_list_insert m k x Hk). Qed.

Lemma msum_delete f m k x : m !! k = Some x -> msum f m = f x + msum f (delete k m).
Proof.
  intros Hk. rewrite <- (insert_delete_id m k x Hk) at 1.
  apply msum_insert_new, lookup_delete_eq.
Qed.

Lemma msum_insert f m k x y :
  m !! k = Some x -> msum f (<[k := y]> m) = msum f m - f x + f y.
Proof.
  intros Hk. rewrite (msum_delete f m k x Hk).
  rewrite <- (insert_delete_eq m k y).
  rewrite msum_insert_new by apply lookup_delete_eq. lia.
Qed.
End msum.

(** ** Lists and options *)

Lemma take_S_lookup {A} (l : list A) n x :
  l !! n = Some x -> take (S n) l = take n l ++ [x].
Proof. intros H. by erewrite take_S_r. Qed.

(** The first element of a list that satisfies a boolean test, as a [for]
    loop with an early return finds it. *)
Fixpoint find_first {A} (p : A -> bool) (l : list A) : option A :=
  match l with
  | [] => None
  | x :: l => if p x then Some x else find_first p l
  end.

Lemma find_first_Some {A} (p : A -> bool) l x :
  find_first p l = Some x -> x ∈ l /\ p x = true.
Proof.
  induction l as [|y l IH]; simpl; [done|].
  destruct (p y) eqn:E; [intros [= ->]; split; [constructor|done]|].
  intros H. destruct (IH H). split; [by constructor|done].
Qed.

Lemma find_first_None {A} (p : A -> bool) l :
  find_first p l = None <-> (forall x, x ∈ l -> p x = false).
Proof.
  induction l as [|y l IH]; simpl.
  { split; [intros _ x Hx; inversion Hx|done]. }
  destruct (p y) eqn:E; split.
  - done.
  - intros H. rewrite (H y) in E; [done|constructor].
  - intros H x Hx. inversion Hx; subst; [done|]. by apply IH.
  - intros H. apply IH. intros x Hx. apply H. by constructor.
Qed.

(** ** Strings *)

Lemma append_length s1 s2 : String.length (s1 +:+ s2) = (String.length s1 + String.length s2)%nat.
Proof. induction s1 as [|c s1 IH]; simpl; [done|]. by rewrite IH. Qed.

Lemma append_nil_r s : (s +:+ "")%string = s.
Proof. induction s as [|c s IH]; [done|]. exact (f_equal (String.String c) IH). Qed.

Lemma append_assoc s1 s2 s3 : (s1 +:+ s2) +:+ s3 = s1 +:+ (s2 +:+ s3).
Proof. induction s1 as [|c s1 IH]; [done|]. exact (f_equal (String.String c) IH). Qed.
