(* ===== verification/Go.v ===== *)
(** * The fragment of Go the ledger engine is written in

    - [error]: error values, as [errors.New] and [fmt.Errorf("...: %w", err)]
      build them, with [Error()] and [errors.Is];
    - [res A]: the pair [(A, error)] a Go function returns, of which exactly
      one component is meaningful;
    - [St W A]: code that reads and changes a world of type [W];
    - [M W A]: such code that can also return an error. The notation
      [let! x := m in k] is [x, err := m; if err != nil { return err }; k],
      [let@ x := m in k] runs code that cannot fail;
    - [Preserves f m]: the frame property "running [m] does not change [f]",
      solved by instance resolution along the structure of [m]. *)
From S2P Require Import Prelude.
From stdpp Require Import base gmap strings list pretty.

(** ** Errors *)

Inductive error :=
| errNew (var text : string)               (* a package-level [var = errors.New(text)] *)
| errWrap (prefix : string) (cause : error) (* [fmt.Errorf(prefix + ": %w", cause)] *)
| errForeign (text : string).              (* an error value of a driver, or [fmt.Errorf] without %w *)

#[global] Instance error_eq_dec : EqDecision error.
Proof. solve_decision. Defined.

Local Open Scope string_scope.

(** [err.Error()]. *)
Fixpoint Error (e : error) : string :=
  match e with
  | errNew _ t => t
  | errWrap p c => p +:+ ": " +:+ Error c
  | errForeign t => t
  end.

(** [errors.Is(err, target)]: some error of the chain is the target. *)
Fixpoint errors_Is (e target : error) : bool :=
  bool_decide (e = target) ||
  match e with
  | errWrap _ c => errors_Is c target
  | _ => false
  end.

Lemma errors_Is_refl e : errors_Is e e = true.
Proof. destruct e; simpl; rewrite bool_decide_eq_true_2; done. Qed.

Lemma errors_Is_wrap p e t : errors_Is e t = true -> errors_Is (errWrap p e) t = true.
Proof. simpl. intros ->. apply orb_true_r. Qed.

#[export] Hint Resolve errors_Is_refl errors_Is_wrap : ledger.

(** ** Results *)

Inductive res (A : Type) :=
| Ok (a : A)
| Err (e : error).
Arguments Ok {A} a.
Arguments Err {A} e.

Definition is_Ok {A} (r : res A) : bool := match r with Ok _ => true | Err _ => false end.

Definition res_bind {A B} (r : res A) (k : A -> res B) : res B :=
  match r with Ok a => k a | Err e => Err e end.

Definition res_wrap {A} (p : string) (r : res A) : res A :=
  match r with Ok a => Ok a | Err e => Err (errWrap p e) end.

(** ** Effects *)

Definition St (W A : Type) : Type := W -> A * W.
Definition M (W A : Type) : Type := St W (res A).

Section monad.
Context {W : Type}.

Definition retS {A} (a : A) : St W A := fun w => (a, w).
Definition bindS {A B} (m : St W A) (k : A -> St W B) : St W B :=
  fun w => let '(a, w1) := m w in k a w1.

Definition ret {A} (a : A) : M W A := fun w => (Ok a, w).
Definition throw {A} (e : error) : M W A := fun w => (Err e, w).
Definition bind {A B} (m : M W A) (k : A -> M W B) : M W B :=
  fun w => match m w with
           | (Ok a, w1) => k a w1
           | (Err e, w1) => (Err e, w1)
           end.

(** A pure step of type [(A, error)]. *)
Definition liftR {A} (r : res A) : M W A := fun w => (r, w).

(** [if err != nil { return fmt.Errorf(p + ": %w", err) }]. *)
Definition wrapErr {A} (p : string) (m : M W A) : M W A :=
  fun w => let '(r, w1) := m w in (res_wrap p r, w1).

(** [for _, x := range l { body }] with early return on an error. *)
Fixpoint forEach {A} (l : list A) (body : A -> M W unit) : M W unit :=
  match l with
  | [] => ret tt
  | x :: l => bind (body x) (fun _ => forEach l body)
  end.
End monad.

Declare Scope go_scope.
Delimit Scope go_scope with go.
Notation "'let!' x := m 'in' k" := (bind m (fun x => k))
  (at level 10, x pattern, m at level 100, k at level 200) : go_scope.
Notation "'let@' x := m 'in' k" := (bindS m (fun x => k))
  (at level 10, x pattern, m at level 100, k at level 200) : go_scope.
Notation "m ;;! k" := (bind m (fun _ => k)) (at level 199, right associativity) : go_scope.
Open Scope go_scope.

(** ** Running: what a result says about the steps before it *)
Section run.
Context {W : Type}.

Lemma bind_Ok_inv {A B} (m : M W A) (k : A -> M W B) w b w' :
  bind m k w = (Ok b, w') -> exists a w1, m w = (Ok a, w1) /\ k a w1 = (Ok b, w').
Proof. unfold bind. destruct (m w) as [[a|e] w1]; [eauto|done]. Qed.

Lemma bind_run {A B} (m : M W A) (k : A -> M W B) w a w1 :
  m w = (Ok a, w1) -> bind m k w = k a w1.
Proof. unfold bind. by intros ->. Qed.

Lemma bind_fail {A B} (m : M W A) (k : A -> M W B) w e w1 :
  m w = (Err e, w1) -> bind m k w = (Err e, w1).
Proof. unfold bind. by intros ->. Qed.

Lemma bindS_run {A B} (m : St W A) (k : A -> St W B) w :
  bindS m k w = k (m w).1 (m w).2.
Proof. unfold bindS. by destruct (m w). Qed.

Lemma wrapErr_Ok_inv {A} p (m : M W A) w a w' :
  wrapErr p m w = (Ok a, w') -> m w = (Ok a, w').
Proof. unfold wrapErr. by destruct (m w) as [[x|e] w1]; simpl; intros [= <- <-]. Qed.

Lemma wrapErr_run {A} p (m : M W A) w a w1 :
  m w = (Ok a, w1) -> wrapErr p m w = (Ok a, w1).
Proof. unfold wrapErr. by intros ->. Qed.

Lemma wrapErr_fail {A} p (m : M W A) w e w1 :
  m w = (Err e, w1) -> wrapErr p m w = (Err (errWrap p e), w1).
Proof. unfold wrapErr. by intros ->. Qed.

Lemma liftR_Ok_inv {A} (r : res A) (w : W) a w' :
  liftR r w = (Ok a, w') -> r = Ok a /\ w' = w.
Proof. unfold liftR. by intros [= -> ->]. Qed.

Lemma is_Ok_run {A} (m : M W A) w :
  is_Ok (m w).1 = true -> exists a w', m w = (Ok a, w').
Proof. destruct (m w) as [[a|e] w']; [eauto|done]. Qed.

Lemma is_Ok_fail {A} (m : M W A) w :
  is_Ok (m w).1 = false -> exists e w', m w = (Err e, w').
Proof. destruct (m w) as [[a|e] w']; [done|eauto]. Qed.

Lemma forEach_app {A} (l1 l2 : list A) (body : A -> M W unit) w :
  forEach (l1 ++ l2) body w = bind (forEach l1 body) (fun _ => forEach l2 body) w.
Proof.
  revert w. induction l1 as [|x l1 IH]; intros w; simpl; [done|].
  unfold bind at 1 2 3. destruct (body x w) as [[[]|e] w1]; [apply IH|done].
Qed.
End run.

(** Decompose an equation [m w = (Ok a, w')] into the equations of its steps. *)
Ltac go_inv_step :=
  match goal with
  | H : bind _ _ _ = (Ok _, _) |- _ => apply bind_Ok_inv in H as (? & ? & ? & ?)
  | H : wrapErr _ _ _ = (Ok _, _) |- _ => apply wrapErr_Ok_inv in H
  | H : liftR _ _ = (Ok _, _) |- _ => apply liftR_Ok_inv in H as [? ?]
  | H : bindS _ _ _ = _ |- _ => rewrite bindS_run in H
  | H : ret _ _ = (_, _) |- _ => unfold ret in H; simplify_eq
  | H : retS _ _ = (_, _) |- _ => unfold retS in H; simplify_eq
  | H : throw _ _ = (_, _) |- _ => unfold throw in H; simplify_eq
  end.
Ltac go_inv := repeat (go_inv_step; simplify_eq/=).

(** ** Frame properties *)

Class Preserves {W X A : Type} (f : W -> X) (m : St W A) : Prop :=
  preserves w : f (m w).2 = f w.

Section preserves.
Context {W X : Type} (f : W -> X).

#[global] Instance preserves_retS {A} (a : A) : Preserves f (retS a).
Proof. done. Qed.
#[global] Instance preserves_ret {A} (a : A) : Preserves f (ret a).
Proof. done. Qed.
#[global] Instance preserves_throw {A} e : Preserves f (throw (A:=A) e).
Proof. done. Qed.
#[global] Instance preserves_liftR {A} (r : res A) : Preserves f (liftR r).
Proof. done. Qed.
#[global] Instance preserves_bindS {A B} (m : St W A) (k : A -> St W B) :
  Preserves f m -> (forall a, Preserves f (k a)) -> Preserves f (bindS m k).
Proof. intros Hm Hk w. rewrite bindS_run, (Hk (m w).1 (m w).2). apply Hm. Qed.
#[global] Instance preserves_bind {A B} (m : M W A) (k : A -> M W B) :
  Preserves f m -> (forall a, Preserves f (k a)) -> Preserves f (bind m k).
Proof.
  intros Hm Hk w. unfold bind. pose proof (Hm w) as H.
  destruct (m w) as [[a|e] w1]; simpl in *; [|done]. by rewrite (Hk a w1).
Qed.
#[global] Instance preserves_wrapErr {A} p (m : M W A) :
  Preserves f m -> Preserves f (wrapErr p m).
Proof. intros Hm w. unfold wrapErr. pose proof (Hm w). by destruct (m w). Qed.
#[global] Instance preserves_forEach {A} (l : list A) (body : A -> M W unit) :
  (forall x, Preserves f (body x)) -> Preserves f (forEach l body).
Proof. intros Hb. induction l; simpl; apply _. Qed.
#[global] Instance preserves_if {A} (b : bool) (m n : St W A) :
  Preserves f m -> Preserves f n -> Preserves f (if b then m else n).
Proof. by destruct b. Qed.
End preserves.

Lemma preserves_eq {W X A} (f : W -> X) (m : St W A) `{!Preserves f m} w a w' :
  m w = (a, w') -> f w' = f w.
Proof. intros H. pose proof (preserves (f:=f) (m:=m) w) as P. by rewrite H in P. Qed.

(** The same for a predicate of the world that [m] may not lose. *)
Class Keeps {W A : Type} (P : W -> Prop) (m : St W A) : Prop :=
  keeps w : P w -> P (m w).2.

Section keeps.
Context {W : Type} (P : W -> Prop).

#[global] Instance keeps_retS {A} (a : A) : Keeps P (retS a).
Proof. by intros w. Qed.
#[global] Instance keeps_ret {A} (a : A) : Keeps P (ret a).
Proof. by intros w. Qed.
#[global] Instance keeps_throw {A} e : Keeps P (throw (A:=A) e).
Proof. by intros w. Qed.
#[global] Instance keeps_liftR {A} (r : res A) : Keeps P (liftR r).
Proof. by intros w. Qed.
#[global] Instance keeps_bindS {A B} (m : St W A) (k : A -> St W B) :
  Keeps P m -> (forall a, Keeps P (k a)) -> Keeps P (bindS m k).
Proof. intros Hm Hk w Hw. rewrite bindS_run. apply Hk, Hm, Hw. Qed.
#[global] Instance keeps_bind {A B} (m : M W A) (k : A -> M W B) :
  Keeps P m -> (forall a, Keeps P (k a)) -> Keeps P (bind m k).
Proof.
  intros Hm Hk w Hw. unfold bind. pose proof (Hm w Hw) as H.
  destruct (m w) as [[a|e] w1]; simpl in *; [by apply Hk|done].
Qed.
#[global] Instance keeps_wrapErr {A} p (m : M W A) : Keeps P m -> Keeps P (wrapErr p m).
Proof. intros Hm w Hw. unfold wrapErr. pose proof (Hm w Hw). by destruct (m w). Qed.
#[global] Instance keeps_forEach {A} (l : list A) (body : A -> M W unit) :
  (forall x, Keeps P (body x)) -> Keeps P (forEach l body).
Proof. intros Hb. induction l; simpl; apply _. Qed.
#[global] Instance keeps_if {A} (b : bool) (m n : St W A) :
  Keeps P m -> Keeps P n -> Keeps P (if b then m else n).
Proof. by destruct b. Qed.
End keeps.

Lemma keeps_eq {W A} (P : W -> Prop) (m : St W A) `{!Keeps P m} w a w' :
  m w = (a, w') -> P w -> P w'.
Proof. intros H Hw. pose proof (keeps (P:=P) (m:=m) w Hw) as K. by rewrite H in K. Qed.

(** The general form: running [m] moves the world along a preorder. *)
Class Steps {W A : Type} (step : relation W) (m : St W A) : Prop :=
  steps w : step w (m w).2.

Section steps.
Context {W : Type} (step : relation W) `{!PreOrder step}.

#[global] Instance steps_retS {A} (a : A) : Steps step (retS a).
Proof. intros w. simpl. reflexivity. Qed.
#[global] Instance steps_ret {A} (a : A) : Steps step (ret a).
Proof. intros w. simpl. reflexivity. Qed.
#[global] Instance steps_throw {A} e : Steps step (throw (A:=A) e).
Proof. intros w. simpl. reflexivity. Qed.
#[global] Instance steps_liftR {A} (r : res A) : Steps step (liftR r).
Proof. intros w. simpl. reflexivity. Qed.
#[global] Instance steps_bindS {A B} (m : St W A) (k : A -> St W B) :
  Steps step m -> (forall a, Steps step (k a)) -> Steps step (bindS m k).
Proof. intros Hm Hk w. rewrite bindS_run. etrans; [apply Hm|apply Hk]. Qed.
#[global] Instance steps_bind {A B} (m : M W A) (k : A -> M W B) :
  Steps step m -> (forall a, Steps step (k a)) -> Steps step (bind m k).
Proof.
  intros Hm Hk w. unfold bind. pose proof (Hm w) as H.
  destruct (m w) as [[a|e] w1]; simpl in *; [|done]. etrans; [exact H|apply Hk].
Qed.
#[global] Instance steps_wrapErr {A} p (m : M W A) : Steps step m -> Steps step (wrapErr p m).
Proof. intros Hm w. unfold wrapErr. pose proof (Hm w). by destruct (m w). Qed.
#[global] Instance steps_forEach {A} (l : list A) (body : A -> M W unit) :
  (forall x, Steps step (body x)) -> Steps step (forEach l body).
Proof using PreOrder0. intros Hb. induction l; simpl; apply _. Qed.
End steps.

(** ** Time and text *)

(** [time.Time] in UTC: nanoseconds since the Unix epoch. *)
Definition time : Type := Z.

(** [time.Time{}], January 1 of year 1. *)
Definition zero_time : time := (-62135596800 * 1000000000)%Z.

(** [%d] of an integer. *)
Definition fmt_d (z : Z) : string := pretty z.
