(* ===== verification/Strconv.v ===== *)
(** * The functions of package strconv that the program uses

    [strconv.Atoi] and [strconv.ParseInt(s, 10, 64)] on the texts that reach
    them, [strconv.ParseFloat(s, 64)] on the literals of JSON numbers, and the
    text of an integer. A float64 is a [spec_float] of 53 bits. *)
From S2P Require Import Prelude Go.
From stdpp Require Import base gmap strings list pretty.
From Stdlib Require Import Ascii String SpecFloat.
Local Open Scope string_scope.
Local Open Scope list_scope.
Local Open Scope Z_scope.

(** ** Integers *)

Definition digit_value (c : ascii) : Z := Z.of_nat (nat_of_ascii c) - 48.
Definition is_digit (c : ascii) : bool := (0 <=? digit_value c) && (digit_value c <=? 9).

Fixpoint digits_value (s : string) (acc : Z) : option Z :=
  match s with
  | EmptyString => Some acc
  | String c s => if is_digit c then digits_value s (10 * acc + digit_value c) else None
  end.

Definition digits_only (s : string) : option Z :=
  match s with EmptyString => None | _ => digits_value s 0 end.

Definition atoi (s : string) : option Z :=
  let z := match s with
           | String "-"%char s => Z.opp <$> digits_only s
           | String "+"%char s => digits_only s
           | _ => digits_only s
           end in
  match z with
  | Some z => if in_int64b z then Some z else None
  | None => None
  end.

(** ** Floating point *)

Definition float64_infinite (x : spec_float) : bool :=
  match x with S754_infinity _ => true | _ => false end.

(** The float64 nearest to [m * 10 ^ e], ties to even, with the sign [neg];
    [None] when it is too large. The two tests keep the powers of ten small:
    beyond them the value is at least 10^309, or at most 10^-331. *)
Definition float64_of_decimal (neg : bool) (m : N) (e : Z) : option spec_float :=
  match m with
  | N0 => Some (S754_zero neg)
  | Npos p =>
      let size := Z.of_nat (String.length (pretty p)) + e in
      if 309 <? size then None
      else if size <? -330 then Some (S754_zero neg)
      else
        let x :=
          if 0 <=? e then
            match Z.pos p * 10 ^ e with
            | Zpos q => binary_round 53 1024 neg q 0
            | _ => S754_nan
            end
          else
            match 10 ^ (- e) with
            | Zpos q => SFdiv 53 1024 (S754_finite neg p 0) (S754_finite false q 0)
            | _ => S754_nan
            end in
        if float64_infinite x then None else Some x
  end.

(** The parts of the literal of a JSON number: the digits before the point,
    those after it, and what follows e or E. *)
Fixpoint split_digits (s : string) : string * string :=
  match s with
  | String c s1 => if is_digit c then let '(d, r) := split_digits s1 in (String c d, r) else ("", s)
  | EmptyString => ("", EmptyString)
  end.

Definition exponent_value (s : string) : option Z :=
  match s with
  | String "-"%char s => Z.opp <$> digits_only s
  | String "+"%char s => digits_only s
  | _ => digits_only s
  end.

(** [strconv.ParseFloat(literal, 64)]. *)
Definition parse_float (literal : string) : option spec_float :=
  let '(neg, s) := match literal with
                   | String "-"%char s => (true, s)
                   | s => (false, s)
                   end in
  let '(int, s1) := split_digits s in
  let '(frac, s2) := match s1 with
                     | String "."%char s => split_digits s
                     | s => ("", s)
                     end in
  match digits_value (int +:+ frac) 0,
        match s2 with EmptyString => Some 0 | String _ s => exponent_value s end with
  | Some m, Some e => float64_of_decimal neg (Z.to_N m) (e - Z.of_nat (String.length frac))
  | _, _ => None
  end.

Example parse_float_dollars :
  parse_float "0.29" = Some (S754_finite false 5224175567749775 (-54)).
Proof. vm_compute. reflexivity. Qed.
Example parse_float_exponent : parse_float "-1.5e3" = Some (S754_finite true 6597069766656000 (-42)).
Proof. vm_compute. reflexivity. Qed.
Example parse_float_smallest :
  parse_float "4.9406564584124654e-324" = Some (S754_finite false 1 (-1074)) /\
  parse_float "2.4703282292062327e-324" = Some (S754_zero false) /\
  parse_float "2.4703282292062328e-324" = Some (S754_finite false 1 (-1074)).
Proof. vm_compute. done. Qed.
Example parse_float_largest :
  parse_float "1.7976931348623158e308" = Some (S754_finite false 9007199254740991 971) /\
  parse_float "1.7976931348623159e308" = None /\ parse_float "1e400000000" = None.
Proof. vm_compute. done. Qed.

(** ** The text of an integer *)

Fixpoint all_digits (s : string) : bool :=
  match s with
  | EmptyString => true
  | String c s => is_digit c && all_digits s
  end.

Lemma digits_value_app s t acc z :
  digits_value s acc = Some z -> digits_value (s +:+ t) acc = digits_value t z.
Proof.
  revert acc. induction s as [|c s IH]; intros acc; simpl; [by intros [= ->]|].
  destruct (is_digit c); [apply IH|done].
Qed.

Lemma pretty_char x :
  (x < 10)%N -> is_digit (pretty_N_char x) = true /\ digit_value (pretty_N_char x) = Z.of_N x.
Proof.
  intros Hx. assert (x = 0 \/ x = 1 \/ x = 2 \/ x = 3 \/ x = 4 \/ x = 5 \/ x = 6 \/ x = 7 \/ x = 8 \/ x = 9)%N
    as H by lia.
  destruct_or! H; by subst x.
Qed.

(** The digits of a positive number: not led by zero, and they denote it. *)
Record digits_of (x : N) (ds : string) : Prop := {
  do_digits : all_digits ds = true;
  do_value acc : digits_value ds acc = Some (acc * 10 ^ Z.of_nat (String.length ds) + Z.of_N x);
  do_head : (0 < x)%N -> exists c ds', ds = String c ds' /\ c <> "0"%char;
}.

Lemma pretty_N_go_digits x s : exists ds, pretty_N_go x s = ds +:+ s /\ digits_of x ds.
Proof.
  revert s. induction (N.lt_wf_0 x) as [x _ IH]; intros s.
  destruct (decide (x = 0)%N) as [->|Hx].
  { exists "". split; [by rewrite pretty_N_go_0|]. split; [done| |done].
    intros acc. simpl. f_equal. lia. }
  rewrite pretty_N_go_step by lia.
  destruct (IH (x / 10)%N (N.div_lt x 10 ltac:(lia) ltac:(lia)) (String (pretty_N_char (x mod 10)) s))
    as (ds & Hds & [H1 H2 H3]).
  assert (Hm : (x mod 10 < 10)%N) by (by apply N.mod_lt).
  destruct (pretty_char _ Hm) as [Hc1 Hc2].
  exists (ds +:+ String (pretty_N_char (x mod 10)) ""). split.
  { rewrite Hds. by rewrite append_assoc. }
  split.
  - clear -H1 Hc1. induction ds as [|c ds IH]; simpl in *; [by rewrite Hc1|].
    apply andb_true_iff in H1 as [-> H1]. by apply IH.
  - intros acc. rewrite (digits_value_app _ _ _ _ (H2 acc)). simpl. rewrite Hc1, Hc2. f_equal.
    rewrite append_length. simpl. rewrite Nat2Z.inj_add, Z.pow_add_r by lia.
    rewrite N2Z.inj_mod, N2Z.inj_div. change (Z.of_N 10) with 10. change (10 ^ Z.of_nat 1) with 10.
    pose proof (Z.div_mod (Z.of_N x) 10 ltac:(lia)). generalize (10 ^ Z.of_nat (String.length ds)).
    intros A. replace (acc * (A * 10)) with (10 * (acc * A)) by ring. lia.
  - intros _. destruct (decide (0 < x / 10)%N) as [Hd|Hd].
    + destruct (H3 Hd) as (c & ds' & -> & Hc). by eexists c, _.
    + assert (x / 10 = 0)%N as Hz by (by apply N.le_0_r, N.nlt_ge). rewrite Hz, pretty_N_go_0 in Hds.
      assert (ds = "") as ->.
      { destruct ds as [|c ds]; [done|]. apply (f_equal String.length) in Hds. simpl in Hds.
        rewrite append_length in Hds. simpl in Hds. lia. }
      exists (pretty_N_char (x mod 10)), "". split; [done|]. intros Hc.
      assert (Hv : digit_value (pretty_N_char (x mod 10)) = 0) by (by rewrite Hc).
      rewrite Hc2 in Hv. pose proof (N.div_mod x 10). lia.
Qed.

Lemma pretty_pos_digits p : digits_of (Npos p) (pretty p).
Proof.
  change (pretty p) with (pretty_N_go (Npos p) "").
  destruct (pretty_N_go_digits (Npos p) "") as (ds & -> & H).
  by rewrite append_nil_r.
Qed.

Lemma fmt_d_pos p : fmt_d (Zpos p) = pretty p.
Proof. done. Qed.
Lemma fmt_d_neg p : fmt_d (Zneg p) = "-" +:+ pretty p.
Proof. done. Qed.

Lemma digits_only_pretty p : digits_only (pretty p) = Some (Zpos p).
Proof.
  destruct (pretty_pos_digits p) as [H1 H2 H3]. destruct (H3 ltac:(lia)) as (c & ds & Hp & _).
  unfold digits_only. rewrite Hp in *. by rewrite H2.
Qed.

Lemma pretty_pos_head (p : positive) c s : pretty p = String c s -> is_digit c = true /\ c <> "0"%char.
Proof.
  destruct (pretty_pos_digits p) as [H1 _ H3]. destruct (H3 ltac:(lia)) as (c' & ds & Hp & Hc).
  rewrite Hp in *. intros [= <- <-]. simpl in H1. apply andb_true_iff in H1 as [H1 _]. done.
Qed.

(** [strconv.Atoi] reads back what [%d] writes. *)
Lemma atoi_fmt z : in_int64 z -> atoi (fmt_d z) = Some z.
Proof.
  intros Hz%in_int64b_spec. unfold atoi. destruct z as [|p|p]; [done| |].
  - rewrite fmt_d_pos. pose proof (digits_only_pretty p) as Hd.
    destruct (pretty p) as [|c s] eqn:E; [done|]. destruct (pretty_pos_head p c s E) as [Hc _].
    assert (Hm : c <> "-"%char /\ c <> "+"%char) by (split; by intros ->).
    replace (match c with "-"%char => _ | _ => _ end) with (digits_only (String c s)).
    { by rewrite Hd, Hz. }
    destruct Hm as [H1 H2].
    destruct c as [[] [] [] [] [] [] [] []]; done || (by destruct H1) || (by destruct H2).
  - rewrite fmt_d_neg. pose proof (digits_only_pretty p) as Hd. revert Hd. generalize (pretty p).
    intros s Hd. change (digits_only ("" +:+ s) = Some (Zpos p)) in Hd. simpl. rewrite Hd.
    change (Z.opp <$> Some (Zpos p)) with (Some (Zneg p)). cbv iota. by rewrite Hz.
Qed.
