(* ===== verification/Identifiers.v ===== *)
(** * internal/domain/ledger/identifiers.go

    The package github.com/google/uuid is third-party: its type and functions
    are the fields of [UuidLib], its documented behaviour the class [UuidLaws].
    Random and clock reads ([uuid.NewV7], [time.Now]) are the class [Runtime]
    over the world that the code runs in. *)
From S2P Require Import Prelude Go.
From stdpp Require Import base gmap strings.

Class UuidLib := {
  UUID : Type;
  UUID_eq_dec :: EqDecision UUID;
  uuid_Nil : UUID;                       (* uuid.Nil *)
  uuid_Parse : string -> option UUID;    (* uuid.Parse, [None] for an error *)
  uuid_String : UUID -> string;          (* UUID.String *)
}.

(** Documented: [String] gives the canonical text form, which [Parse] accepts
    and decodes to the same UUID. *)
Class UuidLaws `{UuidLib} : Prop := {
  uuid_Parse_String u : uuid_Parse (uuid_String u) = Some u;
}.

#[global] Instance uuid_String_inj `{UuidLaws} : Inj (=) (=) uuid_String.
Proof.
  intros u v E. assert (Some u = Some v) as [= ->]; [|done].
  rewrite <- !uuid_Parse_String. by rewrite E.
Qed.

(** Clock reads and UUID generation in a world [W]. [uuid.Must(uuid.NewV7())]
    panics only when the system's random source fails; [uuid_NewV7] is its
    value otherwise. *)
Class Runtime (W : Type) `{UuidLib} := {
  time_Now : St W time;
  uuid_NewV7 : St W UUID;
}.

Definition ErrInvalidID : error :=
  errNew "ledger.ErrInvalidID" "invalid identifier: must be valid UUID".

Section identifiers.
Context {U : UuidLib}.

Record AccountID := MkAccountID { AccountID_value : UUID }.
Record TransactionID := MkTransactionID { TransactionID_value : UUID }.
Record EntryID := MkEntryID { EntryID_value : UUID }.

#[global] Instance AccountID_eq_dec : EqDecision AccountID.
Proof. solve_decision. Defined.
#[global] Instance TransactionID_eq_dec : EqDecision TransactionID.
Proof. solve_decision. Defined.
#[global] Instance EntryID_eq_dec : EqDecision EntryID.
Proof. solve_decision. Defined.

Definition NewAccountID (id : string) : res AccountID :=
  match uuid_Parse id with
  | None => Err ErrInvalidID
  | Some parsed => Ok (MkAccountID parsed)
  end.

Definition AccountID_String (id : AccountID) : string := uuid_String (AccountID_value id).
Definition AccountID_IsZero (id : AccountID) : bool := bool_decide (AccountID_value id = uuid_Nil).
Definition AccountID_Equals (id o : AccountID) : bool :=
  bool_decide (AccountID_value id = AccountID_value o).

Definition NewTransactionID (id : string) : res TransactionID :=
  match uuid_Parse id with
  | None => Err ErrInvalidID
  | Some parsed => Ok (MkTransactionID parsed)
  end.

Definition TransactionID_String (id : TransactionID) : string :=
  uuid_String (TransactionID_value id).
Definition TransactionID_IsZero (id : TransactionID) : bool :=
  bool_decide (TransactionID_value id = uuid_Nil).
Definition TransactionID_Equals (id o : TransactionID) : bool :=
  bool_decide (TransactionID_value id = TransactionID_value o).

Definition NewEntryID (id : string) : res EntryID :=
  match uuid_Parse id with
  | None => Err ErrInvalidID
  | Some parsed => Ok (MkEntryID parsed)
  end.

Definition EntryID_String (id : EntryID) : string := uuid_String (EntryID_value id).
Definition EntryID_IsZero (id : EntryID) : bool := bool_decide (EntryID_value id = uuid_Nil).

Section generate.
Context {W : Type} `{R : !Runtime W}.

Definition GenerateAccountID : St W AccountID :=
  let@ u := uuid_NewV7 in retS (MkAccountID u).
Definition GenerateTransactionID : St W TransactionID :=
  let@ u := uuid_NewV7 in retS (MkTransactionID u).
Definition GenerateEntryID : St W EntryID :=
  let@ u := uuid_NewV7 in retS (MkEntryID u).
End generate.

(** ** Identifiers survive their text form *)
Section laws.
Context `{!UuidLaws}.

Lemma NewAccountID_String id : NewAccountID (AccountID_String id) = Ok id.
Proof.
  destruct id as [u]. unfold NewAccountID, AccountID_String; simpl.
  by rewrite uuid_Parse_String.
Qed.

#[global] Instance AccountID_String_inj : Inj (=) (=) AccountID_String.
Proof. intros [u] [v] E. f_equal. by apply (inj uuid_String). Qed.

#[global] Instance TransactionID_String_inj : Inj (=) (=) TransactionID_String.
Proof. intros [u] [v] E. f_equal. by apply (inj uuid_String). Qed.

Lemma AccountID_Equals_spec a b : AccountID_Equals a b = true <-> a = b.
Proof.
  unfold AccountID_Equals. rewrite bool_decide_eq_true.
  destruct a, b; simpl; split; congruence.
Qed.
End laws.
End identifiers.
