(* ===== verification/Money.v ===== *)
(** * internal/domain/ledger/money.go

    [Money] is an [int64] amount of minor units with a currency code. The
    amount is a [Z] kept in the int64 range; addition, subtraction and negation
    wrap around as Go's do. *)
From S2P Require Import Prelude Go.
From stdpp Require Import base gmap strings list.

Local Open Scope Z_scope.

(** [type Currency string]: any text can be converted to it. *)
Definition Currency : Type := string.

Definition USD : Currency := "USD".
Definition MYR : Currency := "MYR".
Definition SGD : Currency := "SGD".
Definition EUR : Currency := "EUR".
Definition GBP : Currency := "GBP".

(** The keys of the map [validCurrencies]; all its values are [true], and an
    absent key reads as [false]. *)
Definition validCurrencies : list Currency := [USD; MYR; SGD; EUR; GBP].
Definition validCurrency (c : Currency) : bool := bool_decide (c ∈ validCurrencies).

Definition ErrInvalidCurrency : error := errNew "ledger.ErrInvalidCurrency" "invalid currency".
Definition ErrCurrencyMismatch : error :=
  errNew "ledger.ErrCurrencyMismatch" "cannot operate on different currencies".

Record Money := MkMoney { Money_amount : Z; Money_currency : Currency }.

#[global] Instance Money_eq_dec : EqDecision Money.
Proof. solve_decision. Defined.

Definition NewMoney (amount : Z) (currency : Currency) : res Money :=
  if negb (validCurrency currency) then Err ErrInvalidCurrency
  else Ok (MkMoney amount currency).

Definition Money_IsZero (m : Money) : bool := Money_amount m =? 0.

Definition Money_Add (m other : Money) : res Money :=
  if negb (bool_decide (Money_currency m = Money_currency other)) then Err ErrCurrencyMismatch
  else Ok (MkMoney (wrap64 (Money_amount m + Money_amount other)) (Money_currency m)).

Definition Money_Subtract (m other : Money) : res Money :=
  if negb (bool_decide (Money_currency m = Money_currency other)) then Err ErrCurrencyMismatch
  else Ok (MkMoney (wrap64 (Money_amount m - Money_amount other)) (Money_currency m)).

Definition Money_Negate (m : Money) : Money :=
  MkMoney (wrap64 (- Money_amount m)) (Money_currency m).

Definition Money_Equals (m other : Money) : bool :=
  (Money_amount m =? Money_amount other) &&
  bool_decide (Money_currency m = Money_currency other).

(** ** The type invariant: "if it exists, it's valid" *)

Definition Money_wf (m : Money) : Prop :=
  in_int64 (Money_amount m) /\ validCurrency (Money_currency m) = true.

Lemma NewMoney_Ok a c m :
  NewMoney a c = Ok m <-> validCurrency c = true /\ m = MkMoney a c.
Proof.
  unfold NewMoney. destruct (validCurrency c); simpl; split; try done.
  - by intros [= <-].
  - by intros [_ ->].
  - by intros [? _].
Qed.

Lemma NewMoney_Err a c e :
  NewMoney a c = Err e <-> validCurrency c = false /\ e = ErrInvalidCurrency.
Proof.
  unfold NewMoney. destruct (validCurrency c); simpl; split; try done.
  - by intros [? _].
  - by intros [= <-].
  - by intros [_ ->].
Qed.

Lemma Money_Equals_spec m n : Money_Equals m n = true <-> m = n.
Proof.
  unfold Money_Equals. rewrite andb_true_iff, Z.eqb_eq, bool_decide_eq_true.
  destruct m, n; simpl; split; [intros [-> ->]; done|by intros [= -> ->]].
Qed.

Lemma Money_Add_same m n :
  Money_currency m = Money_currency n ->
  Money_Add m n = Ok (MkMoney (wrap64 (Money_amount m + Money_amount n)) (Money_currency m)).
Proof. intros E. unfold Money_Add. by rewrite bool_decide_eq_true_2. Qed.

Lemma Money_Subtract_same m n :
  Money_currency m = Money_currency n ->
  Money_Subtract m n = Ok (MkMoney (wrap64 (Money_amount m - Money_amount n)) (Money_currency m)).
Proof. intros E. unfold Money_Subtract. by rewrite bool_decide_eq_true_2. Qed.

Lemma Money_Add_Ok m n s :
  Money_Add m n = Ok s <->
  Money_currency m = Money_currency n /\
  s = MkMoney (wrap64 (Money_amount m + Money_amount n)) (Money_currency m).
Proof.
  unfold Money_Add. case_bool_decide as E; simpl; split; try done.
  - by intros [= <-].
  - by intros [_ ->].
  - by intros [? _].
Qed.

Lemma Money_Subtract_Ok m n s :
  Money_Subtract m n = Ok s <->
  Money_currency m = Money_currency n /\
  s = MkMoney (wrap64 (Money_amount m - Money_amount n)) (Money_currency m).
Proof.
  unfold Money_Subtract. case_bool_decide as E; simpl; split; try done.
  - by intros [= <-].
  - by intros [_ ->].
  - by intros [? _].
Qed.

(** The operations keep the invariant, whatever the amounts: overflow wraps
    around inside the int64 range. *)
Lemma Money_ops_wf m n :
  Money_wf m ->
  Money_wf (Money_Negate m) /\
  (forall s, Money_Add m n = Ok s -> Money_wf s) /\
  (forall s, Money_Subtract m n = Ok s -> Money_wf s).
Proof.
  intros [_ Hc]. split_and!.
  - split; [apply wrap64_range|done].
  - intros s [_ ->]%Money_Add_Ok. split; [apply wrap64_range|done].
  - intros s [_ ->]%Money_Subtract_Ok. split; [apply wrap64_range|done].
Qed.

(** ** Arithmetic is that of the integers modulo 2^64 *)

(** Subtracting what was added gives the money back, wrap-around included;
    subtraction is the addition of the negation. *)
Lemma Money_Add_Subtract m n s :
  Money_wf m -> Money_Add m n = Ok s -> Money_Subtract s n = Ok m.
Proof.
  intros [Hm _] [Hc ->]%Money_Add_Ok. apply Money_Subtract_Ok; simpl.
  split; [done|]. destruct m as [a c]; simpl in *. f_equal.
  autorewrite with ledger_rw. rewrite wrap64_id; [lia|].
  by replace (a + Money_amount n - Money_amount n) with a by lia.
Qed.

Lemma Money_Subtract_Negate m n :
  Money_Subtract m n = Money_Add m (Money_Negate n).
Proof.
  unfold Money_Subtract, Money_Add, Money_Negate; simpl.
  case_bool_decide; simpl; [|done]. autorewrite with ledger_rw. done.
Qed.
