(* ===== verification/Transaction.v ===== *)
(** * internal/domain/ledger/entry.go and transaction.go

    The double-entry aggregate. [NewTransaction] is the only constructor of a
    [Transaction]; its validation loops are the fixpoints below, in the order
    of the source. *)
From S2P Require Import Prelude Go Identifiers Money.
From stdpp Require Import base gmap strings list.
Local Open Scope Z_scope.

(** [type EntryType string]: any text can be converted to it. *)
Definition EntryType : Type := string.
Definition Debit : EntryType := "DEBIT".
Definition Credit : EntryType := "CREDIT".

Definition ErrNoEntries : error :=
  errNew "ledger.ErrNoEntries" "transaction requires at least one entry".
Definition ErrInsufficientEntries : error :=
  errNew "ledger.ErrInsufficientEntries" "transaction requires at least two entries".
Definition ErrUnbalancedTransaction : error :=
  errNew "ledger.ErrUnbalancedTransaction"
    "transaction is not balanced: total debits must equal total credits".
Definition ErrZeroEntryAmount : error :=
  errNew "ledger.ErrZeroAmount" "entry amount must not be zero".

(** What a leg of either direction adds to the two totals of the source, and
    what it adds to the balance of its account. *)
Definition debit_part (ty : EntryType) (amount : Z) : Z :=
  if bool_decide (ty = Debit) then amount else 0.
Definition credit_part (ty : EntryType) (amount : Z) : Z :=
  if bool_decide (ty = Credit) then amount else 0.
Definition signed (ty : EntryType) (amount : Z) : Z :=
  credit_part ty amount - debit_part ty amount.

Section transaction.
Context {U : UuidLib}.

Record EntryParams := MkEntryParams {
  EntryParams_AccountID : AccountID;
  EntryParams_Amount : Money;
  EntryParams_Type : EntryType;
}.

Record Entry := MkEntry {
  Entry_id : EntryID;
  Entry_accountID : AccountID;
  Entry_amount : Money;
  Entry_entryType : EntryType;
  Entry_createdAt : time;
}.

Record Transaction := MkTransaction {
  Transaction_id : TransactionID;
  Transaction_entries : list Entry;
  Transaction_description : string;
  Transaction_createdAt : time;
}.

(** First loop: no zero amounts. *)
Fixpoint check_nonzero (params : list EntryParams) : res unit :=
  match params with
  | [] => Ok tt
  | p :: params =>
      if Money_IsZero (EntryParams_Amount p) then Err ErrZeroEntryAmount
      else check_nonzero params
  end.

(** Second loop: every entry after the first has the first one's currency. *)
Fixpoint check_currency (currency : Currency) (params : list EntryParams) : res unit :=
  match params with
  | [] => Ok tt
  | p :: params =>
      if negb (bool_decide (Money_currency (EntryParams_Amount p) = currency))
      then Err ErrCurrencyMismatch
      else check_currency currency params
  end.

(** Third loop: [totalDebits] and [totalCredits], both int64. A type that is
    neither [Debit] nor [Credit] matches no case of the switch. *)
Fixpoint totals (params : list EntryParams) (totalDebits totalCredits : Z) : Z * Z :=
  match params with
  | [] => (totalDebits, totalCredits)
  | p :: params =>
      if bool_decide (EntryParams_Type p = Debit) then
        totals params (wrap64 (totalDebits + Money_amount (EntryParams_Amount p))) totalCredits
      else if bool_decide (EntryParams_Type p = Credit) then
        totals params totalDebits (wrap64 (totalCredits + Money_amount (EntryParams_Amount p)))
      else totals params totalDebits totalCredits
  end.

Section constructor.
Context {W : Type} `{R : !Runtime W}.

Definition newEntry (params : EntryParams) (now : time) : St W Entry :=
  let@ id := GenerateEntryID in
  retS (MkEntry id (EntryParams_AccountID params) (EntryParams_Amount params)
          (EntryParams_Type params) now).

(** Last loop: [entries[i] = newEntry(p, now)]. *)
Fixpoint newEntries (params : list EntryParams) (now : time) : St W (list Entry) :=
  match params with
  | [] => retS []
  | p :: params =>
      let@ e := newEntry p now in
      let@ es := newEntries params now in
      retS (e :: es)
  end.

(** "All validations passed — construct entries". *)
Definition construct (params : list EntryParams) (description : string) : St W Transaction :=
  let@ now := time_Now in
  let@ entries := newEntries params now in
  let@ id := GenerateTransactionID in
  retS (MkTransaction id entries description now).

Definition NewTransaction (params : list EntryParams) (description : string)
    : M W Transaction :=
  match params with
  | [] => throw ErrNoEntries
  | [_] => throw ErrInsufficientEntries
  | first :: rest =>
      let! _ := liftR (check_nonzero params) in
      let! _ := liftR (check_currency (Money_currency (EntryParams_Amount first)) rest) in
      let '(totalDebits, totalCredits) := totals params 0 0 in
      if negb (totalDebits =? totalCredits) then throw ErrUnbalancedTransaction
      else let@ t := construct params description in ret t
  end.
End constructor.

(** ** The loops, as predicates on the parameters *)

Definition EntryParams_nonzero (p : EntryParams) : Prop :=
  Money_amount (EntryParams_Amount p) <> 0.
Definition EntryParams_in (c : Currency) (p : EntryParams) : Prop :=
  Money_currency (EntryParams_Amount p) = c.

#[global] Instance EntryParams_nonzero_dec p : Decision (EntryParams_nonzero p).
Proof. unfold EntryParams_nonzero. apply _. Defined.
#[global] Instance EntryParams_in_dec c p : Decision (EntryParams_in c p).
Proof. unfold EntryParams_in. apply _. Defined.

Definition params_debits : list EntryParams -> Z :=
  sumZ (fun p => debit_part (EntryParams_Type p) (Money_amount (EntryParams_Amount p))).
Definition params_credits : list EntryParams -> Z :=
  sumZ (fun p => credit_part (EntryParams_Type p) (Money_amount (EntryParams_Amount p))).

Lemma check_nonzero_spec params :
  check_nonzero params =
  if decide (Forall EntryParams_nonzero params) then Ok tt else Err ErrZeroEntryAmount.
Proof.
  induction params as [|p params IH]; cbn [check_nonzero]; [by rewrite decide_True|].
  unfold Money_IsZero. destruct (Z.eqb_spec (Money_amount (EntryParams_Amount p)) 0) as [E|E].
  - rewrite decide_False; [done|]. by intros [? _]%Forall_cons.
  - rewrite IH. apply decide_ext. rewrite Forall_cons. unfold EntryParams_nonzero at 2. tauto.
Qed.

Lemma check_currency_spec c params :
  check_currency c params =
  if decide (Forall (EntryParams_in c) params) then Ok tt else Err ErrCurrencyMismatch.
Proof.
  induction params as [|p params IH]; cbn [check_currency]; [by rewrite decide_True|].
  case_bool_decide as E; simpl.
  - rewrite IH. apply decide_ext. rewrite Forall_cons. unfold EntryParams_in at 2. tauto.
  - rewrite decide_False; [done|]. by intros [? _]%Forall_cons.
Qed.

Lemma totals_spec params d c :
  in_int64 d -> in_int64 c ->
  totals params d c = (wrap64 (d + params_debits params), wrap64 (c + params_credits params)).
Proof.
  unfold params_debits, params_credits, debit_part, credit_part.
  revert d c. induction params as [|p params IH]; intros d c Hd Hc; simpl.
  { by rewrite !Z.add_0_r, !wrap64_id. }
  case_bool_decide as E1; [rewrite bool_decide_eq_false_2 by (rewrite E1; done)|];
    [|case_bool_decide as E2];
    rewrite IH by auto with ledger; autorewrite with ledger_rw; f_equal; f_equal; lia.
Qed.

(** ** Construction *)

Definition Entry_params (e : Entry) : EntryParams :=
  MkEntryParams (Entry_accountID e) (Entry_amount e) (Entry_entryType e).

Definition entry_debits : list Entry -> Z :=
  sumZ (fun e => debit_part (Entry_entryType e) (Money_amount (Entry_amount e))).
Definition entry_credits : list Entry -> Z :=
  sumZ (fun e => credit_part (Entry_entryType e) (Money_amount (Entry_amount e))).

Lemma entry_debits_params es : entry_debits es = params_debits (Entry_params <$> es).
Proof. unfold params_debits. by rewrite sumZ_fmap. Qed.

Lemma entry_credits_params es : entry_credits es = params_credits (Entry_params <$> es).
Proof. unfold params_credits. by rewrite sumZ_fmap. Qed.

(** The aggregate's invariant. *)
Definition Transaction_wf (t : Transaction) : Prop :=
  (2 <= length (Transaction_entries t))%nat /\
  Forall (fun e => Money_amount (Entry_amount e) <> 0) (Transaction_entries t) /\
  (exists c, Forall (fun e => Money_currency (Entry_amount e) = c) (Transaction_entries t)) /\
  entry_debits (Transaction_entries t) ≡64 entry_credits (Transaction_entries t).

(** The conditions under which the source accepts a parameter list. *)
Definition params_valid (params : list EntryParams) : Prop :=
  (2 <= length params)%nat /\
  Forall EntryParams_nonzero params /\
  (exists c, Forall (EntryParams_in c) params) /\
  params_debits params ≡64 params_credits params.

Section construction.
Context {W : Type} `{R : !Runtime W}.

Lemma newEntries_params params now (w : W) :
  Entry_params <$> (newEntries params now w).1 = params.
Proof.
  revert w. induction params as [|[a m t] params IH]; intros w; [done|].
  cbn [newEntries]. rewrite !bindS_run. cbn. f_equal; [|apply IH].
  unfold newEntry. by rewrite bindS_run.
Qed.

Lemma construct_spec params d (w : W) :
  Entry_params <$> Transaction_entries (construct params d w).1 = params /\
  Transaction_description (construct params d w).1 = d.
Proof. unfold construct. rewrite !bindS_run. split; [apply newEntries_params|done]. Qed.

(** The whole of [NewTransaction], branch by branch. *)
Lemma NewTransaction_branches params d (w : W) :
  match params with
  | [] => NewTransaction params d w = (Err ErrNoEntries, w)
  | [_] => NewTransaction params d w = (Err ErrInsufficientEntries, w)
  | first :: rest =>
      (~ Forall EntryParams_nonzero params /\
         NewTransaction params d w = (Err ErrZeroEntryAmount, w)) \/
      (Forall EntryParams_nonzero params /\
         ~ Forall (EntryParams_in (Money_currency (EntryParams_Amount first))) rest /\
         NewTransaction params d w = (Err ErrCurrencyMismatch, w)) \/
      (Forall EntryParams_nonzero params /\
         Forall (EntryParams_in (Money_currency (EntryParams_Amount first))) rest /\
         ~ params_debits params ≡64 params_credits params /\
         NewTransaction params d w = (Err ErrUnbalancedTransaction, w)) \/
      (params_valid params /\
         NewTransaction params d w = (Ok (construct params d w).1, (construct params d w).2))
  end.
Proof.
  destruct params as [|p1 [|p2 rest]]; [done|done|].
  unfold NewTransaction. set (c := Money_currency (EntryParams_Amount p1)).
  rewrite check_nonzero_spec, check_currency_spec, totals_spec, !Z.add_0_l by done.
  assert (Hl : (2 <= length (p1 :: p2 :: rest))%nat) by (simpl; lia).
  assert (Hall : Forall (EntryParams_in c) (p2 :: rest) ->
                 Forall (EntryParams_in c) (p1 :: p2 :: rest)) by (by constructor).
  generalize dependent (p2 :: rest). intros tl. set (params := p1 :: tl).
  intros Hl Hall. unfold liftR, bind, throw.
  destruct (decide (Forall EntryParams_nonzero params)) as [Hz|Hz]; [|by left].
  right. destruct (decide (Forall (EntryParams_in c) tl)) as [Hc|Hc]; [|by left].
  right. destruct (Z.eqb_spec (wrap64 (params_debits params))
                     (wrap64 (params_credits params))) as [Hb|Hb].
  - right. apply eqm64_wrap in Hb. split; [split_and!; eauto|].
    cbn [negb]. by rewrite bindS_run.
  - left. by rewrite eqm64_wrap.
Qed.

Lemma NewTransaction_valid params d (w : W) :
  params_valid params ->
  NewTransaction params d w = (Ok (construct params d w).1, (construct params d w).2).
Proof.
  intros (Hl & Hz & [c Hc] & Hb). pose proof (NewTransaction_branches params d w) as B.
  destruct params as [|p1 [|p2 rest]]; simpl in Hl; [lia|lia|].
  destruct B as [[B _]|[(_ & B & _)|[(_ & _ & B & _)|(_ & B)]]]; try done.
  destruct B. inversion Hc as [|? ? H1 H2]; subst. by rewrite H1.
Qed.

Lemma NewTransaction_Ok_inv params d (w : W) t w' :
  NewTransaction params d w = (Ok t, w') ->
  params_valid params /\ t = (construct params d w).1 /\ w' = (construct params d w).2.
Proof.
  intros H. pose proof (NewTransaction_branches params d w) as B.
  destruct params as [|p1 [|p2 rest]]; try congruence.
  destruct B as [[_ B]|[(_ & _ & B)|[(_ & _ & _ & B)|(Hv & B)]]]; try congruence.
  rewrite H in B. by simplify_eq.
Qed.

Lemma NewTransaction_Err_invalid params d (w : W) e w' :
  NewTransaction params d w = (Err e, w') -> ~ params_valid params /\ w' = w.
Proof.
  intros H. split; [intros Hv; by rewrite NewTransaction_valid in H|].
  pose proof (NewTransaction_branches params d w) as B.
  destruct params as [|p1 [|p2 rest]]; try congruence.
  destruct B as [[_ B]|[(_ & _ & B)|[(_ & _ & _ & B)|(Hv & B)]]]; congruence.
Qed.

Lemma params_valid_entries t :
  params_valid (Entry_params <$> Transaction_entries t) -> Transaction_wf t.
Proof.
  intros (Hl & Hz & [c Hc] & Hb). rewrite length_fmap in Hl.
  rewrite <- entry_debits_params, <- entry_credits_params in Hb.
  rewrite Forall_fmap in Hz, Hc. split_and!; [done|done|by exists c|done].
Qed.
End construction.
End transaction.

#[global] Typeclasses Opaque EntryParams_in EntryParams_nonzero.
