(* ===== verification/Account.v ===== *)
(** * internal/domain/account/account.go

    The account entity. A Go method with a value receiver that returns an
    [Account] is a function from accounts to accounts; the clock read of each
    mutation goes through [Runtime]. [acct] is the account without its two
    timestamps, the part of the state that every rule of the package reads. *)
From S2P Require Import Prelude Go Identifiers Money Transaction.
From stdpp Require Import base gmap strings list.
Local Open Scope Z_scope.

Definition ErrEmptyName : error := errNew "account.ErrEmptyName" "account name must not be empty".
Definition ErrInsufficientFunds : error :=
  errNew "account.ErrInsufficientFunds" "insufficient funds".
Definition ErrAccountNotActive : error :=
  errNew "account.ErrAccountNotActive" "account is not active".
Definition ErrZeroAmount : error := errNew "account.ErrZeroAmount" "amount must not be zero".

(** [type AccountType string], [type Status string]: [Reconstitute] converts
    any text to them. *)
Definition AccountType : Type := string.
Definition Asset : AccountType := "ASSET".
Definition Liability : AccountType := "LIABILITY".
Definition Equity : AccountType := "EQUITY".

Definition Status : Type := string.
Definition Active : Status := "ACTIVE".
Definition Suspended : Status := "SUSPENDED".
Definition Closed : Status := "CLOSED".

Section account.
Context {U : UuidLib}.

Record Account := MkAccount {
  Account_id : AccountID;
  Account_name : string;
  Account_accountType : AccountType;
  Account_currency : Currency;
  Account_balance : Money;
  Account_status : Status;
  Account_createdAt : time;
  Account_updatedAt : time;
}.

(** [a.balance = b; a.updatedAt = t] and [a.status = s; a.updatedAt = t]. *)
Definition with_balance (a : Account) (b : Money) (t : time) : Account :=
  MkAccount (Account_id a) (Account_name a) (Account_accountType a) (Account_currency a)
    b (Account_status a) (Account_createdAt a) t.
Definition with_status (a : Account) (s : Status) (t : time) : Account :=
  MkAccount (Account_id a) (Account_name a) (Account_accountType a) (Account_currency a)
    (Account_balance a) s (Account_createdAt a) t.

Definition Account_AllowsNegativeBalance (a : Account) : bool :=
  bool_decide (Account_accountType a = Liability) || bool_decide (Account_accountType a = Equity).

Definition Account_validateOperation (a : Account) (amount : Money) : res unit :=
  if negb (bool_decide (Account_status a = Active)) then Err ErrAccountNotActive
  else if Money_IsZero amount then Err ErrZeroAmount
  else if negb (bool_decide (Money_currency amount = Account_currency a))
  then Err ErrCurrencyMismatch
  else Ok tt.

Definition Reconstitute (id name accountType currency : string) (balance : Z)
    (status : string) (createdAt updatedAt : time) : res Account :=
  match NewAccountID id with
  | Err e => Err e
  | Ok accID =>
      match NewMoney balance currency with
      | Err e => Err e
      | Ok bal =>
          Ok (MkAccount accID name accountType currency bal status createdAt updatedAt)
      end
  end.

Section operations.
Context {W : Type} `{R : !Runtime W}.

Definition NewAccountWithType (name : string) (accountType : AccountType)
    (currency : Currency) : M W Account :=
  if bool_decide (name = "") then throw ErrEmptyName
  else
    let! balance := liftR (NewMoney 0 currency) in
    let@ now := time_Now in
    let@ id := GenerateAccountID in
    ret (MkAccount id name accountType currency balance Active now now).

Definition NewAccount (name : string) (currency : Currency) : M W Account :=
  NewAccountWithType name Asset currency.

Definition Account_Credit (a : Account) (amount : Money) : M W Account :=
  let! _ := liftR (Account_validateOperation a amount) in
  let! newBalance := liftR (Money_Add (Account_balance a) amount) in
  let@ now := time_Now in
  ret (with_balance a newBalance now).

Definition Account_Debit (a : Account) (amount : Money) : M W Account :=
  let! _ := liftR (Account_validateOperation a amount) in
  let! newBalance := liftR (Money_Subtract (Account_balance a) amount) in
  if (Money_amount newBalance <? 0) && negb (Account_AllowsNegativeBalance a)
  then throw ErrInsufficientFunds
  else
    let@ now := time_Now in
    ret (with_balance a newBalance now).

Definition Account_Suspend (a : Account) : St W Account :=
  if bool_decide (Account_status a = Active)
  then let@ now := time_Now in retS (with_status a Suspended now)
  else retS a.

Definition Account_Reactivate (a : Account) : St W Account :=
  if bool_decide (Account_status a = Suspended)
  then let@ now := time_Now in retS (with_status a Active now)
  else retS a.

Definition Account_Close (a : Account) : St W Account :=
  if negb (bool_decide (Account_status a = Closed))
  then let@ now := time_Now in retS (with_status a Closed now)
  else retS a.
End operations.

(** ** Accounts without their timestamps *)

Record acct := MkAcct {
  ac_id : AccountID;
  ac_name : string;
  ac_type : AccountType;
  ac_currency : Currency;
  ac_balance : Money;
  ac_status : Status;
}.

#[global] Instance acct_eq_dec : EqDecision acct.
Proof. solve_decision. Defined.

Definition core (a : Account) : acct :=
  MkAcct (Account_id a) (Account_name a) (Account_accountType a) (Account_currency a)
    (Account_balance a) (Account_status a).

Definition ac_amount (c : acct) : Z := Money_amount (ac_balance c).

Definition ac_with_balance (c : acct) (b : Money) : acct :=
  MkAcct (ac_id c) (ac_name c) (ac_type c) (ac_currency c) b (ac_status c).
Definition ac_with_status (c : acct) (s : Status) : acct :=
  MkAcct (ac_id c) (ac_name c) (ac_type c) (ac_currency c) (ac_balance c) s.

(** The entity's invariant: the balance is in the account's currency, which
    is a supported one, and fits an int64. *)
Definition acct_wf (c : acct) : Prop :=
  Money_wf (ac_balance c) /\ Money_currency (ac_balance c) = ac_currency c.

Definition may_be_negative (c : acct) : bool :=
  bool_decide (ac_type c = Liability) || bool_decide (ac_type c = Equity).

(** ** What one posting does, as a specification

    [post ty m c] is the account [c] after an entry of type [ty] and amount
    [m], or the reason why it is refused. *)
Definition post_guard (ty : EntryType) (m : Money) (c : acct) : res unit :=
  if negb (bool_decide (ac_status c = Active)) then Err ErrAccountNotActive
  else if Money_IsZero m then Err ErrZeroAmount
  else if negb (bool_decide (Money_currency m = ac_currency c)) then Err ErrCurrencyMismatch
  else if bool_decide (ty = Debit) && (wrap64 (ac_amount c - Money_amount m) <? 0)
          && negb (may_be_negative c)
  then Err ErrInsufficientFunds
  else Ok tt.

Definition post_balance (ty : EntryType) (m : Money) (c : acct) : acct :=
  ac_with_balance c (MkMoney (wrap64 (ac_amount c + signed ty (Money_amount m))) (ac_currency c)).

Definition post (ty : EntryType) (m : Money) (c : acct) : res acct :=
  res_bind (post_guard ty m c) (fun _ => Ok (post_balance ty m c)).

Lemma signed_Credit z : signed Credit z = z.
Proof. unfold signed, credit_part, debit_part. simpl. lia. Qed.
Lemma signed_Debit z : signed Debit z = - z.
Proof. unfold signed, credit_part, debit_part. simpl. lia. Qed.
Lemma signed_other ty z : ty <> Debit -> ty <> Credit -> signed ty z = 0.
Proof.
  intros. unfold signed, credit_part, debit_part. by rewrite !bool_decide_eq_false_2.
Qed.

Lemma post_Ok ty m c c' :
  post ty m c = Ok c' <->
  c' = post_balance ty m c /\ ac_status c = Active /\ Money_amount m <> 0 /\
  Money_currency m = ac_currency c /\
  (ty = Debit -> 0 <= wrap64 (ac_amount c - Money_amount m) \/ may_be_negative c = true).
Proof.
  unfold post, post_guard, Money_IsZero. case_bool_decide; cbn [negb]; [|naive_solver].
  destruct (Z.eqb_spec (Money_amount m) 0); [naive_solver|].
  do 2 (case_bool_decide; cbn [negb andb]; [|naive_solver]).
  destruct (Z.ltb_spec (wrap64 (ac_amount c - Money_amount m)) 0); cbn [andb]; [|naive_solver].
  destruct (may_be_negative c); cbn [negb]; [naive_solver|].
  split; [done|]. intros (_ & _ & _ & _ & [?|?]); [done|lia|done].
Qed.

(** Postings that cannot be refused. *)
Lemma post_Credit_accepts m c :
  Money_amount m <> 0 -> ac_status c = Active -> ac_currency c = Money_currency m ->
  post Credit m c = Ok (post_balance Credit m c).
Proof. intros. by apply post_Ok. Qed.

Lemma post_Debit_accepts m c :
  Money_amount m <> 0 -> ac_status c = Active -> ac_currency c = Money_currency m ->
  may_be_negative c = true -> post Debit m c = Ok (post_balance Debit m c).
Proof. intros. apply post_Ok. split_and!; try done. by right. Qed.

Lemma post_balance_wf ty m c : acct_wf c -> acct_wf (post_balance ty m c).
Proof. intros [[_ Hv] Hc]. repeat split; simpl; [apply wrap64_range..|congruence]. Qed.

Lemma post_balance_amount ty m c :
  ac_amount (post_balance ty m c) = wrap64 (ac_amount c + signed ty (Money_amount m)).
Proof. done. Qed.

Lemma post_balance_static ty m c :
  ac_id (post_balance ty m c) = ac_id c /\ ac_name (post_balance ty m c) = ac_name c /\
  ac_type (post_balance ty m c) = ac_type c /\
  ac_currency (post_balance ty m c) = ac_currency c /\
  ac_status (post_balance ty m c) = ac_status c.
Proof. done. Qed.

(** ** The methods implement the specification *)
Section refinement.
Context {W : Type} `{R : !Runtime W}.

(** What the two methods return is the specification's account under the
    timestamps, and they fail exactly where it does, with its error. *)
Definition refines (r : res acct) (o : res Account) : Prop :=
  match r, o with
  | Ok c, Ok a => core a = c
  | Err e, Err e' => e' = e
  | _, _ => False
  end.

Lemma Account_Credit_refines a m (w : W) :
  acct_wf (core a) -> refines (post Credit m (core a)) (Account_Credit a m w).1.
Proof.
  intros [_ Hc]; simpl in Hc. unfold Account_Credit, liftR, post, post_guard, bind.
  unfold Account_validateOperation. cbn [core ac_status ac_currency].
  case_bool_decide as Hs; cbn [negb]; [|done].
  destruct (Money_IsZero m); [done|].
  case_bool_decide as Hm; cbn [negb]; [|done].
  rewrite Money_Add_same by congruence. rewrite bindS_run. simpl.
  unfold post_balance, ac_with_balance, core, with_balance, ac_amount; simpl.
  by rewrite signed_Credit, Hc.
Qed.

Lemma Account_Debit_refines a m (w : W) :
  acct_wf (core a) -> refines (post Debit m (core a)) (Account_Debit a m w).1.
Proof.
  intros [_ Hc]; simpl in Hc. unfold Account_Debit, liftR, post, post_guard, bind.
  unfold Account_validateOperation, Account_AllowsNegativeBalance, may_be_negative, ac_amount.
  cbn [core ac_status ac_currency ac_type ac_balance].
  case_bool_decide as Hs; cbn [negb]; [|done].
  destruct (Money_IsZero m); [done|].
  case_bool_decide as Hm; cbn [negb]; [|done].
  rewrite Money_Subtract_same by congruence.
  rewrite bool_decide_eq_true_2 by done. cbn [Money_amount andb].
  case_match; [done|]. rewrite bindS_run. simpl.
  unfold post_balance, ac_with_balance, core, with_balance, ac_amount; simpl.
  by rewrite signed_Debit, Hc.
Qed.

(** The only effect of a method on the world is its clock read. *)
#[global] Instance Account_Credit_frame {X} (f : W -> X) a m :
  Preserves f time_Now -> Preserves f (Account_Credit a m).
Proof. intros. unfold Account_Credit. apply _. Qed.
#[global] Instance Account_Debit_frame {X} (f : W -> X) a m :
  Preserves f time_Now -> Preserves f (Account_Debit a m).
Proof. intros. unfold Account_Debit. apply _. Qed.
#[global] Instance Account_Credit_keeps (P : W -> Prop) a m :
  Keeps P time_Now -> Keeps P (Account_Credit a m).
Proof. intros. unfold Account_Credit. apply _. Qed.
#[global] Instance Account_Debit_keeps (P : W -> Prop) a m :
  Keeps P time_Now -> Keeps P (Account_Debit a m).
Proof. intros. unfold Account_Debit. apply _. Qed.

Lemma NewAccountWithType_Ok_inv name ty c (w : W) a w' :
  NewAccountWithType name ty c w = (Ok a, w') ->
  name <> "" /\ validCurrency c = true /\
  exists u, u = (uuid_NewV7 (time_Now w).2).1 /\ w' = (uuid_NewV7 (time_Now w).2).2 /\
    core a = MkAcct (MkAccountID u) name ty c (MkMoney 0 c) Active.
Proof.
  unfold NewAccountWithType. case_bool_decide as Hn; [done|]. intros H. go_inv.
  match goal with H : NewMoney _ _ = Ok _ |- _ => apply NewMoney_Ok in H as [Hv ->] end.
  unfold GenerateAccountID in *. rewrite ?bindS_run in *. simpl in *. simplify_eq.
  split_and!; [done|done|]. eexists. split_and!; done.
Qed.

Lemma NewAccountWithType_run name ty c (w : W) :
  name <> "" -> validCurrency c = true ->
  exists a w', NewAccountWithType name ty c w = (Ok a, w').
Proof.
  intros Hn Hc. unfold NewAccountWithType, NewMoney, bind, liftR.
  rewrite bool_decide_eq_false_2 by done. rewrite Hc. simpl. rewrite !bindS_run. eauto.
Qed.

Lemma Reconstitute_Ok_inv id name ty cur bal st t1 t2 a :
  Reconstitute id name ty cur bal st t1 t2 = Ok a ->
  exists u, uuid_Parse id = Some u /\ validCurrency cur = true /\
    core a = MkAcct (MkAccountID u) name ty cur (MkMoney bal cur) st.
Proof.
  unfold Reconstitute, NewAccountID. destruct (uuid_Parse id) as [u|]; [|done].
  destruct (NewMoney bal cur) as [m|] eqn:Hm; [|done]. apply NewMoney_Ok in Hm as [Hv ->].
  intros [= <-]. eauto.
Qed.
End refinement.
End account.
