(* ===== verification/Book.v ===== *)
(** * The abstract ledger

    The specification that the write side implements: a finite map from
    account ids (their text form, the key of both repositories) to accounts,
    and the effect of posting a list of entries on it, one after the other,
    stopping at the first refusal. Conservation of money, the balance of an
    account as the sum of its entries, and solvency are proved here once, on
    the specification. *)
From S2P Require Import Prelude Go Identifiers Money Transaction Account.
From stdpp Require Import base gmap strings list.
Local Open Scope Z_scope.

Notation book := (gmap string acct).

Section book.
Context {U : UuidLib}.

Notation key := AccountID_String.

(** Every account is stored under its own id and satisfies the entity's
    invariant. *)
Definition book_wf (v : book) : Prop :=
  forall k c, v !! k = Some c -> k = key (ac_id c) /\ acct_wf c.

(** An account may replace another in a book when it is the same account:
    only balance and status may differ. *)
Definition same_identity (c0 c : acct) : Prop :=
  ac_name c0 = ac_name c /\ ac_type c0 = ac_type c /\ ac_currency c0 = ac_currency c.

(** ** Postings *)

Definition is_posting (ty : EntryType) : bool :=
  bool_decide (ty = Debit) || bool_decide (ty = Credit).

(** An entry whose type is neither debit nor credit changes nothing. *)
Definition post_entry (p : EntryParams) (c : acct) : res acct :=
  if is_posting (EntryParams_Type p) then post (EntryParams_Type p) (EntryParams_Amount p) c
  else Ok c.

Definition book_post (p : EntryParams) (v : book) : option book :=
  match v !! key (EntryParams_AccountID p) with
  | None => None
  | Some c =>
      match post_entry p c with
      | Ok c' => Some (<[key (EntryParams_AccountID p) := c']> v)
      | Err _ => None
      end
  end.

(** Post in order; [true] when none was refused. *)
Fixpoint book_posts (ps : list EntryParams) (v : book) : book * bool :=
  match ps with
  | [] => (v, true)
  | p :: ps =>
      match book_post p v with
      | Some v' => book_posts ps v'
      | None => (v, false)
      end
  end.

Definition params_signed (p : EntryParams) : Z :=
  signed (EntryParams_Type p) (Money_amount (EntryParams_Amount p)).

Lemma book_posts_app ps1 ps2 v :
  book_posts (ps1 ++ ps2) v =
  (if (book_posts ps1 v).2 then book_posts ps2 (book_posts ps1 v).1 else book_posts ps1 v).
Proof.
  revert v. induction ps1 as [|p ps1 IH]; intros v; simpl; [done|].
  by destruct (book_post p v).
Qed.

Lemma is_posting_false_signed ty z : is_posting ty = false -> signed ty z = 0.
Proof. intros H. unfold is_posting in H. bool_prop. by apply signed_other. Qed.

(** One posting: the account it finds, and the account it leaves. *)
Lemma book_post_Some p v v' :
  book_post p v = Some v' ->
  exists c c', v !! key (EntryParams_AccountID p) = Some c /\
    v' = <[key (EntryParams_AccountID p) := c']> v /\ post_entry p c = Ok c'.
Proof.
  unfold book_post. destruct (v !! _) as [c|] eqn:Hc; [|done].
  destruct (post_entry p c) as [c'|] eqn:Hp; [|done]. intros [= <-]. eauto.
Qed.

Lemma post_entry_static p c c' :
  post_entry p c = Ok c' ->
  ac_id c' = ac_id c /\ same_identity c c' /\ ac_status c' = ac_status c.
Proof.
  unfold post_entry. destruct (is_posting _).
  - by intros [-> _]%post_Ok.
  - by intros [= <-].
Qed.

Lemma post_entry_wf p c c' : acct_wf c -> post_entry p c = Ok c' -> acct_wf c'.
Proof.
  unfold post_entry. intros Hw. destruct (is_posting _).
  - intros [-> _]%post_Ok. by apply post_balance_wf.
  - by intros [= <-].
Qed.

Lemma post_entry_amount p c c' :
  acct_wf c -> post_entry p c = Ok c' -> ac_amount c' = wrap64 (ac_amount c + params_signed p).
Proof.
  unfold post_entry, params_signed. intros [[Hr _] _]. destruct (is_posting _) eqn:E.
  - by intros [-> _]%post_Ok.
  - intros [= <-]. rewrite is_posting_false_signed, Z.add_0_r by done. by rewrite wrap64_id.
Qed.

(** A posting that moves money is in the account's currency. *)
Lemma post_entry_currency p c c' :
  post_entry p c = Ok c' ->
  params_signed p = 0 \/ Money_currency (EntryParams_Amount p) = ac_currency c.
Proof.
  unfold post_entry, params_signed. destruct (is_posting _) eqn:E.
  - intros (_ & _ & _ & Hc & _)%post_Ok. by right.
  - intros _. left. by apply is_posting_false_signed.
Qed.

Lemma book_post_wf p v v' : book_wf v -> book_post p v = Some v' -> book_wf v'.
Proof.
  intros Hw (c & c' & Hc & -> & Hp)%book_post_Some k x.
  destruct (Hw _ _ Hc) as [Hk Hcw].
  rewrite lookup_insert_Some. intros [[<- <-]|[Hne Hx]]; [|by apply Hw].
  split; [|by eapply post_entry_wf]. by destruct (post_entry_static _ _ _ Hp) as [-> _].
Qed.

Lemma book_posts_wf ps v : book_wf v -> book_wf (book_posts ps v).1.
Proof.
  revert v. induction ps as [|p ps IH]; intros v Hw; simpl; [done|].
  destruct (book_post p v) eqn:E; [|done]. eapply IH, book_post_wf; eauto.
Qed.

(** ** Money in a book *)

(** Sum of the balances of all accounts of a currency. *)
Definition holding (cur : Currency) (c : acct) : Z :=
  if bool_decide (ac_currency c = cur) then ac_amount c else 0.
Definition holdings (cur : Currency) (v : book) : Z := msum (holding cur) v.

Definition posted (cur : Currency) (p : EntryParams) : Z :=
  if bool_decide (Money_currency (EntryParams_Amount p) = cur) then params_signed p else 0.

Lemma book_post_holdings cur p v v' :
  book_wf v -> book_post p v = Some v' ->
  holdings cur v' ≡64 holdings cur v + posted cur p.
Proof.
  intros Hw (c & c' & Hc & -> & Hp)%book_post_Some. destruct (Hw _ _ Hc) as [_ Hcw].
  unfold holdings. rewrite (msum_insert _ _ _ c c' Hc). unfold holding, posted.
  destruct (post_entry_static _ _ _ Hp) as (_ & (_ & _ & <-) & _).
  pose proof (post_entry_amount _ _ _ Hcw Hp) as Ha.
  destruct (post_entry_currency _ _ _ Hp) as [H0|Hcur].
  - rewrite H0, Z.add_0_r in Ha. rewrite Ha, wrap64_id by apply Hcw.
    rewrite H0. repeat case_bool_decide; apply eqm64_eq; lia.
  - rewrite Hcur. case_bool_decide; [|apply eqm64_eq; lia].
    rewrite Ha, wrap64_eqm. apply eqm64_eq; lia.
Qed.

Lemma book_posts_holdings cur ps v v' :
  book_wf v -> book_posts ps v = (v', true) ->
  holdings cur v' ≡64 holdings cur v + sumZ (posted cur) ps.
Proof.
  revert v. induction ps as [|p ps IH]; intros v Hw; simpl.
  { intros [= <-]. by rewrite Z.add_0_r. }
  destruct (book_post p v) as [v1|] eqn:E; [|done]. intros H.
  rewrite (IH v1); [|by eapply book_post_wf|done].
  rewrite (book_post_holdings cur p v v1) by done. apply eqm64_eq; lia.
Qed.

Lemma params_signed_sum ps : sumZ params_signed ps = params_credits ps - params_debits ps.
Proof.
  unfold params_credits, params_debits, params_signed, signed.
  induction ps; simpl; lia.
Qed.

Lemma posted_sum cur c ps :
  Forall (EntryParams_in c) ps ->
  sumZ (posted cur) ps = if bool_decide (c = cur) then sumZ params_signed ps else 0.
Proof.
  intros H. case_bool_decide as E.
  - apply sumZ_ext_in. intros p Hp%list_elem_of_In. rewrite Forall_forall in H.
    unfold posted. rewrite bool_decide_eq_true_2; [done|]. rewrite <- E. by apply H.
  - apply sumZ_zero. intros p Hp%list_elem_of_In. rewrite Forall_forall in H.
    unfold posted. rewrite bool_decide_eq_false_2; [done|].
    pose proof (H p Hp) as Hc. unfold EntryParams_in in Hc. congruence.
Qed.

(** A balanced list of postings conserves the money of every currency. *)
Lemma book_posts_conserve cur ps v v' :
  book_wf v -> params_valid ps -> book_posts ps v = (v', true) ->
  holdings cur v' ≡64 holdings cur v.
Proof.
  intros Hw (_ & _ & [c Hc] & Hb) H. rewrite (book_posts_holdings cur ps v v') by done.
  rewrite (posted_sum cur c ps Hc). case_bool_decide; [|by rewrite Z.add_0_r].
  rewrite params_signed_sum, Hb, Z.sub_diag, Z.add_0_r. done.
Qed.

(** ** The balance of one account *)

Definition posted_to (k : string) (p : EntryParams) : Z :=
  if bool_decide (key (EntryParams_AccountID p) = k) then params_signed p else 0.

Lemma book_posts_account ps v k c :
  book_wf v -> v !! k = Some c -> (book_posts ps v).2 = true ->
  exists c', (book_posts ps v).1 !! k = Some c' /\
    ac_amount c' = wrap64 (ac_amount c + sumZ (posted_to k) ps) /\
    ac_id c' = ac_id c /\ same_identity c c' /\ ac_status c' = ac_status c.
Proof.
  revert v c. induction ps as [|p ps IH]; intros v c Hw Hc; simpl.
  { intros _. exists c. rewrite Z.add_0_r, wrap64_id by apply (Hw _ _ Hc). done. }
  destruct (book_post p v) as [v1|] eqn:E; [|done].
  pose proof (book_post_wf p v v1 Hw E) as Hw1.
  apply book_post_Some in E as (d & d' & Hd & -> & Hp).
  assert (exists c1, <[key (EntryParams_AccountID p) := d']> v !! k = Some c1 /\
            ac_amount c1 = wrap64 (ac_amount c + posted_to k p) /\
            ac_id c1 = ac_id c /\ same_identity c c1 /\ ac_status c1 = ac_status c)
    as (c1 & Hc1 & Ha1 & Hid1 & (? & ? & ?) & Hs1).
  { unfold posted_to. rewrite lookup_insert. case_decide as E.
    - subst k. assert (d = c) as -> by congruence. rewrite bool_decide_eq_true_2 by done. exists d'. split; [done|].
      destruct (post_entry_static _ _ _ Hp) as (? & ? & ?).
      by rewrite (post_entry_amount p c d' (proj2 (Hw _ _ Hc)) Hp).
    - rewrite bool_decide_eq_false_2 by done. exists c.
      rewrite Z.add_0_r, wrap64_id by apply (Hw _ _ Hc). done. }
  intros Hok. destruct (IH _ _ Hw1 Hc1 Hok) as (c2 & Hc2 & Ha2 & ? & (? & ? & ?) & ?).
  exists c2. rewrite Ha2, Ha1. autorewrite with ledger_rw. unfold same_identity.
  rewrite Z.add_assoc. split_and!; congruence.
Qed.

(** Posting opens and closes no account. *)
Lemma book_posts_dom ps v : dom (book_posts ps v).1 = dom v.
Proof.
  revert v. induction ps as [|p ps IH]; intros v; simpl; [done|].
  destruct (book_post p v) as [v1|] eqn:E; [|done]. rewrite IH.
  apply book_post_Some in E as (c & c' & Hc & -> & _). rewrite dom_insert_L.
  apply elem_of_dom_2 in Hc. set_solver.
Qed.

(** ** Without overflow *)

Definition params_amount (p : EntryParams) : Z := Money_amount (EntryParams_Amount p).

(** Every balance can move by [n] in both directions inside the int64 range. *)
Definition headroom (n : Z) (v : book) : Prop :=
  forall k c, v !! k = Some c -> min_int64 + n <= ac_amount c <= max_int64 - n.

(** No account is negative that is not allowed to be. *)
Definition solvent (v : book) : Prop :=
  forall k c, v !! k = Some c -> may_be_negative c = false -> 0 <= ac_amount c.

Lemma params_signed_bound p : 0 < params_amount p -> Z.abs (params_signed p) <= params_amount p.
Proof.
  unfold params_signed, signed, credit_part, debit_part, params_amount.
  intros. repeat case_bool_decide; lia.
Qed.

Lemma post_entry_exact p c c' n :
  acct_wf c -> post_entry p c = Ok c' -> 0 < params_amount p <= n ->
  min_int64 + n <= ac_amount c <= max_int64 - n ->
  ac_amount c' = ac_amount c + params_signed p.
Proof.
  intros Hw Hp Ha Hn. rewrite (post_entry_amount p c c' Hw Hp).
  pose proof (params_signed_bound p). apply wrap64_id. unfold in_int64. lia.
Qed.

Lemma book_post_headroom p v v' n :
  book_wf v -> 0 <= n -> 0 < params_amount p -> headroom (params_amount p + n) v ->
  book_post p v = Some v' -> headroom n v'.
Proof.
  intros Hw Hn Ha Hh (c & c' & Hc & -> & Hp)%book_post_Some k x.
  rewrite lookup_insert_Some. intros [[<- <-]|[_ Hx]].
  - pose proof (Hh _ _ Hc). pose proof (params_signed_bound p Ha).
    rewrite (post_entry_exact p c c' (params_amount p + n)
               (proj2 (Hw _ _ Hc)) Hp ltac:(lia) ltac:(lia)). lia.
  - pose proof (Hh _ _ Hx). lia.
Qed.

(** A posting with a positive amount cannot overdraw an account: the debit
    guard refuses it, and without overflow a credit only adds. *)
Lemma book_post_solvent p v v' :
  book_wf v -> 0 < params_amount p -> headroom (params_amount p) v ->
  solvent v -> book_post p v = Some v' -> solvent v'.
Proof.
  intros Hw Ha Hh Hs (c & c' & Hc & -> & Hp)%book_post_Some k x.
  rewrite lookup_insert_Some. intros [[<- <-]|[_ Hx]]; [|by apply Hs with k].
  intros Hneg. destruct (post_entry_static _ _ _ Hp) as (_ & (_ & Hty & _) & _).
  assert (Hneg' : may_be_negative c = false) by (unfold may_be_negative in *; by rewrite Hty).
  specialize (Hs _ _ Hc Hneg'). destruct (Hw _ _ Hc) as [_ Hcw].
  destruct (decide (EntryParams_Type p = Debit)) as [Ed|Ed].
  - unfold post_entry, is_posting in Hp. rewrite Ed in Hp. simpl in Hp.
    apply post_Ok in Hp as (-> & _ & _ & _ & Hg).
    destruct (Hg eq_refl) as [Hg'|Hg']; [|congruence].
    unfold post_balance, ac_amount at 1; simpl. by rewrite signed_Debit.
  - rewrite (post_entry_exact p c c' (params_amount p) Hcw Hp ltac:(lia) (Hh _ _ Hc)).
    unfold params_signed, signed, credit_part, debit_part, params_amount in *.
    rewrite (bool_decide_eq_false_2 (_ = Debit)) by done. case_bool_decide; lia.
Qed.

Lemma headroom_weaken m n v : m <= n -> headroom n v -> headroom m v.
Proof. intros Hmn Hh k c Hc. pose proof (Hh _ _ Hc). lia. Qed.

Definition positive_amounts (ps : list EntryParams) : Prop :=
  Forall (fun p => 0 < params_amount p) ps.

Lemma positive_amounts_sum ps : positive_amounts ps -> 0 <= sumZ params_amount ps.
Proof. induction 1; simpl; lia. Qed.

Lemma positive_amounts_take k ps :
  positive_amounts ps ->
  positive_amounts (take k ps) /\ sumZ params_amount (take k ps) <= sumZ params_amount ps.
Proof.
  intros H. split; [by apply Forall_take|]. rewrite <- (take_drop k ps) at 2.
  rewrite sumZ_app. pose proof (positive_amounts_sum (drop k ps) ltac:(by apply Forall_drop)). lia.
Qed.

(** Totals that are equal modulo 2^64 are equal when they cannot overflow. *)
Lemma positive_totals_exact ps :
  positive_amounts ps -> sumZ params_amount ps <= max_int64 ->
  params_debits ps ≡64 params_credits ps -> params_debits ps = params_credits ps.
Proof.
  intros Hpos Hmax Hb.
  assert (Hd : 0 <= params_debits ps <= sumZ params_amount ps /\
               0 <= params_credits ps <= sumZ params_amount ps).
  { clear -Hpos. unfold params_debits, params_credits, params_amount, debit_part, credit_part in *.
    induction Hpos as [|p ps Hp _ IH]; simpl; [lia|]. unfold params_amount in Hp.
    repeat case_bool_decide; lia. }
  apply eqm64_in_int64; [..|done]; unfold in_int64, min_int64, max_int64 in *; lia.
Qed.

Lemma book_posts_solvent ps v :
  book_wf v -> positive_amounts ps -> headroom (sumZ params_amount ps) v ->
  solvent v -> solvent (book_posts ps v).1.
Proof.
  intros Hw Hpos. revert v Hw. induction Hpos as [|p ps Ha Hpos IH]; intros v Hw Hh Hs; [done|].
  simpl in *. pose proof (positive_amounts_sum ps Hpos).
  destruct (book_post p v) as [v1|] eqn:E; [|done].
  apply IH; [by eapply book_post_wf|by eapply book_post_headroom|].
  eapply book_post_solvent; eauto. eapply headroom_weaken; [|done]. lia.
Qed.

Lemma book_posts_holdings_exact cur ps v v' :
  book_wf v -> positive_amounts ps -> headroom (sumZ params_amount ps) v ->
  book_posts ps v = (v', true) -> holdings cur v' = holdings cur v + sumZ (posted cur) ps.
Proof.
  intros Hw Hpos. revert v Hw.
  induction Hpos as [|p ps Ha Hpos IH]; intros v Hw Hh; simpl in *.
  { intros [= <-]. lia. }
  pose proof (positive_amounts_sum ps Hpos).
  destruct (book_post p v) as [v1|] eqn:E; [|done]. intros H1.
  rewrite (IH v1); [|by eapply book_post_wf|by eapply book_post_headroom|done].
  apply book_post_Some in E as (c & c' & Hc & -> & Hp).
  unfold holdings. rewrite (msum_insert _ _ _ c c' Hc). unfold holding, posted.
  destruct (post_entry_static _ _ _ Hp) as (_ & (_ & _ & <-) & _).
  rewrite (post_entry_exact p c c' (params_amount p + sumZ params_amount ps)
             (proj2 (Hw _ _ Hc)) Hp ltac:(lia) (Hh _ _ Hc)).
  destruct (post_entry_currency _ _ _ Hp) as [H0|Hcur].
  - rewrite H0. repeat case_bool_decide; lia.
  - rewrite Hcur. case_bool_decide; lia.
Qed.

(** Every entry of a list that is posted names an account. *)
Lemma book_posts_known ps v :
  (book_posts ps v).2 = true -> Forall (fun p => key (EntryParams_AccountID p) ∈ dom v) ps.
Proof.
  revert v. induction ps as [|p ps IH]; intros v; simpl; [by constructor|].
  destruct (book_post p v) as [v1|] eqn:E; [|done]. intros H%IH.
  apply book_post_Some in E as (c & c' & Hc & -> & _). apply elem_of_dom_2 in Hc.
  constructor; [done|]. eapply Forall_impl; [exact H|]. intros q. simpl.
  rewrite dom_insert_L. intros [->%elem_of_singleton|Hq]%elem_of_union; done.
Qed.

(** Balanced postings whose amounts add up within an int64 sum to nothing. *)
Lemma posted_sum_exact cur ps :
  params_valid ps -> positive_amounts ps -> sumZ params_amount ps <= max_int64 ->
  sumZ (posted cur) ps = 0.
Proof.
  intros (_ & _ & [c Hc] & Hb) Hpos Hmax. rewrite (posted_sum cur c ps Hc).
  case_bool_decide; [|done]. rewrite params_signed_sum.
  enough (params_debits ps = params_credits ps) by lia. by apply positive_totals_exact.
Qed.

(** Entries of other types, on known accounts, change nothing. *)
Lemma book_posts_unknown ps v :
  (forall p, p ∈ ps -> is_posting (EntryParams_Type p) = false) ->
  (forall p, p ∈ ps -> key (EntryParams_AccountID p) ∈ dom v) -> book_posts ps v = (v, true).
Proof.
  induction ps as [|p ps IH]; intros Hty Hk; simpl; [done|].
  destruct (proj1 (elem_of_dom v _) (Hk p ltac:(constructor))) as [c Hc].
  unfold book_post, post_entry. rewrite Hc, Hty, insert_id by (done || constructor).
  apply IH; intros q Hq; [apply Hty|apply Hk]; by constructor.
Qed.
End book.
