(* ===== verification/Events.v ===== *)
(** * internal/domain/ledger/events.go and event_store.go

    Domain events, and the form in which they are stored. A payload is the
    JSON document that [json.Marshal] writes for the event, as a tree: the
    columns that hold payloads are JSONB, which keep the document and not its
    bytes. Instants are encoded as [time.Time.MarshalJSON] does, RFC 3339 with
    nanoseconds, and refused outside the years 0 to 9999. *)
From S2P Require Import Prelude Go Identifiers Money Transaction.
From stdpp Require Import base gmap strings list pretty.
Local Open Scope Z_scope.

(** ** JSON documents *)

Inductive json :=
| JNum (z : Z)
| JStr (s : string)
| JArr (l : list json)
| JObj (fields : list (string * json)).

(** ** Instants as text *)
Module Rfc3339.
(** Year, month and day of a day number counted from 1970-01-01, in the
    proleptic Gregorian calendar of package time. *)
Definition civil (days : Z) : Z * Z * Z :=
  let z := days + 719468 in
  let era := z / 146097 in
  let doe := z mod 146097 in
  let yoe := (doe - doe / 1460 + doe / 36524 - doe / 146096) / 365 in
  let doy := doe - (365 * yoe + yoe / 4 - yoe / 100) in
  let mp := (5 * doy + 2) / 153 in
  let d := doy - (153 * mp + 2) / 5 + 1 in
  let m := if mp <? 10 then mp + 3 else mp - 9 in
  let y := yoe + era * 400 + (if m <=? 2 then 1 else 0) in
  (y, m, d).

Fixpoint zeros (n : nat) : string :=
  match n with O => "" | S n => "0" +:+ zeros n end.

Definition pad (n : nat) (z : Z) : string :=
  let s := pretty z in zeros (n - String.length s) +:+ s.

(** The fraction without its trailing zeros, [n] digits at most. *)
Fixpoint fraction (n : nat) (z : Z) : string :=
  match n with
  | O => ""
  | S n' => if z mod 10 =? 0 then fraction n' (z / 10) else "." +:+ pad n z
  end.

Definition second_ns : Z := 1000000000.
Definition year (t : time) : Z := (civil (t / (86400 * second_ns))).1.1.

Definition format (t : time) : string :=
  let '(y, m, d) := civil (t / (86400 * second_ns)) in
  let s := (t / second_ns) mod 86400 in
  pad 4 y +:+ "-" +:+ pad 2 m +:+ "-" +:+ pad 2 d +:+ "T" +:+
  pad 2 (s / 3600) +:+ ":" +:+ pad 2 (s / 60 mod 60) +:+ ":" +:+ pad 2 (s mod 60) +:+
  fraction 9 (t mod second_ns) +:+ "Z".

Example format_epoch : format 0 = "1970-01-01T00:00:00Z".
Proof. reflexivity. Qed.
Example format_leap : format 951782399500000000 = "2000-02-28T23:59:59.5Z".
Proof. reflexivity. Qed.
Example format_zero : format zero_time = "0001-01-01T00:00:00Z".
Proof. reflexivity. Qed.
End Rfc3339.

(** [time.Time.MarshalJSON]. *)
Definition json_time (t : time) : res json :=
  if (0 <=? Rfc3339.year t) && (Rfc3339.year t <=? 9999) then Ok (JStr (Rfc3339.format t))
  else Err (errForeign "Time.MarshalJSON: year outside of range [0,9999]").

(** ** Events *)

Definition EventType : Type := string.
Definition EventAccountOpened : EventType := "account.opened".
Definition EventAccountSuspended : EventType := "account.suspended".
Definition EventAccountReactivated : EventType := "account.reactivated".
Definition EventAccountClosed : EventType := "account.closed".
Definition EventTransactionRecorded : EventType := "transaction.recorded".

Record AccountOpenedEvent := MkAccountOpenedEvent {
  AOE_ID : string;
  AOE_AccountID : string;
  AOE_Name : string;
  AOE_AccountType : string;
  AOE_Currency : string;
  AOE_Timestamp : time;
}.

Record EntryEventData := MkEntryEventData {
  EED_EntryID : string;
  EED_AccountID : string;
  EED_Amount : Z;
  EED_Currency : string;
  EED_Type : string;
}.

Record TransactionRecordedEvent := MkTransactionRecordedEvent {
  TRE_ID : string;
  TRE_TransactionID : string;
  TRE_Entries : list EntryEventData;
  TRE_Description : string;
  TRE_Timestamp : time;
}.

(** The interface [DomainEvent] and its two implementations. *)
Inductive DomainEvent :=
| AccountOpened (e : AccountOpenedEvent)
| TransactionRecorded (e : TransactionRecordedEvent).

Definition DomainEvent_EventType (e : DomainEvent) : EventType :=
  match e with
  | AccountOpened _ => EventAccountOpened
  | TransactionRecorded _ => EventTransactionRecorded
  end.

Definition DomainEvent_AggregateID (e : DomainEvent) : string :=
  match e with
  | AccountOpened e => AOE_AccountID e
  | TransactionRecorded e => TRE_TransactionID e
  end.

Definition DomainEvent_OccurredAt (e : DomainEvent) : time :=
  match e with
  | AccountOpened e => AOE_Timestamp e
  | TransactionRecorded e => TRE_Timestamp e
  end.

(** [json.Marshal(event)], with the field tags of the structs. *)
Definition json_entry (e : EntryEventData) : json :=
  JObj [("entry_id", JStr (EED_EntryID e)); ("account_id", JStr (EED_AccountID e));
        ("amount", JNum (EED_Amount e)); ("currency", JStr (EED_Currency e));
        ("type", JStr (EED_Type e))].

Definition json_Marshal (e : DomainEvent) : res json :=
  res_bind (json_time (DomainEvent_OccurredAt e)) (fun ts =>
    Ok match e with
       | AccountOpened e =>
           JObj [("id", JStr (AOE_ID e)); ("account_id", JStr (AOE_AccountID e));
                 ("name", JStr (AOE_Name e)); ("account_type", JStr (AOE_AccountType e));
                 ("currency", JStr (AOE_Currency e)); ("timestamp", ts)]
       | TransactionRecorded e =>
           JObj [("id", JStr (TRE_ID e)); ("transaction_id", JStr (TRE_TransactionID e));
                 ("entries", JArr (json_entry <$> TRE_Entries e));
                 ("description", JStr (TRE_Description e)); ("timestamp", ts)]
       end).

(** ** Stored form *)

Record StoredEvent := MkStoredEvent {
  SE_ID : string;
  SE_AggregateID : string;
  SE_AggregateType : string;
  SE_EventType : EventType;
  SE_Version : Z;
  SE_Payload : json;
  SE_OccurredAt : time;
}.

Record Snapshot := MkSnapshot {
  Snapshot_AggregateID : string;
  Snapshot_Version : Z;
  Snapshot_Payload : option json; (* [nil] for the zero value *)
}.
