(* ===== verification/Ports.v ===== *)
(** * The interfaces between the components

    internal/domain/account/repository.go, internal/domain/ledger/repository.go
    and event_store.go, and the interfaces of internal/app/ledger_service.go.
    An interface value is a record of operations over the world; what the
    application services rely on is stated by the classes [SafeRepository] and
    [LiveRepository], which the in-memory and the Postgres repositories are
    proved to satisfy. *)
From S2P Require Import Prelude Go Identifiers Money Transaction Account Book Events.
From stdpp Require Import base gmap strings list.
Local Open Scope Z_scope.

Section ports.
Context {U : UuidLib} (W : Type).

(** account.Repository *)
Record Repository := MkRepository {
  Repository_Save : Account -> M W unit;
  Repository_FindByID : AccountID -> M W Account;
  Repository_FindAll : M W (list Account);
}.

(** ledger.TransactionRepository *)
Record TransactionRepository := MkTransactionRepository {
  TransactionRepository_Save : Transaction -> M W unit;
  TransactionRepository_FindByID : TransactionID -> M W Transaction;
  TransactionRepository_FindByAccountID : AccountID -> M W (list Transaction);
}.

(** ledger.EventStore *)
Record EventStore := MkEventStore {
  EventStore_Append : string -> string -> Z -> list StoredEvent -> M W unit;
  EventStore_LoadEvents : string -> M W (list StoredEvent);
  EventStore_LoadEventsFrom : string -> Z -> M W (list StoredEvent);
}.

(** ledger.SnapshotStore *)
Record SnapshotStore := MkSnapshotStore {
  SnapshotStore_Save : Snapshot -> M W unit;
  SnapshotStore_Load : string -> M W Snapshot;
}.

(** app.OutboxAppender *)
Record OutboxAppender := MkOutboxAppender {
  OutboxAppender_AppendWithOutbox : string -> string -> Z -> list StoredEvent -> M W unit;
}.

(** app.Projector *)
Record Projector := MkProjector {
  Projector_ProjectAccountOpened : AccountOpenedEvent -> M W unit;
  Projector_ProjectTransactionRecorded : TransactionRecordedEvent -> M W unit;
}.
End ports.

Arguments Repository_Save {_ _} _ _.
Arguments Repository_FindByID {_ _} _ _.
Arguments Repository_FindAll {_ _} _.
Arguments TransactionRepository_Save {_ _} _ _.
Arguments TransactionRepository_FindByID {_ _} _ _.
Arguments TransactionRepository_FindByAccountID {_ _} _ _.
Arguments EventStore_Append {_} _ _ _ _ _.
Arguments EventStore_LoadEvents {_} _ _.
Arguments EventStore_LoadEventsFrom {_} _ _ _.
Arguments SnapshotStore_Save {_} _ _.
Arguments SnapshotStore_Load {_} _ _.
Arguments OutboxAppender_AppendWithOutbox {_} _ _ _ _ _.
Arguments Projector_ProjectAccountOpened {_} _ _.
Arguments Projector_ProjectTransactionRecorded {_} _ _.

(** ** What a client may assume of an account repository

    [view] is the abstract ledger that the repository holds in a world, [inv]
    its representation invariant, and [fresh w u] says that [u] is an id drawn
    from the generator under which nothing has been stored.

    [SafeRepository] holds whatever the storage does, failures included: a
    failed [Save] may or may not have been applied. [LiveRepository] adds what
    holds in a world where storage does not fail ([ready]). *)
Section laws.
Context {U : UuidLib} {W : Type}.
Notation key := AccountID_String.

Class SafeRepository (r : Repository W) (view : W -> book) (inv : W -> Prop)
    (fresh : W -> UUID -> Prop) : Prop := {
  safe_inv_wf w : inv w -> book_wf (view w);
  safe_fresh w u : fresh w u -> view w !! uuid_String u = None;
  safe_find_view id :: Preserves view (Repository_FindByID r id);
  safe_find_inv id :: Keeps inv (Repository_FindByID r id);
  safe_all_view :: Preserves view (Repository_FindAll r);
  safe_all_inv :: Keeps inv (Repository_FindAll r);
  safe_find_Ok id w a w' :
    Repository_FindByID r id w = (Ok a, w') -> view w !! key id = Some (core a);
  safe_find_missing id w :
    view w !! key id = None -> exists e w', Repository_FindByID r id w = (Err e, w');
  safe_all_Ok w l w' :
    inv w -> Repository_FindAll r w = (Ok l, w') ->
    core <$> l ≡ₚ (map_to_list (view w)).*2;
  (** Replacing an account by itself with another balance or status. *)
  safe_save_old a w c0 :
    inv w -> acct_wf (core a) ->
    view w !! key (Account_id a) = Some c0 -> same_identity c0 (core a) ->
    inv (Repository_Save r a w).2 /\
    ((Repository_Save r a w).1 = Ok tt ->
       view (Repository_Save r a w).2 = <[key (Account_id a) := core a]> (view w)) /\
    (view (Repository_Save r a w).2 = view w \/
     view (Repository_Save r a w).2 = <[key (Account_id a) := core a]> (view w));
  (** Storing a new account. *)
  safe_save_new a w :
    inv w -> acct_wf (core a) -> fresh w (AccountID_value (Account_id a)) ->
    inv (Repository_Save r a w).2 /\
    ((Repository_Save r a w).1 = Ok tt ->
       view (Repository_Save r a w).2 = <[key (Account_id a) := core a]> (view w)) /\
    (view (Repository_Save r a w).2 = view w \/
     view (Repository_Save r a w).2 = <[key (Account_id a) := core a]> (view w));
}.

Class LiveRepository (r : Repository W) (view : W -> book) (inv ready : W -> Prop) : Prop := {
  live_find_ready id :: Keeps ready (Repository_FindByID r id);
  live_all_ready :: Keeps ready (Repository_FindAll r);
  live_save_ready a :: Keeps ready (Repository_Save r a);
  live_find id w c :
    ready w -> inv w -> view w !! key id = Some c ->
    exists a w', Repository_FindByID r id w = (Ok a, w');
  live_all w : ready w -> inv w -> exists l w', Repository_FindAll r w = (Ok l, w');
  live_save a w : ready w -> exists w', Repository_Save r a w = (Ok tt, w');
}.
End laws.
