(* ===== verification/LedgerService.v ===== *)
(** * internal/app/commands.go and internal/app/ledger_service.go

    The write side. [LedgerService] holds its collaborators as interface
    values; the optional ones (event store, outbox, projector) are [option]s,
    [None] for a nil interface. Every method is a definition below, composed
    from the calls of the source in their order. *)
From S2P Require Import Prelude Go Identifiers Money Transaction Account Events Ports.
From stdpp Require Import base gmap strings list.
Local Open Scope Z_scope.
Local Open Scope string_scope.

(** ** Commands *)
Section commands.
Context {U : UuidLib}.

Record OpenAccountCmd := MkOpenAccountCmd {
  OAC_Name : string;
  OAC_AccountType : string;
  OAC_Currency : Currency;
}.

Record EntryCmd := MkEntryCmd {
  EC_AccountID : AccountID;
  EC_Amount : Z;
  EC_Currency : Currency;
  EC_Type : EntryType;
}.

Record RecordTransactionCmd := MkRecordTransactionCmd {
  RTC_Entries : list EntryCmd;
  RTC_Description : string;
}.
End commands.

(** ** The service *)
Section service.
Context {U : UuidLib} {W : Type} `{R : !Runtime W}.

Record LedgerService := MkLedgerService {
  LS_accounts : Repository W;
  LS_transactions : TransactionRepository W;
  LS_eventStore : option (EventStore W);
  LS_outbox : option (OutboxAppender W);
  LS_projector : option (Projector W);
}.

Definition NewLedgerService (accounts : Repository W) (transactions : TransactionRepository W)
    (eventStore : option (EventStore W)) (outbox : option (OutboxAppender W))
    (projector : option (Projector W)) : LedgerService :=
  MkLedgerService accounts transactions eventStore outbox projector.

Context (s : LedgerService).

(** The body of [appendEvent] after marshalling: the outbox is preferred,
    then the plain event store, then nothing. *)
Definition appendStored (aggregateID aggregateType : string) (expectedVersion : Z)
    (events : list StoredEvent) : M W unit :=
  match LS_outbox s with
  | Some outbox =>
      OutboxAppender_AppendWithOutbox outbox aggregateID aggregateType expectedVersion events
  | None =>
      match LS_eventStore s with
      | Some eventStore =>
          EventStore_Append eventStore aggregateID aggregateType expectedVersion events
      | None => ret tt
      end
  end.

Definition appendEvent (aggregateID aggregateType : string) (expectedVersion : Z)
    (event : DomainEvent) : M W unit :=
  let! payload := wrapErr "marshal event" (liftR (json_Marshal event)) in
  let stored := MkStoredEvent "" "" "" (DomainEvent_EventType event) 0 payload
                  (DomainEvent_OccurredAt event) in
  appendStored aggregateID aggregateType expectedVersion [stored].

(** [if s.projector != nil { s.projector.ProjectX(ctx, event) }]: the error
    of the projection is dropped. *)
Definition projectAccountOpened (event : AccountOpenedEvent) : St W unit :=
  match LS_projector s with
  | Some projector => let@ _ := Projector_ProjectAccountOpened projector event in retS tt
  | None => retS tt
  end.
Definition projectTransactionRecorded (event : TransactionRecordedEvent) : St W unit :=
  match LS_projector s with
  | Some projector => let@ _ := Projector_ProjectTransactionRecorded projector event in retS tt
  | None => retS tt
  end.

(** The switch on [cmd.AccountType]: anything else is an asset. *)
Definition commandAccountType (t : string) : AccountType :=
  if bool_decide (t = "EQUITY") then Equity
  else if bool_decide (t = "LIABILITY") then Liability
  else Asset.

Definition OpenAccount (cmd : OpenAccountCmd) : M W Account :=
  let accType := commandAccountType (OAC_AccountType cmd) in
  let! acc := wrapErr "open account"
                (NewAccountWithType (OAC_Name cmd) accType (OAC_Currency cmd)) in
  let! _ := wrapErr "save account" (Repository_Save (LS_accounts s) acc) in
  let@ now := time_Now in
  let event := MkAccountOpenedEvent "" (AccountID_String (Account_id acc)) (Account_name acc)
                 accType (Account_currency acc) now in
  let! _ := wrapErr "emit account opened"
              (appendEvent (AccountID_String (Account_id acc)) "account" 0
                 (AccountOpened event)) in
  let@ _ := projectAccountOpened event in
  ret acc.

Definition OpenEquityAccount (name : string) (currency : Currency) : M W Account :=
  OpenAccount (MkOpenAccountCmd name "EQUITY" currency).

Definition getOrCreateSystemAccount (name accType : string) (currency : Currency)
    : M W Account :=
  let! all := Repository_FindAll (LS_accounts s) in
  match find_first (fun acc => bool_decide (Account_name acc = name)) all with
  | Some acc => ret acc
  | None => OpenAccount (MkOpenAccountCmd name accType currency)
  end.

Definition equityName (currency : Currency) : string := "System Equity (" +:+ currency +:+ ")".
Definition suspenseName (currency : Currency) : string :=
  "System Suspense (" +:+ currency +:+ ")".

Definition getOrCreateSystemEquity (currency : Currency) : M W Account :=
  getOrCreateSystemAccount (equityName currency) "EQUITY" currency.

(** The error is swallowed: the zero [AccountID{}] is returned instead. *)
Definition suspenseAccountID (currency : Currency) : St W AccountID :=
  let@ r := getOrCreateSystemAccount (suspenseName currency) "LIABILITY" currency in
  retS match r with
       | Ok acc => Account_id acc
       | Err _ => MkAccountID uuid_Nil
       end.

Definition GetAccount (id : AccountID) : M W Account := Repository_FindByID (LS_accounts s) id.

Definition GetBalance (id : AccountID) : M W Money :=
  let! acc := wrapErr "get balance" (Repository_FindByID (LS_accounts s) id) in
  ret (Account_balance acc).

(** First loop of [RecordTransaction]: the commands' entries as parameters;
    [i] is the index of the head. *)
Fixpoint entryParams (i : Z) (entries : list EntryCmd) : res (list EntryParams) :=
  match entries with
  | [] => Ok []
  | e :: entries =>
      res_bind (res_wrap ("invalid money in entry " +:+ fmt_d i)
                  (NewMoney (EC_Amount e) (EC_Currency e))) (fun money =>
      res_bind (entryParams (i + 1) entries) (fun params =>
      Ok (MkEntryParams (EC_AccountID e) money (EC_Type e) :: params)))
  end.

(** The switch of the second loop: a type that is neither [Debit] nor
    [Credit] matches no case and leaves the account as loaded. *)
Definition entryOp (acc : Account) (entry : Entry) : M W Account :=
  if bool_decide (Entry_entryType entry = Debit) then Account_Debit acc (Entry_amount entry)
  else if bool_decide (Entry_entryType entry = Credit)
  then Account_Credit acc (Entry_amount entry)
  else ret acc.

(** Body of the second loop: load the account, apply the entry, save it. *)
Definition applyEntry (entry : Entry) : M W unit :=
  let id := AccountID_String (Entry_accountID entry) in
  let! acc := wrapErr ("find account " +:+ id)
                (Repository_FindByID (LS_accounts s) (Entry_accountID entry)) in
  let! acc := wrapErr ("apply " +:+ Entry_entryType entry +:+ " to account " +:+ id)
                (entryOp acc entry) in
  wrapErr ("save account " +:+ id) (Repository_Save (LS_accounts s) acc).

Definition entryEventData (e : Entry) : EntryEventData :=
  MkEntryEventData (EntryID_String (Entry_id e)) (AccountID_String (Entry_accountID e))
    (Money_amount (Entry_amount e)) (Money_currency (Entry_amount e)) (Entry_entryType e).

Definition RecordTransaction (cmd : RecordTransactionCmd) : M W Transaction :=
  let! params := liftR (entryParams 0 (RTC_Entries cmd)) in
  let! tx := wrapErr "create transaction" (NewTransaction params (RTC_Description cmd)) in
  let! _ := forEach (Transaction_entries tx) applyEntry in
  let! _ := wrapErr "save transaction"
              (TransactionRepository_Save (LS_transactions s) tx) in
  let@ now := time_Now in
  let event := MkTransactionRecordedEvent "" (TransactionID_String (Transaction_id tx))
                 (entryEventData <$> Transaction_entries tx) (RTC_Description cmd) now in
  let! _ := wrapErr "emit transaction recorded"
              (appendEvent (TransactionID_String (Transaction_id tx)) "transaction" 0
                 (TransactionRecorded event)) in
  let@ _ := projectTransactionRecorded event in
  ret tx.

Definition Deposit (accountID : AccountID) (amount : Z) (currency : Currency)
    (description : string) : M W unit :=
  let! equityAcc := wrapErr "get system equity" (getOrCreateSystemEquity currency) in
  let! _ := RecordTransaction (MkRecordTransactionCmd
              [MkEntryCmd (Account_id equityAcc) amount currency Debit;
               MkEntryCmd accountID amount currency Credit] description) in
  ret tt.
End service.
Arguments LedgerService {_} W.
