(* ===== verification/LedgerSafety.v ===== *)
(** * The write side implements the abstract ledger, whatever fails

    [SafeService] says what [LedgerService] relies on of its collaborators.
    Under it, every run of [RecordTransaction] posts a prefix of its entries to
    the abstract ledger, all of them when it returns no error, and
    [OpenAccount] adds one empty account or nothing. No assumption is made on
    failures of the storage. *)
From S2P Require Import Prelude Go Identifiers Money Transaction Account Book Events Ports.
From S2P Require Import LedgerService.
From stdpp Require Import base gmap strings list.
Local Open Scope Z_scope.

Section safety.
Context {U : UuidLib} {W : Type} `{R : !Runtime W}.
Notation key := AccountID_String.

Class SafeService (s : LedgerService W) (view : W -> book) (inv : W -> Prop)
    (fresh : W -> UUID -> Prop) : Prop := {
  safe_repository :: SafeRepository (LS_accounts s) view inv fresh;
  safe_now_view :: Preserves view time_Now;
  safe_now_inv :: Keeps inv time_Now;
  safe_uuid_view :: Preserves view uuid_NewV7;
  safe_uuid_inv :: Keeps inv uuid_NewV7;
  safe_uuid_fresh w : inv w -> fresh (uuid_NewV7 w).2 (uuid_NewV7 w).1;
  safe_tx_view tx :: Preserves view (TransactionRepository_Save (LS_transactions s) tx);
  safe_tx_inv tx :: Keeps inv (TransactionRepository_Save (LS_transactions s) tx);
  safe_append_view i t n es :: Preserves view (appendStored s i t n es);
  safe_append_inv i t n es :: Keeps inv (appendStored s i t n es);
  safe_opened_view e :: Preserves view (projectAccountOpened s e);
  safe_opened_inv e :: Keeps inv (projectAccountOpened s e);
  safe_recorded_view e :: Preserves view (projectTransactionRecorded s e);
  safe_recorded_inv e :: Keeps inv (projectTransactionRecorded s e);
}.

Context {s : LedgerService W} {view : W -> book} {inv : W -> Prop} {fresh : W -> UUID -> Prop}.
Context `{Safe : !SafeService s view inv fresh}.

#[global] Instance appendEvent_view i t n e : Preserves view (appendEvent s i t n e).
Proof using Safe. unfold appendEvent. apply _. Qed.
#[global] Instance appendEvent_inv i t n e : Keeps inv (appendEvent s i t n e).
Proof using Safe. unfold appendEvent. apply _. Qed.

#[global] Instance newEntries_view ps now : Preserves view (newEntries ps now).
Proof using Safe.
  induction ps; simpl; unfold newEntry, GenerateEntryID; apply _.
Qed.
#[global] Instance newEntries_inv ps now : Keeps inv (newEntries ps now).
Proof using Safe.
  induction ps; simpl; unfold newEntry, GenerateEntryID; apply _.
Qed.
#[global] Instance NewTransaction_view ps d : Preserves view (NewTransaction ps d).
Proof using Safe.
  unfold NewTransaction, construct, GenerateTransactionID.
  destruct ps as [|p [|q ps]]; try apply _. destruct (totals _ _ _). apply _.
Qed.
#[global] Instance NewTransaction_inv ps d : Keeps inv (NewTransaction ps d).
Proof using Safe.
  unfold NewTransaction, construct, GenerateTransactionID.
  destruct ps as [|p [|q ps]]; try apply _. destruct (totals _ _ _). apply _.
Qed.

(** ** One entry *)

Lemma entryOp_refines acc entry w :
  acct_wf (core acc) ->
  refines (post_entry (Entry_params entry) (core acc)) (entryOp acc entry w).1.
Proof.
  intros Hw. unfold entryOp, post_entry, is_posting; simpl.
  case_bool_decide as Ed; simpl; [rewrite Ed; by apply Account_Debit_refines|].
  case_bool_decide as Ec; simpl; [rewrite Ec; by apply Account_Credit_refines|done].
Qed.

#[global] Instance entryOp_view acc e : Preserves view (entryOp acc e).
Proof using Safe. unfold entryOp. apply _. Qed.
#[global] Instance entryOp_inv acc e : Keeps inv (entryOp acc e).
Proof using Safe. unfold entryOp. apply _. Qed.

Lemma core_inj_id a c : core a = c -> Account_id a = ac_id c.
Proof. by intros <-. Qed.

(** What one iteration of the loop does to the abstract ledger. *)
Lemma applyEntry_safe e w :
  inv w ->
  inv (applyEntry s e w).2 /\
  ((applyEntry s e w).1 = Ok tt ->
     book_post (Entry_params e) (view w) = Some (view (applyEntry s e w).2)) /\
  (view (applyEntry s e w).2 = view w \/
   book_post (Entry_params e) (view w) = Some (view (applyEntry s e w).2)).
Proof using Safe.
  intros Hi. unfold applyEntry.
  destruct (Repository_FindByID (LS_accounts s) (Entry_accountID e) w) as [[a|er] w1] eqn:Hf.
  2:{ rewrite (bind_fail _ _ _ _ _ (wrapErr_fail _ _ _ _ _ Hf)). simpl.
      rewrite (preserves_eq view _ _ _ _ Hf). split; [exact (keeps_eq inv _ _ _ _ Hf Hi)|]. split; [done|by left]. }
  rewrite (bind_run _ _ _ _ _ (wrapErr_run _ _ _ _ _ Hf)).
  pose proof (safe_find_Ok _ _ _ _ Hf) as Hv.
  pose proof (preserves_eq view _ _ _ _ Hf) as Hv1.
  pose proof (keeps_eq inv _ _ _ _ Hf Hi) as Hi1.
  destruct (safe_inv_wf _ Hi _ _ Hv) as [Hk Hwf].
  pose proof (entryOp_refines a e w1 Hwf) as Href.
  destruct (entryOp a e w1) as [[a'|er] w2] eqn:Ho.
  2:{ rewrite (bind_fail _ _ _ _ _ (wrapErr_fail _ _ _ _ _ Ho)). simpl.
      rewrite (preserves_eq view _ _ _ _ Ho), Hv1.
      split; [exact (keeps_eq inv _ _ _ _ Ho Hi1)|]. split; [done|by left]. }
  rewrite (bind_run _ _ _ _ _ (wrapErr_run _ _ _ _ _ Ho)).
  pose proof (preserves_eq view _ _ _ _ Ho) as Hv2. rewrite Hv1 in Hv2.
  pose proof (keeps_eq inv _ _ _ _ Ho Hi1) as Hi2. simpl in Href.
  destruct (post_entry (Entry_params e) (core a)) as [c'|] eqn:Hp; [|done]. simpl in Href.
  destruct (post_entry_static _ _ _ Hp) as (Hid & Hsame & _).
  assert (Hid' : key (Account_id a') = key (Entry_accountID e)).
  { rewrite Hk. f_equal. rewrite <- Hid, <- Href. done. }
  assert (Hpost : book_post (Entry_params e) (view w) =
                  Some (<[key (Account_id a') := core a']> (view w))).
  { unfold book_post. simpl. by rewrite Hv, Hp, Hid', Href. }
  destruct (safe_save_old a' w2 (core a) Hi2) as (Hi3 & Hok & Hany).
  { rewrite Href. by eapply post_entry_wf. }
  { by rewrite Hid', Hv2. }
  { by rewrite Href. }
  unfold wrapErr. destruct (Repository_Save (LS_accounts s) a' w2) as [[[]|er] w3]; simpl in *;
    rewrite Hv2 in *.
  - rewrite Hpost, Hok by done. auto.
  - split; [done|]. split; [done|]. destruct Hany as [->| ->]; auto.
Qed.

(** ** The loop *)

(** [posted_prefix ps v v' k]: [v'] is [v] after the first [k] postings of
    [ps], none of which was refused. *)
Definition posted_prefix (ps : list EntryParams) (v v' : book) (k : nat) : Prop :=
  (k <= length ps)%nat /\ book_posts (take k ps) v = (v', true).

Lemma posted_prefix_0 ps v : posted_prefix ps v v 0.
Proof. split; [lia|done]. Qed.

Lemma applyEntries_safe es w :
  inv w ->
  inv (forEach es (applyEntry s) w).2 /\
  exists k, posted_prefix (Entry_params <$> es) (view w) (view (forEach es (applyEntry s) w).2) k /\
    ((forEach es (applyEntry s) w).1 = Ok tt -> k = length es).
Proof using Safe.
  revert w. induction es as [|e es IH]; intros w Hi.
  { split; [done|]. exists 0%nat. split; [apply posted_prefix_0|done]. }
  destruct (applyEntry_safe e w Hi) as (Hi1 & Hok & Hany). cbn [forEach]. unfold bind.
  destruct (applyEntry s e w) as [[[]|er] w1]; cbn [fst snd] in *.
  - specialize (Hok eq_refl). destruct (IH w1 Hi1) as (Hi2 & k & [Hk Hp] & Hend).
    split; [done|]. exists (S k). split; [|intros H; by rewrite Hend].
    split; [rewrite length_fmap in Hk |- *; simpl; lia|]. csimpl. by rewrite Hok.
  - split; [done|]. destruct Hany as [->|Hp].
    + exists 0%nat. split; [apply posted_prefix_0|done].
    + exists 1%nat. split; [|done]. split; [simpl; lia|]. csimpl. by rewrite Hp.
Qed.

(** ** RecordTransaction *)

Definition cmdParams (e : EntryCmd) : EntryParams :=
  MkEntryParams (EC_AccountID e) (MkMoney (EC_Amount e) (EC_Currency e)) (EC_Type e).

Definition currencies_valid (es : list EntryCmd) : Prop :=
  Forall (fun e => validCurrency (EC_Currency e) = true) es.

Lemma entryParams_Ok i es ps :
  entryParams i es = Ok ps <-> currencies_valid es /\ ps = cmdParams <$> es.
Proof.
  revert i ps. induction es as [|e es IH]; intros i ps; simpl.
  { split; [by intros [= <-]; split; [constructor|]|by intros [_ ->]]. }
  unfold currencies_valid in *. rewrite Forall_cons.
  destruct (NewMoney (EC_Amount e) (EC_Currency e)) as [m|er] eqn:Hm; simpl.
  - apply NewMoney_Ok in Hm as [Hv ->].
    destruct (entryParams (i + 1) es) as [ps'|] eqn:Hps; simpl.
    + apply IH in Hps as [Hvs ->]. split; [by intros [= <-]|]. by intros [_ ->].
    + split; [done|]. intros [[_ Hvs] _].
      assert (Hno : entryParams (i + 1) es = Ok (cmdParams <$> es)) by (by apply IH).
      congruence.
  - apply NewMoney_Err in Hm as [Hv _]. split; [done|]. intros [[? _] _]. congruence.
Qed.

Definition valid_command (cmd : RecordTransactionCmd) : Prop :=
  currencies_valid (RTC_Entries cmd) /\ params_valid (cmdParams <$> RTC_Entries cmd).

(** Steps of [RecordTransaction] after the postings. *)
Definition emitRecorded (cmd : RecordTransactionCmd) (tx : Transaction) : M W Transaction :=
  let! _ := wrapErr "save transaction" (TransactionRepository_Save (LS_transactions s) tx) in
  let@ now := time_Now in
  let event := MkTransactionRecordedEvent "" (TransactionID_String (Transaction_id tx))
                 (entryEventData <$> Transaction_entries tx) (RTC_Description cmd) now in
  let! _ := wrapErr "emit transaction recorded"
              (appendEvent s (TransactionID_String (Transaction_id tx)) "transaction" 0
                 (TransactionRecorded event)) in
  let@ _ := projectTransactionRecorded s event in
  ret tx.

#[global] Instance emitRecorded_view cmd tx : Preserves view (emitRecorded cmd tx).
Proof using Safe. unfold emitRecorded. apply _. Qed.
#[global] Instance emitRecorded_inv cmd tx : Keeps inv (emitRecorded cmd tx).
Proof using Safe. unfold emitRecorded. apply _. Qed.

Lemma emitRecorded_Ok cmd tx w tx' w' : emitRecorded cmd tx w = (Ok tx', w') -> tx' = tx.
Proof. unfold emitRecorded. intros H. by go_inv. Qed.

Lemma RecordTransaction_steps cmd w :
  RecordTransaction s cmd w =
  match entryParams 0 (RTC_Entries cmd) with
  | Err e => (Err e, w)
  | Ok ps =>
      match NewTransaction ps (RTC_Description cmd) w with
      | (Err e, w1) => (Err (errWrap "create transaction" e), w1)
      | (Ok tx, w1) =>
          match forEach (Transaction_entries tx) (applyEntry s) w1 with
          | (Err e, w2) => (Err e, w2)
          | (Ok _, w2) => emitRecorded cmd tx w2
          end
      end
  end.
Proof.
  unfold RecordTransaction. unfold bind at 1, liftR at 1.
  destruct (entryParams 0 (RTC_Entries cmd)) as [ps|e]; [|done].
  unfold bind at 1, wrapErr at 1.
  destruct (NewTransaction ps (RTC_Description cmd) w) as [[tx|e] w1]; [|done]. simpl.
  unfold bind at 1. by destruct (forEach _ _ w1) as [[]].
Qed.

(** Whatever happens, a prefix of the entries has been posted; a command that
    is not valid posts nothing, and success posts everything. *)
Lemma RecordTransaction_safe cmd w :
  inv w ->
  inv (RecordTransaction s cmd w).2 /\
  exists k, posted_prefix (cmdParams <$> RTC_Entries cmd) (view w)
              (view (RecordTransaction s cmd w).2) k /\
    (~ valid_command cmd -> k = 0%nat) /\
    (forall tx, (RecordTransaction s cmd w).1 = Ok tx ->
       k = length (RTC_Entries cmd) /\ valid_command cmd /\
       Entry_params <$> Transaction_entries tx = cmdParams <$> RTC_Entries cmd).
Proof using Safe.
  intros Hi. rewrite RecordTransaction_steps.
  destruct (entryParams 0 (RTC_Entries cmd)) as [ps|er] eqn:Hps.
  2:{ split; [done|]. exists 0%nat. split; [apply posted_prefix_0|done]. }
  apply entryParams_Ok in Hps as [Hcur Hps].
  destruct (NewTransaction ps (RTC_Description cmd) w) as [[tx|er] w1] eqn:Ht;
    pose proof (keeps_eq inv _ _ _ _ Ht Hi) as Hi1;
    pose proof (preserves_eq view _ _ _ _ Ht) as Hv1; cbn [fst snd].
  2:{ split; [done|]. rewrite Hv1. exists 0%nat. split; [apply posted_prefix_0|done]. }
  apply NewTransaction_Ok_inv in Ht as (Hvalid & Htx & _).
  assert (Hes : Entry_params <$> Transaction_entries tx = ps).
  { rewrite Htx. apply construct_spec. }
  subst ps. clear Htx.
  assert (Hcmd : valid_command cmd) by done.
  destruct (applyEntries_safe (Transaction_entries tx) w1 Hi1) as (Hi2 & k & Hp & Hend).
  rewrite Hes, Hv1 in Hp.
  assert (Hlen : length (Transaction_entries tx) = length (RTC_Entries cmd)).
  { apply (f_equal length) in Hes. by rewrite !length_fmap in Hes. }
  destruct (forEach (Transaction_entries tx) (applyEntry s) w1) as [[[]|er] w2];
    cbn [fst snd] in *; [|split; [done|]; exists k; by split_and!].
  split; [by apply keeps|]. exists k. rewrite preserves. split; [done|]. split; [done|].
  intros tx' Hok. destruct (emitRecorded cmd tx w2) as [r w3] eqn:He. simpl in Hok.
  rewrite Hok in He. apply emitRecorded_Ok in He as ->. by rewrite <- Hlen, Hend.
Qed.

Lemma posted_prefix_all ps v v' k :
  posted_prefix ps v v' k -> k = length ps -> book_posts ps v = (v', true).
Proof. intros [_ H] ->. by rewrite take_ge in H. Qed.

Lemma RecordTransaction_Ok cmd w tx w' :
  inv w -> RecordTransaction s cmd w = (Ok tx, w') ->
  inv w' /\ valid_command cmd /\
  book_posts (cmdParams <$> RTC_Entries cmd) (view w) = (view w', true) /\
  Entry_params <$> Transaction_entries tx = cmdParams <$> RTC_Entries cmd.
Proof using Safe.
  intros Hi H. destruct (RecordTransaction_safe cmd w Hi) as (Hi' & k & Hp & _ & Hok).
  rewrite H in *. destruct (Hok tx eq_refl) as (-> & Hv & He). split_and!; try done.
  eapply posted_prefix_all; [done|]. by rewrite length_fmap.
Qed.

(** ** OpenAccount *)

(** The account that [OpenAccount] creates under the id [u]. *)
Definition opened (u : UUID) (cmd : OpenAccountCmd) : acct :=
  MkAcct (MkAccountID u) (OAC_Name cmd) (commandAccountType (OAC_AccountType cmd))
    (OAC_Currency cmd) (MkMoney 0 (OAC_Currency cmd)) Active.

Lemma opened_wf u cmd : validCurrency (OAC_Currency cmd) = true -> acct_wf (opened u cmd).
Proof. intros Hv. split; [split; [|done]|done]. unfold in_int64; simpl. done. Qed.

(** Steps of [OpenAccount] after the save. *)
Definition emitOpened (accType : AccountType) (acc : Account) : M W Account :=
  let@ now := time_Now in
  let event := MkAccountOpenedEvent "" (key (Account_id acc)) (Account_name acc)
                 accType (Account_currency acc) now in
  let! _ := wrapErr "emit account opened"
              (appendEvent s (key (Account_id acc)) "account" 0 (AccountOpened event)) in
  let@ _ := projectAccountOpened s event in
  ret acc.

#[global] Instance emitOpened_view ty acc : Preserves view (emitOpened ty acc).
Proof using Safe. unfold emitOpened. apply _. Qed.
#[global] Instance emitOpened_inv ty acc : Keeps inv (emitOpened ty acc).
Proof using Safe. unfold emitOpened. apply _. Qed.
#[global] Instance NewAccountWithType_view name ty c : Preserves view (NewAccountWithType name ty c).
Proof using Safe. unfold NewAccountWithType, GenerateAccountID. apply _. Qed.
#[global] Instance NewAccountWithType_inv name ty c : Keeps inv (NewAccountWithType name ty c).
Proof using Safe. unfold NewAccountWithType, GenerateAccountID. apply _. Qed.

Lemma emitOpened_Ok ty acc w acc' w' : emitOpened ty acc w = (Ok acc', w') -> acc' = acc.
Proof. unfold emitOpened. intros H. by go_inv. Qed.

Lemma OpenAccount_steps cmd w :
  OpenAccount s cmd w =
  match NewAccountWithType (OAC_Name cmd) (commandAccountType (OAC_AccountType cmd))
          (OAC_Currency cmd) w with
  | (Err e, w1) => (Err (errWrap "open account" e), w1)
  | (Ok acc, w1) =>
      match Repository_Save (LS_accounts s) acc w1 with
      | (Err e, w2) => (Err (errWrap "save account" e), w2)
      | (Ok _, w2) => emitOpened (commandAccountType (OAC_AccountType cmd)) acc w2
      end
  end.
Proof.
  unfold OpenAccount, bind at 1, wrapErr at 1. destruct (NewAccountWithType _ _ _ w) as [[acc|e] w1];
    [|done]. simpl. unfold bind at 1, wrapErr at 1.
  by destruct (Repository_Save (LS_accounts s) acc w1) as [[[]|e] w2].
Qed.

(** The id that the next account gets. *)
Definition next_id (w : W) : UUID := (uuid_NewV7 (time_Now w).2).1.

(** One new account with a zero balance under that id, or nothing. *)
Lemma OpenAccount_opens cmd w :
  let u := next_id w in
  inv w ->
  inv (OpenAccount s cmd w).2 /\ view w !! uuid_String u = None /\
  (view (OpenAccount s cmd w).2 = view w \/
   validCurrency (OAC_Currency cmd) = true /\ OAC_Name cmd <> "" /\
   view (OpenAccount s cmd w).2 = <[uuid_String u := opened u cmd]> (view w)) /\
  (forall acc, (OpenAccount s cmd w).1 = Ok acc ->
     core acc = opened u cmd /\ validCurrency (OAC_Currency cmd) = true /\
     OAC_Name cmd <> "" /\
     view (OpenAccount s cmd w).2 = <[uuid_String u := opened u cmd]> (view w)).
Proof using Safe.
  intros u Hi. rewrite OpenAccount_steps.
  assert (Hit : inv (time_Now w).2) by (by apply keeps).
  pose proof (safe_uuid_fresh _ Hit) as Hfr. fold (next_id w) in Hfr.
  pose proof (safe_fresh _ _ Hfr) as Hnone. rewrite !(preserves (f:=view)) in Hnone.
  destruct (NewAccountWithType _ _ _ w) as [[acc|er] w1] eqn:Hn;
    pose proof (keeps_eq inv _ _ _ _ Hn Hi) as Hi1;
    pose proof (preserves_eq view _ _ _ _ Hn) as Hv1.
  2:{ split_and!; [done|done|by left|done]. }
  apply NewAccountWithType_Ok_inv in Hn as (Hname & Hcur & u' & -> & -> & Hcore).
  fold (next_id w) u in Hcore, Hfr |- *. fold (opened u cmd) in Hcore.
  assert (Hid : Account_id acc = MkAccountID u) by (by apply core_inj_id in Hcore).
  destruct (safe_save_new acc _ Hi1) as (Hi2 & Hok & Hany).
  { rewrite Hcore. by apply opened_wf. }
  { by rewrite Hid. }
  rewrite Hcore, Hid, Hv1 in Hok, Hany. change (key (MkAccountID u)) with (uuid_String u) in *.
  destruct (Repository_Save (LS_accounts s) acc _) as [[[]|er] w2]; cbn [fst snd] in *.
  - rewrite !(preserves (f:=view)), Hok by done. split_and!; [by apply keeps|done|by right|]. intros acc' Hacc.
    destruct (emitOpened _ acc w2) as [r w3] eqn:He. simpl in Hacc. rewrite Hacc in He.
    by apply emitOpened_Ok in He as ->.
  - split_and!; [done..| |done]. destruct Hany; auto.
Qed.

Lemma OpenAccount_safe cmd w :
  inv w ->
  inv (OpenAccount s cmd w).2 /\
  exists u, view w !! uuid_String u = None /\
    (view (OpenAccount s cmd w).2 = view w \/
     validCurrency (OAC_Currency cmd) = true /\ OAC_Name cmd <> "" /\
     view (OpenAccount s cmd w).2 = <[uuid_String u := opened u cmd]> (view w)) /\
    (forall acc, (OpenAccount s cmd w).1 = Ok acc ->
       core acc = opened u cmd /\ validCurrency (OAC_Currency cmd) = true /\
       OAC_Name cmd <> "" /\
       view (OpenAccount s cmd w).2 = <[uuid_String u := opened u cmd]> (view w)).
Proof using Safe. intros [Hi H]%(OpenAccount_opens cmd w). split; [done|]. by exists (next_id w). Qed.

Lemma holdings_opened cur u cmd v :
  v !! uuid_String u = None -> holdings cur (<[uuid_String u := opened u cmd]> v) = holdings cur v.
Proof.
  intros Hn. unfold holdings. rewrite msum_insert_new by done.
  unfold holding, ac_amount. simpl. by case_bool_decide.
Qed.

(** Opening accounts moves no money, whether it succeeds or not. *)
Lemma OpenAccount_holdings cur cmd w :
  inv w -> holdings cur (view (OpenAccount s cmd w).2) = holdings cur (view w).
Proof using Safe.
  intros Hi. destruct (OpenAccount_safe cmd w Hi) as (_ & u & Hn & [->|(_ & _ & ->)] & _); [done|].
  by apply holdings_opened.
Qed.

(** ** System accounts and deposits *)

Lemma FindAll_lookup w l w' acc :
  inv w -> Repository_FindAll (LS_accounts s) w = (Ok l, w') -> acc ∈ l ->
  view w !! key (Account_id acc) = Some (core acc).
Proof using Safe.
  intros Hi Hall Hin. pose proof (safe_all_Ok w l w' Hi Hall) as Hp.
  assert (Hc : core acc ∈ (map_to_list (view w)).*2).
  { rewrite <- Hp. by apply list_elem_of_fmap_2. }
  apply list_elem_of_fmap in Hc as ([k c] & Hc & Hk). simpl in Hc. subst c.
  apply elem_of_map_to_list in Hk. destruct (safe_inv_wf _ Hi _ _ Hk) as [-> _]. done.
Qed.

Lemma getOrCreateSystemAccount_steps name ty cur w :
  getOrCreateSystemAccount s name ty cur w =
  match Repository_FindAll (LS_accounts s) w with
  | (Err e, w1) => (Err e, w1)
  | (Ok all, w1) =>
      match find_first (fun acc => bool_decide (Account_name acc = name)) all with
      | Some acc => (Ok acc, w1)
      | None => OpenAccount s (MkOpenAccountCmd name ty cur) w1
      end
  end.
Proof.
  unfold getOrCreateSystemAccount, bind.
  destruct (Repository_FindAll (LS_accounts s) w) as [[all|e] w1]; [|done]. by case_match.
Qed.

Lemma getOrCreateSystemAccount_safe name ty cur w :
  inv w ->
  inv (getOrCreateSystemAccount s name ty cur w).2 /\
  (forall c, holdings c (view (getOrCreateSystemAccount s name ty cur w).2) = holdings c (view w)) /\
  (forall acc, (getOrCreateSystemAccount s name ty cur w).1 = Ok acc ->
     Account_name acc = name /\
     view (getOrCreateSystemAccount s name ty cur w).2 !! key (Account_id acc) = Some (core acc)).
Proof using Safe.
  intros Hi. rewrite getOrCreateSystemAccount_steps.
  destruct (Repository_FindAll (LS_accounts s) w) as [[all|e] w1] eqn:Hall;
    pose proof (keeps_eq inv _ _ _ _ Hall Hi) as Hi1;
    pose proof (preserves_eq view _ _ _ _ Hall) as Hv1; [|cbn [fst snd]; by rewrite Hv1].
  destruct (find_first _ all) as [acc|] eqn:Hf; cbn [fst snd].
  - rewrite Hv1. split_and!; [done|done|]. intros acc' [= <-].
    apply find_first_Some in Hf as [Hin Hb]. bool_prop. split; [done|].
    exact (FindAll_lookup _ _ _ _ Hi Hall Hin).
  - destruct (OpenAccount_safe (MkOpenAccountCmd name ty cur) w1 Hi1) as (Hi2 & u & _ & _ & Hok).
    split_and!; [done| |].
    + intros c. by rewrite OpenAccount_holdings, Hv1.
    + intros acc Hacc. destruct (Hok acc Hacc) as (Hcore & _ & _ & ->).
      rewrite (core_inj_id _ _ Hcore), Hcore. split; [by apply (f_equal ac_name) in Hcore|].
      apply lookup_insert_eq.
Qed.

Lemma RecordTransaction_holdings cur cmd w tx w' :
  inv w -> RecordTransaction s cmd w = (Ok tx, w') ->
  holdings cur (view w') ≡64 holdings cur (view w).
Proof using Safe.
  intros Hi H. destruct (RecordTransaction_Ok _ _ _ _ Hi H) as (_ & [_ Hv] & Hp & _).
  by eapply book_posts_conserve; [apply safe_inv_wf|..].
Qed.

Lemma Deposit_Ok id amt cur d w w' :
  inv w -> Deposit s id amt cur d w = (Ok tt, w') ->
  inv w' /\ forall c, holdings c (view w') ≡64 holdings c (view w).
Proof using Safe.
  intros Hi H. unfold Deposit in H. go_inv.
  match goal with H : getOrCreateSystemEquity _ _ _ = _ |- _ =>
    unfold getOrCreateSystemEquity in H; rename H into Hg end.
  destruct (getOrCreateSystemAccount_safe (equityName cur) "EQUITY" cur w Hi) as (Hi1 & Hh & _).
  rewrite Hg in Hi1, Hh. cbn [snd] in Hi1, Hh.
  match goal with H : RecordTransaction _ _ _ = _ |- _ => rename H into Hr end.
  destruct (RecordTransaction_Ok _ _ _ _ Hi1 Hr) as [Hi2 _]. split; [done|].
  intros c. rewrite <- Hh. by eapply RecordTransaction_holdings.
Qed.

(** ** The invariant, whatever happens *)

#[global] Instance OpenAccount_inv cmd : Keeps inv (OpenAccount s cmd).
Proof using Safe. intros w Hi. by apply OpenAccount_safe. Qed.
#[global] Instance RecordTransaction_inv cmd : Keeps inv (RecordTransaction s cmd).
Proof using Safe. intros w Hi. by apply RecordTransaction_safe. Qed.
#[global] Instance getOrCreateSystemAccount_inv name ty cur :
  Keeps inv (getOrCreateSystemAccount s name ty cur).
Proof using Safe. intros w Hi. by apply getOrCreateSystemAccount_safe. Qed.
#[global] Instance Deposit_inv id amt cur d : Keeps inv (Deposit s id amt cur d).
Proof using Safe. unfold Deposit, getOrCreateSystemEquity. apply _. Qed.

(** ** Histories of calls *)

Inductive call :=
| CallOpenAccount (cmd : OpenAccountCmd)
| CallRecordTransaction (cmd : RecordTransactionCmd)
| CallDeposit (id : AccountID) (amount : Z) (currency : Currency) (description : string)
| CallGetBalance (id : AccountID).

Definition run_call (c : call) : M W unit :=
  match c with
  | CallOpenAccount cmd => let! _ := OpenAccount s cmd in ret tt
  | CallRecordTransaction cmd => let! _ := RecordTransaction s cmd in ret tt
  | CallDeposit id amount cur d => Deposit s id amount cur d
  | CallGetBalance id => let! _ := GetBalance s id in ret tt
  end.

(** One call that returns without an error. *)
Inductive serves : W -> W -> Prop :=
| serve c w w' : run_call c w = (Ok tt, w') -> serves w w'.

Lemma serves_run c w : is_Ok (run_call c w).1 = true -> serves w (run_call c w).2.
Proof. intros ([] & w' & H)%is_Ok_run. rewrite H. by econstructor. Qed.

Lemma serves_inv w w' :
  serves w w' -> inv w ->
  inv w' /\ forall cur, holdings cur (view w') ≡64 holdings cur (view w).
Proof using Safe.
  intros [c w1 w2 H] Hi. destruct c as [cmd|cmd|id amt cur d|id]; simpl in H.
  - go_inv. match goal with H : OpenAccount _ _ _ = _ |- _ => rename H into Ho end.
    destruct (OpenAccount_safe cmd w1 Hi) as [Hi' _].
    pose proof (fun cur => OpenAccount_holdings cur cmd w1 Hi) as Hh.
    rewrite Ho in Hi', Hh. split; [done|]. intros cur. by rewrite <- Hh.
  - go_inv. match goal with H : RecordTransaction _ _ _ = _ |- _ => rename H into Hr end.
    destruct (RecordTransaction_Ok _ _ _ _ Hi Hr) as [Hi' _]. split; [done|].
    intros cur. by eapply RecordTransaction_holdings.
  - by eapply Deposit_Ok.
  - unfold GetBalance in H. go_inv.
    match goal with H : Repository_FindByID _ _ _ = _ |- _ => rename H into Hf end.
    split; [exact (keeps_eq inv _ _ _ _ Hf Hi)|]. intros cur.
    by rewrite (preserves_eq view _ _ _ _ Hf).
Qed.

Lemma history_inv w w' :
  rtc serves w w' -> inv w ->
  inv w' /\ forall cur, holdings cur (view w') ≡64 holdings cur (view w).
Proof using Safe.
  induction 1 as [w|w1 w2 w3 Hs _ IH]; [done|]. intros Hi.
  destruct (serves_inv _ _ Hs Hi) as [Hi2 H2]. destruct (IH Hi2) as [Hi3 H3].
  split; [done|]. intros cur. by rewrite H3, H2.
Qed.
End safety.
