(* ===== verification/LedgerLive.v ===== *)
(** * The write side implements the abstract ledger exactly, when nothing fails

    [LiveService] adds to [SafeService] what holds while the storage answers:
    [ready w]. Under it the outcome of every method is the one the abstract
    ledger prescribes: [RecordTransaction] succeeds exactly when the command is
    valid and no posting is refused, and [getOrCreateSystemAccount] finds the
    account it made. *)
From S2P Require Import Prelude Go Identifiers Money Transaction Account Book Events Ports.
From S2P Require Import LedgerService LedgerSafety.
From stdpp Require Import base gmap strings list.
Local Open Scope Z_scope.

Section live.
Context {U : UuidLib} {W : Type} `{R : !Runtime W}.
Notation key := AccountID_String.

(** [unlogged w u]: the id [u] has been drawn and no event is stored under it. *)
Class LiveService (s : LedgerService W) (view : W -> book) (inv ready : W -> Prop)
    (unlogged : UUID -> W -> Prop) : Prop := {
  live_repository :: LiveRepository (LS_accounts s) view inv ready;
  live_now_ready :: Keeps ready time_Now;
  live_uuid_ready :: Keeps ready uuid_NewV7;
  live_clock w : ready w -> 0 <= Rfc3339.year (time_Now w).1 <= 9999;
  live_uuid_unlogged w : ready w -> unlogged (uuid_NewV7 w).1 (uuid_NewV7 w).2;
  live_now_unlogged u :: Keeps (unlogged u) time_Now;
  live_find_unlogged u id :: Keeps (unlogged u) (Repository_FindByID (LS_accounts s) id);
  live_save_unlogged u a :: Keeps (unlogged u) (Repository_Save (LS_accounts s) a);
  live_tx_unlogged u tx :: Keeps (unlogged u) (TransactionRepository_Save (LS_transactions s) tx);
  live_tx_ready tx :: Keeps ready (TransactionRepository_Save (LS_transactions s) tx);
  live_tx tx w : ready w -> exists w', TransactionRepository_Save (LS_transactions s) tx w = (Ok tt, w');
  live_append u ty e w :
    ready w -> unlogged u w ->
    exists w', appendStored s (uuid_String u) ty 0 [e] w = (Ok tt, w') /\ ready w';
  live_opened_ready e :: Keeps ready (projectAccountOpened s e);
  live_recorded_ready e :: Keeps ready (projectTransactionRecorded s e);
}.

Context {s : LedgerService W} {view : W -> book} {inv ready : W -> Prop}
  {fresh : W -> UUID -> Prop} {unlogged : UUID -> W -> Prop}.
Context `{Safe : !SafeService s view inv fresh} `{Live : !LiveService s view inv ready unlogged}.

(** ** Postings *)

#[global] Instance applyEntry_ready e : Keeps ready (applyEntry s e).
Proof using Live. unfold applyEntry, entryOp. apply _. Qed.
#[global] Instance applyEntry_unlogged u e : Keeps (unlogged u) (applyEntry s e).
Proof using Live. unfold applyEntry, entryOp. apply _. Qed.
#[global] Instance forEach_ready es : Keeps ready (forEach es (applyEntry s)).
Proof using Live. induction es; simpl; apply _. Qed.
#[global] Instance forEach_unlogged u es : Keeps (unlogged u) (forEach es (applyEntry s)).
Proof using Live. induction es; simpl; apply _. Qed.

Lemma applyEntry_progress e w v' :
  inv w -> ready w -> book_post (Entry_params e) (view w) = Some v' ->
  (applyEntry s e w).1 = Ok tt.
Proof using Safe Live.
  intros Hi Hr (c & c' & Hc & -> & Hp)%book_post_Some. simpl in Hc.
  destruct (live_find _ _ _ Hr Hi Hc) as (a & w1 & Hf). unfold applyEntry.
  rewrite (bind_run _ _ _ _ _ (wrapErr_run _ _ _ _ _ Hf)).
  pose proof (safe_find_Ok _ _ _ _ Hf) as Hv. rewrite Hc in Hv. simplify_eq.
  pose proof (entryOp_refines a e w1 (proj2 (safe_inv_wf _ Hi _ _ Hc))) as Href.
  rewrite Hp in Href.
  assert (Hr2 : ready (entryOp a e w1).2).
  { unfold entryOp. apply keeps. exact (keeps_eq ready _ _ _ _ Hf Hr). }
  destruct (entryOp a e w1) as [[a'|er] w2] eqn:Ho; [|done].
  rewrite (bind_run _ _ _ _ _ (wrapErr_run _ _ _ _ _ Ho)).
  destruct (live_save a' w2 Hr2) as [w3 Hs].
  by rewrite (wrapErr_run _ _ _ _ _ Hs).
Qed.

(** One iteration follows the specification exactly. *)
Lemma applyEntry_live e w :
  inv w -> ready w ->
  match book_post (Entry_params e) (view w) with
  | Some v' => (applyEntry s e w).1 = Ok tt /\ view (applyEntry s e w).2 = v'
  | None => (applyEntry s e w).1 <> Ok tt /\ view (applyEntry s e w).2 = view w
  end.
Proof using Safe Live.
  intros Hi Hr. destruct (applyEntry_safe e w Hi) as (_ & Hok & Hany).
  destruct (book_post (Entry_params e) (view w)) as [v'|] eqn:Hp.
  - pose proof (applyEntry_progress e w v' Hi Hr Hp) as H. split; [done|].
    specialize (Hok H). congruence.
  - split; [intros H; by specialize (Hok H)|]. by destruct Hany.
Qed.

Lemma applyEntries_live es w :
  inv w -> ready w ->
  is_Ok (forEach es (applyEntry s) w).1 = (book_posts (Entry_params <$> es) (view w)).2 /\
  view (forEach es (applyEntry s) w).2 = (book_posts (Entry_params <$> es) (view w)).1.
Proof using Safe Live.
  revert w. induction es as [|e es IH]; intros w Hi Hr; [done|].
  pose proof (applyEntry_live e w Hi Hr) as He.
  destruct (applyEntry_safe e w Hi) as (Hi1 & _ & _).
  pose proof (keeps (P:=ready) (m:=applyEntry s e) w Hr) as Hr1.
  csimpl. unfold bind. destruct (applyEntry s e w) as [[[]|er] w1]; cbn [fst snd] in *;
    destruct (book_post (Entry_params e) (view w)) as [v'|]; destruct He as [He1 He2]; try done.
  subst v'. by apply IH.
Qed.

(** ** RecordTransaction *)

Lemma json_Marshal_clock e w :
  ready w -> DomainEvent_OccurredAt e = (time_Now w).1 -> exists p, json_Marshal e = Ok p.
Proof using Live.
  intros Hr He. unfold json_Marshal, json_time. rewrite He.
  pose proof (live_clock w Hr) as [H1 H2]. apply Z.leb_le in H1, H2. rewrite H1, H2.
  simpl. eauto.
Qed.

Lemma appendEvent_live u ty e w :
  ready w -> unlogged u w -> (exists p, json_Marshal e = Ok p) ->
  exists w', appendEvent s (uuid_String u) ty 0 e w = (Ok tt, w') /\ ready w'.
Proof using Live.
  intros Hr Hu [p Hp]. unfold appendEvent, liftR. unfold bind, wrapErr. rewrite Hp. simpl.
  by apply live_append.
Qed.

Lemma emitRecorded_live cmd tx w :
  ready w -> unlogged (TransactionID_value (Transaction_id tx)) w ->
  exists w', emitRecorded (s:=s) cmd tx w = (Ok tx, w') /\ ready w'.
Proof using Live.
  intros Hr Hu. unfold emitRecorded. destruct (live_tx tx w Hr) as [w1 H1].
  rewrite (bind_run _ _ _ _ _ (wrapErr_run _ _ _ _ _ H1)).
  pose proof (keeps_eq ready _ _ _ _ H1 Hr) as Hr1.
  pose proof (keeps_eq (unlogged _) _ _ _ _ H1 Hu) as Hu1.
  rewrite bindS_run. set (event := MkTransactionRecordedEvent _ _ _ _ _).
  destruct (appendEvent_live (TransactionID_value (Transaction_id tx)) "transaction"
              (TransactionRecorded event) (time_Now w1).2) as (w2 & H2 & Hr2).
  { by apply keeps. } { by apply (keeps (P:=unlogged _)). } { by eapply json_Marshal_clock. }
  rewrite (bind_run _ _ _ _ _ (wrapErr_run _ _ _ _ _ H2)), bindS_run.
  eexists. split; [done|]. by apply keeps.
Qed.

#[global] Instance newEntries_ready ps now : Keeps ready (newEntries ps now).
Proof using Live. induction ps; simpl; unfold newEntry, GenerateEntryID; apply _. Qed.
#[global] Instance construct_ready ps d : Keeps ready (construct ps d).
Proof using Live. unfold construct, GenerateTransactionID. apply _. Qed.

Lemma construct_unlogged ps d w :
  ready w -> unlogged (TransactionID_value (Transaction_id (construct ps d w).1)) (construct ps d w).2.
Proof using Live.
  intros Hr. unfold construct, GenerateTransactionID. rewrite !bindS_run. simpl.
  apply live_uuid_unlogged. apply (keeps (P:=ready)). by apply keeps.
Qed.

(** The outcome is the one of the abstract ledger. *)
Lemma RecordTransaction_live cmd w :
  inv w -> ready w ->
  ready (RecordTransaction s cmd w).2 /\
  (valid_command cmd ->
     is_Ok (RecordTransaction s cmd w).1 =
       (book_posts (cmdParams <$> RTC_Entries cmd) (view w)).2 /\
     view (RecordTransaction s cmd w).2 =
       (book_posts (cmdParams <$> RTC_Entries cmd) (view w)).1) /\
  (~ valid_command cmd ->
     is_Ok (RecordTransaction s cmd w).1 = false /\ view (RecordTransaction s cmd w).2 = view w).
Proof using Safe Live.
  intros Hi Hr. rewrite RecordTransaction_steps.
  destruct (entryParams 0 (RTC_Entries cmd)) as [ps|er] eqn:Hps.
  2:{ split_and!; [done| |done]. intros [Hc _].
      assert (Hok : entryParams 0 (RTC_Entries cmd) = Ok (cmdParams <$> RTC_Entries cmd))
        by (by apply entryParams_Ok). congruence. }
  apply entryParams_Ok in Hps as [Hcur ->]. set (ps := cmdParams <$> RTC_Entries cmd).
  destruct (NewTransaction ps (RTC_Description cmd) w) as [[tx|er] w1] eqn:Ht.
  2:{ apply NewTransaction_Err_invalid in Ht as [Hno ->]. split_and!; [done| |done].
      by intros [_ ?]. }
  pose proof (preserves_eq view _ _ _ _ Ht) as Hv1.
  pose proof (keeps_eq inv _ _ _ _ Ht Hi) as Hi1.
  apply NewTransaction_Ok_inv in Ht as (Hvalid & -> & ->).
  assert (Hes : Entry_params <$> Transaction_entries (construct ps (RTC_Description cmd) w).1 = ps)
    by apply construct_spec.
  pose proof (construct_unlogged ps (RTC_Description cmd) w Hr) as Hu.
  assert (Hr1 : ready (construct ps (RTC_Description cmd) w).2) by (by apply keeps).
  destruct (construct ps (RTC_Description cmd) w) as [tx w1]. cbn [fst snd] in *.
  destruct (applyEntries_live (Transaction_entries tx) w1 Hi1 Hr1) as [Hok Hv].
  rewrite Hes, Hv1 in Hok, Hv.
  pose proof (keeps (P:=ready) (m:=forEach (Transaction_entries tx) (applyEntry s)) w1 Hr1) as Hr2.
  pose proof (keeps (P:=unlogged _) (m:=forEach (Transaction_entries tx) (applyEntry s)) w1 Hu) as Hu2.
  assert (Hcmd : valid_command cmd) by done.
  destruct (forEach (Transaction_entries tx) (applyEntry s) w1) as [[[]|er] w2]; cbn [fst snd] in *.
  - destruct (emitRecorded_live cmd tx w2 Hr2 Hu2) as (w3 & He & Hr3).
    pose proof (preserves_eq view _ _ _ _ He) as Hv3. rewrite He. cbn [fst snd] in *.
    rewrite Hv3. by split_and!.
  - by split_and!.
Qed.

(** ** OpenAccount *)

Lemma OpenAccount_live cmd w :
  inv w -> ready w -> OAC_Name cmd <> "" -> validCurrency (OAC_Currency cmd) = true ->
  exists acc w', OpenAccount s cmd w = (Ok acc, w') /\ ready w'.
Proof using Safe Live.
  intros Hi Hr Hn Hc. rewrite OpenAccount_steps.
  destruct (NewAccountWithType_run (OAC_Name cmd) (commandAccountType (OAC_AccountType cmd))
              (OAC_Currency cmd) w Hn Hc) as (acc & w1 & H1). rewrite H1.
  apply NewAccountWithType_Ok_inv in H1 as (_ & _ & u & -> & -> & Hcore).
  assert (Hrt : ready (time_Now w).2) by (by apply keeps).
  pose proof (live_uuid_unlogged _ Hrt) as Hu. apply (keeps (P:=ready) (m:=uuid_NewV7)) in Hrt.
  destruct (uuid_NewV7 (time_Now w).2) as [u w1]. cbn [fst snd] in *.
  destruct (live_save acc w1 Hrt) as [w2 H2]. rewrite H2.
  pose proof (keeps_eq ready _ _ _ _ H2 Hrt) as Hr2.
  pose proof (keeps_eq (unlogged u) _ _ _ _ H2 Hu) as Hu2.
  unfold emitOpened. rewrite bindS_run. set (event := MkAccountOpenedEvent _ _ _ _ _ _).
  assert (Hid : key (Account_id acc) = uuid_String u).
  { by rewrite (core_inj_id _ _ Hcore). }
  rewrite Hid. destruct (appendEvent_live u "account" (AccountOpened event) (time_Now w2).2)
    as (w3 & H3 & Hr3).
  { by apply keeps. } { by apply (keeps (P:=unlogged u)). } { by eapply json_Marshal_clock. }
  rewrite (bind_run _ _ _ _ _ (wrapErr_run _ _ _ _ _ H3)), bindS_run.
  eexists _, _. split; [done|]. by apply keeps.
Qed.

(** ** System accounts *)

(** [k] is the key of the one account called [name]. *)
Definition sole (name : string) (v : book) (k : string) : Prop :=
  (exists c, v !! k = Some c /\ ac_name c = name) /\
  (forall k' c', v !! k' = Some c' -> ac_name c' = name -> k' = k).

Definition unnamed (name : string) (v : book) : Prop :=
  forall k c, v !! k = Some c -> ac_name c <> name.

Lemma FindAll_named w l w' name :
  inv w -> Repository_FindAll (LS_accounts s) w = (Ok l, w') ->
  match find_first (fun acc => bool_decide (Account_name acc = name)) l with
  | Some acc => view w !! key (Account_id acc) = Some (core acc) /\ Account_name acc = name
  | None => unnamed name (view w)
  end.
Proof using Safe.
  intros Hi Hall. destruct (find_first _ l) as [acc|] eqn:Hf.
  - apply find_first_Some in Hf as [Hin Hb]. bool_prop. split; [|done].
    exact (FindAll_lookup _ _ _ _ Hi Hall Hin).
  - intros k c Hk Hn. rewrite find_first_None in Hf.
    assert (Hc : c ∈ core <$> l).
    { rewrite (safe_all_Ok w l w' Hi Hall). apply list_elem_of_fmap. exists (k, c).
      split; [done|]. by apply elem_of_map_to_list. }
    apply list_elem_of_fmap in Hc as (a & -> & Ha). specialize (Hf a Ha). simpl in Hf.
    by apply bool_decide_eq_false in Hf.
Qed.

Lemma getOrCreateSystemAccount_sole name ty cur w k c :
  inv w -> ready w -> sole name (view w) k -> view w !! k = Some c ->
  exists acc w', getOrCreateSystemAccount s name ty cur w = (Ok acc, w') /\
    core acc = c /\ key (Account_id acc) = k /\ view w' = view w /\ inv w' /\ ready w'.
Proof using Safe Live.
  intros Hi Hr [(c0 & Hc0 & Hn0) Huniq] Hc. rewrite getOrCreateSystemAccount_steps.
  destruct (live_all w Hr Hi) as (l & w1 & Hall). rewrite Hall.
  pose proof (FindAll_named w l w1 name Hi Hall) as Hf.
  destruct (find_first _ l) as [acc|]; [|by apply Hf in Hc0].
  destruct Hf as [Hv Hname]. pose proof (Huniq _ _ Hv Hname) as Hk.
  exists acc, w1. split; [done|]. rewrite Hk in Hv. split_and!; [congruence|done|..].
  - exact (preserves_eq view _ _ _ _ Hall).
  - exact (keeps_eq inv _ _ _ _ Hall Hi).
  - exact (keeps_eq ready _ _ _ _ Hall Hr).
Qed.

Lemma getOrCreateSystemAccount_unnamed name ty cur w :
  inv w -> ready w -> unnamed name (view w) -> name <> "" -> validCurrency cur = true ->
  exists acc w' u, getOrCreateSystemAccount s name ty cur w = (Ok acc, w') /\
    view w !! uuid_String u = None /\ core acc = opened u (MkOpenAccountCmd name ty cur) /\
    view w' = <[uuid_String u := core acc]> (view w) /\ inv w' /\ ready w'.
Proof using Safe Live.
  intros Hi Hr Hun Hn Hcur. rewrite getOrCreateSystemAccount_steps.
  destruct (live_all w Hr Hi) as (l & w1 & Hall). rewrite Hall.
  pose proof (FindAll_named w l w1 name Hi Hall) as Hf.
  pose proof (preserves_eq view _ _ _ _ Hall) as Hv1.
  destruct (find_first _ l) as [acc|]; [destruct Hf as [Hv Hname]; by apply Hun in Hv|].
  set (cmd := MkOpenAccountCmd name ty cur).
  assert (Hi1 : inv w1) by exact (keeps_eq inv _ _ _ _ Hall Hi).
  destruct (OpenAccount_live cmd w1) as (acc & w2 & Ho & Hr2); try done.
  { exact (keeps_eq ready _ _ _ _ Hall Hr). }
  destruct (OpenAccount_safe cmd w1 Hi1) as (Hi2 & u & Hnone & _ & Hok).
  rewrite Ho in Hi2, Hok |- *. destruct (Hok acc eq_refl) as (Hcore & _ & _ & Hv2).
  exists acc, w2, u. rewrite Hv1 in Hnone, Hv2. rewrite Hcore. by split_and!.
Qed.

Lemma sole_opened name v u c :
  unnamed name v -> ac_name c = name -> sole name (<[uuid_String u := c]> v) (uuid_String u).
Proof.
  intros Hun Hc. split; [exists c; split; [apply lookup_insert_eq|done]|].
  intros k' c'. rewrite lookup_insert_Some. intros [[<- _]|[_ Hk']] Hn; [done|].
  by apply Hun in Hk'.
Qed.

(** Posting renames nothing. *)
Lemma book_post_sole name k p v v' : book_post p v = Some v' -> sole name v k -> sole name v' k.
Proof.
  intros (c & c' & Hc & -> & Hp)%book_post_Some [(c0 & Hc0 & Hn0) Huniq].
  destruct (post_entry_static _ _ _ Hp) as (_ & (Hname & _ & _) & _). split.
  - destruct (decide (key (EntryParams_AccountID p) = k)) as [<-|Hne].
    + exists c'. split; [apply lookup_insert_eq|]. congruence.
    + exists c0. by rewrite lookup_insert_ne.
  - intros k' d. rewrite lookup_insert_Some. intros [[<- <-]|[_ Hd]] Hn; [|by eapply Huniq].
    eapply Huniq; [done|]. congruence.
Qed.

Lemma book_posts_sole name k ps v : sole name v k -> sole name (book_posts ps v).1 k.
Proof.
  revert v. induction ps as [|p ps IH]; intros v Hs; simpl; [done|].
  destruct (book_post p v) eqn:E; [|done]. by eapply IH, book_post_sole.
Qed.

(** ** The abstract ledger's operations *)

#[global] Instance params_currency_dec ps : Decision (exists c, Forall (EntryParams_in c) ps).
Proof.
  destruct ps as [|p ps]; [left; by exists USD|].
  destruct (decide (Forall (EntryParams_in (Money_currency (EntryParams_Amount p))) ps)) as [H|H].
  - left. eexists. by constructor.
  - right. intros [c [Hp Hps]%Forall_cons]. unfold EntryParams_in in Hp. by subst c.
Defined.
#[global] Instance eqm64_dec a b : Decision (a ≡64 b).
Proof. unfold eqm64. apply _. Defined.
#[global] Instance params_valid_dec ps : Decision (params_valid ps).
Proof. unfold params_valid. apply _. Defined.
#[global] Instance valid_command_dec cmd : Decision (valid_command cmd).
Proof. unfold valid_command, currencies_valid. apply _. Defined.

(** Recording a transaction: the ledger it leaves, and whether it succeeds. *)
Definition ledger_record (cmd : RecordTransactionCmd) (v : book) : book * bool :=
  if decide (valid_command cmd) then book_posts (cmdParams <$> RTC_Entries cmd) v else (v, false).

Lemma RecordTransaction_record cmd w :
  inv w -> ready w ->
  (view (RecordTransaction s cmd w).2, is_Ok (RecordTransaction s cmd w).1) =
    ledger_record cmd (view w) /\
  inv (RecordTransaction s cmd w).2 /\ ready (RecordTransaction s cmd w).2.
Proof using Safe Live.
  intros Hi Hr. destruct (RecordTransaction_live cmd w Hi Hr) as (Hr' & Hv & Hnv).
  split; [|by split; [apply keeps|]]. unfold ledger_record. destruct (decide _) as [H|H].
  - destruct (Hv H) as [-> ->]. by destruct (book_posts _ _).
  - by destruct (Hnv H) as [-> ->].
Qed.

(** A pair of opposite legs of a nonzero amount in a supported currency. *)
Lemma pair_command_valid id1 id2 amt cur ty1 ty2 d :
  validCurrency cur = true -> amt <> 0 ->
  (ty1 = Debit /\ ty2 = Credit) \/ (ty1 = Credit /\ ty2 = Debit) ->
  valid_command (MkRecordTransactionCmd [MkEntryCmd id1 amt cur ty1; MkEntryCmd id2 amt cur ty2] d).
Proof.
  intros Hc Ha Hty. split; [by repeat constructor|]. split_and!.
  - simpl; lia.
  - by repeat constructor.
  - exists cur. by repeat constructor.
  - apply eqm64_eq. unfold params_debits, params_credits, debit_part, credit_part; simpl.
    destruct Hty as [[-> ->]|[-> ->]]; simpl; lia.
Qed.

(** A deposit when the currency has its one equity account. *)
Definition deposit_legs (eq id : AccountID) (amt : Z) (cur : Currency) : list EntryParams :=
  [MkEntryParams eq (MkMoney amt cur) Debit; MkEntryParams id (MkMoney amt cur) Credit].

Lemma Deposit_live id amt cur d w k ce :
  inv w -> ready w -> sole (equityName cur) (view w) k -> view w !! k = Some ce ->
  validCurrency cur = true -> amt <> 0 ->
  (view (Deposit s id amt cur d w).2, is_Ok (Deposit s id amt cur d w).1) =
    book_posts (deposit_legs (ac_id ce) id amt cur) (view w) /\
  ready (Deposit s id amt cur d w).2.
Proof using Safe Live.
  intros Hi Hr Hs Hk Hc Ha.
  destruct (getOrCreateSystemAccount_sole (equityName cur) "EQUITY" cur w k ce Hi Hr Hs Hk)
    as (acc & w1 & Hg & Hcore & _ & Hv & Hi1 & Hr1).
  unfold Deposit, getOrCreateSystemEquity.
  rewrite (bind_run _ _ _ _ _ (wrapErr_run _ _ _ _ _ Hg)).
  rewrite (core_inj_id _ _ Hcore). set (cmd := MkRecordTransactionCmd _ _).
  destruct (RecordTransaction_record cmd w1 Hi1 Hr1) as (Hrec & _ & Hr2).
  unfold ledger_record in Hrec.
  rewrite decide_True, Hv in Hrec by (apply pair_command_valid; auto).
  change (cmdParams <$> RTC_Entries cmd) with (deposit_legs (ac_id ce) id amt cur) in Hrec.
  rewrite <- Hrec. unfold bind. by destruct (RecordTransaction s cmd w1) as [[tx|e] w2].
Qed.
End live.
