(* ===== verification/Concurrency.v ===== *)
(** * Concurrent transactions

    The accounts are not locked between [FindByID] and [Save] of the loop of
    [RecordTransaction] (internal/app/ledger_service.go), so that the loops of
    concurrent requests interleave there. [post_step] is one such step, and
    [post_steps] runs one loop alone, as [forEach] does. *)
From S2P Require Import Prelude Go Identifiers Money Transaction Account Book Events Ports.
From S2P Require Import LedgerService LedgerSafety LedgerLive.
From stdpp Require Import base gmap strings list.
Local Open Scope string_scope.
Local Open Scope list_scope.
Local Open Scope Z_scope.

(** ** Postings touch the accounts they name *)
Section local.
Context {U : UuidLib}.

Definition names (k : string) (p : EntryParams) : Prop := AccountID_String (EntryParams_AccountID p) = k.

#[global] Instance names_dec k p : Decision (names k p).
Proof. unfold names. apply _. Defined.

Lemma book_posts_outside ps v k :
  (forall p, p ∈ ps -> ~ names k p) -> (book_posts ps v).1 !! k = v !! k.
Proof.
  revert v. induction ps as [|p ps IH]; intros v Hk; simpl; [done|].
  destruct (book_post p v) as [v1|] eqn:E; [|done].
  apply book_post_Some in E as (c & c' & _ & -> & _).
  rewrite IH by (intros q Hq; apply Hk; by constructor).
  apply lookup_insert_ne. apply (Hk p). constructor.
Qed.

(** Postings read and write only the accounts they name. *)
Lemma book_posts_local ps v v' :
  (forall p k, p ∈ ps -> names k p -> v !! k = v' !! k) ->
  (book_posts ps v).2 = (book_posts ps v').2 /\
  forall k, v !! k = v' !! k -> (book_posts ps v).1 !! k = (book_posts ps v').1 !! k.
Proof.
  revert v v'. induction ps as [|p ps IH]; intros v v' H; simpl; [done|].
  assert (Hp : v !! AccountID_String (EntryParams_AccountID p) = v' !! AccountID_String (EntryParams_AccountID p))
    by (apply (H p); [constructor|done]).
  unfold book_post. rewrite Hp.
  destruct (v' !! AccountID_String (EntryParams_AccountID p)) as [c|]; [|done].
  destruct (post_entry p c) as [c'|]; [|done].
  assert (Hins : forall k, v !! k = v' !! k ->
    <[AccountID_String (EntryParams_AccountID p) := c']> v !! k = <[AccountID_String (EntryParams_AccountID p) := c']> v' !! k).
  { intros k Hk. rewrite !lookup_insert. by case_decide. }
  destruct (IH (<[AccountID_String (EntryParams_AccountID p) := c']> v) (<[AccountID_String (EntryParams_AccountID p) := c']> v'))
    as [H1 H2].
  { intros q k Hq Hn. apply Hins. apply (H q); [by constructor|done]. }
  split; [exact H1|]. intros k Hk. by apply H2, Hins.
Qed.

(** [names_in l k]: some posting of [l] names [k]. *)
Definition names_in (l : list EntryParams) (k : string) : Prop := exists p, p ∈ l /\ names k p.

Definition disjoint_names (ls : list (list EntryParams)) : Prop :=
  forall i j l l' k, ls !! i = Some l -> ls !! j = Some l' -> names_in l k -> names_in l' k -> i = j.

Lemma disjoint_names_cons l ls :
  disjoint_names (l :: ls) ->
  disjoint_names ls /\ forall l' k, l' ∈ ls -> names_in l k -> ~ names_in l' k.
Proof.
  intros H. split.
  - intros i j a b k Ha Hb Hka Hkb. apply (Nat.succ_inj i j). by apply (H (S i) (S j) a b k).
  - intros l' k [j Hj]%list_elem_of_lookup Hk Hk'. by specialize (H 0%nat (S j) l l' k eq_refl Hj Hk Hk').
Qed.

(** Lists of postings on disjoint accounts, each accepted on its own, are
    accepted one after the other, with the same effect on each account. *)
Lemma book_posts_concat ls v0 v :
  disjoint_names ls ->
  (forall l, l ∈ ls -> (book_posts l v0).2 = true) ->
  (forall l k, l ∈ ls -> names_in l k -> v !! k = v0 !! k) ->
  exists b, book_posts (concat ls) v = (b, true) /\
    (forall l k, l ∈ ls -> names_in l k -> b !! k = (book_posts l v0).1 !! k) /\
    (forall k, (forall l, l ∈ ls -> ~ names_in l k) -> b !! k = v !! k).
Proof.
  revert v. induction ls as [|l ls IH]; intros v Hd Hok Hv; simpl.
  { exists v. split_and!; [done| |done]. intros l k Hl. by apply elem_of_nil in Hl. }
  apply disjoint_names_cons in Hd as [Hd Hdl].
  destruct (book_posts_local l v v0) as [Hl1 Hl2].
  { intros p k Hp Hn. apply (Hv l); [constructor|by exists p]. }
  rewrite (Hok l) in Hl1 by constructor.
  destruct (IH (book_posts l v).1) as (b & Hb & Hin & Hout); [done|..].
  { intros l' Hl'. apply Hok. by constructor. }
  { intros l' k Hl' Hk. rewrite book_posts_outside; [apply (Hv l'); [by constructor|done]|].
    intros p Hp Hn. apply (Hdl l' k Hl'); [by exists p|done]. }
  exists b. rewrite book_posts_app, Hl1. split; [exact Hb|]. split.
  - intros l' k [->|Hl']%elem_of_cons Hk; [|by apply Hin].
    rewrite Hout by (intros l' Hl'; by apply Hdl). apply Hl2. apply (Hv l); [constructor|done].
  - intros k Hk. rewrite Hout by (intros l' Hl'; apply Hk; by constructor).
    apply book_posts_outside. intros p Hp Hn. apply (Hk l); [constructor|by exists p].
Qed.
End local.

(** ** The steps of the loop *)
Section steps.
Context {U : UuidLib} {W : Type} `{R : !Runtime W}.
Context (s : LedgerService W).

(** Where the second loop of [RecordTransaction] stands. *)
Inductive posting :=
| Loop (entries : list Entry)                                  (* before an iteration *)
| Loaded (acc : Account) (entry : Entry) (entries : list Entry) (* the changed account, not saved *)
| Posted (r : res unit).                                       (* after the loop *)

(** An iteration up to [Save]. *)
Definition load_entry (entry : Entry) : M W Account :=
  let id := AccountID_String (Entry_accountID entry) in
  let! acc := wrapErr ("find account " +:+ id)
                (Repository_FindByID (LS_accounts s) (Entry_accountID entry)) in
  wrapErr ("apply " +:+ Entry_entryType entry +:+ " to account " +:+ id) (entryOp acc entry).

Definition save_entry (acc : Account) (entry : Entry) : M W unit :=
  wrapErr ("save account " +:+ AccountID_String (Entry_accountID entry))
    (Repository_Save (LS_accounts s) acc).

(** From one access to the repository to the next. *)
Definition post_step (p : posting) : St W posting :=
  match p with
  | Loop [] => retS (Posted (Ok tt))
  | Loop (entry :: entries) =>
      let@ r := load_entry entry in
      retS match r with
           | Err e => Posted (Err e)
           | Ok acc => Loaded acc entry entries
           end
  | Loaded acc entry entries =>
      let@ r := save_entry acc entry in
      retS match r with
           | Err e => Posted (Err e)
           | Ok _ => Loop entries
           end
  | Posted r => retS (Posted r)
  end.

Fixpoint post_steps (n : nat) (p : posting) : St W posting :=
  match n with
  | 0%nat => retS p
  | S n => let@ p := post_step p in post_steps n p
  end.

(** The loops of concurrent requests, and the world they share. *)
Inductive post_interleave : list posting * W -> list posting * W -> Prop :=
| post_one l w i p :
    l !! i = Some p ->
    post_interleave (l, w) (<[i := (post_step p w).1]> l, (post_step p w).2).

(** The interleaving in which the loop number [i] steps for each [i] of [order]. *)
Fixpoint schedule (order : list nat) (c : list posting * W) : list posting * W :=
  match order with
  | [] => c
  | i :: order =>
      match c.1 !! i with
      | Some p => schedule order (<[i := (post_step p c.2).1]> c.1, (post_step p c.2).2)
      | None => schedule order c
      end
  end.

Lemma schedule_runs order c : rtc post_interleave c (schedule order c).
Proof.
  revert c. induction order as [|i order IH]; intros [l w]; simpl; [apply rtc_refl|].
  destruct (l !! i) as [p|] eqn:E; [|apply IH]. eapply rtc_l; [by apply post_one|apply IH].
Qed.

Lemma post_steps_S n p w :
  post_steps (S n) p w = post_steps n (post_step p w).1 (post_step p w).2.
Proof. apply bindS_run. Qed.

Lemma post_steps_Posted n r w : post_steps n (Posted r) w = (Posted r, w).
Proof. induction n as [|n IH]; [done|]. by rewrite post_steps_S. Qed.

Lemma post_step_load e es w :
  post_step (Loop (e :: es)) w =
  (match (load_entry e w).1 with Err er => Posted (Err er) | Ok acc => Loaded acc e es end,
   (load_entry e w).2).
Proof. unfold post_step. by rewrite bindS_run. Qed.

Lemma post_step_save acc e es w :
  post_step (Loaded acc e es) w =
  (match (save_entry acc e w).1 with Err er => Posted (Err er) | Ok _ => Loop es end,
   (save_entry acc e w).2).
Proof. unfold post_step. by rewrite bindS_run. Qed.

Lemma applyEntry_split e w :
  applyEntry s e w =
  match load_entry e w with
  | (Ok acc, w1) => save_entry acc e w1
  | (Err er, w1) => (Err er, w1)
  end.
Proof.
  unfold applyEntry, load_entry, bind. by destruct (wrapErr _ (Repository_FindByID _ _) w) as [[a|er] w1].
Qed.

(** A loop alone is the loop of the source. *)
Lemma post_steps_alone es w :
  post_steps (S (2 * length es)) (Loop es) w =
  (Posted (forEach es (applyEntry s) w).1, (forEach es (applyEntry s) w).2).
Proof.
  revert w. induction es as [|e es IH]; intros w; [done|].
  replace (S (2 * length (e :: es))) with (S (S (S (2 * length es)))) by (simpl; lia).
  rewrite post_steps_S, post_step_load. cbn [fst snd forEach]. unfold bind at 1 2.
  rewrite applyEntry_split. destruct (load_entry e w) as [[acc|er] w1]; cbn [fst snd].
  - rewrite post_steps_S, post_step_save. cbn [fst snd].
    destruct (save_entry acc e w1) as [[[]|er] w2]; cbn [fst snd]; [apply IH|].
    apply post_steps_Posted.
  - apply post_steps_Posted.
Qed.
End steps.
Arguments posting {_}.

(** ** Loops on disjoint accounts *)
Section tracks.
Context {U : UuidLib} {W : Type} `{R : !Runtime W}.
Context {s : LedgerService W} {view : W -> book} {inv : W -> Prop} {fresh : W -> UUID -> Prop}.
Context `{Safe : !SafeService s view inv fresh}.

Definition entries_name (es : list Entry) (k : string) : Prop := names_in (Entry_params <$> es) k.

(** [v] is, on the accounts that [es] names, [v0] after the entries [done]. *)
Definition reached (v0 v : book) (es done : list Entry) : Prop :=
  (book_posts (Entry_params <$> done) v0).2 = true /\
  forall k, entries_name es k -> v !! k = (book_posts (Entry_params <$> done) v0).1 !! k.

(** A loop over [es], seen from the accounts it names. *)
Definition tracks (v0 : book) (es : list Entry) (p : posting) (v : book) : Prop :=
  match p with
  | Loop rest => exists done, es = done ++ rest /\ reached v0 v es done
  | Loaded acc e rest => exists done c, es = done ++ e :: rest /\ reached v0 v es done /\
      v !! AccountID_String (Entry_accountID e) = Some c /\
      post_entry (Entry_params e) c = Ok (core acc)
  | Posted (Ok _) => reached v0 v es es
  | Posted (Err _) => True
  end.

Lemma entries_name_in es e rest done :
  es = done ++ e :: rest -> entries_name es (AccountID_String (Entry_accountID e)).
Proof.
  intros ->. exists (Entry_params e). split; [|done].
  apply list_elem_of_fmap_2. apply elem_of_app. right. constructor.
Qed.

Lemma tracks_local v0 es p v v' :
  tracks v0 es p v -> (forall k, entries_name es k -> v' !! k = v !! k) -> tracks v0 es p v'.
Proof.
  intros Ht Hv. assert (Hr : forall done, reached v0 v es done -> reached v0 v' es done).
  { intros done [H1 H2]. split; [done|]. intros k Hk. rewrite Hv by done. by apply H2. }
  destruct p as [rest|acc e rest|[[]|er]]; simpl in *.
  - destruct Ht as (done & He & H). eauto.
  - destruct Ht as (done & c & He & H & Hc & Hp). exists done, c. split_and!; auto.
    rewrite Hv; [done|]. by eapply entries_name_in.
  - auto.
  - done.
Qed.

Lemma reached_snoc v0 v es done e c c' :
  reached v0 v es done -> entries_name es (AccountID_String (Entry_accountID e)) ->
  v !! AccountID_String (Entry_accountID e) = Some c -> post_entry (Entry_params e) c = Ok c' ->
  reached v0 (<[AccountID_String (Entry_accountID e) := c']> v) es (done ++ [e]).
Proof.
  intros [H1 H2] Hn Hc Hp.
  assert (Hb : (book_posts (Entry_params <$> done) v0).1 !! AccountID_String (Entry_accountID e) = Some c)
    by (by rewrite <- H2).
  unfold reached. rewrite fmap_app, book_posts_app, H1. csimpl. unfold book_post. simpl.
  rewrite Hb, Hp. split; [done|]. intros k Hk. simpl. rewrite !lookup_insert. case_decide; [done|].
  by apply H2.
Qed.

Lemma load_entry_safe e w r w1 :
  inv w -> load_entry s e w = (r, w1) ->
  inv w1 /\ view w1 = view w /\
  forall acc, r = Ok acc -> exists c, view w !! AccountID_String (Entry_accountID e) = Some c /\
    post_entry (Entry_params e) c = Ok (core acc).
Proof using Safe.
  intros Hi H. unfold load_entry in H.
  pose proof (keeps_eq inv _ _ _ _ H Hi) as Hi1. pose proof (preserves_eq view _ _ _ _ H) as Hv.
  split_and!; [done..|]. intros acc ->. go_inv.
  match goal with H : Repository_FindByID _ _ _ = _ |- _ => rename H into Hf end.
  match goal with H : entryOp _ _ _ = _ |- _ => rename H into Ho end.
  pose proof (safe_find_Ok _ _ _ _ Hf) as Hc.
  match type of Ho with entryOp ?a _ ?w2 = _ =>
    pose proof (entryOp_refines a e w2 (proj2 (safe_inv_wf _ Hi _ _ Hc))) as Href end.
  rewrite Ho in Href. eexists. split; [exact Hc|].
  destruct (post_entry (Entry_params e) _) as [c'|]; [|done]. simpl in Href. by rewrite Href.
Qed.

Lemma save_entry_safe acc e w r w1 c :
  inv w -> save_entry s acc e w = (r, w1) ->
  view w !! AccountID_String (Entry_accountID e) = Some c ->
  post_entry (Entry_params e) c = Ok (core acc) ->
  let v' := <[AccountID_String (Entry_accountID e) := core acc]> (view w) in
  inv w1 /\ (r = Ok tt -> view w1 = v') /\ (view w1 = view w \/ view w1 = v').
Proof using Safe.
  intros Hi H Hc Hp. unfold save_entry, wrapErr in H.
  destruct (safe_inv_wf _ Hi _ _ Hc) as [Hk Hwf].
  destruct (post_entry_static _ _ _ Hp) as (Hid & Hsame & _).
  assert (Hkey : AccountID_String (Account_id acc) = AccountID_String (Entry_accountID e)).
  { rewrite Hk. f_equal. exact Hid. }
  destruct (safe_save_old acc w c Hi) as (Hi1 & Hok & Hany).
  { by eapply post_entry_wf. }
  { by rewrite Hkey. }
  { done. }
  rewrite Hkey in Hok, Hany. destruct (Repository_Save (LS_accounts s) acc w) as [[[]|er] w2];
    injection H as <- <-; (split_and!; [done|first [by auto|done]|done]).
Qed.

(** One step of a loop: it goes on tracking, and leaves other accounts alone. *)
Lemma post_step_tracks v0 es p w p' w' :
  inv w -> tracks v0 es p (view w) -> post_step s p w = (p', w') ->
  inv w' /\ tracks v0 es p' (view w') /\
  forall k, ~ entries_name es k -> view w' !! k = view w !! k.
Proof using Safe.
  intros Hi Ht H. destruct p as [[|e rest]|acc e rest|r].
  - injection H as <- <-. split_and!; [done| |done]. destruct Ht as (done & He & Hr).
    rewrite app_nil_r in He. by subst.
  - rewrite post_step_load in H. destruct (load_entry s e w) as [r w1] eqn:Hl.
    injection H as <- <-. destruct (load_entry_safe _ _ _ _ Hi Hl) as (Hi1 & Hv & Hok).
    cbn [fst snd]. rewrite Hv. split_and!; [done| |done]. destruct r as [acc|er]; [|done].
    destruct Ht as (done & He & Hr). destruct (Hok acc eq_refl) as (c & Hc & Hp). by exists done, c.
  - rewrite post_step_save in H. destruct (save_entry s acc e w) as [r w1] eqn:Hs.
    injection H as <- <-. destruct Ht as (done & c & He & Hr & Hc & Hp).
    destruct (save_entry_safe _ _ _ _ _ _ Hi Hs Hc Hp) as (Hi1 & Hok & Hany). cbn [fst snd].
    assert (Hn : entries_name es (AccountID_String (Entry_accountID e))) by (by eapply entries_name_in).
    split_and!; [done| |].
    + destruct r as [[]|er]; [|done]. rewrite Hok by done. exists (done ++ [e]).
      rewrite <- app_assoc. split; [done|]. by eapply reached_snoc.
    + intros k Hk. destruct Hany as [->| ->]; [done|]. apply lookup_insert_ne. by intros <-.
  - injection H as <- <-. done.
Qed.

(** ** All the loops *)

(** The loops [ess], which started in [v0], stand at [c]. *)
Definition all_track (v0 : book) (ess : list (list Entry)) (c : list posting * W) : Prop :=
  inv c.2 /\ length c.1 = length ess /\
  (forall i es p, ess !! i = Some es -> c.1 !! i = Some p -> tracks v0 es p (view c.2)) /\
  (forall k, (forall es, es ∈ ess -> ~ entries_name es k) -> view c.2 !! k = v0 !! k).

Definition disjoint_loops (ess : list (list Entry)) : Prop :=
  disjoint_names ((fun es : list Entry => Entry_params <$> es) <$> ess).

Lemma all_track_step v0 ess c c' :
  disjoint_loops ess -> post_interleave s c c' -> all_track v0 ess c -> all_track v0 ess c'.
Proof using Safe.
  intros Hd [l w i p Hp] (Hi & Hlen & Ht & Hout). cbn [fst snd] in *.
  destruct (post_step s p w) as [p' w'] eqn:Hs. cbn [fst snd].
  destruct (lookup_lt_is_Some_2 ess i) as [es Hes]; [rewrite <- Hlen; by eapply lookup_lt_Some|].
  destruct (post_step_tracks v0 es p w p' w' Hi (Ht _ _ _ Hes Hp) Hs) as (Hi' & Ht' & Hk).
  split_and!; [done|cbn [fst]; by rewrite length_insert| |]; cbn [fst snd].
  - intros j es' q Hj Hq. destruct (decide (i = j)) as [<-|Hne].
    { rewrite list_lookup_insert_eq in Hq by by eapply lookup_lt_Some. congruence. }
    rewrite list_lookup_insert_ne in Hq by done.
    apply (tracks_local v0 es' q (view w)); [by eapply Ht|]. intros k Hn. apply Hk. intros Hn'.
    apply Hne, (Hd i j (Entry_params <$> es) (Entry_params <$> es') k); try done;
      rewrite list_lookup_fmap; [by rewrite Hes|by rewrite Hj].
  - intros k Hn. rewrite Hk; [by apply Hout|]. apply Hn. by eapply list_elem_of_lookup_2.
Qed.

Lemma all_track_start ess w :
  inv w -> all_track (view w) ess (Loop <$> ess, w).
Proof.
  intros Hi. split_and!; simpl; [done|by rewrite length_fmap| |done].
  intros i es p He Hp. rewrite list_lookup_fmap, He in Hp. injection Hp as <-.
  by exists [].
Qed.
End tracks.
