(* ===== verification/Transfer.v ===== *)
(** * internal/domain/transfer/transfer.go

    The saga aggregate. A method with a pointer receiver is a function from
    the transfer to the transfer it leaves behind, with the error it returns.
    [SagaState] is an enumeration: the field is private and only ever set to
    one of the five constants. *)
From S2P Require Import Prelude Go Identifiers Money.
From stdpp Require Import base gmap strings list.
Local Open Scope Z_scope.

Definition ErrSameAccount : error :=
  errNew "transfer.ErrSameAccount" "cannot transfer to the same account".
Definition ErrInvalidTransition : error :=
  errNew "transfer.ErrInvalidTransition" "invalid saga state transition".

Inductive SagaState := Initiated | Debited | Completed | Failed | Compensated.

#[global] Instance SagaState_eq_dec : EqDecision SagaState.
Proof. solve_decision. Defined.

(** [string(s)]. *)
Definition SagaState_string (s : SagaState) : string :=
  match s with
  | Initiated => "INITIATED"
  | Debited => "DEBITED"
  | Completed => "COMPLETED"
  | Failed => "FAILED"
  | Compensated => "COMPENSATED"
  end.

Record SagaStep := MkSagaStep {
  SagaStep_Action : string;
  SagaStep_State : SagaState;
  SagaStep_Detail : string;
  SagaStep_Timestamp : time;
}.

Section transfer.
Context {U : UuidLib}.

Record Transfer := MkTransfer {
  Transfer_id : string;
  Transfer_fromAccount : AccountID;
  Transfer_toAccount : AccountID;
  Transfer_amount : Money;
  Transfer_description : string;
  Transfer_state : SagaState;
  Transfer_failReason : string;
  Transfer_steps : list SagaStep;
  Transfer_createdAt : time;
  Transfer_updatedAt : time;
}.

(** [t.state = s; t.failReason = r; t.updatedAt = now], and [t.steps = l]. *)
Definition with_state (t : Transfer) (s : SagaState) (r : string) (now : time) : Transfer :=
  MkTransfer (Transfer_id t) (Transfer_fromAccount t) (Transfer_toAccount t) (Transfer_amount t)
    (Transfer_description t) s r (Transfer_steps t) (Transfer_createdAt t) now.
Definition with_steps (t : Transfer) (l : list SagaStep) : Transfer :=
  MkTransfer (Transfer_id t) (Transfer_fromAccount t) (Transfer_toAccount t) (Transfer_amount t)
    (Transfer_description t) (Transfer_state t) (Transfer_failReason t) l
    (Transfer_createdAt t) (Transfer_updatedAt t).

Section methods.
Context {W : Type} `{R : !Runtime W}.

Definition addStep (action : string) (state : SagaState) (detail : string) (t : Transfer)
    : St W Transfer :=
  let@ now := time_Now in
  retS (with_steps t (Transfer_steps t ++ [MkSagaStep action state detail now])).

Definition NewTransfer (from to : AccountID) (amount : Money) (description : string)
    : M W Transfer :=
  if AccountID_Equals from to then throw ErrSameAccount
  else
    let@ now := time_Now in
    let@ id := uuid_NewV7 in
    let t := MkTransfer (uuid_String id) from to amount description Initiated "" [] now now in
    let@ t := addStep "transfer.initiated" Initiated "Transfer created" t in
    ret t.

Definition MarkDebited (t : Transfer) : St W (option error * Transfer) :=
  if negb (bool_decide (Transfer_state t = Initiated)) then retS (Some ErrInvalidTransition, t)
  else
    let@ now := time_Now in
    let@ t := addStep "source.debited" Debited "Source account debited"
                (with_state t Debited (Transfer_failReason t) now) in
    retS (None, t).

Definition MarkCompleted (t : Transfer) : St W (option error * Transfer) :=
  if negb (bool_decide (Transfer_state t = Debited)) then retS (Some ErrInvalidTransition, t)
  else
    let@ now := time_Now in
    let@ t := addStep "destination.credited" Completed "Transfer completed successfully"
                (with_state t Completed (Transfer_failReason t) now) in
    retS (None, t).

(** No guard on the current state. *)
Definition MarkFailed (reason : string) (t : Transfer) : St W Transfer :=
  let@ now := time_Now in
  addStep "transfer.failed" Failed reason (with_state t Failed reason now).

(** No guard on the current state. *)
Definition MarkCompensated (t : Transfer) : St W Transfer :=
  let@ now := time_Now in
  addStep "debit.reversed" Compensated "Compensating transaction applied"
    (with_state t Compensated (Transfer_failReason t) now).

(** ** The audit trail *)

Definition trail (t : Transfer) : list SagaState := SagaStep_State <$> Transfer_steps t.

(** What a transition does: the state is set, one step is appended, and
    nothing else changes. *)
Definition moved (t t' : Transfer) (s : SagaState) : Prop :=
  Transfer_state t' = s /\ trail t' = trail t ++ [s] /\
  Transfer_id t' = Transfer_id t /\ Transfer_fromAccount t' = Transfer_fromAccount t /\
  Transfer_toAccount t' = Transfer_toAccount t /\ Transfer_amount t' = Transfer_amount t.

Lemma addStep_trail a st d t (w : W) :
  trail (addStep a st d t w).1 = trail t ++ [st] /\
  Transfer_state (addStep a st d t w).1 = Transfer_state t.
Proof. unfold addStep, trail. rewrite bindS_run. simpl. by rewrite fmap_app. Qed.

Lemma NewTransfer_Ok_inv from to m d (w : W) t w' :
  NewTransfer from to m d w = (Ok t, w') ->
  from <> to /\ Transfer_state t = Initiated /\ trail t = [Initiated] /\
  Transfer_fromAccount t = from /\ Transfer_toAccount t = to /\ Transfer_amount t = m.
Proof.
  unfold NewTransfer. destruct (AccountID_Equals from to) eqn:E; [done|].
  rewrite !bindS_run. intros [= <- <-].
  unfold AccountID_Equals in E. bool_prop. split; [by intros ->|].
  unfold addStep. by rewrite bindS_run.
Qed.

Lemma NewTransfer_run from to m d (w : W) :
  from <> to -> exists t w', NewTransfer from to m d w = (Ok t, w').
Proof.
  intros Hne. unfold NewTransfer. destruct (AccountID_Equals from to) eqn:E.
  - unfold AccountID_Equals in E. bool_prop. destruct from, to. simpl in E. congruence.
  - rewrite !bindS_run. unfold ret. eauto.
Qed.

Lemma MarkFailed_moved r t (w : W) :
  moved t (MarkFailed r t w).1 Failed /\ Transfer_failReason (MarkFailed r t w).1 = r.
Proof.
  unfold MarkFailed, addStep, moved, trail. rewrite !bindS_run. simpl. by rewrite fmap_app.
Qed.

Lemma MarkCompensated_moved t (w : W) :
  moved t (MarkCompensated t w).1 Compensated /\
  Transfer_failReason (MarkCompensated t w).1 = Transfer_failReason t.
Proof.
  unfold MarkCompensated, addStep, moved, trail. rewrite !bindS_run. simpl. by rewrite fmap_app.
Qed.

Lemma MarkDebited_run t (w : W) :
  Transfer_state t = Initiated ->
  exists t', (MarkDebited t w).1 = (None, t') /\ moved t t' Debited.
Proof.
  intros Hs. unfold MarkDebited, addStep, moved, trail.
  rewrite bool_decide_eq_true_2 by done. cbn [negb]. rewrite !bindS_run. simpl.
  eexists. split; [done|]. simpl. by rewrite fmap_app.
Qed.

Lemma MarkCompleted_run t (w : W) :
  Transfer_state t = Debited ->
  exists t', (MarkCompleted t w).1 = (None, t') /\ moved t t' Completed.
Proof.
  intros Hs. unfold MarkCompleted, addStep, moved, trail.
  rewrite bool_decide_eq_true_2 by done. cbn [negb]. rewrite !bindS_run. simpl.
  eexists. split; [done|]. simpl. by rewrite fmap_app.
Qed.
End methods.
End transfer.
