(* ===== verification/TransferService.v ===== *)
(** * internal/app/transfer_service.go

    The saga orchestration: [Execute] and its three transactions. *)
From S2P Require Import Prelude Go Identifiers Money Transaction Account Book Events Ports.
From S2P Require Import LedgerService LedgerSafety LedgerLive Transfer.
From stdpp Require Import base gmap strings list.
Local Open Scope Z_scope.
Local Open Scope string_scope.

Section transfer_service.
Context {U : UuidLib} {W : Type} `{R : !Runtime W}.

Record TransferCmd := MkTransferCmd {
  TC_FromAccountID : AccountID;
  TC_ToAccountID : AccountID;
  TC_Amount : Z;
  TC_Currency : Currency;
  TC_Description : string;
}.

(** [TransferService] has the ledger service as its only field. *)
Context (ledgerSvc : LedgerService W).

(** The three transactions of the saga. In each, the suspense account is
    looked up (or created) while the command is built. *)
Definition debitSource (cmd : TransferCmd) : M W Transaction :=
  let@ suspense := suspenseAccountID ledgerSvc (TC_Currency cmd) in
  RecordTransaction ledgerSvc (MkRecordTransactionCmd
    [MkEntryCmd (TC_FromAccountID cmd) (TC_Amount cmd) (TC_Currency cmd) Debit;
     MkEntryCmd suspense (TC_Amount cmd) (TC_Currency cmd) Credit]
    ("Transfer out: " +:+ TC_Description cmd)).

Definition creditDestination (cmd : TransferCmd) : M W Transaction :=
  let@ suspense := suspenseAccountID ledgerSvc (TC_Currency cmd) in
  RecordTransaction ledgerSvc (MkRecordTransactionCmd
    [MkEntryCmd suspense (TC_Amount cmd) (TC_Currency cmd) Debit;
     MkEntryCmd (TC_ToAccountID cmd) (TC_Amount cmd) (TC_Currency cmd) Credit]
    ("Transfer in: " +:+ TC_Description cmd)).

Definition compensate (cmd : TransferCmd) : M W Transaction :=
  let@ suspense := suspenseAccountID ledgerSvc (TC_Currency cmd) in
  RecordTransaction ledgerSvc (MkRecordTransactionCmd
    [MkEntryCmd suspense (TC_Amount cmd) (TC_Currency cmd) Debit;
     MkEntryCmd (TC_FromAccountID cmd) (TC_Amount cmd) (TC_Currency cmd) Credit]
    ("Compensation: reverse debit for failed transfer: " +:+ TC_Description cmd)).

(** The pair [( *Transfer, error)] that [Execute] returns, both possibly nil. *)
Definition outcome : Type := option Transfer * option error.

Definition Execute (cmd : TransferCmd) : St W outcome :=
  match NewMoney (TC_Amount cmd) (TC_Currency cmd) with
  | Err e => retS (None, Some (errWrap "invalid amount" e))
  | Ok money =>
      let@ r := NewTransfer (TC_FromAccountID cmd) (TC_ToAccountID cmd) money
                  (TC_Description cmd) in
      match r with
      | Err e => retS (None, Some (errWrap "create transfer" e))
      | Ok saga =>
          (* Step 1: debit source account *)
          let@ r := debitSource cmd in
          match r with
          | Err e =>
              let@ saga := MarkFailed ("debit failed: " +:+ Error e) saga in
              retS (Some saga, Some (errWrap "saga step 1 (debit source)" e))
          | Ok _ =>
              let@ marked := MarkDebited saga in
              let '(err, saga) := marked in
              match err with
              | Some e => retS (Some saga, Some e)
              | None =>
                  (* Step 2: credit destination account *)
                  let@ r := creditDestination cmd in
                  match r with
                  | Err e =>
                      (* Compensation: reverse the debit *)
                      let@ saga := MarkFailed ("credit failed: " +:+ Error e) saga in
                      let@ rc := compensate cmd in
                      match rc with
                      | Err compErr =>
                          retS (Some saga, Some (errForeign
                            ("CRITICAL: compensation failed after credit failure: credit_err=" +:+
                             Error e +:+ ", comp_err=" +:+ Error compErr)))
                      | Ok _ =>
                          let@ saga := MarkCompensated saga in
                          retS (Some saga, Some (errWrap "transfer failed and compensated" e))
                      end
                  | Ok _ =>
                      let@ marked := MarkCompleted saga in
                      let '(err, saga) := marked in
                      match err with
                      | Some e => retS (Some saga, Some e)
                      | None => retS (Some saga, None)
                      end
                  end
              end
          end
      end
  end.
End transfer_service.
