(* ===== verification/Slices.v ===== *)
(** * Go slices

    The other files take the fields [entries] of a [Transaction] and [steps] of
    a [Transfer] for lists. In Go they are slices: windows on arrays that
    other slices can share. Here are the arrays and the operations on slices
    that the program uses, with what each of them leaves alone; SharedEntries.v
    and SharedSteps.v have the two types on top of them. *)
From S2P Require Import Prelude Go Identifiers.
From stdpp Require Import base gmap strings list.
Local Open Scope string_scope.
Local Open Scope list_scope.
Local Open Scope nat_scope.

(** ** Memory

    [arrays] are the arrays allocated so far, by address, for elements of one
    type: slices of different types never share an array. [program] is the
    rest of the world. *)
Record Mem (W A : Type) := MkMem { arrays : list (list A); program : W }.
Arguments MkMem {W A} arrays program.
Arguments arrays {W A} m.
Arguments program {W A} m.

(** A slice. Every slice of the program begins at the first cell of its array
    and may grow to the last, so that its capacity is the size of the array.
    The nil slice has no array. *)
Record slice := MkSlice { s_array : option nat; s_len : nat }.
Definition nil_slice : slice := MkSlice None 0.

Section memory.
Context {W A : Type}.

Definition array (m : Mem W A) (s : slice) : list A :=
  match s_array s with
  | Some a => default [] (arrays m !! a)
  | None => []
  end.

(** What a reader of the slice finds. *)
Definition contents (m : Mem W A) (s : slice) : list A := take (s_len s) (array m s).

(** A slice that the program can hold: it lies within its array. *)
Definition slice_ok (m : Mem W A) (s : slice) : Prop :=
  match s_array s with
  | Some a => a < length (arrays m) /\ s_len s <= length (array m s)
  | None => s_len s = 0
  end.

Definition lift {X} (f : St W X) : St (Mem W A) X :=
  fun m => let '(x, w) := f (program m) in (x, MkMem (arrays m) w).

(** A new array, and the slice of its first [n] cells. *)
Definition allocate (l : list A) (n : nat) : St (Mem W A) slice :=
  fun m => (MkSlice (Some (length (arrays m))) n, MkMem (arrays m ++ [l]) (program m)).

(** The zero value of the type, and how many cells more than needed [append]
    allocates for a length that no longer fits: the language leaves that to
    the implementation. *)
Context (zero : A) (spare : nat -> nat).

(** [make([]A, n)]. *)
Definition make (n : nat) : St (Mem W A) slice := allocate (replicate n zero) n.

Definition put (a i : nat) (x : A) (m : Mem W A) : Mem W A :=
  MkMem (alter (fun l => <[i := x]> l) a (arrays m)) (program m).

(** [s[i] = x]; [None] is the panic of an index out of range. *)
Definition store (s : slice) (i : nat) (x : A) : St (Mem W A) (option unit) :=
  fun m => match s_array s with
           | Some a => if i <? s_len s then (Some tt, put a i x m) else (None, m)
           | None => (None, m)
           end.

(** [copy(dst, src)]. *)
Definition copy (dst src : slice) : St (Mem W A) nat :=
  fun m =>
    let n := Nat.min (s_len dst) (s_len src) in
    match s_array dst with
    | Some a =>
        (n, MkMem (alter (fun l => take n (contents m src) ++ drop n l) a (arrays m)) (program m))
    | None => (n, m)
    end.

(** [append(s, x)]: in place as long as the array has room, otherwise in a
    copy of it. *)
Definition append1 (s : slice) (x : A) : St (Mem W A) slice :=
  fun m =>
    match s_array s with
    | Some a =>
        if s_len s <? length (array m s)
        then (MkSlice (Some a) (S (s_len s)), put a (s_len s) x m)
        else allocate (contents m s ++ x :: replicate (spare (S (s_len s))) zero)
               (S (s_len s)) m
    | None => allocate (x :: replicate (spare 1) zero) 1 m
    end.
End memory.

#[global] Instance mem_runtime {W A} `{R : Runtime W} : Runtime (Mem W A) := {
  time_Now := lift time_Now;
  uuid_NewV7 := lift uuid_NewV7;
}.

(** ** Frames *)
Section frames.
Context {W A : Type}.
Implicit Types (m : Mem W A) (s t : slice) (l : list A).

Lemma alter_snoc (f : list A -> list A) (ls : list (list A)) l :
  alter f (length ls) (ls ++ [l]) = ls ++ [f l].
Proof. induction ls as [|l' ls IH]; [done|]. cbn. f_equal. apply IH. Qed.

Lemma array_at m s a l : s_array s = Some a -> arrays m !! a = Some l -> array m s = l.
Proof. unfold array. by intros -> ->. Qed.

Lemma array_ext m m' s :
  (forall a, s_array s = Some a -> arrays m' !! a = arrays m !! a) ->
  array m' s = array m s.
Proof. unfold array. destruct (s_array s); [|done]. by intros ->. Qed.

(** A write to the array that was allocated last. *)
Lemma store_last ls pre (x y : A) rest (w : W) n :
  length pre < n ->
  store (MkSlice (Some (length ls)) n) (length pre) x (MkMem (ls ++ [pre ++ y :: rest]) w) =
  (Some tt, MkMem (ls ++ [pre ++ x :: rest]) w).
Proof.
  intros Hn. unfold store, put. cbn [s_array s_len arrays program].
  rewrite (proj2 (Nat.ltb_lt _ _) Hn), alter_snoc, insert_app_r_alt, Nat.sub_diag by lia. done.
Qed.

(** Every array but that of [s] is as before. *)
Definition only (s : slice) (m m' : Mem W A) : Prop :=
  length (arrays m) <= length (arrays m') /\
  forall a, a < length (arrays m) -> s_array s <> Some a -> arrays m' !! a = arrays m !! a.

Lemma only_refl s m : only s m m.
Proof. by split. Qed.

Lemma only_trans s m1 m2 m3 : only s m1 m2 -> only s m2 m3 -> only s m1 m3.
Proof.
  intros [L1 H1] [L2 H2]. split; [lia|]. intros a Ha Hs. rewrite H2, H1 by (done || lia). done.
Qed.

Lemma only_alter s a (f : list A -> list A) m w :
  s_array s = Some a -> only s m (MkMem (alter f a (arrays m)) w).
Proof.
  intros Hs. split; cbn; [by rewrite length_alter|].
  intros b _ Hb. apply list_lookup_alter_ne. congruence.
Qed.

Lemma only_allocate s l m w : only s m (MkMem (arrays m ++ [l]) w).
Proof.
  split; cbn; [rewrite length_app; lia|]. intros a Ha _. by apply lookup_app_l.
Qed.

(** What [append] returns is a slice of the same array or of a new one. *)
Lemma append1_only (zero : A) spare s x m :
  only s m (append1 zero spare s x m).2 /\
  (s_array (append1 zero spare s x m).1 = s_array s \/
   s_array (append1 zero spare s x m).1 = Some (length (arrays m))) /\
  (forall a, s_array (append1 zero spare s x m).1 = Some a ->
     (forall b, s_array s = Some b -> b < length (arrays m)) ->
     a < length (arrays (append1 zero spare s x m).2)).
Proof.
  unfold append1, put, allocate. destruct (s_array s) as [a|] eqn:Ha.
  - destruct (s_len s <? length (array m s)); cbn; split_and!.
    + by apply only_alter.
    + by left.
    + intros b [= <-] H. rewrite length_alter. by apply H.
    + apply only_allocate.
    + by right.
    + intros b [= <-] _. rewrite length_app. simpl. lia.
  - cbn. split_and!; [apply only_allocate|by right|].
    intros b [= <-] _. rewrite length_app. simpl. lia.
Qed.

Lemma store_only s i x m : only s m (store s i x m).2.
Proof.
  unfold store. destruct (s_array s) as [a|] eqn:Ha; [|apply only_refl].
  destruct (i <? s_len s); [by apply only_alter|apply only_refl].
Qed.

Lemma copy_only s t m : only s m (copy s t m).2.
Proof.
  unfold copy. destruct (s_array s) as [a|] eqn:Ha; [by apply only_alter|apply only_refl].
Qed.

(** [make] and [copy] give a new array with the elements of the source. *)
Lemma copy_run (zero : A) s m :
  slice_ok m s ->
  (let@ cp := make zero (s_len s) in let@ _ := copy cp s in retS cp) m =
  (MkSlice (Some (length (arrays m))) (s_len s),
   MkMem (arrays m ++ [contents m s]) (program m)).
Proof.
  intros Hs. rewrite !bindS_run. unfold make, allocate, copy. cbn.
  rewrite Nat.min_id. f_equal. f_equal.
  rewrite alter_snoc. do 3 f_equal.
  rewrite drop_ge, app_nil_r by (by rewrite length_replicate).
  assert (E : array (MkMem (arrays m ++ [replicate (s_len s) zero]) (program m)) s = array m s).
  { apply array_ext. intros a Ha. cbn. apply lookup_app_l.
    unfold slice_ok in Hs. rewrite Ha in Hs. apply Hs. }
  unfold contents. by rewrite E, take_take, Nat.min_id.
Qed.
End frames.

(** ** Appending to a slice that others read *)
Section appending.
Context {W A : Type} (zero : A) (spare : nat -> nat).
Implicit Types (m : Mem W A) (r s : slice).

(** [r] reads no further into the array of [s] than [s] does. *)
Definition behind r s : Prop := s_array r = s_array s -> s_len r <= s_len s.

(** From [s] to [s'] memory changes only behind the end of [s], so that the
    readers of what was handed out before notice nothing. *)
Definition grows m m' s s' : Prop :=
  slice_ok m' s' /\
  forall r, slice_ok m r -> behind r s ->
    slice_ok m' r /\ contents m' r = contents m r /\ behind r s'.

Lemma grows_refl m s : slice_ok m s -> grows m m s s.
Proof. by split. Qed.

Lemma grows_trans m1 m2 m3 s1 s2 s3 :
  grows m1 m2 s1 s2 -> grows m2 m3 s2 s3 -> grows m1 m3 s1 s3.
Proof.
  intros [_ H1] [Hok H2]. split; [done|]. intros r Hr Hb.
  destruct (H1 r Hr Hb) as (Hr2 & <- & Hb2). by apply H2.
Qed.

(** Nothing but the rest of the world changes. *)
Lemma grows_program m s w : slice_ok m s -> grows m (MkMem (arrays m) w) s s.
Proof. by split. Qed.

Lemma slice_ok_array m m' r :
  slice_ok m r -> length (arrays m) <= length (arrays m') ->
  length (array m r) <= length (array m' r) -> slice_ok m' r.
Proof. unfold slice_ok. destruct (s_array r); [lia|done]. Qed.

Lemma allocate_grows m s l n w :
  slice_ok m s -> n <= length l ->
  grows m (MkMem (arrays m ++ [l]) w) s (MkSlice (Some (length (arrays m))) n).
Proof.
  intros Hs Hn. split.
  { unfold slice_ok, array. cbn. rewrite list_lookup_middle, length_app by done. cbn. lia. }
  intros r Hr _.
  assert (E : array (MkMem (arrays m ++ [l]) w) r = array m r).
  { apply array_ext. intros a Ha. cbn. apply lookup_app_l.
    unfold slice_ok in Hr. rewrite Ha in Hr. lia. }
  split_and!.
  - apply slice_ok_array with m; [done|cbn; rewrite length_app; lia|by rewrite E].
  - unfold contents. by rewrite E.
  - unfold behind. cbn. intros Ha. unfold slice_ok in Hr. rewrite Ha in Hr. lia.
Qed.

Lemma put_array a i x m r :
  array (put a i x m) r =
  if decide (s_array r = Some a) then <[i := x]> (array m r) else array m r.
Proof.
  unfold put, array. cbn. destruct (s_array r) as [b|]; [|by rewrite decide_False].
  destruct (decide (Some b = Some a)) as [[= ->]|Hne].
  - rewrite list_lookup_alter_eq. by destruct (arrays m !! a).
  - rewrite list_lookup_alter_ne by congruence. done.
Qed.

Lemma put_grows a x m s :
  s_array s = Some a -> slice_ok m s -> s_len s < length (array m s) ->
  contents (put a (s_len s) x m) (MkSlice (Some a) (S (s_len s))) = contents m s ++ [x] /\
  grows m (put a (s_len s) x m) s (MkSlice (Some a) (S (s_len s))).
Proof.
  intros Ha Hs Hl. set (m' := put a (s_len s) x m).
  assert (Hlen : length (arrays m') = length (arrays m)) by apply length_alter.
  assert (Es : array m' (MkSlice (Some a) (S (s_len s))) = <[s_len s := x]> (array m s)).
  { subst m'. rewrite put_array, decide_True by done. unfold array. cbn. by rewrite Ha. }
  assert (Hr : forall r, length (array m' r) = length (array m r)).
  { intros r. subst m'. rewrite put_array. destruct (decide _); [apply length_insert|done]. }
  split; [|split].
  - unfold contents. rewrite Es. cbn [s_len].
    rewrite (take_S_r _ _ x) by (by apply list_lookup_insert_eq). by rewrite take_insert_ge.
  - unfold slice_ok in *. cbn [s_array s_len]. rewrite Ha in Hs.
    rewrite Hlen, Es, length_insert. lia.
  - intros r Hok Hb. split_and!.
    + apply slice_ok_array with m; [done|lia|by rewrite Hr].
    + unfold contents. subst m'. rewrite put_array.
      destruct (decide _) as [E|]; [|done]. apply take_insert_ge.
      apply Hb. congruence.
    + intros E. cbn in *. assert (s_len r <= s_len s) by (apply Hb; congruence). lia.
Qed.

Lemma append1_grows s x m :
  slice_ok m s ->
  contents (append1 zero spare s x m).2 (append1 zero spare s x m).1 = contents m s ++ [x] /\
  program (append1 zero spare s x m).2 = program m /\
  grows m (append1 zero spare s x m).2 s (append1 zero spare s x m).1.
Proof.
  intros Hs. unfold append1. destruct (s_array s) as [a|] eqn:Ha.
  - destruct (Nat.ltb_spec (s_len s) (length (array m s))) as [Hl|Hl]; cbn [fst snd].
    + destruct (put_grows a x m s Ha Hs Hl) as [? ?]. by split_and!.
    + assert (Hc : length (contents m s) = s_len s).
      { unfold contents. rewrite length_take. unfold slice_ok in Hs. rewrite Ha in Hs. lia. }
      split_and!; [|done|apply allocate_grows; [done|rewrite length_app; cbn; lia]].
      unfold allocate, contents at 1, array. cbn. rewrite list_lookup_middle by done. cbn.
      rewrite take_app, Hc, take_ge by lia.
      replace (S (s_len s) - s_len s) with 1 by lia. cbn. by rewrite take_0.
  - unfold slice_ok in Hs. rewrite Ha in Hs. split_and!; [|done|].
    + unfold allocate, contents, array. cbn. rewrite Ha, list_lookup_middle by done. cbn.
      by rewrite Hs, take_0.
    + apply allocate_grows; [|cbn; lia]. unfold slice_ok. by rewrite Ha.
Qed.
End appending.
