(* ===== verification/TransferSpec.v ===== *)
(** * What the transfer saga does

    - [Execute_endings]: in every world, whatever fails, [Execute] ends in one
      of five ways, each with its audit trail;
    - [saga_spec]: the saga on the abstract ledger; [Execute_live]: when the
      storage answers and the currency has one suspense account, [Execute] does
      exactly that;
    - the three endings computed on the specification: completed, refused,
      compensated. *)
From S2P Require Import Prelude Go Identifiers Money Transaction Account Book Events Ports.
From S2P Require Import LedgerService LedgerSafety LedgerLive Transfer TransferService.
From stdpp Require Import base gmap strings list.
Local Open Scope Z_scope.

Section outcomes.
Context {U : UuidLib} {W : Type} `{R : !Runtime W}.
Context (s : LedgerService W).

(** The ways to end, by the audit trail of the saga that is returned. *)
Inductive ending (cmd : TransferCmd) : outcome -> Prop :=
| ending_rejected e :
    validCurrency (TC_Currency cmd) = false \/ TC_FromAccountID cmd = TC_ToAccountID cmd ->
    ending cmd (None, Some e)
| ending_refused t e :
    Transfer_state t = Failed -> trail t = [Initiated; Failed] ->
    ending cmd (Some t, Some e)
| ending_completed t :
    Transfer_state t = Completed -> trail t = [Initiated; Debited; Completed] ->
    ending cmd (Some t, None)
| ending_compensated t e :
    Transfer_state t = Compensated -> trail t = [Initiated; Debited; Failed; Compensated] ->
    ending cmd (Some t, Some e)
| ending_critical t e :
    Transfer_state t = Failed -> trail t = [Initiated; Debited; Failed] ->
    ending cmd (Some t, Some e).

Lemma moved_trail t t' st l : moved t t' st -> trail t = l -> trail t' = l ++ [st].
Proof. intros (_ & H & _) <-. exact H. Qed.

Lemma Execute_endings cmd w : ending cmd (Execute s cmd w).1.
Proof.
  unfold Execute. destruct (NewMoney _ _) as [money|e] eqn:Hm.
  2:{ apply NewMoney_Err in Hm as [Hc _]. constructor. by left. }
  rewrite bindS_run. destruct (NewTransfer _ _ _ _ w) as [[t0|e] w0] eqn:Hn; cbn [fst snd].
  2:{ constructor. right. destruct (decide (TC_FromAccountID cmd = TC_ToAccountID cmd)); [done|].
      destruct (NewTransfer_run (TC_FromAccountID cmd) (TC_ToAccountID cmd) money
                  (TC_Description cmd) w) as (t & w' & H); [done|]. congruence. }
  apply NewTransfer_Ok_inv in Hn as (_ & Hs0 & Ht0 & _).
  rewrite bindS_run. destruct (debitSource s cmd w0) as [[tx1|e1] w1]; cbn [fst snd].
  2:{ rewrite bindS_run. destruct (MarkFailed_moved ("debit failed: " +:+ Error e1) t0 w1) as [Hmv _].
      apply ending_refused; [apply Hmv|]. exact (moved_trail _ _ _ _ Hmv Ht0). }
  rewrite bindS_run. destruct (MarkDebited_run t0 w1 Hs0) as (t1 & -> & Hm1).
  pose proof (moved_trail _ _ _ _ Hm1 Ht0) as Ht1.
  rewrite bindS_run. destruct (creditDestination s cmd _) as [[tx2|e2] w2]; cbn [fst snd].
  - rewrite bindS_run. destruct (MarkCompleted_run t1 w2 (proj1 Hm1)) as (t2 & -> & Hm2).
    apply ending_completed; [apply Hm2|]. exact (moved_trail _ _ _ _ Hm2 Ht1).
  - rewrite bindS_run.
    destruct (MarkFailed_moved ("credit failed: " +:+ Error e2) t1 w2) as [Hm2 _].
    destruct (MarkFailed _ t1 w2) as [t2 w3]; cbn [fst snd] in *.
    pose proof (moved_trail _ _ _ _ Hm2 Ht1) as Ht2.
    rewrite bindS_run. destruct (compensate s cmd w3) as [[tx3|e3] w4]; cbn [fst snd].
    + rewrite bindS_run. destruct (MarkCompensated_moved t2 w4) as [Hm3 _].
      apply ending_compensated; [apply Hm3|]. exact (moved_trail _ _ _ _ Hm3 Ht2).
    + apply ending_critical; [apply Hm2|done].
Qed.
End outcomes.

(** ** The saga on the abstract ledger *)
Section spec.
Context {U : UuidLib}.
Notation key := AccountID_String.

Definition leg (cmd : TransferCmd) (id : AccountID) (ty : EntryType) : EntryParams :=
  MkEntryParams id (MkMoney (TC_Amount cmd) (TC_Currency cmd)) ty.

Definition out_legs (cmd : TransferCmd) (sus : AccountID) : list EntryParams :=
  [leg cmd (TC_FromAccountID cmd) Debit; leg cmd sus Credit].
Definition in_legs (cmd : TransferCmd) (sus : AccountID) : list EntryParams :=
  [leg cmd sus Debit; leg cmd (TC_ToAccountID cmd) Credit].
Definition comp_legs (cmd : TransferCmd) (sus : AccountID) : list EntryParams :=
  [leg cmd sus Debit; leg cmd (TC_FromAccountID cmd) Credit].

Definition saga_spec (cmd : TransferCmd) (sus : AccountID) (v : book) : book * SagaState :=
  let '(v1, ok1) := book_posts (out_legs cmd sus) v in
  if negb ok1 then (v1, Failed)
  else
    let '(v2, ok2) := book_posts (in_legs cmd sus) v1 in
    if ok2 then (v2, Completed)
    else
      let '(v3, ok3) := book_posts (comp_legs cmd sus) v2 in
      if ok3 then (v3, Compensated) else (v3, Failed).
End spec.

(** ** The endings, computed *)
Section endings.
Context {U : UuidLib} `{Laws : !UuidLaws}.
Notation key := AccountID_String.
Context (cmd : TransferCmd) (sus : AccountID) (v : book) (cf cs : acct).

Let m : Money := MkMoney (TC_Amount cmd) (TC_Currency cmd).
Let from : AccountID := TC_FromAccountID cmd.
Let to : AccountID := TC_ToAccountID cmd.

(** The parties: the source and the suspense account of the currency, which
    is active and may go negative; the three accounts are distinct. *)
Record parties : Prop := {
  parties_wf : book_wf v;
  parties_amount : TC_Amount cmd <> 0;
  parties_from : v !! key from = Some cf;
  parties_sus : v !! key sus = Some cs;
  parties_sus_active : ac_status cs = Active;
  parties_sus_currency : ac_currency cs = TC_Currency cmd;
  parties_sus_negative : may_be_negative cs = true;
  parties_from_to : from <> to;
  parties_from_sus : from <> sus;
  parties_to_sus : to <> sus;
}.

Lemma book_post_leg (w : book) id ty c :
  is_posting ty = true -> w !! key id = Some c ->
  book_post (leg cmd id ty) w =
  match post ty m c with Ok c' => Some (<[key id := c']> w) | Err _ => None end.
Proof. intros Hp Hc. unfold book_post, leg, post_entry; simpl. by rewrite Hc, Hp. Qed.

(** A debit and a credit of the same amount cancel, wrap-around included. *)
Lemma post_balance_undo ty1 ty2 c :
  acct_wf c -> (ty1 = Debit /\ ty2 = Credit) \/ (ty1 = Credit /\ ty2 = Debit) ->
  post_balance ty2 m (post_balance ty1 m c) = c.
Proof.
  intros [[Hr _] Hc] Hty. unfold post_balance, ac_with_balance, ac_amount; simpl.
  destruct c as [id name ty cur [b bc] st]; simpl in *. subst bc. do 2 f_equal.
  rewrite wrap64_add_l.
  replace (b + signed ty1 (TC_Amount cmd) + signed ty2 (TC_Amount cmd)) with b;
    [by apply wrap64_id|].
  destruct Hty as [[-> ->]|[-> ->]]; rewrite ?signed_Debit, ?signed_Credit; lia.
Qed.

(** The books of the saga: after the debit and after both legs of step 1. *)
Lemma out_posts cf' :
  parties -> post Debit m cf = Ok cf' ->
  book_posts (out_legs cmd sus) v =
  (<[key sus := post_balance Credit m cs]> (<[key from := cf']> v), true).
Proof using Laws.
  intros P Hd. unfold out_legs, book_posts. fold from.
  rewrite (book_post_leg v from Debit cf), Hd by (done || apply P).
  rewrite (book_post_leg _ sus Credit cs); [|done|].
  2:{ rewrite lookup_insert_ne; [apply P|]. intros E%(inj key). by apply (parties_from_sus P). }
  by rewrite (post_Credit_accepts m cs) by apply P.
Qed.

(** Debiting the suspense account in step 2 restores it. *)
Lemma sus_restored (w : book) :
  parties -> book_post (leg cmd sus Debit) (<[key sus := post_balance Credit m cs]> w) =
  Some (<[key sus := cs]> w).
Proof.
  intros P. rewrite (book_post_leg _ sus Debit (post_balance Credit m cs));
    [|done|apply lookup_insert_eq].
  rewrite post_Debit_accepts by (done || apply P). rewrite insert_insert_eq.
  rewrite post_balance_undo; [done| |by right].
  apply (parties_wf P _ _ (parties_sus P)).
Qed.

Lemma sus_back cf' : parties -> <[key sus := cs]> (<[key from := cf']> v) = <[key from := cf']> v.
Proof using Laws.
  intros P. apply insert_id. rewrite lookup_insert_ne; [apply P|].
  intros E%(inj key). by apply (parties_from_sus P).
Qed.

Lemma lookup_to (x : acct) : parties -> <[key from := x]> v !! key to = v !! key to.
Proof using Laws.
  intros P. apply lookup_insert_ne. intros E%(inj key). by apply (parties_from_to P).
Qed.

Lemma saga_completed cf' ct :
  parties -> post Debit m cf = Ok cf' ->
  v !! key to = Some ct -> ac_status ct = Active -> ac_currency ct = TC_Currency cmd ->
  saga_spec cmd sus v =
  (<[key to := post_balance Credit m ct]> (<[key from := cf']> v), Completed).
Proof using Laws.
  intros P Hd Ht Hst Hct. unfold saga_spec. rewrite (out_posts cf' P Hd). cbn [negb].
  unfold in_legs, book_posts. rewrite sus_restored, sus_back by done. fold to.
  rewrite (book_post_leg _ to Credit ct) by (done || by rewrite lookup_to).
  by rewrite (post_Credit_accepts m ct) by (done || apply P).
Qed.

(** Step 1 refuses: nothing is posted. *)
Lemma saga_refused :
  v !! key from = None \/ (v !! key from = Some cf /\ exists e, post Debit m cf = Err e) ->
  saga_spec cmd sus v = (v, Failed).
Proof.
  intros H. unfold saga_spec, out_legs, book_posts. fold from.
  assert (book_post (leg cmd from Debit) v = None) as ->; [|done].
  destruct H as [H|[H [e He]]].
  - unfold book_post; simpl. by rewrite H.
  - by rewrite (book_post_leg v from Debit cf), He.
Qed.

(** Step 2 fails at the destination: the source is restored, and the
    suspense account has been debited twice for one credit. *)
Lemma saga_compensated cf' :
  parties -> post Debit m cf = Ok cf' -> ac_currency cf = TC_Currency cmd ->
  v !! key to = None \/ (exists ct e, v !! key to = Some ct /\ post Credit m ct = Err e) ->
  saga_spec cmd sus v = (<[key sus := post_balance Debit m cs]> v, Compensated).
Proof using Laws.
  intros P Hd Hcf Hto. unfold saga_spec. rewrite (out_posts cf' P Hd). cbn [negb].
  unfold in_legs. cbn [book_posts]. rewrite sus_restored, sus_back by done. fold to.
  assert (book_post (leg cmd to Credit) (<[key from := cf']> v) = None) as ->.
  { destruct Hto as [H|(ct & e & H & He)].
    - unfold book_post; simpl. by rewrite lookup_to, H.
    - by rewrite (book_post_leg _ to Credit ct), He by (done || by rewrite lookup_to). }
  unfold comp_legs. cbn [book_posts]. fold from.
  assert (Hne : key from <> key sus) by (intros E%(inj key); by apply (parties_from_sus P)).
  rewrite (book_post_leg _ sus Debit cs); [|done|by rewrite lookup_insert_ne; [apply P|]].
  rewrite post_Debit_accepts by (done || apply P).
  apply post_Ok in Hd as (-> & Hst & _).
  rewrite (book_post_leg _ from Credit (post_balance Debit m cf));
    [|done|by rewrite lookup_insert_ne, lookup_insert_eq].
  rewrite post_Credit_accepts by (done || apply P).
  rewrite post_balance_undo; [|apply (parties_wf P _ _ (parties_from P))|by left].
  rewrite (insert_insert_ne _ (key from) (key sus)) by done.
  rewrite insert_insert_eq. do 2 f_equal. apply insert_id, P.
Qed.

(** The money of the currency that the compensated saga loses. *)
Lemma saga_compensated_holdings :
  parties -> holdings (TC_Currency cmd) (<[key sus := post_balance Debit m cs]> v) ≡64
             holdings (TC_Currency cmd) v - TC_Amount cmd.
Proof.
  intros P. unfold holdings. rewrite (msum_insert _ _ _ cs) by apply P. unfold holding; simpl.
  rewrite (parties_sus_currency P), bool_decide_eq_true_2 by done.
  rewrite post_balance_amount, signed_Debit, wrap64_eqm. simpl. apply eqm64_eq. lia.
Qed.
End endings.

Section refinement.
Context {U : UuidLib} {W : Type} `{R : !Runtime W} `{Laws : !UuidLaws}.
Notation key := AccountID_String.
Context {s : LedgerService W} {view : W -> book} {inv ready : W -> Prop}
  {fresh : W -> UUID -> Prop} {unlogged : UUID -> W -> Prop}.
Context `{Safe : !SafeService s view inv fresh} `{Live : !LiveService s view inv ready unlogged}.

Lemma suspense_sole cur w sus :
  inv w -> ready w -> sole (suspenseName cur) (view w) (key sus) ->
  (suspenseAccountID s cur w).1 = sus /\ view (suspenseAccountID s cur w).2 = view w /\
  inv (suspenseAccountID s cur w).2 /\ ready (suspenseAccountID s cur w).2.
Proof using Safe Live Laws.
  intros Hi Hr Hs. destruct Hs as [(c & Hc & Hn) Hu].
  destruct (getOrCreateSystemAccount_sole (suspenseName cur) "LIABILITY" cur w (key sus) c Hi Hr)
    as (acc & w' & Hrun & _ & Hk & Hv & Hi' & Hr'); [by split; [eauto|]|done|].
  unfold suspenseAccountID. rewrite bindS_run, Hrun. simpl. split_and!; try done.
  by apply (inj AccountID_String).
Qed.

(** [m] posts [ps] as the abstract ledger does, from [w]. *)
Definition follows (cur : Currency) (sus : AccountID) (m : M W Transaction)
    (ps : list EntryParams) (w : W) : Prop :=
  is_Ok (m w).1 = (book_posts ps (view w)).2 /\ view (m w).2 = (book_posts ps (view w)).1 /\
  inv (m w).2 /\ ready (m w).2 /\ sole (suspenseName cur) (view (m w).2) (key sus).

(** A transaction whose command is built from the suspense account. *)
Lemma via_suspense cur (mk : AccountID -> RecordTransactionCmd) w sus :
  inv w -> ready w -> sole (suspenseName cur) (view w) (key sus) -> valid_command (mk sus) ->
  follows cur sus (bindS (suspenseAccountID s cur) (fun id => RecordTransaction s (mk id)))
    (cmdParams <$> RTC_Entries (mk sus)) w.
Proof using Safe Live Laws.
  intros Hi Hr Hs Hvalid. unfold follows. rewrite bindS_run.
  destruct (suspense_sole cur w sus Hi Hr Hs) as (-> & Hv & Hi1 & Hr1).
  destruct (RecordTransaction_live (mk sus) _ Hi1 Hr1) as (Hr2 & Hval & _).
  destruct (RecordTransaction_safe (mk sus) _ Hi1) as (Hi2 & _).
  destruct (Hval Hvalid) as [Hok Hview]. rewrite Hv in Hok, Hview.
  split_and!; try done. rewrite Hview. by apply book_posts_sole.
Qed.

Lemma saga_transactions cmd w sus :
  inv w -> ready w -> sole (suspenseName (TC_Currency cmd)) (view w) (key sus) ->
  validCurrency (TC_Currency cmd) = true -> TC_Amount cmd <> 0 ->
  follows (TC_Currency cmd) sus (debitSource s cmd) (out_legs cmd sus) w /\
  follows (TC_Currency cmd) sus (creditDestination s cmd) (in_legs cmd sus) w /\
  follows (TC_Currency cmd) sus (compensate s cmd) (comp_legs cmd sus) w.
Proof using Safe Live Laws.
  intros Hi Hr Hs Hc Ha.
  pose proof (fun mk => via_suspense (TC_Currency cmd) mk w sus Hi Hr Hs) as V.
  split_and!; (eapply V || refine (V (fun id => MkRecordTransactionCmd _ _) _));
    apply pair_command_valid; auto.
Qed.

Lemma NewTransfer_frame from to m d w t w' :
  NewTransfer from to m d w = (Ok t, w') -> inv w -> ready w ->
  view w' = view w /\ inv w' /\ ready w'.
Proof using Safe Live.
  unfold NewTransfer, addStep. destruct (AccountID_Equals from to); [done|].
  intros H Hi Hr. match type of H with ?m w = _ => set (m0 := m) in H end.
  assert (P1 : Preserves view m0) by (unfold m0; apply _).
  assert (P2 : Keeps inv m0) by (unfold m0; apply _).
  assert (P3 : Keeps ready m0) by (unfold m0; apply _).
  split_and!; [exact (preserves_eq view _ _ _ _ H)|exact (keeps_eq inv _ _ _ _ H Hi)|
    exact (keeps_eq ready _ _ _ _ H Hr)].
Qed.

#[local] Instance MarkDebited_view t : Preserves view (MarkDebited t).
Proof using Safe. unfold MarkDebited, addStep. apply _. Qed.
#[local] Instance MarkDebited_inv t : Keeps inv (MarkDebited t).
Proof using Safe. unfold MarkDebited, addStep. apply _. Qed.
#[local] Instance MarkDebited_ready t : Keeps ready (MarkDebited t).
Proof using Live. unfold MarkDebited, addStep. apply _. Qed.
#[local] Instance MarkFailed_view r t : Preserves view (MarkFailed r t).
Proof using Safe. unfold MarkFailed, addStep. apply _. Qed.
#[local] Instance MarkFailed_inv r t : Keeps inv (MarkFailed r t).
Proof using Safe. unfold MarkFailed, addStep. apply _. Qed.
#[local] Instance MarkFailed_ready r t : Keeps ready (MarkFailed r t).
Proof using Live. unfold MarkFailed, addStep. apply _. Qed.
#[local] Instance MarkCompleted_view t : Preserves view (MarkCompleted t).
Proof using Safe. unfold MarkCompleted, addStep. apply _. Qed.
#[local] Instance MarkCompensated_view t : Preserves view (MarkCompensated t).
Proof using Safe. unfold MarkCompensated, addStep. apply _. Qed.

(** The compensation branch of [Execute]. *)
Definition compensation (cmd : TransferCmd) (e : error) (saga : Transfer) : St W outcome :=
  let@ saga := MarkFailed ("credit failed: " +:+ Error e) saga in
  let@ rc := compensate s cmd in
  match rc with
  | Err compErr =>
      retS (Some saga, Some (errForeign
        ("CRITICAL: compensation failed after credit failure: credit_err=" +:+
         Error e +:+ ", comp_err=" +:+ Error compErr)))
  | Ok _ =>
      let@ saga := MarkCompensated saga in
      retS (Some saga, Some (errWrap "transfer failed and compensated" e))
  end.

Lemma compensation_live cmd e t w sus :
  inv w -> ready w -> sole (suspenseName (TC_Currency cmd)) (view w) (key sus) ->
  validCurrency (TC_Currency cmd) = true -> TC_Amount cmd <> 0 ->
  exists t' e' w', compensation cmd e t w = ((Some t', e'), w') /\
    (let '(v3, ok3) := book_posts (comp_legs cmd sus) (view w) in
     if ok3 then (v3, Compensated) else (v3, Failed)) = (view w', Transfer_state t') /\
    (e' = None <-> Transfer_state t' = Completed).
Proof using Safe Live Laws.
  intros Hi Hr Hs Hc Ha. unfold compensation. rewrite bindS_run.
  destruct (MarkFailed_moved ("credit failed: " +:+ Error e) t w) as [Hm1 _].
  pose proof (preserves (f:=view) (m:=MarkFailed ("credit failed: " +:+ Error e) t) w) as Hv1.
  pose proof (keeps (P:=inv) (m:=MarkFailed ("credit failed: " +:+ Error e) t) w Hi) as Hi1.
  pose proof (keeps (P:=ready) (m:=MarkFailed ("credit failed: " +:+ Error e) t) w Hr) as Hr1.
  destruct (MarkFailed _ t w) as [t1 w1]. cbn [fst snd] in *. rewrite <- Hv1 in Hs |- *.
  destruct (saga_transactions cmd w1 sus Hi1 Hr1 Hs Hc Ha) as (_ & _ & (Hok2 & Hv2 & _)).
  rewrite bindS_run. destruct (compensate s cmd w1) as [r2 w2]; cbn [fst snd] in *.
  destruct (book_posts (comp_legs cmd sus) (view w1)) as [v2 ok2]; cbn [fst snd] in *.
  subst v2 ok2. destruct r2 as [tx2|e2]; cbn [is_Ok].
  - rewrite bindS_run. destruct (MarkCompensated_moved t1 w2) as [Hm2 _].
    eexists _, _, _. split; [done|].
    by rewrite (preserves (f:=view) (m:=MarkCompensated t1) w2), (proj1 Hm2).
  - eexists _, _, _. split; [done|]. by rewrite (proj1 Hm1).
Qed.

(** The saga runs as specified. *)
Lemma Execute_live cmd w sus :
  inv w -> ready w -> sole (suspenseName (TC_Currency cmd)) (view w) (key sus) ->
  validCurrency (TC_Currency cmd) = true -> TC_Amount cmd <> 0 ->
  TC_FromAccountID cmd <> TC_ToAccountID cmd ->
  exists t e w', Execute s cmd w = ((Some t, e), w') /\
    saga_spec cmd sus (view w) = (view w', Transfer_state t) /\
    (e = None <-> Transfer_state t = Completed).
Proof using Safe Live Laws.
  intros Hi Hr Hs Hc Ha Hne. unfold Execute, saga_spec.
  rewrite (proj2 (NewMoney_Ok (TC_Amount cmd) (TC_Currency cmd) _) (conj Hc eq_refl)).
  rewrite bindS_run.
  destruct (NewTransfer_run (TC_FromAccountID cmd) (TC_ToAccountID cmd)
              (MkMoney (TC_Amount cmd) (TC_Currency cmd)) (TC_Description cmd) w Hne)
    as (t0 & w0 & Hn). rewrite Hn. cbn [fst snd].
  destruct (NewTransfer_frame _ _ _ _ _ _ _ Hn Hi Hr) as (Hv0 & Hi0 & Hr0).
  apply NewTransfer_Ok_inv in Hn as (_ & Hs0 & _). rewrite <- Hv0 in Hs |- *. clear Hv0 Hi Hr w.
  rename w0 into w.
  destruct (saga_transactions cmd w sus Hi0 Hr0 Hs Hc Ha) as [(Hok1 & Hv1 & Hi1 & Hr1 & Hs1) _].
  rewrite bindS_run. destruct (debitSource s cmd w) as [r1 w1]; cbn [fst snd] in *.
  destruct (book_posts (out_legs cmd sus) (view w)) as [v1 ok1]; cbn [fst snd] in *.
  subst v1 ok1. destruct r1 as [tx1|e1]; cbn [is_Ok negb].
  2:{ rewrite bindS_run. destruct (MarkFailed_moved ("debit failed: " +:+ Error e1) t0 w1) as [Hm _].
      pose proof (preserves (f:=view) (m:=MarkFailed ("debit failed: " +:+ Error e1) t0) w1) as Hv.
      eexists _, _, _. split; [done|]. by rewrite Hv, (proj1 Hm). }
  rewrite bindS_run. destruct (MarkDebited_run t0 w1 Hs0) as (t1 & -> & Hm1).
  pose proof (preserves (f:=view) (m:=MarkDebited t0) w1) as Hv2.
  pose proof (keeps (P:=inv) (m:=MarkDebited t0) w1 Hi1) as Hi2.
  pose proof (keeps (P:=ready) (m:=MarkDebited t0) w1 Hr1) as Hr2.
  set (w2 := (MarkDebited t0 w1).2) in *. clearbody w2.
  rewrite <- Hv2 in Hs1 |- *.
  destruct (saga_transactions cmd w2 sus Hi2 Hr2 Hs1 Hc Ha)
    as (_ & (Hok3 & Hv3 & Hi3 & Hr3 & Hs3) & _).
  rewrite bindS_run. destruct (creditDestination s cmd w2) as [r3 w3]; cbn [fst snd] in *.
  destruct (book_posts (in_legs cmd sus) (view w2)) as [v3 ok3]; cbn [fst snd] in *.
  subst v3 ok3. destruct r3 as [tx3|e3]; cbn [is_Ok].
  - rewrite bindS_run. destruct (MarkCompleted_run t1 w3 (proj1 Hm1)) as (t4 & -> & Hm4).
    eexists _, _, _. split; [done|].
    by rewrite (preserves (f:=view) (m:=MarkCompleted t1) w3), (proj1 Hm4).
  - by apply compensation_live.
Qed.
End refinement.
