(* ===== verification/World.v ===== *)
(** * The world the program runs in

    The state that the components share (the two in-memory repositories and
    the Postgres tables of migrations/), and the parameters that decide what
    the environment answers: clock, UUID generator, iteration order of Go maps
    and of unordered query results, failures of the database. Each parameter
    is a stream; the world counts how many answers have been consumed. *)
From S2P Require Import Prelude Go Identifiers Money Transaction Account Book Events.
From stdpp Require Import base gmap strings list.
Local Open Scope Z_scope.

(** What happens to a statement sent to the database: it is executed and
    answered, it is lost before being executed or refused (Postgres does not
    take a text with a NUL character, for one), or it is executed and the
    answer is lost. *)
Inductive fault := Up | Lost | AckLost.

#[global] Instance fault_eq_dec : EqDecision fault.
Proof. solve_decision. Defined.

Class Oracle `{UuidLib} := {
  clock : nat -> time;                              (* time.Now().UTC() *)
  generator : nat -> UUID;                          (* uuid.Must(uuid.NewV7()) *)
  db_fault : nat -> fault;
  db_clock : nat -> time;                           (* NOW() of the database server *)
  db_time : time -> time;                           (* an instant as TIMESTAMPTZ keeps it *)
  unordered : forall {A : Type}, nat -> list A -> list A;
                                                    (* range over a map; rows before ORDER BY *)
  collate : string -> string -> bool;               (* text order of the database *)
}.

(** Documented behaviour: version 7 UUIDs are unique; an iteration visits every
    element once; a collation is a total preorder. *)
Class OracleLaws `{Oracle} : Prop := {
  generator_inj :: Inj (=) (=) generator;
  unordered_perm {A} n (l : list A) : unordered n l ≡ₚ l;
  collate_total a b : collate a b = true \/ collate b a = true;
  collate_trans a b c : collate a b = true -> collate b c = true -> collate a c = true;
}.

(** ** Tables *)

(** accounts (000003_create_accounts_write.up.sql) *)
Record AccountRow := MkAccountRow {
  ar_account_id : string;
  ar_name : string;
  ar_account_type : string;
  ar_currency : string;
  ar_balance : Z;
  ar_status : string;
  ar_created_at : time;
  ar_updated_at : time;
}.

(** events (000001_create_event_store.up.sql) *)
Record EventRow := MkEventRow {
  ev_id : Z;
  ev_aggregate_id : string;
  ev_aggregate_type : string;
  ev_event_type : string;
  ev_version : Z;
  ev_payload : json;
  ev_occurred_at : time;
}.

(** snapshots (000001_create_event_store.up.sql) *)
Record SnapshotRow := MkSnapshotRow {
  sn_version : Z;
  sn_payload : json;
  sn_created_at : time;
}.

(** outbox (000004_create_outbox.up.sql) *)
Record OutboxRow := MkOutboxRow {
  ob_id : Z;
  ob_aggregate_id : string;
  ob_aggregate_type : string;
  ob_event_type : string;
  ob_payload : json;
  ob_published : bool;
  ob_created_at : time;
  ob_published_at : option time;
}.

(** account_balances (000002_create_read_models.up.sql), also the struct
    [AccountView] of internal/projection/read_models.go *)
Record AccountView := MkAccountView {
  av_AccountID : string;
  av_Name : string;
  av_AccountType : string;
  av_Currency : string;
  av_Balance : Z;
  av_Status : string;
  av_Version : Z;
  av_UpdatedAt : time;
}.

(** transaction_history (000002_create_read_models.up.sql), also the struct
    [TransactionHistoryEntry] of internal/projection/read_models.go *)
Record TransactionHistoryEntry := MkTransactionHistoryEntry {
  th_ID : Z;
  th_TransactionID : string;
  th_AccountID : string;
  th_EntryType : string;
  th_Amount : Z;
  th_Currency : string;
  th_Description : string;
  th_BalanceAfter : Z;
  th_CreatedAt : time;
}.

(** The tables, keyed by their primary key where it is a text column. Tables
    with a BIGSERIAL key are lists in insertion order, with the sequence that
    numbers them. *)
Record DB := MkDB {
  t_accounts : gmap string AccountRow;
  t_events : list EventRow;
  t_snapshots : gmap string SnapshotRow;
  t_outbox : list OutboxRow;
  t_account_balances : gmap string AccountView;
  t_transaction_history : list TransactionHistoryEntry;
  seq_events : Z;
  seq_outbox : Z;
  seq_history : Z;
}.

Definition empty_db : DB := MkDB ∅ [] ∅ [] ∅ [] 0 0 0.

Definition set_accounts (d : DB) x :=
  MkDB x (t_events d) (t_snapshots d) (t_outbox d) (t_account_balances d)
    (t_transaction_history d) (seq_events d) (seq_outbox d) (seq_history d).
Definition set_events (d : DB) x :=
  MkDB (t_accounts d) x (t_snapshots d) (t_outbox d) (t_account_balances d)
    (t_transaction_history d) (seq_events d) (seq_outbox d) (seq_history d).
Definition set_snapshots (d : DB) x :=
  MkDB (t_accounts d) (t_events d) x (t_outbox d) (t_account_balances d)
    (t_transaction_history d) (seq_events d) (seq_outbox d) (seq_history d).
Definition set_outbox (d : DB) x :=
  MkDB (t_accounts d) (t_events d) (t_snapshots d) x (t_account_balances d)
    (t_transaction_history d) (seq_events d) (seq_outbox d) (seq_history d).
Definition set_balances (d : DB) x :=
  MkDB (t_accounts d) (t_events d) (t_snapshots d) (t_outbox d) x
    (t_transaction_history d) (seq_events d) (seq_outbox d) (seq_history d).
Definition set_history (d : DB) x :=
  MkDB (t_accounts d) (t_events d) (t_snapshots d) (t_outbox d) (t_account_balances d)
    x (seq_events d) (seq_outbox d) (seq_history d).
Definition set_seqs (d : DB) e o h :=
  MkDB (t_accounts d) (t_events d) (t_snapshots d) (t_outbox d) (t_account_balances d)
    (t_transaction_history d) e o h.

(** ROLLBACK: the tables of [d0]; sequences are not rolled back. *)
Definition rollback (d0 d1 : DB) : DB := set_seqs d0 (seq_events d1) (seq_outbox d1) (seq_history d1).

(** ** The world *)
Section world.
Context {U : UuidLib} {O : Oracle}.

Record World := MkWorld {
  w_clock : nat;                             (* clock reads so far *)
  w_uuid : nat;                              (* UUIDs drawn so far *)
  w_stmt : nat;                              (* statements sent so far *)
  w_range : nat;                             (* map iterations so far *)
  w_accounts : gmap string Account;          (* inmemory.AccountRepository.accounts *)
  w_transactions : gmap string Transaction;  (* inmemory.TransactionRepository.transactions *)
  w_db : DB;
}.

Definition tick_clock (w : World) : World :=
  MkWorld (S (w_clock w)) (w_uuid w) (w_stmt w) (w_range w) (w_accounts w) (w_transactions w) (w_db w).
Definition tick_uuid (w : World) : World :=
  MkWorld (w_clock w) (S (w_uuid w)) (w_stmt w) (w_range w) (w_accounts w) (w_transactions w) (w_db w).
Definition tick_stmt (w : World) : World :=
  MkWorld (w_clock w) (w_uuid w) (S (w_stmt w)) (w_range w) (w_accounts w) (w_transactions w) (w_db w).
Definition tick_range (w : World) : World :=
  MkWorld (w_clock w) (w_uuid w) (w_stmt w) (S (w_range w)) (w_accounts w) (w_transactions w) (w_db w).
Definition put_accounts (w : World) x : World :=
  MkWorld (w_clock w) (w_uuid w) (w_stmt w) (w_range w) x (w_transactions w) (w_db w).
Definition put_transactions (w : World) x : World :=
  MkWorld (w_clock w) (w_uuid w) (w_stmt w) (w_range w) (w_accounts w) x (w_db w).
Definition put_db (w : World) x : World :=
  MkWorld (w_clock w) (w_uuid w) (w_stmt w) (w_range w) (w_accounts w) (w_transactions w) x.

Definition initial_world : World := MkWorld 0 0 0 0 ∅ ∅ empty_db.

#[global] Instance world_runtime : Runtime World := {
  time_Now := fun w => (clock (w_clock w), tick_clock w);
  uuid_NewV7 := fun w => (generator (w_uuid w), tick_uuid w);
}.

(** ** Freshness of generated ids *)

Definition drawn (w : World) (u : UUID) : Prop := exists n, (n < w_uuid w)%nat /\ u = generator n.

(** No id still to be drawn is a key of the book. *)
Definition ids_ahead (n : nat) (v : book) : Prop :=
  forall i, (n <= i)%nat -> v !! uuid_String (generator i) = None.

(** The invariant of a world whose accounts are seen through [view], and the
    ids that are free in it. *)
Definition ledger_inv (view : World -> book) (w : World) : Prop :=
  book_wf (view w) /\ ids_ahead (w_uuid w) (view w).
Definition ledger_fresh (view : World -> book) (w : World) (u : UUID) : Prop :=
  drawn w u /\ view w !! uuid_String u = None.

Section fresh.
Context `{Laws : !UuidLaws} `{OLaws : !OracleLaws}.

Lemma ids_ahead_mono n m v : (n <= m)%nat -> ids_ahead n v -> ids_ahead m v.
Proof. intros Hnm H i Hi. apply H. lia. Qed.

Lemma ids_ahead_old n v k c c0 : v !! k = Some c0 -> ids_ahead n v -> ids_ahead n (<[k := c]> v).
Proof.
  intros Hk H i Hi. rewrite lookup_insert_ne; [by apply H|].
  intros ->. by rewrite H in Hk.
Qed.

Lemma ids_ahead_new n v i c :
  (i < n)%nat -> ids_ahead n v -> ids_ahead n (<[uuid_String (generator i) := c]> v).
Proof using Laws OLaws.
  intros Hi H j Hj. rewrite lookup_insert_ne; [by apply H|].
  intros E%(inj uuid_String)%(inj generator). lia.
Qed.

Lemma drawn_now w : drawn (tick_uuid w) (generator (w_uuid w)).
Proof. exists (w_uuid w). split; [simpl; lia|done]. Qed.

Lemma book_wf_insert v a : book_wf v -> acct_wf (core a) -> book_wf (<[AccountID_String (Account_id a) := core a]> v).
Proof.
  intros Hw Ha k c. rewrite lookup_insert_Some. intros [[<- <-]|[_ Hc]]; [done|by apply Hw].
Qed.

(** A world that differs in counters only, with the same book. *)
Lemma ledger_inv_step (view : World -> book) w w' :
  view w' = view w -> (w_uuid w <= w_uuid w')%nat -> ledger_inv view w -> ledger_inv view w'.
Proof.
  intros Hv Hu [Hw Ha]. split; rewrite Hv; [done|]. by eapply ids_ahead_mono.
Qed.

Lemma ledger_inv_save_old (view : World -> book) w w' a c0 :
  w_uuid w' = w_uuid w -> view w' = <[AccountID_String (Account_id a) := core a]> (view w) ->
  acct_wf (core a) -> view w !! AccountID_String (Account_id a) = Some c0 ->
  ledger_inv view w -> ledger_inv view w'.
Proof.
  intros Hu Hv Ha Hc [Hw Hi]. split; rewrite Hv; [by apply book_wf_insert|].
  rewrite Hu. by eapply ids_ahead_old.
Qed.

Lemma ledger_inv_save_new (view : World -> book) w w' a :
  w_uuid w' = w_uuid w -> view w' = <[AccountID_String (Account_id a) := core a]> (view w) ->
  acct_wf (core a) -> drawn w (AccountID_value (Account_id a)) ->
  ledger_inv view w -> ledger_inv view w'.
Proof using Laws OLaws.
  intros Hu Hv Ha (n & Hn & Hid) [Hw Hi]. split; rewrite Hv; [by apply book_wf_insert|].
  rewrite Hu. unfold AccountID_String at 1. rewrite Hid. by apply ids_ahead_new.
Qed.
End fresh.
End world.
