(* ===== verification/Sample.v ===== *)
(** * A concrete environment

    Instances of the parameters of the development, on which the theorems are
    evaluated: UUIDs are numbers written in binary after a prefix, clock and
    generator count (the clock within one second), the database never fails,
    iteration keeps the order of the list and text is collated by code point. *)
From S2P Require Import Prelude Go Identifiers Money Transaction Account Book Events World.
From stdpp Require Import base gmap strings list.
From Stdlib Require Import Ascii String.
Local Open Scope Z_scope.
Local Open Scope string_scope.

(** ** UUIDs *)

Fixpoint digits (p : positive) : string :=
  match p with
  | xH => "1"
  | xO p => String "0"%char (digits p)
  | xI p => String "1"%char (digits p)
  end.

Fixpoint parse_digits (s : string) : option positive :=
  match s with
  | String "1"%char EmptyString => Some xH
  | String "1"%char s => xI <$> parse_digits s
  | String "0"%char s => xO <$> parse_digits s
  | _ => None
  end.

Definition sample_String (n : N) : string :=
  match n with N0 => "uuid-nil" | Npos p => "uuid-" +:+ digits p end.

Definition sample_Parse (s : string) : option N :=
  if bool_decide (s = "uuid-nil") then Some 0%N
  else if String.prefix "uuid-" s
  then Npos <$> parse_digits (String.substring 5 (String.length s - 5) s)
  else None.

Definition sample_uuid : UuidLib :=
  {| UUID := N; uuid_Nil := 0%N; uuid_Parse := sample_Parse; uuid_String := sample_String |}.

Lemma digits_nonempty p : exists c s, digits p = String c s.
Proof. destruct p; simpl; eauto. Qed.

Lemma parse_digits_digits p : parse_digits (digits p) = Some p.
Proof.
  induction p as [p IH|p IH|]; simpl; [|by rewrite IH|done].
  rewrite IH. destruct (digits_nonempty p) as (c & t & ->). done.
Qed.

Lemma substring_all s : String.substring 0 (String.length s) s = s.
Proof. induction s as [|c s IH]; simpl; [done|]. by rewrite IH. Qed.

Lemma sample_laws : @UuidLaws sample_uuid.
Proof.
  split. intros [|p]; [done|]. cbn [uuid_Parse uuid_String sample_uuid].
  unfold sample_Parse, sample_String. rewrite bool_decide_eq_false_2.
  - simpl. rewrite Nat.sub_0_r, substring_all. change ("" ++ digits p) with (digits p).
    rewrite parse_digits_digits. by destruct (digits p).
  - destruct (digits_nonempty p) as (c & t & E). rewrite E. simpl. intros [= -> _].
    by destruct p.
Qed.

(** ** A clock and a generator alone *)

Definition sample_runtime : @Runtime nat sample_uuid :=
  @Build_Runtime nat sample_uuid (fun n => (Z.of_nat n, S n)) (fun n => (N.of_nat (S n), S n)).

(** ** The whole environment *)

Definition ascii_le (a b : ascii) : bool := (nat_of_ascii a <=? nat_of_ascii b)%nat.

Fixpoint text_le (a b : string) : bool :=
  match a, b with
  | EmptyString, _ => true
  | String _ _, EmptyString => false
  | String c a, String d b => if Ascii.eqb c d then text_le a b else ascii_le c d
  end.

Definition sample_oracle_with (faults : nat -> fault) : @Oracle sample_uuid :=
  @Build_Oracle sample_uuid (fun n => Z.of_nat n mod 1000000000) (fun n => N.of_nat (S n))
    faults (fun n => Z.of_nat n) (fun t => t) (fun A _ l => l) text_le.

Definition sample_oracle : @Oracle sample_uuid := sample_oracle_with (fun _ => Up).

Lemma text_le_total a b : text_le a b = true \/ text_le b a = true.
Proof.
  revert b. induction a as [|c a IH]; intros [|d b]; simpl; auto.
  rewrite (Ascii.eqb_sym d c). destruct (Ascii.eqb c d); [apply IH|].
  unfold ascii_le. rewrite !Nat.leb_le. lia.
Qed.

Lemma text_le_trans a b c : text_le a b = true -> text_le b c = true -> text_le a c = true.
Proof.
  revert b c. induction a as [|x a IH]; intros [|y b] [|z c]; simpl; try done.
  destruct (Ascii.eqb_spec x y), (Ascii.eqb_spec y z); subst; rewrite ?Ascii.eqb_refl.
  - apply IH.
  - by destruct (Ascii.eqb_spec y z).
  - destruct (Ascii.eqb_spec x z); [done|]. auto.
  - unfold ascii_le. rewrite !Nat.leb_le. intros H1 H2. destruct (Ascii.eqb_spec x z) as [->|].
    + exfalso. apply n. rewrite <- (ascii_nat_embedding y), <- (ascii_nat_embedding z). f_equal. lia.
    + apply Nat.leb_le. lia.
Qed.

Lemma sample_oracle_laws faults : @OracleLaws sample_uuid (sample_oracle_with faults).
Proof.
  split; simpl.
  - intros i j. lia.
  - done.
  - apply text_le_total.
  - apply text_le_trans.
Qed.

(** The clock of the sample stays in the first second of 1970. *)
Lemma sample_clock_year n : Rfc3339.year (Z.of_nat n mod 1000000000) = 1970.
Proof.
  pose proof (Z.mod_pos_bound (Z.of_nat n) 1000000000 ltac:(lia)).
  unfold Rfc3339.year. rewrite Z.div_small; [done|]. unfold Rfc3339.second_ns. lia.
Qed.
