(* ===== verification/SharedEntries.v ===== *)
(** * The entries of a Transaction, as a slice

    [NewTransaction] and [Entries] of internal/domain/ledger/transaction.go over
    the arrays of Slices.v. [Entries] copies, so that whatever a caller does
    with what it got, every transaction keeps the entries it was made with: it
    is right to take it for the value of Transaction.v. *)
From S2P Require Import Prelude Go Identifiers Money Transaction Slices.
From stdpp Require Import base gmap strings list.
Local Open Scope string_scope.
Local Open Scope list_scope.
Local Open Scope nat_scope.

(** ** internal/domain/ledger/transaction.go *)
Section transaction_obj.
Context {U : UuidLib} {W : Type} `{R : !Runtime W} (zero : Entry).

Record TransactionObj := MkTransactionObj {
  TO_id : TransactionID;
  TO_entries : slice;
  TO_description : string;
  TO_createdAt : time;
}.

(** What the rest of the development takes the object for. *)
Definition Transaction_view (m : Mem W Entry) (t : TransactionObj) : Transaction :=
  MkTransaction (TO_id t) (contents m (TO_entries t)) (TO_description t) (TO_createdAt t).

(** [for i, p := range params { entries[i] = newEntry(p, now) }]. *)
Fixpoint fill (entries : slice) (i : nat) (params : list EntryParams) (now : time)
    : St (Mem W Entry) (option unit) :=
  match params with
  | [] => retS (Some tt)
  | p :: params =>
      let@ e := newEntry p now in
      let@ stored := store entries i e in
      match stored with
      | None => retS None
      | Some _ => fill entries (S i) params now
      end
  end.

(** [construct] of Transaction.v, with its slice; [None] is a panic. *)
Definition construct_obj (params : list EntryParams) (description : string)
    : St (Mem W Entry) (option TransactionObj) :=
  let@ now := time_Now in
  let@ entries := make zero (length params) in
  let@ filled := fill entries 0 params now in
  match filled with
  | None => retS None
  | Some _ =>
      let@ id := GenerateTransactionID in
      retS (Some (MkTransactionObj id entries description now))
  end.

Definition NewTransactionObj (params : list EntryParams) (description : string)
    : St (Mem W Entry) (option (res TransactionObj)) :=
  match params with
  | [] => retS (Some (Err ErrNoEntries))
  | [_] => retS (Some (Err ErrInsufficientEntries))
  | first :: rest =>
      match check_nonzero params with
      | Err e => retS (Some (Err e))
      | Ok _ =>
          match check_currency (Money_currency (EntryParams_Amount first)) rest with
          | Err e => retS (Some (Err e))
          | Ok _ =>
              let '(totalDebits, totalCredits) := totals params 0 0 in
              if negb (totalDebits =? totalCredits)%Z
              then retS (Some (Err ErrUnbalancedTransaction))
              else let@ t := construct_obj params description in retS (Ok <$> t)
          end
      end
  end.

(** [cp := make([]Entry, len(t.entries)); copy(cp, t.entries); return cp]. *)
Definition Entries (t : TransactionObj) : St (Mem W Entry) slice :=
  let@ cp := make zero (s_len (TO_entries t)) in
  let@ _ := copy cp (TO_entries t) in
  retS cp.
End transaction_obj.

(** ** The transactions of a client *)
Section transactions.
Context {U : UuidLib} {W : Type} `{R : !Runtime W} (zero : Entry) (spare : nat -> nat).
Implicit Types (m : Mem W Entry) (t : TransactionObj).

Lemma newEntry_mem p now (ls : list (list Entry)) (w : W) :
  newEntry p now (MkMem ls w) = ((newEntry p now w).1, MkMem ls (newEntry p now w).2).
Proof.
  unfold newEntry, GenerateEntryID. rewrite !bindS_run. cbn. unfold lift. cbn.
  by destruct (uuid_NewV7 w).
Qed.

Lemma fill_run ps now n : forall (pre rest : list Entry) ls (w : W),
  length rest = length ps -> n = length pre + length ps ->
  fill (MkSlice (Some (length ls)) n) (length pre) ps now (MkMem (ls ++ [pre ++ rest]) w) =
  (Some tt, MkMem (ls ++ [pre ++ (newEntries ps now w).1]) (newEntries ps now w).2).
Proof.
  induction ps as [|p ps IH]; intros pre rest ls w Hl ->.
  { by destruct rest. }
  destruct rest as [|e0 rest]; [done|]. cbn [fill newEntries]. rewrite !bindS_run.
  cbn [retS fst snd].
  rewrite newEntry_mem. cbn [fst snd]. destruct (newEntry p now w) as [e w1]. cbn [fst snd].
  rewrite store_last by (cbn; lia). cbn [fst snd].
  specialize (IH (pre ++ [e]) rest ls w1 ltac:(cbn in Hl; lia)
                ltac:(rewrite length_app; cbn; lia)).
  rewrite length_app, Nat.add_1_r, <- !app_assoc in IH. exact IH.
Qed.

(** A transaction of the value semantics, with its entries in a new array. *)
Definition place (m : Mem W Entry) (v : Transaction) : TransactionObj :=
  MkTransactionObj (Transaction_id v)
    (MkSlice (Some (length (arrays m))) (length (Transaction_entries v)))
    (Transaction_description v) (Transaction_createdAt v).

Lemma construct_obj_run ps d m :
  construct_obj zero ps d m =
  (Some (place m (construct ps d (program m)).1),
   MkMem (arrays m ++ [Transaction_entries (construct ps d (program m)).1])
     (construct ps d (program m)).2).
Proof.
  unfold construct_obj, construct. rewrite !bindS_run.
  assert (Et : @time_Now _ _ mem_runtime m =
               ((time_Now (program m)).1, MkMem (arrays m) (time_Now (program m)).2)).
  { cbn. unfold lift. by destruct (time_Now (program m)). }
  rewrite Et. cbn [fst snd]. destruct (time_Now (program m)) as [now w]. cbn [fst snd].
  pose proof (fill_run ps now (length ps) [] (replicate (length ps) zero) (arrays m) w
                ltac:(by rewrite length_replicate) eq_refl) as F.
  cbn [app length] in F. unfold make, allocate. cbn [arrays program fst snd].
  rewrite F. cbn [fst snd].
  pose proof (newEntries_params ps now w) as Hps.
  destruct (newEntries ps now w) as [es w1]. cbn [fst snd] in *.
  unfold GenerateTransactionID. rewrite !bindS_run. cbn. unfold lift. cbn.
  destruct (uuid_NewV7 w1) as [u w2]. cbn. unfold place. cbn.
  by rewrite <- Hps, length_fmap.
Qed.

(** The constructor does not panic, and is the one of Transaction.v. *)
Lemma NewTransactionObj_run ps d m :
  NewTransactionObj zero ps d m =
  match NewTransaction ps d (program m) with
  | (Err e, w') => (Some (Err e), MkMem (arrays m) w')
  | (Ok v, w') => (Some (Ok (place m v)), MkMem (arrays m ++ [Transaction_entries v]) w')
  end.
Proof.
  destruct m as [ls w]. cbn [program arrays].
  destruct ps as [|first [|second rest]]; [done|done|].
  unfold NewTransactionObj, NewTransaction, liftR, bind, throw.
  destruct (check_nonzero _); [|done]. destruct (check_currency _ _); [|done].
  destruct (totals _ _ _) as [d1 c1]. destruct (negb _); [done|].
  rewrite !bindS_run, construct_obj_run. done.
Qed.

Lemma Entries_run t m :
  slice_ok m (TO_entries t) ->
  Entries zero t m =
  (MkSlice (Some (length (arrays m))) (s_len (TO_entries t)),
   MkMem (arrays m ++ [contents m (TO_entries t)]) (program m)).
Proof. apply copy_run. Qed.

(** What code outside the package can do: make transactions, and call
    [Entries] on any of them; overwrite, extend, reslice and copy any slice
    it holds. The fields of a [Transaction] are private. *)
Inductive client_act :=
| ActNew (params : list EntryParams) (description : string)
| ActEntries (tx : nat)
| ActWrite (held i : nat) (x : Entry)
| ActAppend (held : nat) (x : Entry)
| ActReslice (held n : nat)
| ActCopy (dst src : nat).

Record client := MkClient {
  c_mem : Mem W Entry;
  c_txs : list TransactionObj;
  c_held : list slice;
}.

(** One act; one that panics changes nothing. *)
Definition client_step (c : client) (act : client_act) : client :=
  let '(MkClient m txs held) := c in
  match act with
  | ActNew ps d =>
      match NewTransactionObj zero ps d m with
      | (Some (Ok t), m') => MkClient m' (txs ++ [t]) held
      | (_, m') => MkClient m' txs held
      end
  | ActEntries k =>
      match txs !! k with
      | Some t => let '(s, m') := Entries zero t m in MkClient m' txs (held ++ [s])
      | None => c
      end
  | ActWrite k i x =>
      match held !! k with
      | Some s => MkClient (store s i x m).2 txs held
      | None => c
      end
  | ActAppend k x =>
      match held !! k with
      | Some s =>
          let '(s', m') := append1 zero spare s x m in MkClient m' txs (held ++ [s'])
      | None => c
      end
  | ActReslice k n =>
      match held !! k with
      | Some s =>
          if n <=? length (array m s)
          then MkClient m txs (held ++ [MkSlice (s_array s) n]) else c
      | None => c
      end
  | ActCopy k j =>
      match held !! k, held !! j with
      | Some s, Some s' => MkClient (copy s s' m).2 txs held
      | _, _ => c
      end
  end.

(** The same acts on transactions that are values: only the constructor does
    anything. *)
Definition value_step (v : list Transaction * W) (act : client_act) : list Transaction * W :=
  match act with
  | ActNew ps d =>
      match NewTransaction ps d v.2 with
      | (Ok t, w') => (v.1 ++ [t], w')
      | (Err _, w') => (v.1, w')
      end
  | _ => v
  end.

(** The array of a transaction is reached from nothing that the client holds. *)
Definition owned m (held : list slice) t : Prop :=
  exists a, s_array (TO_entries t) = Some a /\ slice_ok m (TO_entries t) /\
    Forall (fun h => s_array h <> Some a) held.

Definition good (c : client) (v : list Transaction * W) : Prop :=
  (Transaction_view (c_mem c) <$> c_txs c, program (c_mem c)) = v /\
  Forall (owned (c_mem c) (c_held c)) (c_txs c) /\
  Forall (fun h => forall a, s_array h = Some a -> a < length (arrays (c_mem c))) (c_held c).

Lemma owned_only s m m' held t :
  owned m held t -> only s m m' -> s ∈ held \/ s_array s = None ->
  owned m' held t /\ Transaction_view m' t = Transaction_view m t.
Proof.
  intros (a & Ha & Hok & Hh) [Hl Ho] Hs. unfold slice_ok in Hok. rewrite Ha in Hok.
  assert (E : array m' (TO_entries t) = array m (TO_entries t)).
  { apply array_ext. intros b Hb. apply Ho; [by simplify_eq; apply Hok|].
    destruct Hs as [Hs|Hs]; [|congruence].
    rewrite Forall_forall in Hh. intros Hsb. apply (Hh s Hs). congruence. }
  split.
  - exists a. split_and!; [done| |done]. unfold slice_ok. rewrite Ha, E. split; [lia|apply Hok].
  - unfold Transaction_view, contents. by rewrite E.
Qed.

Lemma good_only s m m' txs held v :
  good (MkClient m txs held) v -> only s m m' -> s ∈ held \/ s_array s = None ->
  program m' = program m -> good (MkClient m' txs held) v.
Proof.
  intros (Hv & Ht & Hh) Ho Hs Hp. unfold good in *. cbn in *. split_and!.
  - rewrite Hp, <- Hv. f_equal. apply list_fmap_ext. intros i t Hi.
    apply owned_only with s held; [|done|done]. by eapply Forall_lookup_1 in Ht.
  - eapply Forall_impl; [exact Ht|]. intros t H. by eapply owned_only.
  - eapply Forall_impl; [exact Hh|]. intros h H a Ha. destruct Ho. specialize (H a Ha). lia.
Qed.

Lemma good_hold s m txs held v :
  good (MkClient m txs held) v ->
  (forall a, s_array s = Some a -> a < length (arrays m) /\
     Forall (fun t => s_array (TO_entries t) <> Some a) txs) ->
  good (MkClient m txs (held ++ [s])) v.
Proof.
  intros (Hv & Ht & Hh) Hs. unfold good in *. cbn in *. split_and!; [done| |].
  - apply Forall_forall. intros t Hin. rewrite Forall_forall in Ht.
    destruct (Ht t Hin) as (a & Ha & Hok & Hall). exists a. split_and!; [done|done|].
    apply Forall_app. split; [done|]. apply Forall_singleton. intros E.
    destruct (Hs a E) as [_ F]. rewrite Forall_forall in F. by apply (F t).
  - apply Forall_app. split; [done|]. apply Forall_singleton. intros a E. by apply Hs.
Qed.

(** No transaction lives at an address that is not allocated yet. *)
Lemma good_fresh m txs held v :
  good (MkClient m txs held) v ->
  Forall (fun t => s_array (TO_entries t) <> Some (length (arrays m))) txs.
Proof.
  intros (_ & Ht & _). cbn in Ht. eapply Forall_impl; [exact Ht|].
  intros t (a & Ha & Hok & _). unfold slice_ok in Hok. rewrite Ha in Hok |- *.
  intros [= E]. lia.
Qed.

Lemma good_held m txs held v s :
  good (MkClient m txs held) v -> s ∈ held ->
  forall a, s_array s = Some a -> a < length (arrays m) /\
    Forall (fun t => s_array (TO_entries t) <> Some a) txs.
Proof.
  intros (_ & Ht & Hh) Hin a Ha. cbn in *. rewrite Forall_forall in Hh.
  split; [by apply (Hh s)|]. eapply Forall_impl; [exact Ht|].
  intros t (b & Hb & _ & Hall). rewrite Forall_forall in Hall.
  intros E. apply (Hall s Hin). congruence.
Qed.

Lemma good_new m txs held vs w v w' :
  good (MkClient m txs held) (vs, w) ->
  good (MkClient (MkMem (arrays m ++ [Transaction_entries v]) w') (txs ++ [place m v]) held)
    (vs ++ [v], w').
Proof.
  intros (Hv & Ht & Hh). unfold good in *. cbn in *. injection Hv as Hv _.
  pose proof (fun t H => owned_only nil_slice m _ held t H
    (only_allocate nil_slice (Transaction_entries v) m w') (or_intror eq_refl)) as Hkeep.
  split_and!.
  - rewrite fmap_app. cbn. f_equal. rewrite <- Hv. f_equal.
    + apply list_fmap_ext. intros i t Hi. apply Hkeep. by eapply Forall_lookup_1 in Ht.
    + f_equal. destruct v as [id es d now]. unfold place, Transaction_view, contents, array. cbn.
      rewrite list_lookup_middle by done. cbn. by rewrite firstn_all.
  - apply Forall_app. split; [eapply Forall_impl; [exact Ht|]; intros t H; by apply Hkeep|].
    apply Forall_singleton. exists (length (arrays m)). split_and!; [done| |].
    + unfold slice_ok, place, array. cbn. rewrite list_lookup_middle, length_app by done.
      simpl. lia.
    + eapply Forall_impl; [exact Hh|]. intros h H E. specialize (H _ E). lia.
  - eapply Forall_impl; [exact Hh|]. intros h H a E. specialize (H _ E).
    rewrite length_app. lia.
Qed.

Lemma good_step c v act : good c v -> good (client_step c act) (value_step v act).
Proof.
  intros Hg. destruct c as [m txs held], v as [vs w].
  assert (Hw : program m = w) by (destruct Hg as ([= _ <-] & _); done).
  destruct act as [ps d|k|k i x|k x|k n|k j]; cbn [client_step value_step fst snd].
  - rewrite NewTransactionObj_run, Hw.
    destruct (NewTransaction ps d w) as [[t|e] w'] eqn:En; [eapply good_new; exact Hg|].
    apply NewTransaction_Err_invalid in En as [_ ->]. subst w. by destruct m.
  - destruct (txs !! k) as [t|] eqn:Hk; [|done].
    assert (Hok : slice_ok m (TO_entries t)).
    { destruct Hg as (_ & Ht & _). eapply Forall_lookup_1 in Ht; [|exact Hk].
      by destruct Ht as (? & _ & ? & _). }
    rewrite Entries_run by done.
    apply good_hold.
    + eapply good_only with (s := nil_slice); [exact Hg|apply only_allocate|by right|done].
    + intros a [= <-]. cbn. rewrite length_app. split; [simpl; lia|by eapply good_fresh].
  - destruct (held !! k) as [s|] eqn:Hk; [|done]. apply list_elem_of_lookup_2 in Hk.
    eapply good_only; [exact Hg|apply store_only|by left|].
    unfold store. by repeat case_match.
  - destruct (held !! k) as [s|] eqn:Hk; [|done]. apply list_elem_of_lookup_2 in Hk.
    destruct (append1_only zero spare s x m) as (Ho & Ha & Hb).
    assert (Hp : program (append1 zero spare s x m).2 = program m).
    { unfold append1, allocate, put. by repeat case_match. }
    destruct (append1 zero spare s x m) as [s' m']. cbn [fst snd] in *.
    pose proof (good_held _ _ _ _ _ Hg Hk) as Hs. apply good_hold.
    + eapply good_only; [exact Hg|exact Ho|by left|done].
    + intros a E. split; [apply Hb; [done|]; intros b Hsb; by apply Hs|].
      destruct Ha as [Ha|Ha]; [apply Hs; congruence|]. rewrite Ha in E. injection E as <-.
      by eapply good_fresh.
  - destruct (held !! k) as [s|] eqn:Hk; [|done]. apply list_elem_of_lookup_2 in Hk.
    destruct (n <=? length (array m s)); [|done].
    apply good_hold; [done|]. cbn. by eapply good_held.
  - destruct (held !! k) as [s|] eqn:Hk; [|done]. apply list_elem_of_lookup_2 in Hk.
    destruct (held !! j); [|done].
    eapply good_only; [exact Hg|apply copy_only|by left|].
    unfold copy. by repeat case_match.
Qed.

Lemma good_run acts : forall c v,
  good c v -> good (fold_left client_step acts c) (fold_left value_step acts v).
Proof. induction acts as [|act acts IH]; intros c v Hg; [done|]. by apply IH, good_step. Qed.

(** Every transaction that the constructor returned is well formed. *)
Lemma value_run_wf acts : forall v,
  Forall Transaction_wf v.1 -> Forall Transaction_wf (fold_left value_step acts v).1.
Proof.
  induction acts as [|act acts IH]; intros [vs w] Hv; [done|]. apply IH.
  destruct act as [ps d| | | | |]; try done. cbn.
  destruct (NewTransaction ps d w) as [[t|e] w'] eqn:En; [|done].
  apply Forall_app. split; [done|]. apply Forall_singleton, params_valid_entries.
  apply NewTransaction_Ok_inv in En as (Hp & -> & _). by rewrite (proj1 (construct_spec _ _ _)).
Qed.

(** C24: "Immutable after creation", "Entries returns a defensive copy": code
    that makes any number of transactions and does what it likes with the
    slices it gets from [Entries] (overwrite, append, reslice, copy), in any
    order and from empty memory, changes none of them. Read through the arrays,
    the transactions are those that the value semantics of Transaction.v makes
    of the same calls; each is well formed, and [Entries] still returns its
    entries, in an array of their own. *)
Theorem entries_are_private acts (w : W) :
  let c := fold_left client_step acts (MkClient (MkMem [] w) [] []) in
  let v := fold_left value_step acts ([], w) in
  Transaction_view (c_mem c) <$> c_txs c = v.1 /\ program (c_mem c) = v.2 /\
  Forall (fun t =>
    Transaction_wf (Transaction_view (c_mem c) t) /\
    let '(s, m') := Entries zero t (c_mem c) in
    contents m' s = Transaction_entries (Transaction_view (c_mem c) t) /\
    Forall (fun h => s_array h <> s_array s) (c_held c) /\
    Forall (fun t' => s_array (TO_entries t') <> s_array s) (c_txs c)) (c_txs c).
Proof.
  cbn zeta. assert (Hg : good (fold_left client_step acts (MkClient (MkMem [] w) [] []))
                           (fold_left value_step acts ([], w))) by (by apply good_run).
  pose proof (value_run_wf acts ([], w) ltac:(by apply Forall_nil)) as Hwf.
  destruct (fold_left client_step acts _) as [m txs held].
  destruct (fold_left value_step acts _) as [vs w']. pose proof Hg as ([= <- Hp] & Ht & Hh).
  cbn [fst snd c_mem c_held c_txs program] in *. split_and!; [done|done|].
  rewrite Forall_fmap in Hwf.
  apply Forall_forall. intros t Hin. rewrite Forall_forall in Hwf, Ht.
  split; [by apply Hwf|]. destruct (Ht t Hin) as (a & Ha & Hok & _).
  rewrite Entries_run by done. cbn [s_array]. split_and!.
  - unfold contents at 1, array. cbn. rewrite list_lookup_middle by done. cbn.
    unfold contents. by rewrite take_take, Nat.min_id.
  - eapply Forall_impl; [exact Hh|]. intros h H E. specialize (H _ E). lia.
  - by eapply good_fresh.
Qed.
End transactions.
