(* ===== verification/SharedSteps.v ===== *)
(** * The steps of a Transfer, as a slice

    internal/domain/transfer/transfer.go and [Execute] over the arrays of
    Slices.v. A transfer appends to the array whose slice [Steps] hands out,
    which no reader notices: it is right to take it for the value of Transfer.v.
    It would be wrong for a caller that writes to that slice, or that goes on
    with two copies of one transfer. *)
From S2P Require Import Prelude Go Identifiers Money Transfer LedgerService TransferService Slices.
From S2P Require Import Sample.
From stdpp Require Import base gmap strings list.
Local Open Scope string_scope.
Local Open Scope list_scope.
Local Open Scope nat_scope.

(** ** internal/domain/transfer/transfer.go *)
Section transfer_obj.
Context {U : UuidLib} {W : Type} `{R : !Runtime W} (zero : SagaStep) (spare : nat -> nat).

Record TransferObj := MkTransferObj {
  FO_id : string;
  FO_fromAccount : AccountID;
  FO_toAccount : AccountID;
  FO_amount : Money;
  FO_description : string;
  FO_state : SagaState;
  FO_failReason : string;
  FO_steps : slice;
  FO_createdAt : time;
  FO_updatedAt : time;
}.

Definition Transfer_view (m : Mem W SagaStep) (t : TransferObj) : Transfer :=
  MkTransfer (FO_id t) (FO_fromAccount t) (FO_toAccount t) (FO_amount t) (FO_description t)
    (FO_state t) (FO_failReason t) (contents m (FO_steps t)) (FO_createdAt t) (FO_updatedAt t).

Definition obj_with_state (t : TransferObj) (s : SagaState) (r : string) (now : time)
    : TransferObj :=
  MkTransferObj (FO_id t) (FO_fromAccount t) (FO_toAccount t) (FO_amount t) (FO_description t)
    s r (FO_steps t) (FO_createdAt t) now.
Definition obj_with_steps (t : TransferObj) (l : slice) : TransferObj :=
  MkTransferObj (FO_id t) (FO_fromAccount t) (FO_toAccount t) (FO_amount t) (FO_description t)
    (FO_state t) (FO_failReason t) l (FO_createdAt t) (FO_updatedAt t).

Definition addStepObj (action : string) (state : SagaState) (detail : string)
    (t : TransferObj) : St (Mem W SagaStep) TransferObj :=
  let@ now := time_Now in
  let@ steps := append1 zero spare (FO_steps t) (MkSagaStep action state detail now) in
  retS (obj_with_steps t steps).

Definition NewTransferObj (from to : AccountID) (amount : Money) (description : string)
    : M (Mem W SagaStep) TransferObj :=
  if AccountID_Equals from to then throw ErrSameAccount
  else
    let@ now := time_Now in
    let@ id := uuid_NewV7 in
    let t := MkTransferObj (uuid_String id) from to amount description Initiated "" nil_slice
               now now in
    let@ t := addStepObj "transfer.initiated" Initiated "Transfer created" t in
    ret t.

Definition MarkDebitedObj (t : TransferObj) : St (Mem W SagaStep) (option error * TransferObj) :=
  if negb (bool_decide (FO_state t = Initiated)) then retS (Some ErrInvalidTransition, t)
  else
    let@ now := time_Now in
    let@ t := addStepObj "source.debited" Debited "Source account debited"
                (obj_with_state t Debited (FO_failReason t) now) in
    retS (None, t).

Definition MarkCompletedObj (t : TransferObj) : St (Mem W SagaStep) (option error * TransferObj) :=
  if negb (bool_decide (FO_state t = Debited)) then retS (Some ErrInvalidTransition, t)
  else
    let@ now := time_Now in
    let@ t := addStepObj "destination.credited" Completed "Transfer completed successfully"
                (obj_with_state t Completed (FO_failReason t) now) in
    retS (None, t).

Definition MarkFailedObj (reason : string) (t : TransferObj) : St (Mem W SagaStep) TransferObj :=
  let@ now := time_Now in
  addStepObj "transfer.failed" Failed reason (obj_with_state t Failed reason now).

Definition MarkCompensatedObj (t : TransferObj) : St (Mem W SagaStep) TransferObj :=
  let@ now := time_Now in
  addStepObj "debit.reversed" Compensated "Compensating transaction applied"
    (obj_with_state t Compensated (FO_failReason t) now).

(** [return t.steps]: the slice itself, with its array. *)
Definition Transfer_Steps (t : TransferObj) : slice := FO_steps t.

(** *** internal/app/transfer_service.go

    [Execute], which returns the address of its variable [saga]: there is one
    object, and no copy of it is ever made. *)
Context (ledgerSvc : LedgerService W).

Definition ExecuteObj (cmd : TransferCmd)
    : St (Mem W SagaStep) (option TransferObj * option error) :=
  match NewMoney (TC_Amount cmd) (TC_Currency cmd) with
  | Err e => retS (None, Some (errWrap "invalid amount" e))
  | Ok money =>
      let@ r := NewTransferObj (TC_FromAccountID cmd) (TC_ToAccountID cmd) money
                  (TC_Description cmd) in
      match r with
      | Err e => retS (None, Some (errWrap "create transfer" e))
      | Ok saga =>
          (* Step 1: debit source account *)
          let@ r := lift (debitSource ledgerSvc cmd) in
          match r with
          | Err e =>
              let@ saga := MarkFailedObj ("debit failed: " +:+ Error e) saga in
              retS (Some saga, Some (errWrap "saga step 1 (debit source)" e))
          | Ok _ =>
              let@ marked := MarkDebitedObj saga in
              let '(err, saga) := marked in
              match err with
              | Some e => retS (Some saga, Some e)
              | None =>
                  (* Step 2: credit destination account *)
                  let@ r := lift (creditDestination ledgerSvc cmd) in
                  match r with
                  | Err e =>
                      (* Compensation: reverse the debit *)
                      let@ saga := MarkFailedObj ("credit failed: " +:+ Error e) saga in
                      let@ rc := lift (compensate ledgerSvc cmd) in
                      match rc with
                      | Err compErr =>
                          retS (Some saga, Some (errForeign
                            ("CRITICAL: compensation failed after credit failure: credit_err=" +:+
                             Error e +:+ ", comp_err=" +:+ Error compErr)))
                      | Ok _ =>
                          let@ saga := MarkCompensatedObj saga in
                          retS (Some saga, Some (errWrap "transfer failed and compensated" e))
                      end
                  | Ok _ =>
                      let@ marked := MarkCompletedObj saga in
                      let '(err, saga) := marked in
                      match err with
                      | Some e => retS (Some saga, Some e)
                      | None => retS (Some saga, None)
                      end
                  end
              end
          end
      end
  end.
End transfer_obj.
(** ** The methods on objects and on values *)
Section transfers.
Context {U : UuidLib} {W : Type} `{R : !Runtime W} (zero : SagaStep) (spare : nat -> nat).
Implicit Types (m : Mem W SagaStep) (t : TransferObj).

(** A method on the object does what the method on the value does, and grows
    the trail behind what others read. *)
Definition sim m t (r : TransferObj * Mem W SagaStep) (v : Transfer * W) : Prop :=
  v = (Transfer_view r.2 r.1, program r.2) /\ grows m r.2 (FO_steps t) (FO_steps r.1).

Lemma addStepObj_sim a st d m t :
  slice_ok m (FO_steps t) ->
  sim m t (addStepObj zero spare a st d t m) (addStep a st d (Transfer_view m t) (program m)).
Proof.
  intros Ht. unfold addStepObj, addStep, sim. rewrite !bindS_run.
  assert (Et : @time_Now _ _ mem_runtime m =
               ((time_Now (program m)).1, MkMem (arrays m) (time_Now (program m)).2)).
  { cbn. unfold lift. by destruct (time_Now (program m)). }
  rewrite Et. destruct (time_Now (program m)) as [now w]. cbn [fst snd].
  set (m1 := MkMem (arrays m) w).
  destruct (append1_grows zero spare (FO_steps t) (MkSagaStep a st d now) m1 Ht) as (Hc & Hp & Hg).
  destruct (append1 zero spare _ _ m1) as [s' m2]. cbn [fst snd retS] in *.
  split; [|exact Hg]. unfold Transfer_view, with_steps. cbn. by rewrite Hc, Hp.
Qed.

(** The four methods share their body. *)
Lemma mark_sim a st d rs m t :
  slice_ok m (FO_steps t) ->
  sim m t ((let@ now := time_Now in addStepObj zero spare a st d (obj_with_state t st rs now)) m)
    ((let@ now := time_Now in addStep a st d (with_state (Transfer_view m t) st rs now))
       (program m)).
Proof.
  intros Ht. rewrite !bindS_run. cbn [time_Now mem_runtime]. unfold lift.
  destruct (time_Now (program m)) as [now w]. cbn [fst snd].
  apply (addStepObj_sim a st d (MkMem (arrays m) w) (obj_with_state t st rs now) Ht).
Qed.

(** The calls on a transfer; [CallSteps] keeps what it returns. *)
Inductive saga_call :=
| CallMarkDebited
| CallMarkCompleted
| CallMarkFailed (reason : string)
| CallMarkCompensated
| CallSteps.

Definition call_obj (c : saga_call) (th : TransferObj * list slice)
    : St (Mem W SagaStep) (TransferObj * list slice) :=
  let '(t, held) := th in
  match c with
  | CallMarkDebited => let@ r := MarkDebitedObj zero spare t in retS (r.2, held)
  | CallMarkCompleted => let@ r := MarkCompletedObj zero spare t in retS (r.2, held)
  | CallMarkFailed reason => let@ t := MarkFailedObj zero spare reason t in retS (t, held)
  | CallMarkCompensated => let@ t := MarkCompensatedObj zero spare t in retS (t, held)
  | CallSteps => retS (t, held ++ [Transfer_Steps t])
  end.

(** The same on values: [Steps] returns a list, which nothing changes. *)
Definition call_value (c : saga_call) (th : Transfer * list (list SagaStep))
    : St W (Transfer * list (list SagaStep)) :=
  let '(v, held) := th in
  match c with
  | CallMarkDebited => let@ r := MarkDebited v in retS (r.2, held)
  | CallMarkCompleted => let@ r := MarkCompleted v in retS (r.2, held)
  | CallMarkFailed reason => let@ v := MarkFailed reason v in retS (v, held)
  | CallMarkCompensated => let@ v := MarkCompensated v in retS (v, held)
  | CallSteps => retS (v, held ++ [Transfer_steps v])
  end.

Fixpoint runCalls {X Y} (call : saga_call -> X -> St Y X) (cs : list saga_call) (x : X) : St Y X :=
  match cs with
  | [] => retS x
  | c :: cs => let@ x := call c x in runCalls call cs x
  end.

(** *** The methods *)

Lemma MarkFailedObj_sim reason m t :
  slice_ok m (FO_steps t) ->
  sim m t (MarkFailedObj zero spare reason t m)
    (MarkFailed reason (Transfer_view m t) (program m)).
Proof. apply mark_sim. Qed.

Lemma MarkCompensatedObj_sim m t :
  slice_ok m (FO_steps t) ->
  sim m t (MarkCompensatedObj zero spare t m)
    (MarkCompensated (Transfer_view m t) (program m)).
Proof. apply mark_sim. Qed.

(** [MarkDebited] and [MarkCompleted] return an error as well, the same one. *)
Definition sim_err m t (r : (option error * TransferObj) * Mem W SagaStep)
    (v : (option error * Transfer) * W) : Prop :=
  r.1.1 = v.1.1 /\ sim m t (r.1.2, r.2) (v.1.2, v.2).

Lemma guarded_sim from a st d m t :
  slice_ok m (FO_steps t) ->
  sim_err m t
    ((if negb (bool_decide (FO_state t = from)) then retS (Some ErrInvalidTransition, t)
      else let@ now := time_Now in
           let@ t := addStepObj zero spare a st d (obj_with_state t st (FO_failReason t) now) in
           retS (None, t)) m)
    ((if negb (bool_decide (FO_state t = from))
      then retS (Some ErrInvalidTransition, Transfer_view m t)
      else let@ now := time_Now in
           let@ v := addStep a st d (with_state (Transfer_view m t) st (FO_failReason t) now) in
           retS (None, v)) (program m)).
Proof.
  intros Ht. destruct (bool_decide _); cbn [negb].
  - pose proof (mark_sim a st d (FO_failReason t) m t Ht) as H. rewrite !bindS_run in H.
    rewrite !bindS_run. split; [done|]. cbn [retS fst snd]. by rewrite <- !surjective_pairing.
  - split; [done|]. split; [done|]. by apply grows_refl.
Qed.

Lemma MarkDebitedObj_sim m t :
  slice_ok m (FO_steps t) ->
  sim_err m t (MarkDebitedObj zero spare t m) (MarkDebited (Transfer_view m t) (program m)).
Proof. apply guarded_sim. Qed.

Lemma MarkCompletedObj_sim m t :
  slice_ok m (FO_steps t) ->
  sim_err m t (MarkCompletedObj zero spare t m) (MarkCompleted (Transfer_view m t) (program m)).
Proof. apply guarded_sim. Qed.

Lemma NewTransferObj_run from to amount d m :
  match NewTransferObj zero spare from to amount d m with
  | (Err e, m') => m' = m /\ NewTransfer from to amount d (program m) = (Err e, program m)
  | (Ok t, m') =>
      NewTransfer from to amount d (program m) = (Ok (Transfer_view m' t), program m') /\
      slice_ok m' (FO_steps t)
  end.
Proof.
  unfold NewTransferObj, NewTransfer. destruct (AccountID_Equals from to); [done|].
  rewrite !bindS_run. cbn [time_Now uuid_NewV7 mem_runtime]. unfold lift.
  destruct (time_Now (program m)) as [now w1]. cbn [fst snd program arrays].
  destruct (uuid_NewV7 w1) as [u w2]. cbn [fst snd].
  pose (t := MkTransferObj (uuid_String u) from to amount d Initiated "" nil_slice now now).
  destruct (addStepObj_sim "transfer.initiated" Initiated "Transfer created"
              (MkMem (arrays m) w2) t eq_refl) as [E [Hok _]].
  change (Transfer_view (MkMem (arrays m) w2) t) with
    (MkTransfer (uuid_String u) from to amount d Initiated "" [] now now) in E.
  cbn [program] in E. rewrite E. by subst t.
Qed.

(** *** Calls, and the slices that [Steps] has handed out *)

Definition held_ok m t (held : list slice) : Prop :=
  Forall (fun h => slice_ok m h /\ behind h (FO_steps t)) held.

Lemma held_kept m m' t t' held :
  grows m m' (FO_steps t) (FO_steps t') -> held_ok m t held ->
  held_ok m' t' held /\ contents m' <$> held = contents m <$> held.
Proof.
  intros [_ Hg] Hh. unfold held_ok in *. rewrite Forall_forall in Hh. split.
  - apply Forall_forall. intros h Hin. destruct (Hh h Hin) as [H1 H2].
    by destruct (Hg h H1 H2) as (? & _ & ?).
  - apply list_fmap_ext. intros i h Hi. apply list_elem_of_lookup_2 in Hi.
    destruct (Hh h Hi). by apply Hg.
Qed.

(** One call on the object leaves behind what the call on the value does. *)
Definition called (r : (TransferObj * list slice) * Mem W SagaStep)
    (v : (Transfer * list (list SagaStep)) * W) : Prop :=
  v = ((Transfer_view r.2 r.1.1, contents r.2 <$> r.1.2), program r.2) /\
  slice_ok r.2 (FO_steps r.1.1) /\ held_ok r.2 r.1.1 r.1.2.

Lemma sim_called m t held r v :
  held_ok m t held -> sim m t r v ->
  called ((r.1, held), r.2) ((v.1, contents m <$> held), v.2).
Proof.
  intros Hh [-> Hg]. destruct (held_kept m r.2 t r.1 held Hg Hh) as [Hh' E].
  split_and!; [cbn [fst snd]; by rewrite E|by destruct Hg|done].
Qed.

Lemma call_obj_run c m t held :
  slice_ok m (FO_steps t) -> held_ok m t held ->
  called (call_obj c (t, held) m)
    (call_value c (Transfer_view m t, contents m <$> held) (program m)).
Proof.
  intros Ht Hh. destruct c as [| |reason| |]; cbn [call_obj call_value]; rewrite ?bindS_run.
  - destruct (MarkDebitedObj_sim m t Ht) as [_ Hs]. exact (sim_called _ _ _ _ _ Hh Hs).
  - destruct (MarkCompletedObj_sim m t Ht) as [_ Hs]. exact (sim_called _ _ _ _ _ Hh Hs).
  - exact (sim_called _ _ _ _ _ Hh (MarkFailedObj_sim reason m t Ht)).
  - exact (sim_called _ _ _ _ _ Hh (MarkCompensatedObj_sim m t Ht)).
  - unfold called. cbn. split_and!; [by rewrite fmap_app|done|].
    apply Forall_app. split; [done|]. apply Forall_singleton.
    split; [done|]. unfold behind, Transfer_Steps. lia.
Qed.

Lemma calls_run cs : forall m t held,
  slice_ok m (FO_steps t) -> held_ok m t held ->
  called (runCalls call_obj cs (t, held) m)
    (runCalls call_value cs (Transfer_view m t, contents m <$> held) (program m)).
Proof.
  induction cs as [|c cs IH]; intros m t held Ht Hh; [by split_and!|].
  cbn [runCalls]. rewrite !bindS_run.
  destruct (call_obj_run c m t held Ht Hh) as (E & Ht' & Hh').
  destruct (call_obj c (t, held) m) as [[t' held'] m']. cbn [fst snd] in *. rewrite E.
  cbn [fst snd]. apply (IH m' t' held' Ht' Hh').
Qed.

(** *** Execute *)

(** What [Execute] returns, in memory and as a value. *)
Definition executed (r : (option TransferObj * option error) * Mem W SagaStep)
    (v : outcome * W) : Prop :=
  v = ((Transfer_view r.2 <$> r.1.1, r.1.2), program r.2) /\
  match r.1.1 with Some t => slice_ok r.2 (FO_steps t) | None => True end.

Context (ledgerSvc : LedgerService W).

Lemma lift_run {X} (f : St W X) m :
  lift f m = ((f (program m)).1, MkMem (arrays m) (f (program m)).2).
Proof. unfold lift. by destruct (f (program m)). Qed.

(** After a method, when the transfer is returned with an error or without. *)
Lemma sim_executed m t r v err :
  sim m t r v -> executed ((Some r.1, err), r.2) ((Some v.1, err), v.2).
Proof. intros [-> [Hok _]]. by split. Qed.

(** A change of the rest of the world does not change what a transfer reads. *)
Ltac same_view :=
  change (Transfer_view (MkMem (arrays ?m) ?w) ?t) with (Transfer_view m t) in *;
  cbn [program] in *.

Lemma ExecuteObj_run cmd m :
  executed (ExecuteObj zero spare ledgerSvc cmd m) (Execute ledgerSvc cmd (program m)).
Proof.
  unfold ExecuteObj, Execute. destruct (NewMoney _ _) as [money|e]; [|done].
  rewrite !bindS_run.
  pose proof (NewTransferObj_run (TC_FromAccountID cmd) (TC_ToAccountID cmd) money
                (TC_Description cmd) m) as N.
  destruct (NewTransferObj _ _ _ _ _ _ m) as [[t|e] m1]; cbn [fst snd];
    [|by destruct N as [-> ->]].
  destruct N as [-> Ht]. cbn [fst snd]. rewrite !bindS_run, lift_run. cbn [fst snd].
  destruct (debitSource ledgerSvc cmd (program m1)) as [[tx|e] w2]; cbn [fst snd];
    rewrite !bindS_run.
  2: exact (sim_executed _ _ _ _ _ (MarkFailedObj_sim _ (MkMem (arrays m1) w2) t Ht)).
  destruct (MarkDebitedObj_sim (MkMem (arrays m1) w2) t Ht) as [Ee Hs].
  same_view.
  destruct (MarkDebitedObj zero spare t _) as [[er t2] m2].
  destruct (MarkDebited (Transfer_view m1 t) w2) as [[er' v2] w2']. cbn [fst snd] in *.
  subst er'. destruct er as [e|]; [exact (sim_executed _ _ _ _ _ Hs)|].
  destruct Hs as [[= -> ->] [Ht2 _]]. cbn [fst snd] in *.
  rewrite !bindS_run, lift_run. cbn [fst snd].
  destruct (creditDestination ledgerSvc cmd (program m2)) as [[tx3|e] w3]; cbn [fst snd];
    rewrite !bindS_run.
  - destruct (MarkCompletedObj_sim (MkMem (arrays m2) w3) t2 Ht2) as [Ee Hs].
    same_view.
    destruct (MarkCompletedObj zero spare t2 _) as [[er t4] m4].
    destruct (MarkCompleted (Transfer_view m2 t2) w3) as [[er' v4] w4]. cbn [fst snd] in *.
    subst er'. destruct er; exact (sim_executed _ _ _ _ _ Hs).
  - destruct (MarkFailedObj_sim ("credit failed: " +:+ Error e) (MkMem (arrays m2) w3) t2 Ht2)
      as [Ev [Ht4 _]].
    same_view. rewrite Ev.
    destruct (MarkFailedObj zero spare _ t2 _) as [t4 m4]. cbn [fst snd] in *.
    rewrite lift_run. cbn [fst snd].
    destruct (compensate ledgerSvc cmd (program m4)) as [[tx5|ce] w5]; cbn [fst snd];
      [|by split]. rewrite !bindS_run.
    exact (sim_executed _ _ _ _ _ (MarkCompensatedObj_sim (MkMem (arrays m4) w5) t4 Ht4)).
Qed.

(** C25: The audit trail can be taken for a list. From any memory and whatever
    room [append] allocates, [Execute] over slices leaves the world that
    [Execute] over lists leaves and returns the same error and a transfer that
    reads the same; and after any calls on that transfer, every slice that
    [Steps] has handed out meanwhile still reads as it did when it was handed
    out, though the transfer has gone on writing to the same array. *)
Theorem saga_slices_are_lists cmd m calls :
  let '((saga, err), m') := ExecuteObj zero spare ledgerSvc cmd m in
  Execute ledgerSvc cmd (program m) = ((Transfer_view m' <$> saga, err), program m') /\
  match saga with
  | None => True
  | Some t =>
      let '((t2, held), m2) := runCalls call_obj calls (t, []) m' in
      runCalls call_value calls (Transfer_view m' t, []) (program m') =
      ((Transfer_view m2 t2, contents m2 <$> held), program m2)
  end.
Proof.
  pose proof (ExecuteObj_run cmd m) as [E Hok].
  destruct (ExecuteObj zero spare ledgerSvc cmd m) as [[saga err] m']. cbn [fst snd] in *.
  split; [done|]. destruct saga as [t|]; [|done].
  destruct (calls_run calls m' t [] Hok ltac:(by apply Forall_nil)) as [C _].
  destruct (runCalls call_obj calls (t, []) m') as [[t2 held] m2]. exact C.
Qed.

(** *** Where the list would be wrong *)

(** What a caller writes to the slice that [Steps] returned is in the audit
    trail of the transfer: [Steps] makes no copy, unlike [Entries]. No caller
    of the program writes to it. *)
Theorem Steps_lets_rewrite_history m t i x :
  slice_ok m (FO_steps t) -> i < s_len (FO_steps t) ->
  let '(stored, m') := store (Transfer_Steps t) i x m in
  stored = Some tt /\
  Transfer_steps (Transfer_view m' t) = <[i := x]> (Transfer_steps (Transfer_view m t)).
Proof.
  intros Hok Hi. unfold store, Transfer_Steps, slice_ok in *.
  destruct (s_array (FO_steps t)) as [a|] eqn:Ha; [|lia].
  rewrite (proj2 (Nat.ltb_lt _ _) Hi). split; [done|]. cbn. unfold contents.
  rewrite put_array, decide_True by done. by rewrite take_insert_lt.
Qed.

(** Two copies of one transfer write their next steps to the same cell while
    the array has room: the trail of the first ends with the step of the
    second. The program keeps every transfer in one variable. *)
Theorem copied_transfer_shares_its_next_step m t reason reason' :
  slice_ok m (FO_steps t) -> s_len (FO_steps t) < length (array m (FO_steps t)) ->
  let '(t1, m1) := MarkFailedObj zero spare reason t m in
  let '(t2, m2) := MarkFailedObj zero spare reason' t m1 in
  FO_failReason t1 = reason /\
  Transfer_steps (Transfer_view m2 t1) = Transfer_steps (Transfer_view m2 t2) /\
  SagaStep_Detail <$> last (Transfer_steps (Transfer_view m2 t1)) = Some reason'.
Proof.
  intros Hok Hl. destruct (s_array (FO_steps t)) as [a|] eqn:Ha.
  2: { unfold slice_ok in Hok. rewrite Ha in Hok. unfold array in Hl. rewrite Ha in Hl.
       simpl in Hl. lia. }
  assert (E : forall r (m0 : Mem W SagaStep), length (array m0 (FO_steps t)) =
            length (array m (FO_steps t)) ->
    let w := (time_Now (program m0)).2 in
    MarkFailedObj zero spare r t m0 =
    (MkTransferObj (FO_id t) (FO_fromAccount t) (FO_toAccount t) (FO_amount t)
       (FO_description t) Failed r (MkSlice (Some a) (S (s_len (FO_steps t))))
       (FO_createdAt t) (time_Now (program m0)).1,
     put a (s_len (FO_steps t)) (MkSagaStep "transfer.failed" Failed r (time_Now w).1)
       (MkMem (arrays m0) (time_Now w).2))).
  { intros r m0 Hm0. cbn zeta. unfold MarkFailedObj, addStepObj. rewrite !bindS_run.
    cbn [time_Now mem_runtime]. rewrite !lift_run. cbn [fst snd program arrays].
    unfold append1. cbn [FO_steps obj_with_state]. rewrite Ha.
    change (array (MkMem (arrays m0) _) (FO_steps t)) with (array m0 (FO_steps t)).
    rewrite Hm0, (proj2 (Nat.ltb_lt _ _) Hl). done. }
  rewrite (E reason m eq_refl), (E reason').
  2: { rewrite put_array, decide_True by done. apply length_insert. }
  split; [done|]. split; [done|].
  cbn [Transfer_view Transfer_steps FO_steps]. unfold contents. cbn [s_len].
  rewrite put_array, decide_True by done.
  erewrite take_S_r.
  2: { rewrite list_lookup_insert_eq; [done|].
       unfold array in Hl |- *. rewrite Ha in Hl. cbn in Hl |- *.
       rewrite list_lookup_alter_eq. destruct (arrays m !! a); cbn in *; [|lia].
       by rewrite length_insert. }
  by rewrite last_snoc.
Qed.
End transfers.

(** With an [append] that doubles, a transfer that has completed has three steps
    in an array of four. *)
Example completed_transfer_has_room :
  let id (n : N) := @MkAccountID sample_uuid n in
  let spare (n : nat) := n - 2 in
  let zero := MkSagaStep "" Initiated "" 0%Z in
  let new := NewTransferObj (R := sample_runtime) zero spare in
  let '(r, m1) := new (id 1%N) (id 2%N) (MkMoney 5 "USD") "" (MkMem [] 0) in
  match r with
  | Err _ => False
  | Ok t1 =>
      let '((_, t2), m2) := MarkDebitedObj (R := sample_runtime) zero spare t1 m1 in
      let '((_, t3), m3) := MarkCompletedObj (R := sample_runtime) zero spare t2 m2 in
      trail (Transfer_view m3 t3) = [Initiated; Debited; Completed] /\
      s_len (FO_steps t3) = 3 /\ length (array m3 (FO_steps t3)) = 4
  end.
Proof. vm_compute. done. Qed.
