(* ===== verification/InMemory.v ===== *)
(** * internal/infra/inmemory: the in-memory repositories

    Both are Go maps keyed by the text of the id, guarded by a mutex that
    makes every method atomic: here a method is one step, which Mutex.v
    justifies. *)
From S2P Require Import Prelude Go Identifiers Money Transaction Account Book Events Ports.
From S2P Require Import World LedgerService LedgerSafety LedgerLive.
From stdpp Require Import base gmap strings list.
Local Open Scope Z_scope.

Definition mem_ErrAccountNotFound : error :=
  errNew "inmemory.ErrAccountNotFound" "account not found".
Definition ErrTransactionNotFound : error :=
  errNew "inmemory.ErrTransactionNotFound" "transaction not found".

Section inmemory.
Context {U : UuidLib} {O : Oracle}.

(** ** account_repository.go *)

Definition mem_Save (acc : Account) : M World unit :=
  fun w => (Ok tt, put_accounts w (<[AccountID_String (Account_id acc) := acc]> (w_accounts w))).

Definition mem_FindByID (id : AccountID) : M World Account :=
  fun w => match w_accounts w !! AccountID_String id with
           | None => (Err mem_ErrAccountNotFound, w)
           | Some acc => (Ok acc, w)
           end.

(** [for _, acc := range r.accounts]: in unspecified order. *)
Definition mem_FindAll : M World (list Account) :=
  fun w => (Ok (unordered (w_range w) (map_to_list (w_accounts w)).*2), tick_range w).

Definition mem_AccountRepository : Repository World :=
  MkRepository World mem_Save mem_FindByID mem_FindAll.

(** ** transaction_repository.go *)

Definition mem_tx_Save (tx : Transaction) : M World unit :=
  fun w => (Ok tt, put_transactions w
              (<[TransactionID_String (Transaction_id tx) := tx]> (w_transactions w))).

Definition mem_tx_FindByID (id : TransactionID) : M World Transaction :=
  fun w => match w_transactions w !! TransactionID_String id with
           | None => (Err ErrTransactionNotFound, w)
           | Some tx => (Ok tx, w)
           end.

(** A transaction is taken once if one of its entries is on the account. *)
Definition mentions (accountID : AccountID) (tx : Transaction) : bool :=
  existsb (fun e => AccountID_Equals (Entry_accountID e) accountID) (Transaction_entries tx).

Definition mem_tx_FindByAccountID (accountID : AccountID) : M World (list Transaction) :=
  fun w => (Ok (List.filter (mentions accountID)
                  (unordered (w_range w) (map_to_list (w_transactions w)).*2)), tick_range w).

Definition mem_TransactionRepository : TransactionRepository World :=
  MkTransactionRepository World mem_tx_Save mem_tx_FindByID mem_tx_FindByAccountID.

(** The wiring of the unit tests: everything in memory, no event store, no
    outbox, no projector. *)
Definition mem_service : LedgerService World :=
  NewLedgerService mem_AccountRepository mem_TransactionRepository None None None.

(** ** The repository is an abstract ledger *)

Definition mem_view (w : World) : book := core <$> w_accounts w.
Definition mem_inv : World -> Prop := ledger_inv mem_view.
Definition mem_fresh : World -> UUID -> Prop := ledger_fresh mem_view.

(** The in-memory repositories never fail; the clock is within the years that
    JSON can express. *)
Definition mem_ready (w : World) : Prop :=
  forall n, (w_clock w <= n)%nat -> 0 <= Rfc3339.year (clock n) <= 9999.
Definition mem_unlogged (u : UUID) (w : World) : Prop := True.

Lemma mem_Save_view acc w :
  mem_view (mem_Save acc w).2 = <[AccountID_String (Account_id acc) := core acc]> (mem_view w).
Proof. unfold mem_view; simpl. by rewrite fmap_insert. Qed.

Context `{Laws : !UuidLaws} `{OLaws : !OracleLaws}.

#[global] Instance mem_safe_repository :
  SafeRepository mem_AccountRepository mem_view mem_inv mem_fresh.
Proof using Laws OLaws.
  split.
  - by intros w [? _].
  - by intros w u [_ ?].
  - intros id w. simpl. unfold mem_FindByID. by case_match.
  - intros id w Hi. simpl. unfold mem_FindByID. by case_match.
  - by intros w.
  - intros w. by apply ledger_inv_step.
  - intros id w a w'. simpl. unfold mem_FindByID, mem_view. rewrite lookup_fmap.
    destruct (w_accounts w !! _); [|done]. by intros [= -> ->].
  - intros id w. simpl. unfold mem_FindByID, mem_view. rewrite lookup_fmap.
    destruct (w_accounts w !! _); [done|]. eauto.
  - intros w l w' _ [= <- <-]. rewrite unordered_perm. unfold mem_view.
    rewrite map_to_list_fmap, <- !list_fmap_compose. done.
  - intros a w c0 Hi Ha Hc _. cbn [Repository_Save mem_AccountRepository].
    rewrite mem_Save_view. split; [|auto].
    eapply ledger_inv_save_old; [..|exact Hi]; eauto using mem_Save_view.
  - intros a w Hi Ha [Hd _]. cbn [Repository_Save mem_AccountRepository].
    rewrite mem_Save_view. split; [|auto].
    eapply ledger_inv_save_new; [..|exact Hi]; eauto using mem_Save_view.
Qed.

#[global] Instance mem_live_repository :
  LiveRepository mem_AccountRepository mem_view mem_inv mem_ready.
Proof.
  split.
  - intros id w Hr. simpl. unfold mem_FindByID. by case_match.
  - by intros w.
  - by intros a w.
  - intros id w c _ _. simpl. unfold mem_FindByID, mem_view. rewrite lookup_fmap.
    destruct (w_accounts w !! _); [eauto|done].
  - intros w _ _. simpl. unfold mem_FindAll. eauto.
  - intros a w _. simpl. unfold mem_Save. eauto.
Qed.

#[global] Instance mem_safe_service : SafeService mem_service mem_view mem_inv mem_fresh.
Proof using Laws OLaws.
  split; try apply _.
  - by intros w.
  - intros w. by apply ledger_inv_step.
  - by intros w.
  - intros w. apply ledger_inv_step; simpl; [done|lia].
  - intros w [_ Ha]. split; [apply drawn_now|]. by apply Ha.
  - by intros tx w.
  - intros tx w. by apply ledger_inv_step.
Qed.

#[global] Instance mem_live_service :
  LiveService mem_service mem_view mem_inv mem_ready mem_unlogged.
Proof.
  split; try apply _; try done.
  - intros w Hr n Hn. apply Hr. simpl in Hn. lia.
  - intros w Hr. by apply Hr.
  - intros w Hr. by apply Hr.
  - by intros tx w.
  - intros tx w _. simpl. unfold mem_tx_Save. eauto.
  - intros u ty e w Hr _. exists w. done.
Qed.
End inmemory.
