(* ===== verification/Mutex.v ===== *)
(** * internal/infra/inmemory under concurrent calls

    InMemory.v takes every method of the in-memory repositories for one step.
    Here the methods are cut where another goroutine can run: before and after
    each operation of their [sync.RWMutex], before the access to the map, and
    between two iterations of a loop over it. Calls come at any time and their
    steps interleave in any order. The two repositories differ in what they
    store and in what their loop keeps ([Guarded]).

    A history records when a call has its effect. [linearizable] says that the
    results of any interleaving are those of the methods of InMemory.v called
    one after the other, in an order that respects which call returned before
    which was made. *)
From S2P Require Import Prelude Go Identifiers Money Transaction Account Ports World InMemory.
From S2P Require Import Sample.
From stdpp Require Import base gmap strings list relations.
Local Open Scope string_scope.
Local Open Scope list_scope.
Local Open Scope nat_scope.

(** ** The methods *)

(** What a method does with the map: an assignment, a lookup, or a loop that
    collects the values that [keep] accepts. *)
Inductive method (V : Type) :=
| Assign (key : string) (v : V)
| Lookup (key : string)
| Collect (keep : V -> bool).
Arguments Assign {V} key v.
Arguments Lookup {V} key.
Arguments Collect {V} keep.

Inductive result (V : Type) :=
| Saved
| Found (o : option V)
| Listed (l : list V).
Arguments Saved {V}.
Arguments Found {V} o.
Arguments Listed {V} l.

(** The order of a loop over a map is not specified. *)
Definition same_result {V} (r r' : result V) : Prop :=
  match r, r' with
  | Saved, Saved => True
  | Found o, Found o' => o = o'
  | Listed l, Listed l' => l ≡ₚ l'
  | _, _ => False
  end.

(** Where a goroutine stands in its method. *)
Inductive stage (V : Type) :=
| Calling                                            (* before [Lock] or [RLock] *)
| Writing                                            (* with the lock, before the assignment *)
| Written                                            (* before [Unlock] *)
| Looking                                            (* with the read lock, before the lookup *)
| Ranging (visited : gset string) (acc : list V)     (* in the loop *)
| HasRead (r : result V)                             (* before [RUnlock] *)
| Returned (r : result V).
Arguments Calling {V}.
Arguments Writing {V}.
Arguments Written {V}.
Arguments Looking {V}.
Arguments Ranging {V} visited acc.
Arguments HasRead {V} r.
Arguments Returned {V} r.

(** A repository: its mutex (whether it is locked for writing, and by how many
    readers) and its map. *)
Record repo (V : Type) := MkRepo {
  r_writer : bool;
  r_readers : nat;
  r_map : gmap string V;
}.
Arguments MkRepo {V} _ _ _.
Arguments r_writer {V} _.
Arguments r_readers {V} _.
Arguments r_map {V} _.

(** One step of a goroutine. The result is given at the step at which the call
    has its effect. [Lock] waits for every holder of the mutex, [RLock] for a
    writer (and, in Go, for a waiting one: that only excludes schedules). *)
Inductive advances {V} :
    method V -> stage V * repo V -> stage V * repo V -> option (result V) -> Prop :=
| adv_Lock k v m :
    advances (Assign k v) (Calling, MkRepo false 0 m) (Writing, MkRepo true 0 m) None
| adv_assign k v b n m :
    advances (Assign k v) (Writing, MkRepo b n m) (Written, MkRepo b n (<[k := v]> m)) (Some Saved)
| adv_Unlock k v b n m :
    advances (Assign k v) (Written, MkRepo b n m) (Returned Saved, MkRepo false n m) None
| adv_RLock_lookup k n m :
    advances (Lookup k) (Calling, MkRepo false n m) (Looking, MkRepo false (S n) m) None
| adv_lookup k b n m :
    advances (Lookup k) (Looking, MkRepo b n m) (HasRead (Found (m !! k)), MkRepo b n m)
      (Some (Found (m !! k)))
| adv_RLock_range f n m :
    advances (Collect f) (Calling, MkRepo false n m) (Ranging ∅ [], MkRepo false (S n) m) None
| adv_next f b n m visited acc k v :
    m !! k = Some v -> k ∉ visited ->
    advances (Collect f) (Ranging visited acc, MkRepo b n m)
      (Ranging ({[k]} ∪ visited) (if f v then acc ++ [v] else acc), MkRepo b n m) None
| adv_end f b n m visited acc :
    dom m ⊆ visited ->
    advances (Collect f) (Ranging visited acc, MkRepo b n m)
      (HasRead (Listed acc), MkRepo b n m) (Some (Listed acc))
| adv_RUnlock x b n m r :
    advances x (HasRead r, MkRepo b n m) (Returned r, MkRepo b (n - 1) m) None.

(** A repository whose methods have this form: [code] of a call, and the method
    of InMemory.v for it, on its part of the world. *)
Class Guarded (C V : Type) (W : Type) := {
  code : C -> method V;
  table : W -> gmap string V;
  exec : C -> St W (result V);
}.

(** What an uninterrupted method does. *)
Definition atomic {V} (x : method V) (m : gmap string V) (r : result V) (m' : gmap string V)
    : Prop :=
  match x with
  | Assign k v => r = Saved /\ m' = <[k := v]> m
  | Lookup k => r = Found (m !! k) /\ m' = m
  | Collect f => same_result r (Listed (List.filter f (map_to_list m).*2)) /\ m' = m
  end.

Class GuardedLaws C V W `{Guarded C V W} : Prop := {
  exec_atomic c w : atomic (code c) (table w) (exec c w).1 (table (exec c w).2);
}.

Section interleaving.
Context {C V W : Type} `{G : Guarded C V W}.

(** ** The goroutines *)

Record goroutine := MkGoroutine { g_call : C; g_phase : stage V }.

Record state := MkState {
  s_repo : repo V;
  s_threads : list goroutine;
  s_history : list (nat * C * result V);
}.

(** A repository that nothing has called yet. *)
Definition unused (r : repo V) : state := MkState r [] [].

(** What a step of goroutine [i] adds to the history. *)
Definition effect (i : nat) (c : C) (o : option (result V)) : list (nat * C * result V) :=
  match o with Some r => [(i, c, r)] | None => [] end.

Inductive step : state -> state -> Prop :=
| step_call c s :
    step s (MkState (s_repo s) (s_threads s ++ [MkGoroutine c Calling]) (s_history s))
| step_run i c p q r' o s :
    s_threads s !! i = Some (MkGoroutine c p) ->
    advances (code c) (p, s_repo s) (q, r') o ->
    step s (MkState r' (<[i := MkGoroutine c q]> (s_threads s))
              (s_history s ++ effect i c o)).

(** The calls one after the other. *)
Fixpoint one_by_one (cs : list C) : St W (list (result V)) :=
  match cs with
  | [] => retS []
  | c :: cs => let@ r := exec c in let@ rs := one_by_one cs in retS (r :: rs)
  end.

Definition linearizable (new : repo V) : Prop :=
  forall s, rtc step (unused new) s ->
  (forall w, table w = r_map new ->
     let '(rs, w') := one_by_one (s_history s).*1.*2 w in
     Forall2 same_result (s_history s).*2 rs /\ table w' = r_map (s_repo s)) /\
  NoDup (s_history s).*1.*1 /\
  (forall i g, s_threads s !! i = Some g ->
     (forall r, g_phase g = Returned r -> (i, g_call g, r) ∈ s_history s) /\
     (g_phase g = Calling -> i ∉ (s_history s).*1.*1)) /\
  (forall s', step s s' -> s_history s `prefix_of` s_history s').

(** ** Counting goroutines *)

Definition writes (g : goroutine) : bool :=
  match g_phase g with Writing | Written => true | _ => false end.
Definition reads (g : goroutine) : bool :=
  match g_phase g with Looking | Ranging _ _ | HasRead _ => true | _ => false end.

Definition count (f : goroutine -> bool) (l : list goroutine) : nat :=
  length (List.filter f l).

Lemma count_app f l l' : count f (l ++ l') = count f l + count f l'.
Proof. unfold count. by rewrite List.filter_app, length_app. Qed.

Lemma count_insert f l i g g' :
  l !! i = Some g ->
  count f (<[i := g']> l) + Nat.b2n (f g) = count f l + Nat.b2n (f g').
Proof.
  unfold count. revert i. induction l as [|h l IH]; intros [|i] Hi; simplify_eq/=.
  - destruct (f g), (f g'); simpl; lia.
  - specialize (IH i Hi). destruct (f h); simpl; lia.
Qed.

Lemma count_pos f l i g : l !! i = Some g -> f g = true -> 0 < count f l.
Proof.
  unfold count. intros Hi Hf. apply list_elem_of_lookup_2, list_elem_of_In in Hi.
  assert (In g (List.filter f l)) as Hin by (by apply List.filter_In).
  destruct (List.filter f l); [done|simpl; lia].
Qed.

(** ** The invariant of the mutex *)

Definition locked_right (s : state) : Prop :=
  count writes (s_threads s) = Nat.b2n (r_writer (s_repo s)) /\
  count reads (s_threads s) = r_readers (s_repo s) /\
  (r_writer (s_repo s) = true -> r_readers (s_repo s) = 0).

Lemma locked_right_step s s' : locked_right s -> step s s' -> locked_right s'.
Proof.
  unfold locked_right. intros (Hw & Hr & Hx) Hs.
  destruct Hs as [c s|i c p q r' o s Hi Ha]; cbn [s_threads s_repo].
  - rewrite !count_app. cbn. split_and!; [lia|lia|done].
  - pose proof (count_insert writes _ _ _ (MkGoroutine c q) Hi) as Cw.
    pose proof (count_insert reads _ _ _ (MkGoroutine c q) Hi) as Cr.
    inversion Ha; subst; destruct s as [[b0 n0 m0] ts h]; simplify_eq/=;
      try (destruct b0; [specialize (Hx eq_refl)|]; cbn in *);
      split_and!; try lia; try done; intros; cbn in *; try lia; try done.
Qed.

(** A writer is alone: no other goroutine touches the map. *)
Lemma writer_alone s i g :
  locked_right s -> s_threads s !! i = Some g -> writes g = true -> count reads (s_threads s) = 0.
Proof.
  intros (Hw & Hr & Hx) Hi Hg. pose proof (count_pos _ _ _ _ Hi Hg).
  rewrite Hr. apply Hx. by destruct (r_writer (s_repo s)); [|cbn in *; lia].
Qed.

(** ** The invariant of the history *)

Definition ids (h : list (nat * C * result V)) : list nat := h.*1.*1.

Fixpoint atomic_run (m : gmap string V) (h : list (nat * C * result V)) (m' : gmap string V)
    : Prop :=
  match h with
  | [] => m' = m
  | (_, c, r) :: h => exists m1, atomic (code c) m r m1 /\ atomic_run m1 h m'
  end.

Lemma atomic_run_snoc m h m1 i c r m' :
  atomic_run m h m1 -> atomic (code c) m1 r m' -> atomic_run m (h ++ [(i, c, r)]) m'.
Proof.
  revert m. induction h as [|[[j d] x] h IH]; intros m; cbn.
  - intros ->. eauto.
  - intros (m2 & Ha & Hh) Hc. eauto.
Qed.

(** The values a loop has to deliver after the keys [visited]. *)
Definition seen (f : V -> bool) (visited : gset string) (m : gmap string V) : list V :=
  List.filter f (map_to_list (filter (fun kv => kv.1 ∈ visited) m)).*2.

(** What is known of a goroutine from its phase. *)
Definition phase_ok (m : gmap string V) (h : list (nat * C * result V)) (i : nat) (g : goroutine)
    : Prop :=
  match g_phase g with
  | Calling => i ∉ ids h
  | Writing => (i ∉ ids h) /\ exists k v, code (g_call g) = Assign k v
  | Looking => (i ∉ ids h) /\ exists k, code (g_call g) = Lookup k
  | Ranging visited acc =>
      (i ∉ ids h) /\ exists f, code (g_call g) = Collect f /\ acc ≡ₚ seen f visited m
  | Written => ((i, g_call g, Saved) ∈ h) /\ exists k v, code (g_call g) = Assign k v
  | HasRead r | Returned r => (i, g_call g, r) ∈ h
  end.

Lemma seen_next f visited m k v :
  m !! k = Some v -> k ∉ visited ->
  seen f ({[k]} ∪ visited) m ≡ₚ (if f v then v :: seen f visited m else seen f visited m).
Proof.
  intros Hk Hv. unfold seen.
  assert (E : filter (fun kv => kv.1 ∈ {[k]} ∪ visited) m =
              <[k := v]> (filter (fun kv => kv.1 ∈ visited) m)).
  { apply map_eq. intros j. destruct (decide (j = k)) as [->|Hne].
    - rewrite lookup_insert_eq. apply map_lookup_filter_Some. split; [done|set_solver].
    - rewrite lookup_insert_ne by done. apply option_eq. intros x.
      rewrite !map_lookup_filter_Some. cbn. rewrite elem_of_union, elem_of_singleton. tauto. }
  rewrite E, map_to_list_insert.
  - cbn. by destruct (f v).
  - apply map_lookup_filter_None. right. intros x _. done.
Qed.

Lemma seen_empty f m : seen f ∅ m = [].
Proof.
  unfold seen. enough (filter (fun kv => kv.1 ∈ ∅) m = ∅) as E by (by rewrite E).
  apply map_empty. intros j. apply map_lookup_filter_None. right. intros x _.
  by apply not_elem_of_empty.
Qed.

Lemma seen_all f visited m :
  dom m ⊆ visited -> seen f visited m = List.filter f (map_to_list m).*2.
Proof.
  intros Hd. unfold seen. do 3 f_equal. apply map_filter_id. intros k v Hk.
  apply Hd. by eapply elem_of_dom_2.
Qed.

(** The other goroutines do not notice a step of goroutine [i]. *)
Lemma phase_ok_other m m' h i c o j g :
  phase_ok m h j g -> j <> i -> m' = m \/ reads g = false ->
  phase_ok m' (h ++ effect i c o) j g.
Proof.
  intros Hp Hne Hm. unfold phase_ok in *.
  assert (Hids : j ∉ ids h -> j ∉ ids (h ++ effect i c o)).
  { intros Hj. unfold ids. rewrite !fmap_app. intros [Hin|Hin]%elem_of_app; [done|].
    destruct o; cbn in Hin; [by apply list_elem_of_singleton in Hin|].
    by apply not_elem_of_nil in Hin. }
  assert (Hin : forall x, x ∈ h -> x ∈ (h ++ effect i c o))
    by (intros x Hx; apply elem_of_app; by left).
  unfold reads in Hm. destruct (g_phase g); auto; destruct Hp as [Hi Hc]; auto.
  destruct Hm as [->|Hm]; [auto|done].
Qed.

Lemma history_last (x : nat * C * result V) h : x ∈ h ++ [x].
Proof. apply elem_of_app. right. by apply list_elem_of_singleton. Qed.

(** What a step does to its own goroutine and to the map. *)
Lemma advances_ok m0 h i c p b n m q b' n' m' o :
  advances (code c) (p, MkRepo b n m) (q, MkRepo b' n' m') o ->
  atomic_run m0 h m -> phase_ok m h i (MkGoroutine c p) ->
  let h' := (h ++ effect i c o) in
  atomic_run m0 h' m' /\ phase_ok m' h' i (MkGoroutine c q) /\
  (o <> None -> i ∉ ids h) /\ (m' = m \/ p = Writing).
Proof.
  intros Ha Hr Hp. cbn zeta.
  inversion Ha; subst; unfold effect; rewrite ?app_nil_r; unfold phase_ok in *; cbn in *;
    try (split_and!; eauto using eq_sym; congruence || done).
  - destruct Hp as [Hi Hc]. split_and!; [|apply history_last|done|done|by right].
    eapply atomic_run_snoc; [done|]. by replace (code c) with (Assign k v).
  - destruct Hp as [Hi _]. split_and!; [done|done|done|by left].
  - destruct Hp as [Hi _]. split_and!; [|apply history_last|done|by left].
    eapply atomic_run_snoc; [done|].
    by replace (code c) with (@Lookup V k); split.
  - split_and!; [done|done| |auto|by left]. exists f. split; [done|].
    by rewrite seen_empty.
  - destruct Hp as (Hi & f' & Hc & Hacc). split_and!; [done|done| |auto|by left].
    exists f. split; [done|]. simplify_eq. rewrite seen_next by done.
    assert (f' = f) as -> by congruence.
    destruct (f v); rewrite Hacc; [|done]. by rewrite <- Permutation_cons_append.
  - destruct Hp as (Hi & f' & Hc & Hacc). split_and!; [|apply history_last|done|by left].
    eapply atomic_run_snoc; [done|]. assert (f' = f) as -> by congruence. rewrite Hc. cbn.
    split; [|done]. by rewrite Hacc, seen_all.
Qed.

Definition invariant (m0 : gmap string V) (s : state) : Prop :=
  locked_right s /\ atomic_run m0 (s_history s) (r_map (s_repo s)) /\ NoDup (ids (s_history s)) /\
  (forall i, i ∈ ids (s_history s) -> i < length (s_threads s)) /\
  (forall i g, s_threads s !! i = Some g -> phase_ok (r_map (s_repo s)) (s_history s) i g).

Lemma invariant_call m0 c s :
  invariant m0 s ->
  invariant m0 (MkState (s_repo s) (s_threads s ++ [MkGoroutine c Calling]) (s_history s)).
Proof.
  intros (Hl & Hr & Hn & Hb & Hp). split_and!; [|done|done| |].
  - eapply locked_right_step; [exact Hl|apply step_call].
  - intros i Hi. cbn. rewrite length_app. specialize (Hb i Hi). lia.
  - intros i g [Hi|[Hi Hg]]%lookup_app_Some; cbn in *; [by apply Hp|].
    apply list_lookup_singleton_Some in Hg as [Hz <-]. cbn. intros Hin. specialize (Hb i Hin). lia.
Qed.

Lemma invariant_run m0 i c p q r' o s :
  s_threads s !! i = Some (MkGoroutine c p) ->
  advances (code c) (p, s_repo s) (q, r') o ->
  invariant m0 s ->
  invariant m0 (MkState r' (<[i := MkGoroutine c q]> (s_threads s))
    (s_history s ++ effect i c o)).
Proof.
  intros Hi Ha (Hl & Hr & Hn & Hb & Hp).
  pose proof (lookup_lt_Some _ _ _ Hi) as Hlt.
  assert (Hl' : locked_right (MkState r' (<[i := MkGoroutine c q]> (s_threads s))
    (s_history s ++ effect i c o)))
    by (eapply locked_right_step; [exact Hl|by eapply step_run]).
  destruct s as [[b n m] ts h], r' as [b' n' m']. cbn [s_repo s_threads s_history r_map] in *.
  destruct (advances_ok m0 h i c p b n m q b' n' m' o Ha Hr (Hp _ _ Hi)) as (Hr' & Hq & Ho & Hm).
  split; [exact Hl'|]. split_and!; cbn [s_repo s_threads s_history r_map].
  - exact Hr'.
  - unfold ids in *. rewrite !fmap_app. apply NoDup_app. split; [done|].
    destruct o as [r|]; cbn; [|split; [intros; apply not_elem_of_nil|constructor]].
    split; [|apply NoDup_singleton]. intros j Hj Hji%list_elem_of_singleton. subst j.
    by apply Ho.
  - intros j. unfold ids. rewrite !fmap_app, length_insert.
    intros [Hj|Hj]%elem_of_app; [by apply Hb|].
    destruct o as [r|]; cbn in Hj; [by apply list_elem_of_singleton in Hj as ->|].
    by apply not_elem_of_nil in Hj.
  - intros j g Hj. destruct (decide (j = i)) as [->|Hne].
    + rewrite list_lookup_insert_eq in Hj by done. by injection Hj as <-.
    + rewrite list_lookup_insert_ne in Hj by done.
      apply phase_ok_other with m; [by apply Hp|done|].
      destruct Hm as [Hm|Hm]; [by left|right]. subst p.
      pose proof (writer_alone (MkState (MkRepo b n m) ts h) i _ Hl Hi eq_refl) as Hz.
      destruct (reads g) eqn:Hg; [|done]. pose proof (count_pos reads _ _ _ Hj Hg).
      change (count reads ts = 0) in Hz. lia.
Qed.

Lemma invariant_step m0 s s' : invariant m0 s -> step s s' -> invariant m0 s'.
Proof. intros Hi Hs. destruct Hs; [by apply invariant_call|by eapply invariant_run]. Qed.

Lemma invariant_reachable new s :
  r_writer new = false -> r_readers new = 0 ->
  rtc step (unused new) s -> invariant (r_map new) s.
Proof.
  intros Hw Hr Hs. revert s Hs. apply rtc_ind_r;
    [|intros s1 s2 _ Hs Hi; by apply (invariant_step _ s1)].
  split_and!; cbn.
  - split_and!; cbn; [by rewrite Hw|by rewrite Hr|done].
  - done.
  - constructor.
  - intros i Hi. by apply not_elem_of_nil in Hi.
  - intros i g Hi. by rewrite lookup_nil in Hi.
Qed.

(** ** The history is a sequential run *)

Context `{L : !GuardedLaws C V W}.

Lemma atomic_unique (x : method V) m r m' r2 m2 :
  atomic x m r m' -> atomic x m r2 m2 -> same_result r r2 /\ m2 = m'.
Proof using.
  destruct x; cbn; intros [Hr ->] [Hr2 ->]; subst; try done.
  destruct r, r2; try done. split; [|done]. cbn in *. by rewrite Hr2.
Qed.

Lemma atomic_run_one_by_one h : forall m m' w,
  atomic_run m h m' -> table w = m ->
  Forall2 same_result h.*2 (one_by_one h.*1.*2 w).1 /\ table (one_by_one h.*1.*2 w).2 = m'.
Proof using L.
  induction h as [|[[i c] r] h IH]; intros m m' w; cbn.
  { intros -> <-. by split. }
  intros (m1 & Ha & Hh) <-. rewrite !bindS_run. cbn [retS fst snd].
  destruct (atomic_unique _ _ _ _ _ _ Ha (exec_atomic c w)) as [Hs Hm].
  destruct (IH m1 m' (exec c w).2 Hh Hm) as [Hf Ht]. split; [|exact Ht]. by constructor.
Qed.

Lemma step_history s s' : step s s' -> s_history s `prefix_of` s_history s'.
Proof using. intros Hs. destruct Hs; cbn; [done|]. by apply prefix_app_r. Qed.

Lemma new_is_linearizable new :
  r_writer new = false -> r_readers new = 0 -> linearizable new.
Proof using L.
  intros Hw Hr s Hs. destruct (invariant_reachable new s Hw Hr Hs) as (_ & Ha & Hn & _ & Hp).
  split_and!; [|exact Hn| |by apply step_history].
  - intros w Ht. destruct (atomic_run_one_by_one _ _ _ w Ha Ht) as [? ?].
    by destruct (one_by_one _ w).
  - intros i [c p] Hi. specialize (Hp i _ Hi). unfold phase_ok in Hp. cbn in *.
    split; [by intros r ->|by intros ->].
Qed.

(** ** No race, no deadlock *)

(** While one goroutine is about to assign, no other is using the map: the
    runtime never sees a concurrent map write. *)
Lemma no_race new s i j g h :
  r_writer new = false -> r_readers new = 0 -> rtc step (unused new) s ->
  s_threads s !! i = Some g -> s_threads s !! j = Some h ->
  writes g = true -> reads h = false /\ (writes h = true -> i = j).
Proof using.
  intros Hw Hr Hs Hi Hj Hg. destruct (invariant_reachable new s Hw Hr Hs) as (Hl & _).
  split.
  - destruct (reads h) eqn:Hh; [|done]. pose proof (count_pos reads _ _ _ Hj Hh).
    pose proof (writer_alone s i g Hl Hi Hg). lia.
  - intros Hh. destruct (decide (i = j)) as [|Hne]; [done|]. exfalso.
    destruct Hl as (Hc & _ & _).
    pose proof (count_insert writes _ i g (MkGoroutine (g_call g) Calling) Hi) as E.
    assert (Hj' : <[i := MkGoroutine (g_call g) Calling]> (s_threads s) !! j = Some h)
      by (by rewrite list_lookup_insert_ne).
    pose proof (count_pos writes _ _ _ Hj' Hh). rewrite Hg in E. cbn in E.
    destruct (r_writer (s_repo s)); cbn in Hc; lia.
Qed.

(** Some goroutine is in the given phases, or none is. *)
Lemma find_goroutine (f : goroutine -> bool) l :
  (exists i g, l !! i = Some g /\ f g = true) \/ count f l = 0.
Proof.
  unfold count. induction l as [|g l IH]; [by right|]. cbn.
  destruct (f g) eqn:Hf; [left; by exists 0, g|].
  destruct IH as [(i & h & Hi & Hh)|IH]; [left; by exists (S i), h|by right].
Qed.

(** As long as some call has not returned, some goroutine that has been called
    can run. *)
Lemma no_deadlock new s i g :
  r_writer new = false -> r_readers new = 0 -> rtc step (unused new) s ->
  s_threads s !! i = Some g -> (forall r, g_phase g <> Returned r) ->
  exists j h q r' o, s_threads s !! j = Some h /\
    advances (code (g_call h)) (g_phase h, s_repo s) (q, r') o.
Proof using.
  intros Hw Hr Hs Hi Hg.
  destruct (invariant_reachable new s Hw Hr Hs) as ((Cw & Cr & _) & _ & _ & _ & Hp).
  destruct s as [[b n m] ts h]. cbn [s_repo s_threads s_history r_map r_writer r_readers] in *.
  destruct (find_goroutine writes ts) as [(j & k & Hj & Hk)|Zw].
  { exists j, k. specialize (Hp _ _ Hj). unfold phase_ok, writes in *.
    destruct (g_phase k); try done; destruct Hp as (_ & key & v & ->);
      eauto 7 using adv_assign, adv_Unlock. }
  destruct (find_goroutine reads ts) as [(j & k & Hj & Hk)|Zr].
  { exists j, k. specialize (Hp _ _ Hj). unfold phase_ok, reads in *.
    destruct (g_phase k) as [| | | |visited acc|r|r]; try done.
    - destruct Hp as (_ & key & ->). eauto 7 using adv_lookup.
    - destruct Hp as (_ & f & -> & _). destruct (decide (dom m ⊆ visited)) as [Hd|Hd].
      + eauto 7 using adv_end.
      + destruct (set_choose_or_empty (dom m ∖ visited)) as [[key Hk']|He].
        * apply elem_of_difference in Hk' as [[v Hv]%elem_of_dom Hnv].
          eauto 7 using adv_next.
        * exfalso. apply Hd. intros x Hx. destruct (decide (x ∈ visited)); [done|].
          exfalso. apply (not_elem_of_empty (C := gset string) x). rewrite <- He.
          by apply elem_of_difference.
    - eauto 7 using adv_RUnlock. }
  exists i, g. rewrite Zw in Cw. rewrite Zr in Cr. subst n. destruct b; [done|].
  pose proof (count_pos reads _ _ _ Hi). pose proof (count_pos writes _ _ _ Hi).
  unfold reads, writes in *. destruct (g_phase g) eqn:E; try lia; [|by destruct (Hg r)].
  destruct (code (g_call g)); eauto 7 using adv_Lock, adv_RLock_lookup, adv_RLock_range.
Qed.
End interleaving.

(** ** The two repositories *)
Section repositories.
Context {U : UuidLib} {O : Oracle}.

(** account_repository.go *)
Inductive account_call :=
| AccountSave (acc : Account)
| AccountFindByID (id : AccountID)
| AccountFindAll.

Definition account_code (c : account_call) : method Account :=
  match c with
  | AccountSave acc => Assign (AccountID_String (Account_id acc)) acc
  | AccountFindByID id => Lookup (AccountID_String id)
  | AccountFindAll => Collect (fun _ => true)
  end.

(** The methods of InMemory.v, with their results in the form of this file. *)
Definition account_exec (c : account_call) : St World (result Account) :=
  match c with
  | AccountSave acc => let@ _ := mem_Save acc in retS Saved
  | AccountFindByID id =>
      let@ r := mem_FindByID id in
      retS (Found (match r with Ok acc => Some acc | Err _ => None end))
  | AccountFindAll =>
      let@ r := mem_FindAll in
      retS (Listed (match r with Ok l => l | Err _ => [] end))
  end.

#[export] Instance guarded_accounts : Guarded account_call Account World :=
  {| code := account_code; table := w_accounts; exec := account_exec |}.

(** transaction_repository.go *)
Inductive transaction_call :=
| TransactionSave (tx : Transaction)
| TransactionFindByID (id : TransactionID)
| TransactionFindByAccountID (accountID : AccountID).

Definition transaction_code (c : transaction_call) : method Transaction :=
  match c with
  | TransactionSave tx => Assign (TransactionID_String (Transaction_id tx)) tx
  | TransactionFindByID id => Lookup (TransactionID_String id)
  | TransactionFindByAccountID accountID => Collect (mentions accountID)
  end.

Definition transaction_exec (c : transaction_call) : St World (result Transaction) :=
  match c with
  | TransactionSave tx => let@ _ := mem_tx_Save tx in retS Saved
  | TransactionFindByID id =>
      let@ r := mem_tx_FindByID id in
      retS (Found (match r with Ok tx => Some tx | Err _ => None end))
  | TransactionFindByAccountID accountID =>
      let@ r := mem_tx_FindByAccountID accountID in
      retS (Listed (match r with Ok l => l | Err _ => [] end))
  end.

#[export] Instance guarded_transactions : Guarded transaction_call Transaction World :=
  {| code := transaction_code; table := w_transactions; exec := transaction_exec |}.

(** An empty map and the zero value of the mutex, which is unlocked. *)
Definition NewAccountRepository : repo Account := MkRepo false 0 ∅.
Definition NewTransactionRepository : repo Transaction := MkRepo false 0 ∅.

Context `{OLaws : !OracleLaws}.

#[export] Instance guarded_accounts_laws : GuardedLaws account_call Account World.
Proof using OLaws.
  split. intros [acc|id|] w; cbn.
  - done.
  - unfold mem_FindByID, bindS. by destruct (w_accounts w !! _).
  - split; [|done]. rewrite unordered_perm.
    by rewrite List.filter_true.
Qed.

#[export] Instance guarded_transactions_laws :
  GuardedLaws transaction_call Transaction World.
Proof using OLaws.
  split. intros [tx|id|accountID] w; cbn.
  - done.
  - unfold mem_tx_FindByID, bindS. by destruct (w_transactions w !! _).
  - split; [|done]. by rewrite unordered_perm.
Qed.

(** C26: The mutexes make the in-memory repositories linearizable. However many
    calls of their methods come, and however their steps interleave with the
    lock and with the iterations of the loops, a history that only grows gives
    every call that has returned exactly one place, with the result it
    returned; calls that are still before their lock have none, so that a call
    made after another has returned comes after it. Called one after the other
    in the order of the history, the methods of InMemory.v return the same (up
    to the order of lists, which Go leaves open) and leave the same map. *)
Theorem in_memory_repositories_linearizable :
  linearizable (C := account_call) (W := World) NewAccountRepository /\
  linearizable (C := transaction_call) (W := World) NewTransactionRepository.
Proof using OLaws. split; by apply new_is_linearizable. Qed.
End repositories.

Definition some_account : @Account sample_uuid :=
  @MkAccount sample_uuid (@MkAccountID sample_uuid 7%N) "Cash" "asset" "USD" (MkMoney 100 "USD")
    Active 0%Z 0%Z.

(** A lookup is called, a [Save] of the account comes in between and returns,
    and the lookup finds it: the history has them in that order. *)
Lemma in_memory_repositories_linearizable_witness :
  (exists s : state (C := @account_call sample_uuid),
    rtc (step (G := @guarded_accounts sample_uuid (sample_oracle_with (fun _ => Up))))
      (unused NewAccountRepository) s /\
    s_history s = [(1, AccountSave some_account, Saved);
                   (0, AccountFindByID (Account_id some_account), Found (Some some_account))] /\
    g_phase <$> s_threads s = [Returned (Found (Some some_account)); Returned Saved]) /\
  linearizable (G := @guarded_accounts sample_uuid (sample_oracle_with (fun _ => Up)))
    NewAccountRepository /\
  linearizable (G := @guarded_transactions sample_uuid (sample_oracle_with (fun _ => Up)))
    NewTransactionRepository.
Proof.
  split; [|exact (in_memory_repositories_linearizable
                    (OLaws := sample_oracle_laws (fun _ => Up)))].
  eexists. split; [|].
  - eapply rtc_l; [apply (step_call (AccountFindByID (Account_id some_account)))|].
    eapply rtc_l; [apply (step_call (AccountSave some_account))|].
    eapply rtc_l; [eapply (step_run 1); [done|apply adv_Lock]|].
    eapply rtc_l; [eapply (step_run 1); [done|apply adv_assign]|].
    eapply rtc_l; [eapply (step_run 1); [done|apply adv_Unlock]|].
    eapply rtc_l; [eapply (step_run 0); [done|apply adv_RLock_lookup]|].
    eapply rtc_l; [eapply (step_run 0); [done|apply adv_lookup]|].
    eapply rtc_l; [eapply (step_run 0); [done|apply adv_RUnlock]|].
    apply rtc_refl.
  - split; reflexivity.
Defined.
