(* ===== verification/MutexTermination.v ===== *)
(** * Every call of an in-memory repository returns

    However the scheduler chooses, the goroutines of Mutex.v that have been
    called take a bounded number of steps while no new call comes, and when none
    can go on each of them has returned. (In Go a writer that waits holds back
    new readers; it can go on itself as soon as the present ones have left, so
    that this takes no step away from a state in which none is left.) *)
From S2P Require Import Prelude Go Identifiers Money Transaction Account Ports World InMemory.
From S2P Require Import Mutex.
From stdpp Require Import base gmap strings list relations.
Local Open Scope nat_scope.

Section termination.
Context {C V W : Type} `{G : Guarded C V W}.
Implicit Types (s : state (C := C) (V := V)) (g : goroutine (C := C) (V := V)).

(** A step of a goroutine that has been called. *)
Definition works s s' : Prop := step s s' /\ length (s_threads s') = length (s_threads s).

Definition returns (new : repo V) : Prop :=
  forall s, rtc step (unused new) s ->
  exists bound, forall n s', nsteps works n s s' ->
    n <= bound /\
    ((forall s'', ~ works s' s'') ->
     forall i g, s_threads s' !! i = Some g -> exists r, g_phase g = Returned r).

(** ** The keys that the map can have once all calls are done *)

Definition assigned g : gset string :=
  match code (g_call g) with Assign k _ => {[k]} | _ => ∅ end.
Definition keys s : gset string := dom (r_map (s_repo s)) ∪ ⋃ (assigned <$> s_threads s).

Lemma assigned_keys s i g : s_threads s !! i = Some g -> assigned g ⊆ keys s.
Proof.
  intros Hi k Hk. apply elem_of_union. right. apply elem_of_union_list.
  exists (assigned g). split; [|done]. apply list_elem_of_fmap_2. by eapply list_elem_of_lookup_2.
Qed.

(** ** Steps left to a goroutine, when the map has at most these keys *)

Definition left_over (ks : gset string) g : nat :=
  match g_phase g with
  | Calling => 3 + size ks
  | Writing | Looking => 2
  | Written | HasRead _ => 1
  | Ranging visited _ => 2 + size (ks ∖ visited)
  | Returned _ => 0
  end.

Definition total (ks : gset string) (l : list goroutine) : nat := sum_list_with (left_over ks) l.

Lemma total_insert ks l i g g' :
  l !! i = Some g ->
  total ks (<[i := g']> l) + left_over ks g = total ks l + left_over ks g'.
Proof.
  unfold total. revert i. induction l as [|h l IH]; intros [|i] Hi; simplify_eq/=; [lia|].
  specialize (IH i Hi). lia.
Qed.

(** A step leaves its goroutine less to do, and adds no key but the assigned. *)
Lemma advances_left c p r q r' o ks :
  advances (code c) (p, r) (q, r') o ->
  dom (r_map r) ⊆ ks ->
  left_over ks (MkGoroutine c q) < left_over ks (MkGoroutine c p) /\
  dom (r_map r) ⊆ dom (r_map r') /\
  dom (r_map r') ⊆ dom (r_map r) ∪ assigned (MkGoroutine c p).
Proof.
  intros Ha Hd. inversion Ha; subst; unfold left_over, assigned; cbn [g_phase g_call r_map] in *;
    try (split_and!; [lia|done|set_solver]).
  - split_and!; [lia|set_solver|]. replace (code c) with (Assign k v) by done. set_solver.
  - split_and!; [rewrite difference_empty_L; lia|done|set_solver].
  - split_and!; [|done|set_solver]. apply Nat.add_lt_mono_l, subset_size. split; [set_solver|].
    assert (k ∈ ks) by (apply Hd; by eapply elem_of_dom_2). set_solver.
Qed.

Lemma works_left s s' :
  works s s' -> keys s' = keys s /\ total (keys s) (s_threads s') < total (keys s) (s_threads s).
Proof.
  intros [Hs Hl]. destruct Hs as [c s|i c p q r' o s Hi Ha].
  { cbn in Hl. rewrite length_app in Hl. simpl in Hl. lia. }
  destruct (advances_left c p (s_repo s) q r' o (keys s) Ha) as (Hlt & Hsub & Hsup);
    [set_solver|]. cbn [s_threads]. split.
  - unfold keys at 1. cbn [s_repo s_threads]. rewrite list_fmap_insert.
    assert (E : <[i := assigned (MkGoroutine c q)]> (assigned <$> s_threads s) =
                assigned <$> s_threads s).
    { apply list_insert_id. by rewrite list_lookup_fmap, Hi. }
    rewrite E. unfold keys. pose proof (assigned_keys s i _ Hi) as Hk. unfold keys in Hk. set_solver.
  - pose proof (total_insert (keys s) _ _ _ (MkGoroutine c q) Hi). lia.
Qed.

Lemma works_bound n s s' :
  nsteps works n s s' -> n <= total (keys s) (s_threads s).
Proof.
  induction 1 as [s|n s1 s2 s3 H12 _ IH]; [lia|].
  destruct (works_left _ _ H12) as [Hk Ht]. rewrite Hk in IH. lia.
Qed.

(** When no goroutine can go on, all have returned. *)
Lemma stuck_returned new s :
  r_writer new = false -> r_readers new = 0 -> rtc step (unused new) s ->
  (forall s', ~ works s s') ->
  forall i g, s_threads s !! i = Some g -> exists r, g_phase g = Returned r.
Proof.
  intros Hw Hr Hs Hstuck i g Hi.
  destruct (g_phase g) as [| | | |visited acc|r|r] eqn:Hp; eauto; exfalso;
    (destruct (no_deadlock new s i g Hw Hr Hs Hi) as (j & [c p] & q & r' & o & Hj & Ha);
     [by rewrite Hp|]; eapply Hstuck; split; [by eapply step_run|]; cbn; apply length_insert).
Qed.

Lemma new_returns new : r_writer new = false -> r_readers new = 0 -> returns new.
Proof.
  intros Hw Hr s Hs. exists (total (keys s) (s_threads s)). intros n s' Hn.
  split; [by apply works_bound in Hn|].
  apply (stuck_returned new); [done|done|]. etrans; [exact Hs|]. apply rtc_nsteps_2 in Hn.
  clear -Hn. induction Hn as [|s1 s2 s3 [H _] _ IH]; [done|by eapply rtc_l].
Qed.
End termination.

Section repositories.
Context {U : UuidLib} {O : Oracle}.

(** C27: Calls of the in-memory repositories return. From any state that calls
    can lead to, every schedule without new calls ends within a bounded number
    of steps, loops over the map included though writers that wait may still
    add keys to it, and it ends only when every call has returned: no schedule
    deadlocks on the mutex. *)
Theorem in_memory_calls_return :
  returns (C := account_call) (W := World) NewAccountRepository /\
  returns (C := transaction_call) (W := World) NewTransactionRepository.
Proof. split; by apply new_returns. Qed.
End repositories.
