(* ===== verification/Postgres.v ===== *)
(** * internal/infra/postgres: repositories on SQL tables

    A SQL statement of the source is a function on the tables ([stmt]), written
    from its text and from the constraints of migrations/. [exec] sends one
    statement outside a transaction, [with_tx] runs a body between BEGIN and
    COMMIT with the deferred ROLLBACK of the source. Every statement, BEGIN and
    COMMIT included, may fail as [db_fault] says. *)
From S2P Require Import Prelude Go Identifiers Money Transaction Account Book Events Ports.
From S2P Require Import World.
From stdpp Require Import base gmap strings list sorting.
Local Open Scope Z_scope.

Definition stmt (A : Type) : Type := DB -> res A * DB.

(** The error that the driver reports when the connection fails. *)
Definition errConn : error := errForeign "connection error".

Section postgres.
Context {U : UuidLib} {O : Oracle}.

(** ** Statements and transactions *)

(** One statement. *)
Definition exec_at {A} (q : stmt A) : M World A :=
  fun w =>
    let w1 := tick_stmt w in
    match db_fault (w_stmt w) with
    | Up => let '(r, d) := q (w_db w) in (r, put_db w1 d)
    | Lost => (Err errConn, w1)
    | AckLost => let '(_, d) := q (w_db w) in (Err errConn, put_db w1 d)
    end.

(** [pool.Exec], [pool.Query]: NOW() is the time of the statement. *)
Definition exec {A} (q : time -> stmt A) : M World A :=
  fun w => exec_at (q (db_clock (w_stmt w))) w.

(** [tx, err := pool.Begin(ctx)]; [defer tx.Rollback(ctx)]; body;
    [return tx.Commit(ctx)]. NOW() is the start of the transaction. *)
Definition with_tx {A} (body : time -> M World A) : M World A :=
  fun w =>
    match db_fault (w_stmt w) with
    | Up =>
        let w0 := tick_stmt w in
        match body (db_clock (w_stmt w)) w0 with
        | (Err e, w1) => (Err e, put_db w1 (rollback (w_db w0) (w_db w1)))
        | (Ok a, w1) =>
            let w2 := tick_stmt w1 in
            match db_fault (w_stmt w1) with
            | Up => (Ok a, w2)
            | Lost => (Err errConn, put_db w2 (rollback (w_db w0) (w_db w1)))
            | AckLost => (Err errConn, w2)
            end
        end
    | _ => (Err (errWrap "begin tx" errConn), tick_stmt w)
    end.

(** ** account_repository.go *)

Definition pg_ErrAccountNotFound : error :=
  errNew "postgres.ErrAccountNotFound" "account not found".

(** The row that the upsert leaves: on conflict only balance, status and
    updated_at are set. *)
Definition conflict_row (old : option AccountRow) (row : AccountRow) : AccountRow :=
  match old with
  | None => row
  | Some old =>
      MkAccountRow (ar_account_id old) (ar_name old) (ar_account_type old) (ar_currency old)
        (ar_balance row) (ar_status row) (ar_created_at old) (ar_updated_at row)
  end.

(** INSERT INTO accounts ... ON CONFLICT (account_id) DO UPDATE SET
    balance, status, updated_at. *)
Definition upsert_account (row : AccountRow) : stmt unit :=
  fun d =>
    (Ok tt, set_accounts d (<[ar_account_id row :=
              conflict_row (t_accounts d !! ar_account_id row) row]> (t_accounts d))).

Definition account_row (acc : Account) : AccountRow :=
  MkAccountRow (AccountID_String (Account_id acc)) (Account_name acc) (Account_accountType acc)
    (Account_currency acc) (Money_amount (Account_balance acc)) (Account_status acc)
    (db_time (Account_createdAt acc)) (db_time (Account_updatedAt acc)).

Definition reconstitute_row (row : AccountRow) : res Account :=
  Reconstitute (ar_account_id row) (ar_name row) (ar_account_type row) (ar_currency row)
    (ar_balance row) (ar_status row) (ar_created_at row) (ar_updated_at row).

Definition pg_Save (acc : Account) : M World unit :=
  exec (fun _ => upsert_account (account_row acc)).

Definition pg_FindByID (id : AccountID) : M World Account :=
  let@ r := exec (fun _ d => (Ok (t_accounts d !! AccountID_String id), d)) in
  match r with
  | Err e => throw (errWrap "query account" e)
  | Ok None =>
      throw (errWrap ("find account " +:+ AccountID_String id)%string pg_ErrAccountNotFound)
  | Ok (Some row) => liftR (reconstitute_row row)
  end.

Definition name_le (a b : AccountRow) : Prop := collate (ar_name a) (ar_name b) = true.
#[global] Instance name_le_dec a b : Decision (name_le a b).
Proof. unfold name_le. apply _. Defined.

(** The loop over the rows: stops at the first that cannot be rebuilt. *)
Fixpoint reconstitute_rows (rows : list AccountRow) : res (list Account) :=
  match rows with
  | [] => Ok []
  | row :: rows =>
      res_bind (reconstitute_row row) (fun acc =>
      res_bind (reconstitute_rows rows) (fun accs => Ok (acc :: accs)))
  end.

(** SELECT ... FROM accounts ORDER BY name. *)
Definition pg_FindAll : M World (list Account) :=
  let! rows := (fun w => exec (fun _ d =>
                  (Ok (merge_sort name_le (unordered (w_range w) (map_to_list (t_accounts d)).*2)),
                   d)) (tick_range w)) in
  liftR (reconstitute_rows rows).

Definition pg_AccountRepository : Repository World :=
  MkRepository World pg_Save pg_FindByID pg_FindAll.

(** ** event_store.go *)

Definition ErrVersionConflict : error :=
  errNew "postgres.ErrVersionConflict"
    "event version conflict: aggregate was modified concurrently".

Definition has_version (aggregateID : string) (version : Z) (r : EventRow) : bool :=
  bool_decide (ev_aggregate_id r = aggregateID) && (ev_version r =? version).

(** INSERT INTO events: the sequence is drawn first, then the constraint
    uq_aggregate_version is checked. *)
Definition insert_event (aggregateID aggregateType : string) (version : Z) (e : StoredEvent)
    : stmt unit :=
  fun d =>
    let id := seq_events d + 1 in
    let d1 := set_seqs d id (seq_outbox d) (seq_history d) in
    if existsb (has_version aggregateID version) (t_events d)
    then (Err (errForeign "duplicate key value violates unique constraint"), d1)
    else (Ok tt, set_events d1 (t_events d ++
            [MkEventRow id aggregateID aggregateType (SE_EventType e) version (SE_Payload e)
               (db_time (SE_OccurredAt e))])).

(** [if err != nil { return ErrVersionConflict }], whatever the error was. *)
Definition conflictErr (m : M World unit) : M World unit :=
  fun w => match m w with
           | (Ok _, w1) => (Ok tt, w1)
           | (Err _, w1) => (Err ErrVersionConflict, w1)
           end.

Definition event_version (expectedVersion i : Z) : Z := wrap64 (wrap64 (expectedVersion + i) + 1).

(** The loop of [Append]; [i] is the index of the head. *)
Fixpoint append_loop (aggregateID aggregateType : string) (expectedVersion i : Z)
    (events : list StoredEvent) : M World unit :=
  match events with
  | [] => ret tt
  | e :: events =>
      let! _ := conflictErr (exec_at (insert_event aggregateID aggregateType
                                        (event_version expectedVersion i) e)) in
      append_loop aggregateID aggregateType expectedVersion (i + 1) events
  end.

Definition pg_Append (aggregateID aggregateType : string) (expectedVersion : Z)
    (events : list StoredEvent) : M World unit :=
  with_tx (fun _ => append_loop aggregateID aggregateType expectedVersion 0 events).

Definition version_le (a b : EventRow) : Prop := ev_version a <= ev_version b.
#[global] Instance version_le_dec a b : Decision (version_le a b).
Proof. unfold version_le. apply _. Defined.

Definition stored_event (r : EventRow) : StoredEvent :=
  MkStoredEvent (fmt_d (ev_id r)) (ev_aggregate_id r) (ev_aggregate_type r) (ev_event_type r)
    (ev_version r) (ev_payload r) (ev_occurred_at r).

Definition after_version (aggregateID : string) (fromVersion : Z) (r : EventRow) : bool :=
  bool_decide (ev_aggregate_id r = aggregateID) && (fromVersion <? ev_version r).

(** SELECT ... WHERE aggregate_id = $1 AND version > $2 ORDER BY version ASC. *)
Definition pg_LoadEventsFrom (aggregateID : string) (fromVersion : Z)
    : M World (list StoredEvent) :=
  let! rows := wrapErr "query events" (fun w => exec (fun _ d =>
                  (Ok (merge_sort version_le
                         (List.filter (after_version aggregateID fromVersion)
                            (unordered (w_range w) (t_events d)))), d)) (tick_range w)) in
  ret (stored_event <$> rows).

Definition pg_LoadEvents (aggregateID : string) : M World (list StoredEvent) :=
  pg_LoadEventsFrom aggregateID 0.

Definition pg_EventStore : EventStore World :=
  MkEventStore World pg_Append pg_LoadEvents pg_LoadEventsFrom.

(** INSERT INTO snapshots ... ON CONFLICT (aggregate_id) DO UPDATE; the
    payload column is NOT NULL. *)
Definition pg_snapshot_Save (snapshot : Snapshot) : M World unit :=
  exec (fun now d =>
    match Snapshot_Payload snapshot with
    | None => (Err (errForeign "null value in column payload"), d)
    | Some payload =>
        (Ok tt, set_snapshots d (<[Snapshot_AggregateID snapshot :=
                  MkSnapshotRow (Snapshot_Version snapshot) payload now]> (t_snapshots d)))
    end).

Definition pg_snapshot_Load (aggregateID : string) : M World Snapshot :=
  let! row := exec (fun _ d => (Ok (t_snapshots d !! aggregateID), d)) in
  match row with
  | None => ret (MkSnapshot "" 0 None)
  | Some r => ret (MkSnapshot aggregateID (sn_version r) (Some (sn_payload r)))
  end.

Definition pg_SnapshotStore : SnapshotStore World :=
  MkSnapshotStore World pg_snapshot_Save pg_snapshot_Load.

(** ** outbox.go *)

Record OutboxEntry := MkOutboxEntry {
  OE_ID : Z;
  OE_AggregateID : string;
  OE_AggregateType : string;
  OE_EventType : string;
  OE_Payload : json;
  OE_CreatedAt : time;
}.

(** INSERT INTO outbox: created_at defaults to NOW(), published to FALSE. *)
Definition insert_outbox (aggregateID aggregateType : string) (e : StoredEvent) (now : time)
    : stmt unit :=
  fun d =>
    let id := seq_outbox d + 1 in
    (Ok tt, set_outbox (set_seqs d (seq_events d) id (seq_history d)) (t_outbox d ++
       [MkOutboxRow id aggregateID aggregateType (SE_EventType e) (SE_Payload e) false now None])).

Fixpoint outbox_loop (aggregateID aggregateType : string) (expectedVersion i : Z) (now : time)
    (events : list StoredEvent) : M World unit :=
  match events with
  | [] => ret tt
  | e :: events =>
      let! _ := conflictErr (exec_at (insert_event aggregateID aggregateType
                                        (event_version expectedVersion i) e)) in
      let! _ := wrapErr "write outbox" (exec_at (insert_outbox aggregateID aggregateType e now)) in
      outbox_loop aggregateID aggregateType expectedVersion (i + 1) now events
  end.

Definition AppendWithOutbox (aggregateID aggregateType : string) (expectedVersion : Z)
    (events : list StoredEvent) : M World unit :=
  with_tx (fun now => outbox_loop aggregateID aggregateType expectedVersion 0 now events).

Definition pg_OutboxAppender : OutboxAppender World := MkOutboxAppender World AppendWithOutbox.

Definition created_le (a b : OutboxRow) : Prop := ob_created_at a <= ob_created_at b.
#[global] Instance created_le_dec a b : Decision (created_le a b).
Proof. unfold created_le. apply _. Defined.

Definition outbox_entry (r : OutboxRow) : OutboxEntry :=
  MkOutboxEntry (ob_id r) (ob_aggregate_id r) (ob_aggregate_type r) (ob_event_type r)
    (ob_payload r) (ob_created_at r).

(** SELECT ... WHERE published = FALSE ORDER BY created_at ASC LIMIT $1 FOR
    UPDATE SKIP LOCKED. The statement runs outside a transaction, so its row
    locks end with it. No row is locked by another statement here, so that none
    is skipped; [step_skips] of Processes.v is the case of several workers. A
    negative LIMIT is an error. *)
Definition FetchUnpublished (batchSize : Z) : M World (list OutboxEntry) :=
  let! rows := wrapErr "fetch outbox" (fun w => exec (fun _ d =>
                  (if batchSize <? 0 then Err (errForeign "LIMIT must not be negative")
                   else Ok (take (Z.to_nat batchSize)
                         (merge_sort created_le
                            (List.filter (fun r => negb (ob_published r))
                               (unordered (w_range w) (t_outbox d))))), d)) (tick_range w)) in
  ret (outbox_entry <$> rows).

Definition mark_row (ids : list Z) (now : time) (r : OutboxRow) : OutboxRow :=
  if bool_decide (ob_id r ∈ ids)
  then MkOutboxRow (ob_id r) (ob_aggregate_id r) (ob_aggregate_type r) (ob_event_type r)
         (ob_payload r) true (ob_created_at r) (Some now)
  else r.

(** UPDATE outbox SET published = TRUE, published_at = NOW() WHERE id = ANY($1). *)
Definition MarkPublished (ids : list Z) : M World unit :=
  exec (fun now d => (Ok tt, set_outbox d (mark_row ids now <$> t_outbox d))).
End postgres.
