(* ===== verification/Projection.v ===== *)
(** * internal/projection: the CQRS read side

    projector.go writes the tables account_balances and transaction_history;
    query_service.go reads them. BIGINT arithmetic of the database does not
    wrap around: it fails with "bigint out of range". *)
From S2P Require Import Prelude Go Identifiers Money Transaction Account Book Events Ports.
From S2P Require Import World Postgres.
From stdpp Require Import base gmap strings list sorting.
Local Open Scope Z_scope.

Section projection.
Context {U : UuidLib} {O : Oracle}.

(** ** projector.go *)

(** INSERT INTO account_balances ... ON CONFLICT (account_id) DO NOTHING. *)
Definition insert_view (e : AccountOpenedEvent) : stmt unit :=
  fun d =>
    match t_account_balances d !! AOE_AccountID e with
    | Some _ => (Ok tt, d)
    | None =>
        (Ok tt, set_balances d (<[AOE_AccountID e :=
           MkAccountView (AOE_AccountID e) (AOE_Name e) (AOE_AccountType e) (AOE_Currency e)
             0 "ACTIVE" 1 (db_time (AOE_Timestamp e))]> (t_account_balances d)))
    end.

Definition ProjectAccountOpened (event : AccountOpenedEvent) : M World unit :=
  wrapErr "project account opened" (exec (fun _ => insert_view event)).

Definition errOutOfRange : error := errForeign "bigint out of range".

(** UPDATE account_balances SET balance = balance + $1, version = version + 1,
    updated_at = $2 WHERE account_id = $3: no row is no error. *)
Definition update_balance (delta : Z) (ts : time) (accountID : string) : stmt unit :=
  fun d =>
    match t_account_balances d !! accountID with
    | None => (Ok tt, d)
    | Some v =>
        if in_int64b (av_Balance v + delta) && in_int64b (av_Version v + 1)
        then (Ok tt, set_balances d (<[accountID :=
                MkAccountView (av_AccountID v) (av_Name v) (av_AccountType v) (av_Currency v)
                  (av_Balance v + delta) (av_Status v) (av_Version v + 1) (db_time ts)]>
                (t_account_balances d)))
        else (Err errOutOfRange, d)
    end.

(** SELECT balance FROM account_balances WHERE account_id = $1. *)
Definition select_balance (accountID : string) : stmt Z :=
  fun d =>
    match t_account_balances d !! accountID with
    | None => (Err (errForeign "no rows in result set"), d)
    | Some v => (Ok (av_Balance v), d)
    end.

Definition insert_history (event : TransactionRecordedEvent) (entry : EntryEventData)
    (balanceAfter : Z) : stmt unit :=
  fun d =>
    let id := seq_history d + 1 in
    (Ok tt, set_history (set_seqs d (seq_events d) (seq_outbox d) id)
       (t_transaction_history d ++
        [MkTransactionHistoryEntry id (TRE_TransactionID event) (EED_AccountID entry)
           (EED_Type entry) (EED_Amount entry) (EED_Currency entry) (TRE_Description event)
           balanceAfter (db_time (TRE_Timestamp event))])).

(** Any type other than "CREDIT" is subtracted. *)
Definition entryDelta (entry : EntryEventData) : Z :=
  if bool_decide (EED_Type entry = "CREDIT") then EED_Amount entry
  else wrap64 (- EED_Amount entry).

(** Body of the loop of [ProjectTransactionRecorded]. *)
Definition projectEntry (event : TransactionRecordedEvent) (entry : EntryEventData)
    : M World unit :=
  let id := EED_AccountID entry in
  let! _ := wrapErr ("update balance for " +:+ id)
              (exec_at (update_balance (entryDelta entry) (TRE_Timestamp event) id)) in
  let! balanceAfter := wrapErr ("get balance after for " +:+ id)
                         (exec_at (select_balance id)) in
  wrapErr ("insert history for " +:+ id) (exec_at (insert_history event entry balanceAfter)).

Definition ProjectTransactionRecorded (event : TransactionRecordedEvent) : M World unit :=
  with_tx (fun _ => forEach (TRE_Entries event) (projectEntry event)).

Definition pg_Projector : Projector World :=
  MkProjector World ProjectAccountOpened ProjectTransactionRecorded.

(** ** query_service.go *)

Definition view_ErrAccountNotFound : error :=
  errNew "projection.ErrAccountNotFound" "account not found in read model".

Definition GetAccountBalance (accountID : string) : M World AccountView :=
  let! row := wrapErr "query account balance"
                (exec (fun _ d => (Ok (t_account_balances d !! accountID), d))) in
  match row with
  | None => throw view_ErrAccountNotFound
  | Some v => ret v
  end.

Definition view_name_le (a b : AccountView) : Prop := collate (av_Name a) (av_Name b) = true.
#[global] Instance view_name_le_dec a b : Decision (view_name_le a b).
Proof. unfold view_name_le. apply _. Defined.

Definition ListAccounts : M World (list AccountView) :=
  wrapErr "query accounts" (fun w => exec (fun _ d =>
    (Ok (merge_sort view_name_le (unordered (w_range w) (map_to_list (t_account_balances d)).*2)),
     d)) (tick_range w)).

(** ORDER BY created_at DESC. *)
Definition newer (a b : TransactionHistoryEntry) : Prop := th_CreatedAt b <= th_CreatedAt a.
#[global] Instance newer_dec a b : Decision (newer a b).
Proof. unfold newer. apply _. Defined.

Definition GetTransactionHistory (accountID : string) (limit offset : Z)
    : M World (list TransactionHistoryEntry) :=
  let limit := if limit <=? 0 then 50 else limit in
  wrapErr "query history" (fun w => exec (fun _ d =>
    (if offset <? 0 then Err (errForeign "OFFSET must not be negative")
     else Ok (take (Z.to_nat limit) (drop (Z.to_nat offset)
            (merge_sort newer
               (List.filter (fun r => bool_decide (th_AccountID r = accountID))
                  (unordered (w_range w) (t_transaction_history d)))))), d)) (tick_range w)).
End projection.
