(* ===== verification/Production.v ===== *)
(** * The production wiring, and why it is an abstract ledger

    cmd/api/main.go wires [LedgerService] with the Postgres account repository,
    the in-memory transaction repository, the outbox (which takes precedence
    over the event store) and the projector. This file proves that this wiring
    satisfies [SafeService] under every behaviour of the database and
    [LiveService] while the database answers. *)
From S2P Require Import Prelude Go Identifiers Money Transaction Account Book Events Ports.
From S2P Require Import World LedgerService LedgerSafety LedgerLive InMemory Postgres.
From S2P Require Import Projection.
From stdpp Require Import base gmap strings list sorting.
Local Open Scope Z_scope.

Section production.
Context {U : UuidLib} {O : Oracle}.

(** [svc] of main.go. *)
Definition production : LedgerService World :=
  NewLedgerService pg_AccountRepository mem_TransactionRepository (Some pg_EventStore)
    (Some pg_OutboxAppender) (Some pg_Projector).

(** ** Frame properties of statements and transactions *)

(** What a statement that leaves [g] of the tables alone may change. *)
Record untouched {X} (g : DB -> X) (w w' : World) : Prop := {
  un_tables : g (w_db w') = g (w_db w);
  un_uuid : w_uuid w' = w_uuid w;
  un_clock : w_clock w' = w_clock w;
  un_stmt : (w_stmt w <= w_stmt w')%nat;
  un_seq : seq_outbox (w_db w) <= seq_outbox (w_db w');
}.

#[global] Instance untouched_preorder {X} (g : DB -> X) : PreOrder (untouched g).
Proof.
  split; [by intros w; split|]. intros w1 w2 w3 [] []. split; try congruence; lia.
Qed.

(** A table is not a sequence. *)
Class TableOf {X} (g : DB -> X) : Prop := table_of d0 d1 : g (rollback d0 d1) = g d0.

#[global] Instance t_accounts_table : TableOf t_accounts. Proof. done. Qed.
#[global] Instance t_events_table : TableOf t_events. Proof. done. Qed.
#[global] Instance t_outbox_table : TableOf t_outbox. Proof. done. Qed.
#[global] Instance t_balances_table : TableOf t_account_balances. Proof. done. Qed.
#[global] Instance t_history_table : TableOf t_transaction_history. Proof. done. Qed.

(** A statement that leaves [g] alone; sequences only grow. *)
Definition leaves {X A} (g : DB -> X) (q : stmt A) : Prop :=
  forall d, g (q d).2 = g d /\ seq_outbox d <= seq_outbox (q d).2.

Lemma exec_at_untouched {X A} (g : DB -> X) (q : stmt A) :
  leaves g q -> Steps (untouched g) (exec_at q).
Proof.
  intros Hq w. unfold exec_at. pose proof (Hq (w_db w)) as [H Hs].
  destruct (db_fault (w_stmt w)); [destruct (q (w_db w))| |destruct (q (w_db w))];
    split; simpl in *; done || lia.
Qed.

Lemma exec_untouched {X A} (g : DB -> X) (q : time -> stmt A) :
  (forall t, leaves g (q t)) -> Steps (untouched g) (exec q).
Proof. intros Hq w. apply exec_at_untouched. apply Hq. Qed.

Lemma exec_range_untouched {X A} (g : DB -> X) (q : nat -> time -> stmt A) :
  (forall n t, leaves g (q n t)) ->
  Steps (untouched g) (fun w => exec (q (w_range w)) (tick_range w)).
Proof.
  intros Hq w. pose proof (exec_untouched g (q (w_range w)) (Hq _) (tick_range w)) as [].
  by split.
Qed.

Lemma with_tx_untouched {X A} (g : DB -> X) (body : time -> M World A) `{!TableOf g} :
  (forall t, Steps (untouched g) (body t)) -> Steps (untouched g) (with_tx body).
Proof.
  intros Hb w. unfold with_tx.
  pose proof (Hb (db_clock (w_stmt w)) (tick_stmt w)) as H.
  destruct (db_fault (w_stmt w)); [|split; simpl; done || lia..].
  destruct (body _ (tick_stmt w)) as [[a|e] w1]; destruct H as [H1 H2 H3 H4 H5]; simpl in *.
  2:{ split; simpl; [apply table_of|done|done|lia|done]. }
  destruct (db_fault (w_stmt w1)); split; simpl; done || lia.
Qed.

Lemma conflictErr_untouched {X} (g : DB -> X) m :
  Steps (untouched g) m -> Steps (untouched g) (conflictErr m).
Proof. intros Hm w. unfold conflictErr. pose proof (Hm w). by destruct (m w) as [[]]. Qed.

(** ** Which operation touches which table *)

Lemma append_untouched {X} (g : DB -> X) `{!TableOf g} i t n es :
  (forall d x, g (set_events d x) = g d) -> (forall d x, g (set_outbox d x) = g d) ->
  (forall d a b c, g (set_seqs d a b c) = g d) ->
  Steps (untouched g) (AppendWithOutbox i t n es).
Proof.
  intros He Ho Hs. apply with_tx_untouched; [done|]. intros now. generalize 0.
  induction es as [|e es IH]; intros k; simpl; [apply _|].
  apply steps_bind; [apply _| |intros _; apply steps_bind; [apply _| |done]].
  - apply conflictErr_untouched, exec_at_untouched. intros d. unfold insert_event.
    destruct (existsb _ _); simpl; by rewrite ?He, ?Hs.
  - apply steps_wrapErr, exec_at_untouched. intros d. simpl. rewrite Ho, Hs. split; [done|simpl; lia].
Qed.

Lemma ProjectAccountOpened_untouched {X} (g : DB -> X) e :
  (forall d x, g (set_balances d x) = g d) -> Steps (untouched g) (ProjectAccountOpened e).
Proof.
  intros Hb. apply steps_wrapErr, exec_untouched. intros _ d. unfold insert_view.
  destruct (t_account_balances d !! _); simpl; by rewrite ?Hb.
Qed.

Lemma ProjectTransactionRecorded_untouched {X} (g : DB -> X) `{!TableOf g} e :
  (forall d x, g (set_balances d x) = g d) -> (forall d x, g (set_history d x) = g d) ->
  (forall d a b c, g (set_seqs d a b c) = g d) ->
  Steps (untouched g) (ProjectTransactionRecorded e).
Proof.
  intros Hb Hh Hs. apply with_tx_untouched; [done|]. intros _. apply steps_forEach; [apply _|].
  intros entry. unfold projectEntry.
  apply steps_bind; [apply _|apply steps_wrapErr, exec_at_untouched
    |intros _; apply steps_bind; [apply _|apply steps_wrapErr, exec_at_untouched
    |intros bal; apply steps_wrapErr, exec_at_untouched]]; intros d.
  - unfold update_balance. by destruct (_ !! _); [case_match|]; simpl; rewrite ?Hb.
  - unfold select_balance. by destruct (_ !! _).
  - simpl. by rewrite Hh, Hs.
Qed.

Lemma pg_FindByID_untouched {X} (g : DB -> X) id : Steps (untouched g) (pg_FindByID id).
Proof.
  unfold pg_FindByID. apply steps_bindS; [apply _|by apply exec_untouched|].
  intros [[row|]|e]; apply _.
Qed.

Lemma pg_FindAll_untouched {X} (g : DB -> X) : Steps (untouched g) pg_FindAll.
Proof.
  unfold pg_FindAll. apply steps_bind; [apply _| |apply _].
  by apply (exec_range_untouched g (fun n _ d =>
    (Ok (merge_sort name_le (unordered n (map_to_list (t_accounts d)).*2)), d))).
Qed.

Lemma pg_Save_untouched {X} (g : DB -> X) a :
  (forall d x, g (set_accounts d x) = g d) -> Steps (untouched g) (pg_Save a).
Proof. intros Ha. apply exec_untouched. intros _ d. simpl. by rewrite Ha. Qed.

(** ** The book in the table accounts *)

Definition row_acct (r : AccountRow) : option acct :=
  match reconstitute_row r with Ok a => Some (core a) | Err _ => None end.
Definition table_book (t : gmap string AccountRow) : book := omap row_acct t.
Definition pg_view (w : World) : book := table_book (t_accounts (w_db w)).

(** Every row is keyed by its id and can be rebuilt. *)
Definition rows_ok (t : gmap string AccountRow) : Prop :=
  forall k r, t !! k = Some r -> ar_account_id r = k /\ exists a, reconstitute_row r = Ok a.

Definition pg_inv (w : World) : Prop := ledger_inv pg_view w /\ rows_ok (t_accounts (w_db w)).
Definition pg_fresh : World -> UUID -> Prop := ledger_fresh pg_view.

Lemma untouched_view w w' : untouched t_accounts w w' -> pg_view w' = pg_view w.
Proof. intros []. unfold pg_view. congruence. Qed.

Lemma untouched_inv w w' : untouched t_accounts w w' -> pg_inv w -> pg_inv w'.
Proof.
  intros H [Hi Hr]. pose proof (untouched_view _ _ H) as Hv. destruct H as [Ht Hu _ _].
  split; [|by rewrite Ht]. eapply ledger_inv_step; [exact Hv|lia|done].
Qed.

Lemma steps_view {A} (m : St World A) : Steps (untouched t_accounts) m -> Preserves pg_view m.
Proof. intros H w. apply untouched_view, H. Qed.
Lemma steps_inv {A} (m : St World A) : Steps (untouched t_accounts) m -> Keeps pg_inv m.
Proof. intros H w. apply untouched_inv, H. Qed.

Lemma pg_view_lookup w k :
  pg_view w !! k = (t_accounts (w_db w) !! k) ≫= row_acct.
Proof. apply lookup_omap. Qed.

(** A row under which an account is saved is read back as that account. *)
Section saved.
Context `{Laws : !UuidLaws}.

Lemma row_acct_saved a : acct_wf (core a) -> row_acct (account_row a) = Some (core a).
Proof using Laws.
  intros [[_ Hv] Hc]. simpl in *. unfold row_acct, reconstitute_row, Reconstitute; simpl.
  rewrite NewAccountID_String. unfold NewMoney. rewrite <- Hc, Hv. simpl.
  unfold core; simpl. rewrite <- Hc. do 2 f_equal. by destruct (Account_balance a).
Qed.

(** ON CONFLICT keeps the columns that do not change. *)
Lemma row_acct_updated a old c0 :
  acct_wf (core a) -> ar_account_id old = AccountID_String (Account_id a) ->
  row_acct old = Some c0 -> same_identity c0 (core a) ->
  row_acct (conflict_row (Some old) (account_row a)) = Some (core a).
Proof using Laws.
  intros Ha Hid Hold (Hn & Ht & Hcur). unfold row_acct, conflict_row in *.
  destruct (reconstitute_row old) as [a0|] eqn:Hr; [|done]. injection Hold as Hc0.
  apply Reconstitute_Ok_inv in Hr as (u & _ & _ & Hcore). rewrite Hcore in Hc0. subst c0.
  simpl in Hn, Ht, Hcur. rewrite Hid, Hn, Ht, Hcur.
  pose proof (row_acct_saved a Ha) as Hsaved. unfold row_acct in Hsaved.
  unfold reconstitute_row, Reconstitute in *; simpl in *.
  destruct (NewAccountID _); [|done]. by destruct (NewMoney _ _).
Qed.
End saved.

Lemma pg_Save_run a w :
  (pg_Save a w).2 =
  match db_fault (w_stmt w) with
  | Lost => tick_stmt w
  | _ => put_db (tick_stmt w) (upsert_account (account_row a) (w_db w)).2
  end /\
  ((pg_Save a w).1 = Ok tt <-> db_fault (w_stmt w) = Up).
Proof. unfold pg_Save, exec, exec_at. by destruct (db_fault (w_stmt w)). Qed.

Section save.
Context `{Laws : !UuidLaws} `{OLaws : !OracleLaws}.

(** The upsert, when the saved account is the one stored or a new one. *)
Lemma upsert_view a w :
  acct_wf (core a) -> rows_ok (t_accounts (w_db w)) ->
  (forall c0, pg_view w !! AccountID_String (Account_id a) = Some c0 -> same_identity c0 (core a)) ->
  table_book (t_accounts (upsert_account (account_row a) (w_db w)).2) =
    <[AccountID_String (Account_id a) := core a]> (pg_view w) /\
  rows_ok (t_accounts (upsert_account (account_row a) (w_db w)).2).
Proof using Laws.
  intros Ha Hrows Hsame. unfold upsert_account; simpl.
  set (k := AccountID_String (Account_id a)) in *. set (row' := conflict_row _ _).
  assert (Hrow : row_acct row' = Some (core a) /\ ar_account_id row' = k).
  { unfold row', conflict_row. destruct (t_accounts (w_db w) !! k) as [old|] eqn:Hold.
    - destruct (Hrows _ _ Hold) as [Hk [a0 Hr]].
      assert (Hv : pg_view w !! k = Some (core a0)).
      { rewrite pg_view_lookup, Hold. simpl. unfold row_acct. by rewrite Hr. }
      split; [|done]. eapply row_acct_updated; [done|done| |by apply Hsame].
      unfold row_acct. by rewrite Hr.
    - split; [by apply row_acct_saved|done]. }
  destruct Hrow as [Hrow Hkey]. split.
  - unfold pg_view, table_book. apply map_eq. intros i. rewrite lookup_omap, !lookup_insert.
    case_decide; [exact Hrow|]. by rewrite lookup_omap.
  - intros i r. rewrite lookup_insert_Some. intros [[<- <-]|[_ Hi]]; [|by apply Hrows].
    split; [done|]. unfold row_acct in Hrow. destruct (reconstitute_row row'); [eauto|done].
Qed.

(** Both cases of [safe_save]: what a save leaves, answered or not. *)
Lemma pg_Save_safe a w :
  pg_inv w -> acct_wf (core a) ->
  (forall c0, pg_view w !! AccountID_String (Account_id a) = Some c0 -> same_identity c0 (core a)) ->
  (forall w', w_uuid w' = w_uuid w ->
     pg_view w' = <[AccountID_String (Account_id a) := core a]> (pg_view w) ->
     ledger_inv pg_view w') ->
  pg_inv (pg_Save a w).2 /\
  ((pg_Save a w).1 = Ok tt ->
     pg_view (pg_Save a w).2 = <[AccountID_String (Account_id a) := core a]> (pg_view w)) /\
  (pg_view (pg_Save a w).2 = pg_view w \/
   pg_view (pg_Save a w).2 = <[AccountID_String (Account_id a) := core a]> (pg_view w)).
Proof using Laws.
  intros [Hi Hr] Ha Hsame Hinv. destruct (upsert_view a w Ha Hr Hsame) as [Hv Hrows].
  destruct (pg_Save_run a w) as [-> Hok].
  set (w1 := put_db (tick_stmt w) (upsert_account (account_row a) (w_db w)).2).
  assert (Hv1 : pg_view w1 = <[AccountID_String (Account_id a) := core a]> (pg_view w)) by exact Hv.
  assert (Hi1 : pg_inv w1) by (split; [by apply Hinv|exact Hrows]).
  rewrite Hok. destruct (db_fault (w_stmt w)); split_and!; auto; done.
Qed.

Lemma reconstitute_rows_Ok rows l :
  reconstitute_rows rows = Ok l <-> Forall2 (fun r a => reconstitute_row r = Ok a) rows l.
Proof.
  revert l. induction rows as [|r rows IH]; intros l; simpl.
  { split; [by intros [= <-]|by inversion 1]. }
  destruct (reconstitute_row r) as [a|e] eqn:Ha; simpl.
  - destruct (reconstitute_rows rows) as [l'|e] eqn:Hl; simpl.
    + split; [intros [= <-]; constructor; [done|by apply IH]|].
      inversion 1 as [|? a' ? l'' H1 H2]; subst. apply IH in H2. congruence.
    + split; [done|]. inversion 1 as [|? a' ? l'' H1 H2]; subst. apply IH in H2. done.
  - split; [done|]. inversion 1; congruence.
Qed.

Lemma Forall2_row_acct rows l :
  Forall2 (fun r a => reconstitute_row r = Ok a) rows l -> core <$> l = omap row_acct rows.
Proof.
  induction 1 as [|r a rows l Hr _ IH]; [done|]. csimpl. unfold row_acct at 1.
  by rewrite Hr, IH.
Qed.

Lemma omap_values (t : gmap string AccountRow) :
  (map_to_list (table_book t)).*2 ≡ₚ omap row_acct (map_to_list t).*2.
Proof.
  unfold table_book. induction t as [|k r t Hk IH] using map_ind.
  { by rewrite omap_empty, !map_to_list_empty. }
  rewrite (map_to_list_insert t k r Hk). csimpl.
  destruct (row_acct r) as [c|] eqn:Hr.
  - rewrite (omap_insert_Some _ _ _ _ c) by done.
    rewrite map_to_list_insert by (by rewrite lookup_omap, Hk). csimpl. by rewrite IH.
  - rewrite omap_insert_None by done. rewrite delete_id; [done|]. by rewrite lookup_omap, Hk.
Qed.
End save.

(** ** The interfaces hold *)
Section instances.
Context `{Laws : !UuidLaws} `{OLaws : !OracleLaws}.

Lemma pg_FindByID_Ok id w a w' :
  pg_FindByID id w = (Ok a, w') -> pg_view w !! AccountID_String id = Some (core a).
Proof.
  unfold pg_FindByID, exec, exec_at. rewrite bindS_run, pg_view_lookup.
  destruct (db_fault (w_stmt w)); simpl; try done.
  destruct (t_accounts (w_db w) !! _) as [row|]; simpl; [|done].
  unfold liftR, row_acct. by intros [= -> _].
Qed.

Lemma pg_FindByID_missing id w :
  pg_view w !! AccountID_String id = None -> exists e w', pg_FindByID id w = (Err e, w').
Proof.
  unfold pg_FindByID, exec, exec_at. rewrite bindS_run, pg_view_lookup.
  destruct (db_fault (w_stmt w)); simpl; [|unfold throw; eauto..].
  destruct (t_accounts (w_db w) !! _) as [row|]; simpl; [|unfold throw; eauto].
  unfold liftR, row_acct. destruct (reconstitute_row row); [done|eauto].
Qed.

Lemma pg_FindAll_Ok w l w' :
  pg_FindAll w = (Ok l, w') -> core <$> l ≡ₚ (map_to_list (pg_view w)).*2.
Proof using OLaws.
  unfold pg_FindAll, exec, exec_at. unfold bind. simpl.
  destruct (db_fault (w_stmt w)); simpl; try done.
  unfold liftR. intros [= Hl _]. apply reconstitute_rows_Ok, Forall2_row_acct in Hl.
  unfold pg_view. rewrite omap_values, Hl, merge_sort_Permutation, unordered_perm. done.
Qed.

#[global] Instance pg_safe_repository :
  SafeRepository pg_AccountRepository pg_view pg_inv pg_fresh.
Proof using Laws OLaws.
  split.
  - by intros w [[? _] _].
  - by intros w u [_ ?].
  - intros id. apply steps_view, pg_FindByID_untouched.
  - intros id. apply steps_inv, pg_FindByID_untouched.
  - apply steps_view, pg_FindAll_untouched.
  - apply steps_inv, pg_FindAll_untouched.
  - apply pg_FindByID_Ok.
  - apply pg_FindByID_missing.
  - intros w l w' _. apply pg_FindAll_Ok.
  - intros a w c0 Hi Ha Hc Hsame. apply pg_Save_safe; [done|done| |].
    + intros c1 Hc1. by rewrite Hc in Hc1; simplify_eq.
    + intros w' Hu Hv. eapply ledger_inv_save_old; [exact Hu|exact Hv|done|done|apply Hi].
  - intros a w Hi Ha [Hd Hn]. apply pg_Save_safe; [done|done| |].
    + intros c1 Hc1. unfold AccountID_String in Hc1. by rewrite Hn in Hc1.
    + intros w' Hu Hv. eapply ledger_inv_save_new; [exact Hu|exact Hv|done|done|apply Hi].
Qed.

#[global] Instance pg_safe_service : SafeService production pg_view pg_inv pg_fresh.
Proof using Laws OLaws.
  split; try apply _.
  - by intros w.
  - intros w [Hi Hr]. split; [|done]. by apply (ledger_inv_step pg_view w).
  - by intros w.
  - intros w [Hi Hr]. split; [|done]. apply (ledger_inv_step pg_view w); simpl; [done|lia|done].
  - intros w [[_ Ha] _]. split; [apply drawn_now|]. by apply Ha.
  - by intros tx w.
  - intros tx w [Hi Hr]. split; [|done]. by apply (ledger_inv_step pg_view w).
  - intros i t n es. by apply steps_view, append_untouched.
  - intros i t n es. by apply steps_inv, append_untouched.
  - intros e. apply preserves_bindS; [|apply _].
    by apply steps_view, ProjectAccountOpened_untouched.
  - intros e. apply keeps_bindS; [|apply _].
    by apply steps_inv, ProjectAccountOpened_untouched.
  - intros e. apply preserves_bindS; [|apply _].
    by apply steps_view, ProjectTransactionRecorded_untouched.
  - intros e. apply keeps_bindS; [|apply _].
    by apply steps_inv, ProjectTransactionRecorded_untouched.
Qed.

(** *** While the database answers *)

Definition unlogged_in (d : DB) (u : UUID) : Prop :=
  forall r, r ∈ t_events d -> ev_aggregate_id r <> uuid_String u.

(** No statement fails from now on, the clock is within the years of JSON,
    and no id still to be drawn has events. *)
Definition pg_ready (w : World) : Prop :=
  (forall n, (w_clock w <= n)%nat -> 0 <= Rfc3339.year (clock n) <= 9999) /\
  (forall n, (w_stmt w <= n)%nat -> db_fault n = Up) /\
  (forall n, (w_uuid w <= n)%nat -> unlogged_in (w_db w) (generator n)).
Definition pg_unlogged (u : UUID) (w : World) : Prop := drawn w u /\ unlogged_in (w_db w) u.

Lemma untouched_ready w w' : untouched t_events w w' -> pg_ready w -> pg_ready w'.
Proof.
  intros [He Hu Hc Hs] (H1 & H2 & H3). unfold pg_ready, unlogged_in.
  rewrite He, Hu, Hc. split_and!; [done| |done]. intros n Hn. apply H2. lia.
Qed.
Lemma untouched_unlogged u w w' : untouched t_events w w' -> pg_unlogged u w -> pg_unlogged u w'.
Proof. intros [He Hu _ _] [Hd H]. unfold pg_unlogged, unlogged_in, drawn. by rewrite He, Hu. Qed.

Lemma steps_ready {A} (m : St World A) : Steps (untouched t_events) m -> Keeps pg_ready m.
Proof. intros H w. apply untouched_ready, H. Qed.
Lemma steps_unlogged {A} u (m : St World A) :
  Steps (untouched t_events) m -> Keeps (pg_unlogged u) m.
Proof. intros H w. apply untouched_unlogged, H. Qed.

Lemma rows_ok_all (t : gmap string AccountRow) rows :
  rows_ok t -> (forall r, r ∈ rows -> exists k, t !! k = Some r) ->
  exists l, reconstitute_rows rows = Ok l.
Proof.
  intros Ht. induction rows as [|r rows IH]; intros Hin; simpl; [eauto|].
  destruct (Hin r) as [k Hk]; [constructor|]. destruct (Ht _ _ Hk) as [_ [a ->]]. simpl.
  destruct IH as [l ->]; [|simpl; eauto]. intros r' Hr'. apply Hin. by constructor.
Qed.

#[global] Instance pg_live_repository :
  LiveRepository pg_AccountRepository pg_view pg_inv pg_ready.
Proof using OLaws.
  split.
  - intros id. apply steps_ready, pg_FindByID_untouched.
  - apply steps_ready, pg_FindAll_untouched.
  - intros a. by apply steps_ready, pg_Save_untouched.
  - intros id w c (_ & Hup & _) _ Hc. rewrite pg_view_lookup in Hc. simpl.
    unfold pg_FindByID, exec, exec_at. rewrite bindS_run, Hup by lia. simpl.
    destruct (t_accounts (w_db w) !! _) as [row|]; [|done]. simpl in *. unfold row_acct in Hc.
    unfold liftR. destruct (reconstitute_row row); [eauto|done].
  - intros w (_ & Hup & _) [_ Hrows]. simpl. unfold pg_FindAll, exec, exec_at, bind. simpl.
    rewrite Hup by lia. simpl. unfold liftR.
    edestruct (rows_ok_all (t_accounts (w_db w))) as [l ->]; [done| |eauto].
    intros r. rewrite merge_sort_Permutation, unordered_perm.
    intros ([k r'] & -> & Hk%elem_of_map_to_list)%list_elem_of_fmap. eauto.
  - intros a w (_ & Hup & _). simpl. unfold pg_Save, exec, exec_at. rewrite Hup by lia.
    simpl. eauto.
Qed.

(** One event under an unused id: BEGIN, two inserts, COMMIT. *)
Lemma AppendWithOutbox_run u ty e w :
  pg_ready w -> pg_unlogged u w ->
  exists w', AppendWithOutbox (uuid_String u) ty 0 [e] w = (Ok tt, w') /\
    w_clock w' = w_clock w /\ w_uuid w' = w_uuid w /\ (w_stmt w <= w_stmt w')%nat /\
    t_events (w_db w') = t_events (w_db w) ++
      [MkEventRow (seq_events (w_db w) + 1) (uuid_String u) ty (SE_EventType e) 1
         (SE_Payload e) (db_time (SE_OccurredAt e))].
Proof.
  intros (_ & Hup & _) [_ Hu]. unfold AppendWithOutbox, with_tx.
  rewrite Hup by lia. unfold outbox_loop, bind, conflictErr, wrapErr, exec_at.
  rewrite (Hup (w_stmt (tick_stmt w))) by (simpl; lia). unfold insert_event at 1.
  assert (existsb (has_version (uuid_String u) (event_version 0 0)) (t_events (w_db w)) = false)
    as Hno.
  { apply not_true_iff_false. rewrite existsb_exists. intros (r & Hr & Hv).
    unfold has_version in Hv. bool_prop. by apply (Hu r); [apply list_elem_of_In|]. }
  simpl. rewrite Hno. simpl. rewrite (Hup (S (S (w_stmt w)))) by lia. simpl.
  rewrite (Hup (S (S (S (w_stmt w))))) by lia. eexists. split; [done|]. simpl.
  split_and!; [done|done|lia|done].
Qed.

#[global] Instance pg_live_service :
  LiveService production pg_view pg_inv pg_ready pg_unlogged.
Proof using Laws OLaws.
  split; try apply _.
  - intros w (H1 & H2 & H3). split_and!; [|done..]. intros n Hn. apply H1. simpl in Hn. lia.
  - intros w (H1 & H2 & H3). split_and!; [done..|]. intros n Hn. apply H3. simpl in Hn. lia.
  - intros w (H1 & _). by apply H1.
  - intros w (_ & _ & H3). split; [apply drawn_now|]. by apply H3.
  - by intros u w.
  - intros u id. apply steps_unlogged, pg_FindByID_untouched.
  - intros u a. by apply steps_unlogged, pg_Save_untouched.
  - by intros u tx w.
  - by intros tx w.
  - intros tx w _. simpl. unfold mem_tx_Save. eauto.
  - intros u ty e w Hr Hu. destruct (AppendWithOutbox_run u ty e w Hr Hu)
      as (w' & Hrun & Hc & Hn & Hs & Hev).
    exists w'. split; [done|]. destruct Hr as (H1 & H2 & H3). destruct Hu as [(i & Hi & ->) Hu].
    unfold pg_ready, unlogged_in. rewrite Hc, Hn, Hev. split_and!; [done|intros n ?; apply H2; lia|].
    intros n Hle r [Hr| ->%list_elem_of_singleton]%elem_of_app; [by apply (H3 n)|].
    simpl. intros E%(inj uuid_String)%(inj generator). lia.
  - intros e. apply keeps_bindS; [|apply _].
    by apply steps_ready, ProjectAccountOpened_untouched.
  - intros e. apply keeps_bindS; [|apply _].
    by apply steps_ready, ProjectTransactionRecorded_untouched.
Qed.
End instances.
End production.
