(* ===== verification/Scenario.v ===== *)
(** * Concrete runs

    Worlds reached by running the program in the sample environment, on the
    in-memory repositories and on Postgres: two asset accounts, Alice with 1000
    and Bob with nothing, and the two system accounts in US dollars. *)
From S2P Require Import Prelude Go Identifiers Money Transaction Account Book Events Ports.
From S2P Require Import LedgerService LedgerSafety LedgerLive World Sample InMemory Postgres.
From S2P Require Import Production.
From stdpp Require Import base gmap strings list.
Local Open Scope Z_scope.

#[export] Existing Instance sample_uuid.
#[export] Existing Instance sample_oracle.
#[export] Instance sample_uuid_laws : UuidLaws := sample_laws.
#[export] Instance sample_oracle_law : OracleLaws := sample_oracle_laws (fun _ => Up).

(** Ids in the order in which they are drawn. *)
Definition alice : AccountID := MkAccountID 1%N.
Definition bob : AccountID := MkAccountID 2%N.
Definition suspense : AccountID := MkAccountID 3%N.
Definition equity : AccountID := MkAccountID 4%N.
Definition nobody : AccountID := MkAccountID 99%N.

Definition usd (z : Z) : Money := MkMoney z USD.
Definition open_cmd (name : string) : OpenAccountCmd := MkOpenAccountCmd name "ASSET" USD.

Section setup.
Context (s : LedgerService World).

Definition open_accounts : M World unit :=
  let! _ := OpenAccount s (open_cmd "Alice") in
  let! _ := OpenAccount s (open_cmd "Bob") in
  let! _ := getOrCreateSystemAccount s (suspenseName USD) "LIABILITY" USD in
  let! _ := getOrCreateSystemEquity s USD in
  ret tt.

Definition setup : M World unit :=
  let! _ := open_accounts in Deposit s alice 1000 USD "opening balance".

Context {view : World -> book} {inv : World -> Prop} {fresh : World -> UUID -> Prop}.
Context `{Safe : !SafeService s view inv fresh}.

#[global] Instance open_accounts_inv : Keeps inv open_accounts.
Proof using Safe. unfold open_accounts, getOrCreateSystemEquity. apply _. Qed.
#[global] Instance setup_inv : Keeps inv setup.
Proof using Safe. unfold setup. apply _. Qed.
End setup.

Definition mem_world : World := (setup mem_service initial_world).2.
Definition pg_world : World := (setup production initial_world).2.

Definition asset (id : AccountID) (name : string) (bal : Z) : acct :=
  MkAcct id name Asset USD (usd bal) Active.
Definition sample_book : book :=
  <[AccountID_String alice := asset alice "Alice" 1000]>
  (<[AccountID_String bob := asset bob "Bob" 0]>
  (<[AccountID_String suspense :=
       MkAcct suspense (suspenseName USD) Liability USD (usd 0) Active]>
  (<[AccountID_String equity :=
       MkAcct equity (equityName USD) Equity USD (usd (-1000)) Active]> ∅))).

(** ** The initial world *)

Lemma empty_inv (view : World -> book) w : view w = ∅ -> ledger_inv view w.
Proof. intros Hv. unfold ledger_inv, book_wf, ids_ahead. rewrite Hv. by split. Qed.

Lemma initial_inv : mem_inv initial_world /\ pg_inv initial_world.
Proof. by split; [apply empty_inv|split; [apply empty_inv|intros k r]]. Qed.

Lemma sample_clock_ok n : 0 <= Rfc3339.year (clock n) <= 9999.
Proof. change (clock n) with (Z.of_nat n mod 1000000000). rewrite sample_clock_year. lia. Qed.

Lemma initial_ready : mem_ready initial_world /\ pg_ready initial_world.
Proof.
  split; [intros n _; apply sample_clock_ok|]. split_and!; [intros; apply sample_clock_ok|done|].
  intros n _ r Hr. by apply elem_of_nil in Hr.
Qed.

(** ** The two worlds after setup *)

Lemma mem_world_inv : mem_inv mem_world.
Proof. unfold mem_world. apply (keeps (P:=mem_inv)), initial_inv. Qed.
Lemma pg_world_inv : pg_inv pg_world.
Proof. unfold pg_world. apply (keeps (P:=pg_inv)), initial_inv. Qed.

Lemma mem_world_ready : mem_ready mem_world.
Proof. intros n _. apply sample_clock_ok. Qed.

Lemma mem_world_view : mem_view mem_world = sample_book.
Proof. vm_compute. reflexivity. Qed.
Lemma pg_world_view : pg_view pg_world = sample_book.
Proof. vm_compute. reflexivity. Qed.

(** Every event is stored under an id that has been drawn. *)
Definition events_drawn (w : World) : bool :=
  forallb (fun r => existsb (fun i => bool_decide (ev_aggregate_id r = uuid_String (generator i)))
                      (seq 0 (w_uuid w))) (t_events (w_db w)).

Lemma sample_pg_ready w : events_drawn w = true -> pg_ready w.
Proof.
  intros H. split_and!; [intros n _; apply sample_clock_ok|done|].
  intros n Hn r Hr%list_elem_of_In Heq. unfold events_drawn in H. rewrite forallb_forall in H.
  specialize (H r Hr). apply existsb_exists in H as (i & Hi%in_seq & E). bool_prop.
  rewrite Heq in E. apply (inj uuid_String) in E. apply (inj generator) in E. lia.
Qed.

Lemma pg_world_ready : pg_ready pg_world.
Proof. apply sample_pg_ready. vm_compute. reflexivity. Qed.

(** A boolean test of every account of the sample book. *)
Lemma sample_book_all (P : acct -> bool) :
  forallb (fun kc => P kc.2) (map_to_list sample_book) = true ->
  forall k c, sample_book !! k = Some c -> P c = true.
Proof.
  generalize sample_book. intros v. rewrite forallb_forall. intros H k c Hk.
  apply (H (k, c)). by apply list_elem_of_In, elem_of_map_to_list.
Qed.

Lemma sample_solvent : solvent sample_book.
Proof.
  intros k c Hk Hneg.
  pose proof (sample_book_all (fun c => may_be_negative c || (0 <=? ac_amount c))
                ltac:(vm_compute; reflexivity) k c Hk) as H. simpl in H.
  rewrite Hneg in H. by apply Z.leb_le.
Qed.

Lemma sample_headroom n : n <= 2 ^ 40 -> headroom n sample_book.
Proof.
  intros Hn k c Hk.
  pose proof (sample_book_all (fun c => Z.abs (ac_amount c) <=? 1000)
                ltac:(vm_compute; reflexivity) k c Hk) as H. simpl in H.
  apply Z.leb_le in H. unfold min_int64, max_int64. lia.
Qed.

(** A payment of 300 from Alice to Bob, and one that Bob cannot make. *)
Definition transfer_entries (a b : AccountID) (amt : Z) : list EntryCmd :=
  [MkEntryCmd a amt USD Debit; MkEntryCmd b amt USD Credit].
Definition payment : RecordTransactionCmd :=
  MkRecordTransactionCmd (transfer_entries alice bob 300) "payment".
Definition unfunded : RecordTransactionCmd :=
  MkRecordTransactionCmd [MkEntryCmd alice 300 USD Credit; MkEntryCmd bob 300 USD Debit] "unfunded".

(** The sample book has one account of each system name. *)
Definition only_at (name : string) (k : string) (v : book) : bool :=
  forallb (fun kc => negb (bool_decide (ac_name kc.2 = name)) || bool_decide (kc.1 = k))
    (map_to_list v) &&
  match v !! k with Some c => bool_decide (ac_name c = name) | None => false end.

Lemma only_at_sole name k v : only_at name k v = true -> sole name v k.
Proof.
  unfold only_at. intros [H1 H2]%andb_true_iff. rewrite forallb_forall in H1. split.
  - destruct (v !! k) as [c|]; [|done]. bool_prop. eauto.
  - intros k' c' Hk Hn. apply elem_of_map_to_list, list_elem_of_In in Hk.
    specialize (H1 _ Hk). simpl in H1. rewrite bool_decide_eq_true_2 in H1 by done.
    by apply bool_decide_eq_true in H1.
Qed.

Lemma sample_sole_equity : sole (equityName USD) sample_book (AccountID_String equity).
Proof. apply only_at_sole. vm_compute. reflexivity. Qed.
Lemma sample_sole_suspense : sole (suspenseName USD) sample_book (AccountID_String suspense).
Proof. apply only_at_sole. vm_compute. reflexivity. Qed.
