(* ===== verification/DomainTheorems.v ===== *)
(** * Theorems on the domain model

    Money, transactions and accounts (internal/domain/ledger and
    internal/domain/account), for every runtime. The histories of an account,
    sequences of its methods where a refused one leaves it as it was, are
    modelled here, as callers use the entity. *)
From S2P Require Import Prelude Go Identifiers Money Transaction Account Book Sample Scenario.
From stdpp Require Import base gmap strings list.
Local Open Scope Z_scope.

(** ** Histories of an account *)
Section history.
Context {U : UuidLib} {W : Type} `{R : !Runtime W}.

Inductive account_op :=
| OpCredit (m : Money)
| OpDebit (m : Money)
| OpSuspend
| OpReactivate
| OpClose.

(** [if acc2, err := acc.Credit(m); err == nil { acc = acc2 }], and so on. *)
Definition run_op (op : account_op) (a : Account) : St W Account :=
  match op with
  | OpCredit m => let@ r := Account_Credit a m in retS match r with Ok a' => a' | Err _ => a end
  | OpDebit m => let@ r := Account_Debit a m in retS match r with Ok a' => a' | Err _ => a end
  | OpSuspend => Account_Suspend a
  | OpReactivate => Account_Reactivate a
  | OpClose => Account_Close a
  end.

Fixpoint run_ops (ops : list account_op) (a : Account) : St W Account :=
  match ops with
  | [] => retS a
  | op :: ops => let@ a := run_op op a in run_ops ops a
  end.

(** The same on accounts without timestamps. *)
Definition op_acct (op : account_op) (c : acct) : acct :=
  match op with
  | OpCredit m => match post Credit m c with Ok c' => c' | Err _ => c end
  | OpDebit m => match post Debit m c with Ok c' => c' | Err _ => c end
  | OpSuspend => if bool_decide (ac_status c = Active) then ac_with_status c Suspended else c
  | OpReactivate => if bool_decide (ac_status c = Suspended) then ac_with_status c Active else c
  | OpClose => if bool_decide (ac_status c = Closed) then c else ac_with_status c Closed
  end.

(** What the operation moves, when it is accepted. *)
Definition op_delta (op : account_op) (c : acct) : Z :=
  match op with
  | OpCredit m => if is_Ok (post Credit m c) then Money_amount m else 0
  | OpDebit m => if is_Ok (post Debit m c) then - Money_amount m else 0
  | _ => 0
  end.

Fixpoint movement (ops : list account_op) (c : acct) : Z :=
  match ops with
  | [] => 0
  | op :: ops => op_delta op c + movement ops (op_acct op c)
  end.

Definition op_amount (op : account_op) : Z :=
  match op with OpCredit m | OpDebit m => Money_amount m | _ => 0 end.
Definition op_positive (op : account_op) : Prop :=
  match op with OpCredit m | OpDebit m => 0 < Money_amount m | _ => True end.

Lemma run_op_core op a w :
  acct_wf (core a) -> core (run_op op a w).1 = op_acct op (core a).
Proof.
  intros Hw. destruct op as [m|m| | |]; simpl.
  - rewrite bindS_run. pose proof (Account_Credit_refines a m w Hw) as H. simpl.
    by destruct (post Credit m (core a)), (Account_Credit a m w).1.
  - rewrite bindS_run. pose proof (Account_Debit_refines a m w Hw) as H. simpl.
    by destruct (post Debit m (core a)), (Account_Debit a m w).1.
  - unfold Account_Suspend; simpl. case_bool_decide; by rewrite ?bindS_run.
  - unfold Account_Reactivate; simpl. case_bool_decide; by rewrite ?bindS_run.
  - unfold Account_Close; simpl. case_bool_decide; simpl; by rewrite ?bindS_run.
Qed.

Lemma op_acct_wf op c : acct_wf c -> acct_wf (op_acct op c).
Proof.
  intros Hw. destruct op as [m|m| | |]; simpl.
  - destruct (post Credit m c) eqn:E; [|done]. apply post_Ok in E as [-> _].
    by apply post_balance_wf.
  - destruct (post Debit m c) eqn:E; [|done]. apply post_Ok in E as [-> _].
    by apply post_balance_wf.
  - by case_bool_decide.
  - by case_bool_decide.
  - by case_bool_decide.
Qed.

Lemma op_acct_amount op c :
  acct_wf c -> ac_amount (op_acct op c) = wrap64 (ac_amount c + op_delta op c).
Proof.
  intros [[Hr _] _]. destruct op as [m|m| | |]; simpl; [| |case_bool_decide..];
    rewrite ?Z.add_0_r, ?wrap64_id by done; try done.
  - destruct (post Credit m c) as [c'|] eqn:E; simpl.
    + apply post_Ok in E as [-> _]. unfold post_balance, ac_amount at 1; simpl.
      by rewrite signed_Credit.
    + by rewrite Z.add_0_r, wrap64_id.
  - destruct (post Debit m c) as [c'|] eqn:E; simpl.
    + apply post_Ok in E as [-> _]. unfold post_balance, ac_amount at 1; simpl.
      by rewrite signed_Debit.
    + by rewrite Z.add_0_r, wrap64_id.
Qed.

Lemma run_ops_core ops a w :
  acct_wf (core a) ->
  core (run_ops ops a w).1 = foldl (fun c op => op_acct op c) (core a) ops.
Proof.
  revert a w. induction ops as [|op ops IH]; intros a w Hw; simpl; [done|].
  rewrite bindS_run, IH; rewrite run_op_core by done; [done|by apply op_acct_wf].
Qed.

Lemma foldl_amount ops c :
  acct_wf c ->
  ac_amount (foldl (fun c op => op_acct op c) c ops) = wrap64 (ac_amount c + movement ops c).
Proof.
  revert c. induction ops as [|op ops IH]; intros c Hw; simpl.
  { rewrite Z.add_0_r, wrap64_id by apply Hw. done. }
  rewrite IH by (by apply op_acct_wf). rewrite op_acct_amount by done.
  autorewrite with ledger_rw. f_equal. lia.
Qed.

Lemma op_acct_type op c : may_be_negative (op_acct op c) = may_be_negative c.
Proof.
  destruct op as [m|m| | |]; simpl; [| |by case_bool_decide..].
  - destruct (post Credit m c) eqn:E; [|done]. by apply post_Ok in E as [-> _].
  - destruct (post Debit m c) eqn:E; [|done]. by apply post_Ok in E as [-> _].
Qed.

(** One operation without overflow keeps an account that may not be negative
    at zero or above, and within its remaining room. *)
Lemma op_acct_solvent op c n :
  acct_wf c -> op_positive op -> 0 <= n -> may_be_negative c = false ->
  0 <= ac_amount c <= max_int64 - (op_amount op + n) ->
  0 <= ac_amount (op_acct op c) <= max_int64 - n.
Proof.
  intros Hw Hpos Hn Hneg Hr. pose proof (op_acct_amount op c Hw) as Ha.
  destruct op as [m|m| | |]; simpl in *; [| |rewrite Ha, Z.add_0_r, wrap64_id; [lia|apply Hw]..].
  - destruct (post Credit m c); simpl in *; [|lia]. rewrite Ha, wrap64_id; [lia|].
    unfold in_int64, min_int64, max_int64 in *. lia.
  - destruct (post Debit m c) as [c'|] eqn:E; simpl in *; [|lia].
    apply post_Ok in E as (_ & _ & _ & _ & Hg). destruct (Hg eq_refl) as [Hg'|Hg']; [|congruence].
    replace (ac_amount c + - Money_amount m) with (ac_amount c - Money_amount m) in Ha by lia.
    rewrite Ha. split; [done|]. destruct (Z.le_gt_cases (Money_amount m) (ac_amount c)).
    + rewrite wrap64_id; [lia|]. unfold in_int64, min_int64, max_int64 in *. lia.
    + rewrite wrap64_id in Hg'; [lia|].
      unfold in_int64, min_int64, max_int64 in *. lia.
Qed.
End history.

(** ** Properties *)
Section properties.
Context {U : UuidLib} {W : Type} `{R : !Runtime W}.

(** C23: a transaction that [NewTransaction] returns has at least two
    entries, no zero amount, one currency, and debits equal to credits (as
    int64 sums); its entries are the parameters in order, under the given
    description. *)
Theorem NewTransaction_sound params d (w : W) t w' :
  NewTransaction params d w = (Ok t, w') ->
  Transaction_wf t /\ Entry_params <$> Transaction_entries t = params /\
  Transaction_description t = d.
Proof.
  intros (Hv & -> & _)%NewTransaction_Ok_inv.
  destruct (construct_spec params d w) as [He Hd].
  split; [|done]. apply params_valid_entries. by rewrite He.
Qed.

(** [NewTransaction] on every input: which error it returns, in the
    order of its checks, and that it accepts everything else; a refusal
    changes nothing. *)
Theorem NewTransaction_every_branch params d (w : W) :
  NewTransaction params d w =
  match params with
  | [] => (Err ErrNoEntries, w)
  | [_] => (Err ErrInsufficientEntries, w)
  | first :: rest =>
      if decide (Forall EntryParams_nonzero params) then
        if decide (Forall (EntryParams_in (Money_currency (EntryParams_Amount first))) rest) then
          if decide (wrap64 (params_debits params) = wrap64 (params_credits params))
          then (Ok (construct params d w).1, (construct params d w).2)
          else (Err ErrUnbalancedTransaction, w)
        else (Err ErrCurrencyMismatch, w)
      else (Err ErrZeroEntryAmount, w)
  end.
Proof.
  pose proof (NewTransaction_branches params d w) as B.
  destruct params as [|p1 [|p2 rest]]; [done|done|].
  destruct B as [[H ->]|[(H1 & H2 & ->)|[(H1 & H2 & H3 & ->)|(Hv & ->)]]].
  - by rewrite decide_False.
  - by rewrite decide_True, decide_False.
  - rewrite decide_True, decide_True, decide_False; try done. by rewrite <- eqm64_wrap.
  - destruct Hv as (_ & Hz & [c Hc] & Hb). apply eqm64_wrap in Hb.
    inversion Hc as [|? ? H1 H2]; subst. unfold EntryParams_in in H1.
    rewrite !decide_True; try done. by rewrite H1.
Qed.

(** Without overflow the balance is exact: when all amounts are positive
    and their sum fits an int64, an accepted transaction's debits equal its
    credits as integers. *)
Theorem NewTransaction_exactly_balanced params d (w : W) t w' :
  NewTransaction params d w = (Ok t, w') ->
  positive_amounts params -> sumZ params_amount params <= max_int64 ->
  entry_debits (Transaction_entries t) = entry_credits (Transaction_entries t).
Proof.
  intros (Hv & -> & _)%NewTransaction_Ok_inv Hpos Hmax.
  destruct (construct_spec params d w) as [He _].
  rewrite entry_debits_params, entry_credits_params, He. destruct Hv as (_ & _ & _ & Hb).
  by apply positive_totals_exact.
Qed.

(** C29: [Credit] and [Debit] do what the posting specification says, errors
    included: on any account whose balance is in its own currency they return
    the account with the balance moved by the amount (modulo 2^64) and
    nothing else changed, or the first error among not active, zero amount,
    wrong currency and, for a debit that would leave an asset below zero,
    insufficient funds. *)
Theorem account_methods_exact a m (w : W) :
  acct_wf (core a) ->
  refines (post Credit m (core a)) (Account_Credit a m w).1 /\
  refines (post Debit m (core a)) (Account_Debit a m w).1.
Proof. intros Hw. split; [by apply Account_Credit_refines|by apply Account_Debit_refines]. Qed.

(** The balance of an account is the sum of what was accepted: after any
    sequence of credits, debits and status changes, it is the initial
    balance plus the accepted credits minus the accepted debits, modulo
    2^64. *)
Theorem account_history_balance ops a (w : W) :
  acct_wf (core a) ->
  Money_amount (Account_balance (run_ops ops a w).1) =
  wrap64 (Money_amount (Account_balance a) + movement ops (core a)).
Proof.
  intros Hw. pose proof (foldl_amount ops (core a) Hw) as H.
  rewrite <- run_ops_core with (w := w) in H by done. exact H.
Qed.

(** C22: an account that may not be negative never is: from a non-negative
    balance, any sequence of operations with positive amounts keeps it
    non-negative, as long as the amounts cannot overflow the balance. *)
Theorem account_history_solvent ops a (w : W) :
  acct_wf (core a) -> Forall op_positive ops -> Account_AllowsNegativeBalance a = false ->
  0 <= Money_amount (Account_balance a) <= max_int64 - sumZ op_amount ops ->
  0 <= Money_amount (Account_balance (run_ops ops a w).1).
Proof.
  intros Hw Hpos Hneg Hr. change (0 <= ac_amount (core (run_ops ops a w).1)).
  rewrite run_ops_core by done. change (may_be_negative (core a) = false) in Hneg.
  change (Money_amount (Account_balance a)) with (ac_amount (core a)) in Hr.
  revert Hw Hneg Hr. generalize (core a) as c.
  induction Hpos as [|op ops Ho Hpos IH]; intros c Hw Hneg Hr; simpl in *; [lia|].
  assert (Hs : 0 <= sumZ op_amount ops).
  { clear -Hpos. induction Hpos as [|[] ? H]; simpl in *; lia. }
  apply IH; [by apply op_acct_wf|by rewrite op_acct_type|]. by apply op_acct_solvent.
Qed.

(** The lifecycle of the states of an account. *)
Inductive lifecycle : Status -> Status -> Prop :=
| lc_same st : lifecycle st st
| lc_suspend : lifecycle Active Suspended
| lc_reactivate : lifecycle Suspended Active
| lc_close st : lifecycle st Closed.

(** Lifecycle: every operation follows the transitions active to
    suspended, suspended to active, anything to closed; a closed account is
    never changed again, whatever is called on it. *)
Theorem account_lifecycle op ops a (w : W) :
  acct_wf (core a) ->
  lifecycle (Account_status a) (Account_status (run_op op a w).1) /\
  (Account_status a = Closed -> core (run_ops ops a w).1 = core a).
Proof.
  intros Hw. split.
  - change (lifecycle (ac_status (core a)) (ac_status (core (run_op op a w).1))).
    rewrite run_op_core by done. destruct op as [m|m| | |]; simpl.
    + destruct (post Credit m (core a)) eqn:E; [apply post_Ok in E as [-> _]|]; constructor.
    + destruct (post Debit m (core a)) eqn:E; [apply post_Ok in E as [-> _]|]; constructor.
    + case_bool_decide as E; [simpl; simpl in E; rewrite E|]; constructor.
    + case_bool_decide as E; [simpl; simpl in E; rewrite E|]; constructor.
    + case_bool_decide; constructor.
  - intros Hc. rewrite run_ops_core by done. change (ac_status (core a) = Closed) in Hc.
    induction ops as [|op' ops IH]; simpl; [done|].
    assert (op_acct op' (core a) = core a) as ->; [|done].
    destruct op' as [m|m| | |]; simpl; simpl in Hc; unfold post, post_guard; simpl;
      rewrite ?Hc; try done.
Qed.

(** Money is an additive group modulo 2^64 in each currency: what was
    added can be taken away again, subtraction is addition of the negation,
    and no operation leaves the int64 range or mixes currencies. *)
Theorem money_arithmetic m n :
  Money_wf m ->
  (Money_currency m <> Money_currency n ->
     Money_Add m n = Err ErrCurrencyMismatch /\ Money_Subtract m n = Err ErrCurrencyMismatch) /\
  (Money_currency m = Money_currency n ->
     exists s, Money_Add m n = Ok s /\ Money_wf s /\ Money_Subtract s n = Ok m) /\
  Money_Subtract m n = Money_Add m (Money_Negate n).
Proof.
  intros Hw. split_and!; [| |apply Money_Subtract_Negate].
  - intros Hne. unfold Money_Add, Money_Subtract. by rewrite bool_decide_eq_false_2.
  - intros He. eexists. split; [by apply Money_Add_same|].
    pose proof (Money_Add_same m n He) as Ha. split.
    + destruct (Money_ops_wf m n Hw) as (_ & H & _). by apply H.
    + by apply (Money_Add_Subtract m n _ Hw).
Qed.

Definition huge : Money := MkMoney (2 ^ 62) USD.

(** The balance check is modulo 2^64: four debits of 2^62 and no credit
    at all are accepted as a balanced transaction. *)
Theorem NewTransaction_accepts_overflow id d (w : W) :
  exists t w', NewTransaction (replicate 4 (MkEntryParams id huge Debit)) d w = (Ok t, w') /\
    entry_debits (Transaction_entries t) = 2 ^ 64 /\ entry_credits (Transaction_entries t) = 0.
Proof.
  set (ps := replicate 4 (MkEntryParams id huge Debit)).
  assert (Hv : params_valid ps).
  { split_and!; [simpl; lia|by repeat constructor|exists USD; by repeat constructor|done]. }
  eexists _, _. split; [by apply NewTransaction_valid|].
  rewrite entry_debits_params, entry_credits_params.
  destruct (construct_spec ps d w) as [-> _]. done.
Qed.

(** The entry type is not validated: entries whose type is neither DEBIT
    nor CREDIT count in neither total, so any list of two or more of them in
    one currency is accepted, whatever the amounts. *)
Theorem NewTransaction_ignores_unknown_types params d (w : W) :
  (2 <= length params)%nat -> Forall EntryParams_nonzero params ->
  (exists c, Forall (EntryParams_in c) params) ->
  Forall (fun p => is_posting (EntryParams_Type p) = false) params ->
  exists t w', NewTransaction params d w = (Ok t, w').
Proof.
  intros Hl Hz Hc Hty. eexists _, _. apply NewTransaction_valid. split_and!; try done.
  rewrite Forall_forall in Hty. unfold params_debits, params_credits.
  rewrite !sumZ_zero; [done|..]; intros p Hp%list_elem_of_In%Hty; unfold is_posting in Hp;
    bool_prop; unfold debit_part, credit_part; by rewrite bool_decide_eq_false_2.
Qed.
End properties.

(** ** The properties on concrete inputs *)
#[local] Existing Instance sample_runtime.

Definition rent : list EntryParams :=
  [MkEntryParams alice (usd 700) Debit; MkEntryParams bob (usd 500) Credit;
   MkEntryParams bob (usd 200) Credit].
Definition misc : list EntryParams :=
  [MkEntryParams alice (usd 7) "TRANSFER"; MkEntryParams bob (usd 3) "debit"].
Definition savings : Account := MkAccount alice "savings" Asset USD (usd 100) Active 0 0.
Definition year : list account_op :=
  [OpCredit (usd 50); OpDebit (usd 120); OpDebit (usd 40); OpSuspend; OpCredit (usd 1);
   OpReactivate; OpClose; OpCredit (usd 9)].

Lemma NewTransaction_sound_witness :
  exists t w', NewTransaction rent "rent" 0%nat = (Ok t, w') /\
    Transaction_wf t /\ Entry_params <$> Transaction_entries t = rent /\
    Transaction_description t = "rent".
Proof.
  eexists _, _. split; [vm_compute; reflexivity|].
  refine (NewTransaction_sound rent "rent" 0%nat _ _ _). vm_compute; reflexivity.
Defined.

Lemma NewTransaction_exactly_balanced_witness :
  exists t w', NewTransaction rent "rent" 0%nat = (Ok t, w') /\
    entry_debits (Transaction_entries t) = entry_credits (Transaction_entries t).
Proof.
  eexists _, _. split; [vm_compute; reflexivity|].
  refine (NewTransaction_exactly_balanced rent "rent" 0%nat _ _ _ _ _).
  - vm_compute; reflexivity.
  - by repeat constructor.
  - by vm_compute.
Defined.

Lemma savings_wf : acct_wf (core savings).
Proof. repeat split; by vm_compute. Qed.

Lemma account_methods_exact_witness :
  acct_wf (core savings) /\
  refines (post Credit (usd 5) (core savings)) (Account_Credit savings (usd 5) 0%nat).1 /\
  refines (post Debit (usd 5) (core savings)) (Account_Debit savings (usd 5) 0%nat).1.
Proof.
  split; [apply savings_wf|]. apply (account_methods_exact savings (usd 5) 0%nat), savings_wf.
Defined.

(** The second debit and the credits after suspension and closure are refused. *)
Lemma account_history_balance_witness :
  acct_wf (core savings) /\ movement year (core savings) = -70 /\
  Money_amount (Account_balance (run_ops year savings 0%nat).1) = wrap64 (100 + (-70)).
Proof.
  split; [apply savings_wf|]. split; [vm_compute; reflexivity|].
  exact (account_history_balance year savings 0%nat savings_wf).
Defined.

Lemma account_history_solvent_witness :
  acct_wf (core savings) /\ Forall op_positive year /\
  0 <= Money_amount (Account_balance (run_ops year savings 0%nat).1).
Proof.
  assert (Hp : Forall op_positive year) by (by repeat constructor).
  split; [apply savings_wf|]. split; [done|].
  refine (account_history_solvent year savings 0%nat savings_wf Hp _ _); by vm_compute.
Defined.

Definition shut : Account := MkAccount alice "shut" Asset USD (usd 100) Closed 0 0.

Lemma account_lifecycle_witness :
  acct_wf (core shut) /\
  lifecycle (Account_status shut) (Account_status (run_op OpReactivate shut 0%nat).1) /\
  core (run_ops year shut 0%nat).1 = core shut.
Proof.
  assert (Hw : acct_wf (core shut)) by (repeat split; by vm_compute).
  split; [done|]. destruct (account_lifecycle OpReactivate year shut 0%nat Hw) as [H1 H2].
  split; [exact H1|by apply H2].
Defined.

Lemma money_arithmetic_witness :
  Money_wf (usd max_int64) /\
  exists s, Money_Add (usd max_int64) (usd 1) = Ok s /\ Money_amount s = min_int64 /\
    Money_Subtract s (usd 1) = Ok (usd max_int64).
Proof.
  assert (Hw : Money_wf (usd max_int64)) by (repeat split; by vm_compute).
  split; [done|]. destruct (money_arithmetic (usd max_int64) (usd 1) Hw) as (_ & H & _).
  destruct (H eq_refl) as (s & Ha & _ & Hs). exists s. split_and!; [done| |done].
  vm_compute in Ha. by injection Ha as <-.
Defined.

Lemma NewTransaction_ignores_unknown_types_witness :
  (2 <= length misc)%nat /\ Forall EntryParams_nonzero misc /\
  exists t w', NewTransaction misc "" 0%nat = (Ok t, w').
Proof.
  assert (Hz : Forall EntryParams_nonzero misc) by (by repeat constructor).
  split; [by vm_compute; lia|]. split; [done|].
  refine (NewTransaction_ignores_unknown_types misc "" 0%nat _ Hz _ _);
    [simpl; lia|exists USD; by repeat constructor|by repeat constructor].
Defined.
