(* ===== verification/LedgerTheorems.v ===== *)
(** * Theorems on the write side

    What [LedgerService] guarantees, for every implementation of its
    collaborators: under [SafeService] whatever fails, under [LiveService]
    exactly. *)
From S2P Require Import Prelude Go Identifiers Money Transaction Account Book Events Ports.
From S2P Require Import LedgerService LedgerSafety LedgerLive World Sample InMemory Postgres.
From S2P Require Import Production Scenario.
From stdpp Require Import base gmap strings list.
Local Open Scope Z_scope.

Section safe.
Context {U : UuidLib} {W : Type} `{R : !Runtime W}.
Notation key := AccountID_String.
Context (s : LedgerService W) (view : W -> book) (inv : W -> Prop) (fresh : W -> UUID -> Prop).
Context `{Safe : !SafeService s view inv fresh}.

(** A transaction that [RecordTransaction] accepts is valid and
    conserves money: it opens and closes no account, and the sum of all
    balances of every currency is what it was (modulo 2^64). *)
Theorem RecordTransaction_conserves cmd w tx w' :
  inv w -> RecordTransaction s cmd w = (Ok tx, w') ->
  valid_command cmd /\ dom (view w') = dom (view w) /\
  forall cur, holdings cur (view w') ≡64 holdings cur (view w).
Proof using Safe.
  intros Hi H. destruct (RecordTransaction_Ok _ _ _ _ Hi H) as (_ & Hv & Hp & _).
  split_and!; [done| |intros cur; by eapply RecordTransaction_holdings].
  pose proof (book_posts_dom (cmdParams <$> RTC_Entries cmd) (view w)) as Hd. by rewrite Hp in Hd.
Qed.

(** C32: what an accepted transaction does to each account: every entry
    names a known account, and every account ends with its old balance plus
    the credits minus the debits that name it (modulo 2^64), under the same
    name, type, currency and status. *)
Theorem RecordTransaction_accounts cmd w tx w' :
  inv w -> RecordTransaction s cmd w = (Ok tx, w') ->
  Forall (fun e => key (EC_AccountID e) ∈ dom (view w)) (RTC_Entries cmd) /\
  forall k c, view w !! k = Some c -> exists c', view w' !! k = Some c' /\
    ac_amount c' =
      wrap64 (ac_amount c + sumZ (posted_to k) (cmdParams <$> RTC_Entries cmd)) /\
    ac_id c' = ac_id c /\ same_identity c c' /\ ac_status c' = ac_status c.
Proof using Safe.
  intros Hi H. destruct (RecordTransaction_Ok _ _ _ _ Hi H) as (_ & _ & Hp & _).
  pose proof (book_posts_known (cmdParams <$> RTC_Entries cmd) (view w)) as Hk.
  pose proof (book_posts_account (cmdParams <$> RTC_Entries cmd) (view w)) as Ha.
  rewrite Hp in Hk, Ha. split.
  - specialize (Hk eq_refl). by rewrite Forall_fmap in Hk.
  - intros k c Hc. apply Ha; [by eapply safe_inv_wf|done..].
Qed.

(** What a run of [RecordTransaction] can leave behind, whatever fails:
    the postings of a prefix of the entries, none of which was refused; all
    of them when it succeeds, none when the command is invalid. *)
Theorem RecordTransaction_any_run cmd w :
  inv w ->
  exists k, posted_prefix (cmdParams <$> RTC_Entries cmd) (view w)
              (view (RecordTransaction s cmd w).2) k /\
    (~ valid_command cmd -> k = 0%nat /\ is_Ok (RecordTransaction s cmd w).1 = false) /\
    (is_Ok (RecordTransaction s cmd w).1 = true -> k = length (RTC_Entries cmd)).
Proof using Safe.
  intros Hi. destruct (RecordTransaction_safe cmd w Hi) as (_ & k & Hp & Hn & Hok).
  exists k. split; [done|]. destruct ((RecordTransaction s cmd w).1) as [tx|e]; [|naive_solver].
  destruct (Hok tx eq_refl) as (-> & Hv & _). naive_solver.
Qed.

(** C16: solvency: a run of [RecordTransaction] whose amounts are all positive,
    from a ledger where no asset is negative and no balance can overflow by
    their sum, leaves no asset negative, even when it fails half-way; when it
    succeeds, the money of every currency is the same integer as before. A
    negative amount can make an asset negative ([transfer_negative_takes]). *)
Theorem RecordTransaction_solvent cmd w :
  let ps := cmdParams <$> RTC_Entries cmd in
  inv w -> positive_amounts ps -> headroom (sumZ params_amount ps) (view w) ->
  sumZ params_amount ps <= max_int64 -> solvent (view w) ->
  solvent (view (RecordTransaction s cmd w).2) /\
  (is_Ok (RecordTransaction s cmd w).1 = true ->
     forall cur, holdings cur (view (RecordTransaction s cmd w).2) = holdings cur (view w)).
Proof using Safe.
  intros ps Hi Hpos Hroom Hmax Hs. pose proof (safe_inv_wf _ Hi) as Hw. split.
  - destruct (RecordTransaction_safe cmd w Hi) as (_ & k & [_ Hp] & _).
    destruct (positive_amounts_take k ps Hpos) as [Hpk Hsk].
    pose proof (book_posts_solvent (take k ps) (view w) Hw Hpk) as Hsol.
    unfold ps in Hsol. rewrite Hp in Hsol. apply Hsol; [|done].
    by eapply headroom_weaken.
  - intros [tx [w' H]]%is_Ok_run cur. rewrite H.
    destruct (RecordTransaction_Ok _ _ _ _ Hi H) as (_ & [_ Hv] & Hp & _). cbn [snd].
    rewrite (book_posts_holdings_exact cur ps (view w) (view w')) by done.
    rewrite posted_sum_exact by done. lia.
Qed.

(** C15: the trial balance: from an empty ledger, after any sequence of
    successful calls of the service (accounts opened, transactions recorded,
    deposits, queries), the balances of every currency add up to zero
    (modulo 2^64), and the ledger is well formed. *)
Theorem trial_balance w w' :
  inv w -> view w = ∅ -> rtc (serves (s:=s)) w w' ->
  book_wf (view w') /\ forall cur, holdings cur (view w') ≡64 0.
Proof using Safe.
  intros Hi He H. destruct (history_inv _ _ H Hi) as [Hi' Hh].
  split; [by apply safe_inv_wf|]. intros cur. rewrite Hh, He. unfold holdings.
  by rewrite msum_empty.
Qed.
End safe.

Section live.
Context {U : UuidLib} {W : Type} `{R : !Runtime W}.
Notation key := AccountID_String.
Context (s : LedgerService W) (view : W -> book) (inv ready : W -> Prop)
  (fresh : W -> UUID -> Prop) (unlogged : UUID -> W -> Prop).
Context `{Safe : !SafeService s view inv fresh} `{Live : !LiveService s view inv ready unlogged}.

(** C1: refinement: while the storage answers, [RecordTransaction] is
    [ledger_record] of the abstract ledger, in what it leaves and in whether
    it succeeds, and it keeps the representation invariant and readiness. *)
Theorem RecordTransaction_refines cmd w :
  inv w -> ready w ->
  (view (RecordTransaction s cmd w).2, is_Ok (RecordTransaction s cmd w).1) =
    ledger_record cmd (view w) /\
  inv (RecordTransaction s cmd w).2 /\ ready (RecordTransaction s cmd w).2.
Proof using Safe Live. apply RecordTransaction_record. Qed.

(** A transaction is not atomic: when the first of two balanced entries
    credits an active account and the second is refused, the call fails and
    the credit stays. Money has been created. *)
Theorem RecordTransaction_partial a b amt cur d w ca :
  let cmd := MkRecordTransactionCmd [MkEntryCmd a amt cur Credit; MkEntryCmd b amt cur Debit] d in
  let leg := MkEntryParams b (MkMoney amt cur) Debit in
  inv w -> ready w -> validCurrency cur = true -> amt <> 0 ->
  view w !! key a = Some ca -> ac_status ca = Active -> ac_currency ca = cur ->
  book_post leg (<[key a := post_balance Credit (MkMoney amt cur) ca]> (view w)) = None ->
  is_Ok (RecordTransaction s cmd w).1 = false /\
  view (RecordTransaction s cmd w).2 =
    <[key a := post_balance Credit (MkMoney amt cur) ca]> (view w) /\
  holdings cur (view (RecordTransaction s cmd w).2) ≡64 holdings cur (view w) + amt.
Proof using Safe Live.
  intros cmd leg Hi Hr Hc Ha Hca Hst Hcur Hb.
  destruct (RecordTransaction_record cmd w Hi Hr) as [H _]. unfold ledger_record in H.
  rewrite decide_True in H by (apply pair_command_valid; auto).
  set (c1 := MkEntryParams a (MkMoney amt cur) Credit).
  assert (H1 : book_post c1 (view w) =
    Some (<[key a := post_balance Credit (MkMoney amt cur) ca]> (view w))).
  { unfold book_post, post_entry; simpl. by rewrite Hca, post_Credit_accepts. }
  change (cmdParams <$> RTC_Entries cmd) with [c1; leg] in H. cbn [book_posts] in H.
  rewrite H1, Hb in H. injection H as Hv Hok. split_and!; [done|done|].
  rewrite Hv, (book_post_holdings cur c1 (view w)) by (done || by apply safe_inv_wf).
  unfold posted, params_signed; simpl. rewrite bool_decide_eq_true_2 by done.
  by rewrite signed_Credit.
Qed.

(** C39: [OpenAccount] opens one empty active account under an id that was
    free, exactly when the name is not empty and the currency supported;
    otherwise it changes nothing. *)
Theorem OpenAccount_exact cmd w :
  inv w -> ready w ->
  if decide (OAC_Name cmd <> "" /\ validCurrency (OAC_Currency cmd) = true)
  then exists acc w' u, OpenAccount s cmd w = (Ok acc, w') /\ inv w' /\ ready w' /\
    core acc = opened u cmd /\ view w !! uuid_String u = None /\
    view w' = <[uuid_String u := opened u cmd]> (view w)
  else is_Ok (OpenAccount s cmd w).1 = false /\ view (OpenAccount s cmd w).2 = view w.
Proof using Safe Live.
  intros Hi Hr. destruct (OpenAccount_safe cmd w Hi) as (Hi' & u & Hnone & Hany & Hok).
  destruct (decide _) as [[Hn Hc]|Hno].
  - destruct (OpenAccount_live cmd w Hi Hr Hn Hc) as (acc & w' & Ho & Hr').
    rewrite Ho in *. destruct (Hok acc eq_refl) as (Hcore & _ & _ & Hv).
    exists acc, w', u. by split_and!.
  - split; [|destruct Hany as [?|(Hc & Hn & _)]; [done|by destruct Hno]].
    destruct ((OpenAccount s cmd w).1) as [acc|]; [|done].
    destruct (Hok acc eq_refl) as (_ & Hc & Hn & _). by destruct Hno.
Qed.

(** A system account is created once: when no account has its name, the
    first [getOrCreateSystemAccount] opens it, and the second finds that
    account and changes nothing. *)
Theorem system_account_once name ty cur w :
  inv w -> ready w -> unnamed name (view w) -> name <> "" -> validCurrency cur = true ->
  exists acc w1 acc' w2,
    getOrCreateSystemAccount s name ty cur w = (Ok acc, w1) /\
    sole name (view w1) (key (Account_id acc)) /\
    view w1 = <[key (Account_id acc) := core acc]> (view w) /\
    getOrCreateSystemAccount s name ty cur w1 = (Ok acc', w2) /\
    core acc' = core acc /\ view w2 = view w1.
Proof using Safe Live.
  intros Hi Hr Hu Hn Hc.
  destruct (getOrCreateSystemAccount_unnamed name ty cur w Hi Hr Hu Hn Hc)
    as (acc & w1 & u & H1 & _ & Hcore & Hv1 & Hi1 & Hr1).
  assert (Hk : key (Account_id acc) = uuid_String u) by (by rewrite (core_inj_id _ _ Hcore)).
  assert (Hs : sole name (view w1) (uuid_String u)).
  { rewrite Hv1. apply sole_opened; [done|]. by rewrite Hcore. }
  assert (Hl : view w1 !! uuid_String u = Some (core acc))
    by (rewrite Hv1; apply lookup_insert_eq).
  destruct (getOrCreateSystemAccount_sole name ty cur w1 _ _ Hi1 Hr1 Hs Hl)
    as (acc' & w2 & H2 & Hcore' & _ & Hv2 & _).
  exists acc, w1, acc', w2. rewrite Hk. by split_and!.
Qed.

(** C38: a deposit moves its amount from the currency's equity account to the
    destination and touches nothing else. *)
Theorem Deposit_exact id amt cur d w k ce c :
  inv w -> ready w -> sole (equityName cur) (view w) k -> view w !! k = Some ce ->
  ac_status ce = Active -> ac_currency ce = cur -> may_be_negative ce = true ->
  validCurrency cur = true -> amt <> 0 ->
  view w !! key id = Some c -> key id <> k -> ac_status c = Active -> ac_currency c = cur ->
  is_Ok (Deposit s id amt cur d w).1 = true /\
  view (Deposit s id amt cur d w).2 =
    <[key id := post_balance Credit (MkMoney amt cur) c]>
      (<[k := post_balance Debit (MkMoney amt cur) ce]> (view w)).
Proof using Safe Live.
  intros Hi Hr Hs Hk He Hec Hneg Hv Ha Hc Hne Hst Hcc.
  destruct (Deposit_live id amt cur d w k ce Hi Hr Hs Hk Hv Ha) as [H _].
  destruct (safe_inv_wf _ Hi _ _ Hk) as [Hke _].
  assert (H2 : book_posts (deposit_legs (ac_id ce) id amt cur) (view w) =
    (<[key id := post_balance Credit (MkMoney amt cur) c]>
      (<[k := post_balance Debit (MkMoney amt cur) ce]> (view w)), true)).
  { unfold deposit_legs, book_posts, book_post, post_entry; simpl. rewrite <- Hke, Hk.
    rewrite post_Debit_accepts, lookup_insert_ne, Hc by done.
    by rewrite post_Credit_accepts. }
  rewrite H2 in H. by injection H as -> ->.
Qed.
End live.

(** ** The properties on concrete runs *)

Lemma payment_runs :
  exists tx w', RecordTransaction mem_service payment mem_world = (Ok tx, w').
Proof. apply is_Ok_run. vm_compute. reflexivity. Qed.

Lemma RecordTransaction_conserves_witness :
  exists tx w', mem_inv mem_world /\ RecordTransaction mem_service payment mem_world = (Ok tx, w') /\
    valid_command payment /\ dom (mem_view w') = dom (mem_view mem_world) /\
    forall cur, holdings cur (mem_view w') ≡64 holdings cur (mem_view mem_world).
Proof.
  destruct payment_runs as (tx & w' & H). exists tx, w'. split; [apply mem_world_inv|].
  split; [exact H|].
  exact (RecordTransaction_conserves mem_service mem_view mem_inv mem_fresh payment mem_world tx w'
           mem_world_inv H).
Defined.

Lemma RecordTransaction_accounts_witness :
  exists tx w', mem_inv mem_world /\ RecordTransaction mem_service payment mem_world = (Ok tx, w') /\
    exists c', mem_view w' !! AccountID_String bob = Some c' /\ ac_amount c' = 300.
Proof.
  destruct payment_runs as (tx & w' & H). exists tx, w'. split; [apply mem_world_inv|].
  split; [exact H|].
  destruct (RecordTransaction_accounts mem_service mem_view mem_inv mem_fresh payment mem_world tx w'
              mem_world_inv H) as [_ Ha].
  destruct (Ha (AccountID_String bob) (asset bob "Bob" 0)) as (c' & Hc & Hb & _).
  { rewrite mem_world_view. reflexivity. }
  exists c'. split; [exact Hc|]. rewrite Hb. vm_compute. reflexivity.
Defined.

Lemma RecordTransaction_any_run_witness :
  mem_inv mem_world /\
  exists k, posted_prefix (cmdParams <$> RTC_Entries unfunded) (mem_view mem_world)
              (mem_view (RecordTransaction mem_service unfunded mem_world).2) k.
Proof.
  split; [apply mem_world_inv|].
  destruct (RecordTransaction_any_run mem_service mem_view mem_inv mem_fresh unfunded mem_world
              mem_world_inv) as (k & Hk & _).
  exists k. exact Hk.
Defined.

Lemma RecordTransaction_solvent_witness :
  solvent (mem_view mem_world) /\
  solvent (mem_view (RecordTransaction mem_service payment mem_world).2) /\
  forall cur, holdings cur (mem_view (RecordTransaction mem_service payment mem_world).2) =
              holdings cur (mem_view mem_world).
Proof.
  assert (Hs : solvent (mem_view mem_world)) by (rewrite mem_world_view; apply sample_solvent).
  split; [exact Hs|].
  destruct (RecordTransaction_solvent mem_service mem_view mem_inv mem_fresh payment mem_world
              mem_world_inv) as [H1 H2].
  - by repeat constructor.
  - rewrite mem_world_view. apply sample_headroom. by vm_compute.
  - by vm_compute.
  - exact Hs.
  - split; [exact H1|]. apply H2. vm_compute. reflexivity.
Defined.

(** A history: Alice opens an account and receives a deposit. *)
Lemma trial_balance_witness :
  exists w', rtc (serves (s:=mem_service)) initial_world w' /\
    book_wf (mem_view w') /\ forall cur, holdings cur (mem_view w') ≡64 0.
Proof.
  set (w1 := (run_call (s:=mem_service) (CallOpenAccount (open_cmd "Alice")) initial_world).2).
  set (w2 := (run_call (s:=mem_service) (CallDeposit alice 1000 USD "opening") w1).2).
  assert (H1 : serves (s:=mem_service) initial_world w1)
    by (apply serves_run; vm_compute; reflexivity).
  assert (H2 : serves (s:=mem_service) w1 w2) by (apply serves_run; vm_compute; reflexivity).
  exists w2. pose proof (rtc_l _ _ _ _ H1 (rtc_once _ _ H2)) as H. clearbody w2. clear H1 H2.
  split; [exact H|].
  exact (trial_balance mem_service mem_view mem_inv mem_fresh initial_world w2
           (proj1 initial_inv) (fmap_empty core) H).
Defined.

Lemma RecordTransaction_refines_witness :
  pg_inv pg_world /\ pg_ready pg_world /\
  (pg_view (RecordTransaction production payment pg_world).2,
   is_Ok (RecordTransaction production payment pg_world).1) =
    ledger_record payment (pg_view pg_world) /\
  snd (ledger_record payment (pg_view pg_world)) = true.
Proof.
  split; [apply pg_world_inv|]. split; [apply pg_world_ready|].
  destruct (RecordTransaction_refines production pg_view pg_inv pg_ready pg_fresh pg_unlogged
              payment pg_world pg_world_inv pg_world_ready) as [H _].
  split; [exact H|]. rewrite <- H. vm_compute. reflexivity.
Defined.

Lemma RecordTransaction_partial_witness :
  mem_inv mem_world /\ mem_ready mem_world /\
  is_Ok (RecordTransaction mem_service unfunded mem_world).1 = false /\
  holdings USD (mem_view (RecordTransaction mem_service unfunded mem_world).2) ≡64
    holdings USD (mem_view mem_world) + 300.
Proof.
  split; [apply mem_world_inv|]. split; [apply mem_world_ready|].
  destruct (RecordTransaction_partial mem_service mem_view mem_inv mem_ready mem_fresh mem_unlogged
              alice bob 300 USD "unfunded" mem_world (asset alice "Alice" 1000)
              mem_world_inv mem_world_ready) as (H1 & _ & H2); [reflexivity|lia|..|by split];
    rewrite ?mem_world_view; reflexivity.
Defined.

Lemma OpenAccount_exact_witness :
  mem_inv mem_world /\ mem_ready mem_world /\
  exists acc w', OpenAccount mem_service (open_cmd "Carol") mem_world = (Ok acc, w').
Proof.
  split; [apply mem_world_inv|]. split; [apply mem_world_ready|].
  pose proof (OpenAccount_exact mem_service mem_view mem_inv mem_ready mem_fresh mem_unlogged
                (open_cmd "Carol") mem_world mem_world_inv mem_world_ready) as H.
  rewrite decide_True in H by (split; [done|reflexivity]).
  destruct H as (acc & w' & _ & H & _). exists acc, w'. exact H.
Defined.

Lemma initial_unnamed name : unnamed name (mem_view initial_world).
Proof. intros k c Hk. unfold mem_view in Hk. simpl in Hk. by rewrite fmap_empty in Hk. Qed.

Lemma system_account_once_witness :
  mem_inv initial_world /\ mem_ready initial_world /\
  exists acc w1 acc' w2,
    getOrCreateSystemAccount mem_service (suspenseName USD) "LIABILITY" USD initial_world = (Ok acc, w1) /\
    getOrCreateSystemAccount mem_service (suspenseName USD) "LIABILITY" USD w1 = (Ok acc', w2) /\
    core acc' = core acc.
Proof.
  split; [apply initial_inv|]. split; [apply initial_ready|].
  destruct (system_account_once mem_service mem_view mem_inv mem_ready mem_fresh mem_unlogged
              (suspenseName USD) "LIABILITY" USD initial_world (proj1 initial_inv)
              (proj1 initial_ready) (initial_unnamed _))
    as (acc & w1 & acc' & w2 & H1 & _ & _ & H2 & Hc & _); [done|reflexivity|].
  exists acc, w1, acc', w2. split_and!; [exact H1|exact H2|exact Hc].
Defined.

Lemma Deposit_exact_witness :
  mem_inv mem_world /\ mem_ready mem_world /\
  is_Ok (Deposit mem_service bob 50 USD "gift" mem_world).1 = true /\
  mem_view (Deposit mem_service bob 50 USD "gift" mem_world).2 !! AccountID_String bob =
    Some (asset bob "Bob" 50).
Proof.
  split; [apply mem_world_inv|]. split; [apply mem_world_ready|].
  destruct (Deposit_exact mem_service mem_view mem_inv mem_ready mem_fresh mem_unlogged
              bob 50 USD "gift" mem_world (AccountID_String equity)
              (MkAcct equity (equityName USD) Equity USD (usd (-1000)) Active) (asset bob "Bob" 0)
              mem_world_inv mem_world_ready) as [H1 H2];
    [rewrite mem_world_view; apply sample_sole_equity|rewrite ?mem_world_view; (reflexivity || done)..|].
  split; [exact H1|]. rewrite H2. rewrite lookup_insert_eq. reflexivity.
Defined.
