(* ===== verification/TransferTheorems.v ===== *)
(** * Theorems on transfers

    How [TransferService.Execute] ends in any world, that it is the saga of the
    abstract ledger while the storage answers, and what that saga does to the
    balances in each of its endings. *)
From S2P Require Import Prelude Go Identifiers Money Transaction Account Book Events Ports.
From S2P Require Import LedgerService LedgerSafety LedgerLive Transfer TransferService.
From S2P Require Import TransferSpec World Sample InMemory Postgres Production Scenario.
From stdpp Require Import base gmap strings list.
Local Open Scope Z_scope.

Section transfers.
Context {U : UuidLib} {W : Type} `{R : !Runtime W} `{Laws : !UuidLaws}.
Notation key := AccountID_String.
Context (s : LedgerService W) (view : W -> book) (inv ready : W -> Prop)
  (fresh : W -> UUID -> Prop) (unlogged : UUID -> W -> Prop).
Context `{Safe : !SafeService s view inv fresh} `{Live : !LiveService s view inv ready unlogged}.

(** C37: however its three transactions end, [Execute] returns one of five
    outcomes: no transfer and an error for an unsupported currency or equal
    accounts; or a transfer whose audit trail is initiated and failed,
    initiated, debited and completed (the only one without an error),
    initiated, debited, failed and compensated, or, when the compensation
    fails too, initiated, debited and failed. *)
Theorem Execute_ends cmd (w : W) : ending cmd (Execute s cmd w).1.
Proof using Type. apply Execute_endings. Qed.

(** C9: refinement: while the storage answers, and when the currency has its
    one suspense account, [Execute] on a nonzero amount of a supported
    currency between two accounts leaves the ledger and the saga state of
    [saga_spec], and returns an error unless the saga completed. *)
Theorem Execute_refines cmd w sus :
  inv w -> ready w -> sole (suspenseName (TC_Currency cmd)) (view w) (key sus) ->
  validCurrency (TC_Currency cmd) = true -> TC_Amount cmd <> 0 ->
  TC_FromAccountID cmd <> TC_ToAccountID cmd ->
  exists t e w', Execute s cmd w = ((Some t, e), w') /\
    saga_spec cmd sus (view w) = (view w', Transfer_state t) /\
    (e = None <-> Transfer_state t = Completed).
Proof using Laws Safe Live. apply Execute_live. Qed.

Section one.
Context (cmd : TransferCmd) (sus : AccountID) (w : W) (cf cs : acct).
Notation amount := (MkMoney (TC_Amount cmd) (TC_Currency cmd)).
Notation from := (TC_FromAccountID cmd).
Notation to := (TC_ToAccountID cmd).

(** A world in which the saga of [cmd] can run, with its source and its
    suspense account. *)
Record stage : Prop := {
  stage_inv : inv w;
  stage_ready : ready w;
  stage_currency : validCurrency (TC_Currency cmd) = true;
  stage_sole : sole (suspenseName (TC_Currency cmd)) (view w) (key sus);
  stage_parties : parties cmd sus (view w) cf cs;
}.

Lemma stage_run v' st :
  stage -> saga_spec cmd sus (view w) = (v', st) ->
  exists t e w', Execute s cmd w = ((Some t, e), w') /\ view w' = v' /\
    Transfer_state t = st /\ (e = None <-> st = Completed).
Proof using Laws Safe Live.
  intros [Hi Hr Hc Hs P] Hspec.
  destruct (Execute_live cmd w sus Hi Hr Hs Hc (parties_amount _ _ _ _ _ P)
              (parties_from_to _ _ _ _ _ P)) as (t & e & w' & He & Hw & Hn).
  rewrite Hspec in Hw. injection Hw as -> ->. exists t, e, w'. by split_and!.
Qed.

(** C33: a transfer that the source can pay, to an active account of the
    currency, completes: the source is debited, the destination credited,
    and every other account, the suspense account included, is as
    before. *)
Theorem transfer_completes cf' ct :
  stage -> post Debit amount cf = Ok cf' -> view w !! key to = Some ct ->
  ac_status ct = Active -> ac_currency ct = TC_Currency cmd ->
  exists t w', Execute s cmd w = ((Some t, None), w') /\ Transfer_state t = Completed /\
    view w' = <[key to := post_balance Credit amount ct]> (<[key from := cf']> (view w)).
Proof using Laws Safe Live.
  intros S Hd Ht Hst Hct.
  pose proof (saga_completed cmd sus (view w) cf cs cf' ct (stage_parties S) Hd Ht Hst Hct) as H.
  destruct (stage_run _ _ S H) as (t & e & w' & He & Hv & Hs & Hn).
  exists t, w'. by rewrite (proj2 Hn eq_refl) in He.
Qed.

(** A transfer that the source cannot pay (insufficient funds, or the
    account is suspended, closed or of another currency) fails with an
    error and posts nothing. *)
Theorem transfer_refused e0 :
  stage -> post Debit amount cf = Err e0 ->
  exists t e w', Execute s cmd w = ((Some t, Some e), w') /\ Transfer_state t = Failed /\
    view w' = view w.
Proof using Laws Safe Live.
  intros S Hd. pose proof (parties_from _ _ _ _ _ (stage_parties S)) as Hf.
  pose proof (saga_refused cmd sus (view w) cf
                (or_intror (conj Hf (ex_intro _ e0 Hd)))) as H.
  destruct (stage_run _ _ S H) as (t & e & w' & He & Hv & Hs & Hn).
  destruct e as [e|]; [|by destruct Hn as [Hn _]; specialize (Hn eq_refl)]. eauto 10.
Qed.

(** C34: a transfer whose destination refuses the credit, or does not
    exist, is compensated at a loss: the source is restored, but the
    suspense account has been debited by both the failed step and the
    compensation, so that the balances of the currency add up to less than
    before by the amount. *)
Theorem transfer_compensation_loses cf' :
  stage -> post Debit amount cf = Ok cf' -> ac_currency cf = TC_Currency cmd ->
  view w !! key to = None \/
    (exists ct e, view w !! key to = Some ct /\ post Credit amount ct = Err e) ->
  exists t e w', Execute s cmd w = ((Some t, Some e), w') /\ Transfer_state t = Compensated /\
    view w' = <[key sus := post_balance Debit amount cs]> (view w) /\
    holdings (TC_Currency cmd) (view w') ≡64 holdings (TC_Currency cmd) (view w) - TC_Amount cmd.
Proof using Laws Safe Live.
  intros S Hd Hcf Hto. pose proof (stage_parties S) as P.
  pose proof (saga_compensated cmd sus (view w) cf cs cf' P Hd Hcf Hto) as H.
  destruct (stage_run _ _ S H) as (t & e & w' & He & Hv & Hs & Hn).
  destruct e as [e|]; [|by destruct Hn as [Hn _]; specialize (Hn eq_refl)].
  exists t, e, w'. split_and!; try done. rewrite Hv. by apply saga_compensated_holdings with cf.
Qed.

(** Nothing refuses a negative amount: such a transfer completes and
    moves money the other way, out of the destination, with no regard for
    the destination's funds. *)
Theorem transfer_negative_takes ct :
  stage -> TC_Amount cmd < 0 -> ac_status cf = Active -> ac_currency cf = TC_Currency cmd ->
  0 <= ac_amount cf <= max_int64 + TC_Amount cmd ->
  view w !! key to = Some ct -> ac_status ct = Active -> ac_currency ct = TC_Currency cmd ->
  min_int64 - TC_Amount cmd <= ac_amount ct <= max_int64 ->
  exists t w' c1 c2, Execute s cmd w = ((Some t, None), w') /\ Transfer_state t = Completed /\
    view w' !! key from = Some c1 /\ ac_amount c1 = ac_amount cf - TC_Amount cmd /\
    view w' !! key to = Some c2 /\ ac_amount c2 = ac_amount ct + TC_Amount cmd.
Proof using Laws Safe Live.
  intros S Ha Hst Hcur Hr Ht Htst Htc Htr. pose proof (stage_parties S) as P.
  assert (Hw : wrap64 (ac_amount cf - TC_Amount cmd) = ac_amount cf - TC_Amount cmd).
  { apply wrap64_id. unfold in_int64, min_int64, max_int64 in *. lia. }
  assert (Hd : post Debit amount cf = Ok (post_balance Debit amount cf)).
  { apply post_Ok. split_and!; try done; [apply P|]. intros _. left. simpl. rewrite Hw. lia. }
  pose proof (saga_completed cmd sus (view w) cf cs _ ct P Hd Ht Htst Htc) as H.
  destruct (stage_run _ _ S H) as (t & e & w' & He & Hv & Hs & Hn).
  rewrite (proj2 Hn eq_refl) in He.
  assert (Hne : key to <> key from) by (intros E%(inj key); by apply (parties_from_to _ _ _ _ _ P)).
  exists t, w', (post_balance Debit amount cf), (post_balance Credit amount ct). rewrite Hv.
  rewrite lookup_insert_ne, !lookup_insert_eq by done. split_and!; try done.
  rewrite post_balance_amount, signed_Credit. apply wrap64_id. simpl.
  unfold in_int64, min_int64, max_int64 in *. lia.
Qed.
End one.
End transfers.

(** ** The properties on concrete runs *)

Definition transfer_cmd (to : AccountID) (amt : Z) : TransferCmd :=
  MkTransferCmd alice to amt USD "rent".
Definition suspense_acct : acct :=
  MkAcct suspense (suspenseName USD) Liability USD (usd 0) Active.
Definition alice_acct : acct := asset alice "Alice" 1000.
Definition bob_acct : acct := asset bob "Bob" 0.

Lemma pg_stage to amt :
  to <> alice -> to <> suspense -> amt <> 0 ->
  stage pg_view pg_inv pg_ready (transfer_cmd to amt) suspense pg_world alice_acct suspense_acct.
Proof.
  intros H1 H2 Ha. split.
  - apply pg_world_inv.
  - apply pg_world_ready.
  - reflexivity.
  - rewrite pg_world_view. apply sample_sole_suspense.
  - rewrite pg_world_view. split; try done; try reflexivity.
    rewrite <- pg_world_view. eapply (safe_inv_wf (r:=pg_AccountRepository)), pg_world_inv.
Qed.

Lemma Execute_refines_witness :
  pg_inv pg_world /\ pg_ready pg_world /\
  exists t e w', Execute production (transfer_cmd bob 300) pg_world = ((Some t, e), w') /\
    saga_spec (transfer_cmd bob 300) suspense (pg_view pg_world) = (pg_view w', Transfer_state t).
Proof.
  split; [apply pg_world_inv|]. split; [apply pg_world_ready|].
  destruct (Execute_refines production pg_view pg_inv pg_ready pg_fresh pg_unlogged
              (transfer_cmd bob 300) pg_world suspense pg_world_inv pg_world_ready)
    as (t & e & w' & H1 & H2 & _); [|done..|].
  - rewrite pg_world_view. apply sample_sole_suspense.
  - exists t, e, w'. split; [exact H1|exact H2].
Defined.

Lemma transfer_completes_witness :
  exists t w', Execute production (transfer_cmd bob 300) pg_world = ((Some t, None), w') /\
    pg_view w' !! AccountID_String bob = Some (asset bob "Bob" 300).
Proof.
  destruct (transfer_completes production pg_view pg_inv pg_ready pg_fresh pg_unlogged
              (transfer_cmd bob 300) suspense pg_world alice_acct suspense_acct
              (asset alice "Alice" 700) bob_acct) as (t & w' & H1 & _ & H2).
  - by apply pg_stage.
  - reflexivity.
  - rewrite pg_world_view. reflexivity.
  - reflexivity.
  - reflexivity.
  - exists t, w'. split; [exact H1|]. rewrite H2. apply lookup_insert_eq.
Defined.

Lemma transfer_refused_witness :
  exists t e w', Execute production (transfer_cmd bob 3000) pg_world = ((Some t, Some e), w') /\
    Transfer_state t = Failed /\ pg_view w' = pg_view pg_world.
Proof.
  exact (transfer_refused production pg_view pg_inv pg_ready pg_fresh pg_unlogged
           (transfer_cmd bob 3000) suspense pg_world alice_acct suspense_acct ErrInsufficientFunds
           (pg_stage bob 3000 ltac:(done) ltac:(done) ltac:(done)) eq_refl).
Defined.

Lemma transfer_compensation_loses_witness :
  exists t e w', Execute production (transfer_cmd nobody 300) pg_world = ((Some t, Some e), w') /\
    Transfer_state t = Compensated /\
    holdings USD (pg_view w') ≡64 holdings USD (pg_view pg_world) - 300.
Proof.
  destruct (transfer_compensation_loses production pg_view pg_inv pg_ready pg_fresh pg_unlogged
              (transfer_cmd nobody 300) suspense pg_world alice_acct suspense_acct
              (asset alice "Alice" 700)) as (t & e & w' & H1 & H2 & _ & H3).
  - by apply pg_stage.
  - reflexivity.
  - reflexivity.
  - left. rewrite pg_world_view. reflexivity.
  - exists t, e, w'. split; [exact H1|]. split; [exact H2|exact H3].
Defined.

(** Bob has nothing, and ends with less. *)
Lemma transfer_negative_takes_witness :
  exists t w' c, Execute production (transfer_cmd bob (-300)) pg_world = ((Some t, None), w') /\
    pg_view w' !! AccountID_String bob = Some c /\ ac_amount c = -300.
Proof.
  destruct (transfer_negative_takes production pg_view pg_inv pg_ready pg_fresh pg_unlogged
              (transfer_cmd bob (-300)) suspense pg_world alice_acct suspense_acct bob_acct)
    as (t & w' & c1 & c2 & H1 & _ & _ & _ & H2 & H3).
  - by apply pg_stage.
  - done.
  - reflexivity.
  - reflexivity.
  - by vm_compute.
  - rewrite pg_world_view. reflexivity.
  - reflexivity.
  - reflexivity.
  - by vm_compute.
  - exists t, w', c2. split; [exact H1|]. split; [exact H2|exact H3].
Defined.
