(* ===== verification/ConcurrencyTheorems.v ===== *)
(** * Theorems on concurrent transactions

    The posting loops of concurrent requests, interleaved between their
    accesses to the repository: on disjoint accounts they are serializable; on
    a common account a posting can be lost. *)
From S2P Require Import Prelude Go Identifiers Money Transaction Account Book Events Ports.
From S2P Require Import LedgerService LedgerSafety LedgerLive Concurrency.
From S2P Require Import World Sample InMemory Postgres Production Scenario.
From stdpp Require Import base gmap strings list.
Local Open Scope list_scope.
Local Open Scope Z_scope.

(** ** Loops on disjoint accounts *)
Section disjoint.
Context {U : UuidLib} {W : Type} `{R : !Runtime W}.
Context (s : LedgerService W) (view : W -> book) (inv : W -> Prop) (fresh : W -> UUID -> Prop).
Context `{Safe : !SafeService s view inv fresh}.

Lemma all_track_run ess c c' :
  disjoint_loops ess -> rtc (post_interleave s) c c' ->
  all_track (view:=view) (inv:=inv) (view c.2) ess c ->
  all_track (view:=view) (inv:=inv) (view c.2) ess c'.
Proof using Safe.
  intros Hd Hr. generalize (view c.2). intros v0.
  induction Hr as [|c1 c2 c3 Hs _ IH]; [done|]. intros Ht. apply IH. by eapply all_track_step.
Qed.

Lemma params_concat (ess : list (list Entry)) :
  Entry_params <$> concat ess = concat ((fun es : list Entry => Entry_params <$> es) <$> ess).
Proof. induction ess as [|es ess IH]; csimpl; [done|]. by rewrite fmap_app, IH. Qed.

(** C19: serializability: when the posting loops of any number of concurrent
    transactions that name disjoint accounts have all succeeded, in whatever
    order their reads and writes were interleaved, the ledger is the one in
    which the transactions were posted one after the other. *)
Theorem disjoint_transactions_serialize ess w l w' :
  inv w -> disjoint_loops ess ->
  rtc (post_interleave s) (Loop <$> ess, w) (l, w') ->
  (forall p, p ∈ l -> p = Posted (Ok tt)) ->
  book_posts (Entry_params <$> concat ess) (view w) = (view w', true).
Proof using Safe.
  intros Hi Hd Hr Hend.
  destruct (all_track_run ess _ _ Hd Hr (all_track_start ess w Hi)) as (_ & Hlen & Ht & Hout).
  cbn [fst snd] in *.
  assert (Hes : forall es, es ∈ ess -> reached (view w) (view w') es es).
  { intros es [i He]%list_elem_of_lookup.
    destruct (lookup_lt_is_Some_2 l i) as [p Hp]; [rewrite Hlen; by eapply lookup_lt_Some|].
    pose proof (Ht i es p He Hp) as H. by rewrite (Hend p) in H by by eapply list_elem_of_lookup_2. }
  rewrite params_concat.
  destruct (book_posts_concat ((fun es : list Entry => Entry_params <$> es) <$> ess) (view w) (view w))
    as (b & -> & Hin & Hno); [exact Hd| |done|].
  { intros ps (es & -> & He)%list_elem_of_fmap. apply Hes, He. }
  f_equal. apply map_eq. intros k.
  destruct (decide (Exists (fun es : list Entry =>
              Exists (names k) (Entry_params <$> es)) ess)) as [Hk|Hk].
  - apply Exists_exists in Hk as (es & He & (p & Hp & Hn)%Exists_exists).
    assert (Hname : entries_name es k) by by exists p.
    rewrite (Hin (Entry_params <$> es) k) by (done || by apply (list_elem_of_fmap_2 _ ess es)).
    symmetry. by apply Hes.
  - assert (Hnone : forall es, es ∈ ess -> ~ entries_name es k).
    { intros es He (p & Hp & Hn). apply Hk, Exists_exists. exists es. split; [done|].
      apply Exists_exists. by exists p. }
    rewrite Hno; [symmetry; by apply Hout|].
    intros ps (es & -> & He)%list_elem_of_fmap. by apply Hnone.
Qed.
End disjoint.

(** ** Loops on a common account *)
Section common.
Context {U : UuidLib} {W : Type} `{R : !Runtime W}.
Context (s : LedgerService W) (view : W -> book) (inv ready : W -> Prop)
  (fresh : W -> UUID -> Prop) (unlogged : UUID -> W -> Prop).
Context `{Safe : !SafeService s view inv fresh} `{Live : !LiveService s view inv ready unlogged}.

Lemma load_live e es w c c' :
  inv w -> ready w -> view w !! AccountID_String (Entry_accountID e) = Some c ->
  post_entry (Entry_params e) c = Ok c' ->
  exists acc w1, post_step s (Loop (e :: es)) w = (Loaded acc e es, w1) /\ core acc = c' /\
    view w1 = view w /\ inv w1 /\ ready w1.
Proof using Safe Live.
  intros Hi Hr Hc Hp. rewrite post_step_load.
  assert (Hk : Keeps ready (load_entry s e)) by (unfold load_entry, entryOp; apply _).
  specialize (Hk w Hr). destruct (load_entry s e w) as [r w1] eqn:Hl.
  destruct (load_entry_safe _ _ _ _ Hi Hl) as (Hi1 & Hv & Hok).
  assert (exists acc, r = Ok acc) as [acc ->].
  { destruct (live_find _ _ _ Hr Hi Hc) as (a & w2 & Hf). unfold load_entry in Hl.
    rewrite (bind_run _ _ _ _ _ (wrapErr_run _ _ _ _ _ Hf)) in Hl.
    pose proof (safe_find_Ok _ _ _ _ Hf) as Ha. rewrite Hc in Ha. injection Ha as Ha.
    pose proof (entryOp_refines a e w2) as Href. rewrite <- Ha, Hp in Href.
    specialize (Href (proj2 (safe_inv_wf _ Hi _ _ Hc))). unfold wrapErr in Hl.
    destruct (entryOp a e w2) as [[a'|er] w3]; [|done]. injection Hl as <- _. eauto. }
  destruct (Hok acc eq_refl) as (c0 & Hc0 & Hp0). rewrite Hc in Hc0. injection Hc0 as <-.
  rewrite Hp in Hp0. injection Hp0 as Hp0. exists acc, w1. by split_and!.
Qed.

Lemma save_live acc e es w c :
  inv w -> ready w -> view w !! AccountID_String (Entry_accountID e) = Some c ->
  ac_id (core acc) = ac_id c -> same_identity c (core acc) -> acct_wf (core acc) ->
  exists w1, post_step s (Loaded acc e es) w = (Loop es, w1) /\
    view w1 = <[AccountID_String (Entry_accountID e) := core acc]> (view w) /\ inv w1 /\ ready w1.
Proof using Safe Live.
  intros Hi Hr Hc Hid Hsame Hwf. rewrite post_step_save.
  assert (Hkey : AccountID_String (Account_id acc) = AccountID_String (Entry_accountID e)).
  { destruct (safe_inv_wf _ Hi _ _ Hc) as [Hk _]. rewrite Hk. f_equal. exact Hid. }
  assert (Hk : Keeps ready (save_entry s acc e)) by (unfold save_entry; apply _).
  specialize (Hk w Hr). unfold save_entry in *.
  destruct (live_save acc w Hr) as [w1 Hs]. rewrite (wrapErr_run _ _ _ _ _ Hs) in Hk |- *.
  destruct (safe_save_old acc w c Hi Hwf) as (Hi1 & Hok & _); [by rewrite Hkey|done|].
  rewrite Hs, Hkey in *. exists w1. split_and!; [done|by apply Hok|done|done].
Qed.

(** A loop runs through a prefix that the ledger accepts. *)
Lemma prefix_runs pre rest w v1 :
  inv w -> ready w -> book_posts (Entry_params <$> pre) (view w) = (v1, true) ->
  exists n w1, post_steps s n (Loop (pre ++ rest)) w = (Loop rest, w1) /\
    view w1 = v1 /\ inv w1 /\ ready w1.
Proof using Safe Live.
  revert w. induction pre as [|e pre IH]; intros w Hi Hr; csimpl.
  { intros [= <-]. by exists 0%nat, w. }
  destruct (book_post (Entry_params e) (view w)) as [v|] eqn:E; [|done]. intros H.
  apply book_post_Some in E as (c & c' & Hc & -> & Hp). simpl in Hc.
  destruct (load_live e (pre ++ rest) w c c' Hi Hr Hc Hp) as (acc & w1 & H1 & <- & Hv1 & Hi1 & Hr1).
  destruct (post_entry_static _ _ _ Hp) as (Hid & Hsame & _).
  destruct (save_live acc e (pre ++ rest) w1 c Hi1 Hr1) as (w2 & H2 & Hv2 & Hi2 & Hr2);
    [by rewrite Hv1|done|done|eapply post_entry_wf; [apply (safe_inv_wf _ Hi _ _ Hc)|done]|].
  rewrite Hv1 in Hv2. destruct (IH w2 Hi2 Hr2) as (n & w3 & H3 & Hrest); [by rewrite Hv2|].
  exists (S (S n)), w3. split; [|done].
  cbn [app]. rewrite post_steps_S, H1, post_steps_S. cbn [fst snd]. by rewrite H2.
Qed.

Lemma first_runs n p q w p' w' :
  post_steps s n p w = (p', w') -> rtc (post_interleave s) ([p; q], w) ([p'; q], w').
Proof.
  revert p w. induction n as [|n IH]; intros p w; [intros [= <- <-]; apply rtc_refl|].
  rewrite post_steps_S. intros H. eapply rtc_l; [|exact (IH _ _ H)].
  by apply (post_one s [p; q] w 0).
Qed.

Lemma second_runs n p q w q' w' :
  post_steps s n q w = (q', w') -> rtc (post_interleave s) ([p; q], w) ([p; q'], w').
Proof.
  revert q w. induction n as [|n IH]; intros q w; [intros [= <- <-]; apply rtc_refl|].
  rewrite post_steps_S. intros H. eapply rtc_l; [|exact (IH _ _ H)].
  by apply (post_one s [p; q] w 1).
Qed.

Lemma valid_posted cur ps : params_valid ps -> sumZ (posted cur) ps ≡64 0.
Proof.
  intros (_ & _ & [c Hc] & Hb). rewrite (posted_sum cur c ps Hc). case_bool_decide; [|done].
  by rewrite params_signed_sum, Hb, Z.sub_diag.
Qed.

(** Two valid lists of postings, without the last one of the first. *)
Lemma lost_holdings cur pre1 e1 pre2 e2 (v v' : book) :
  book_wf v -> params_valid (Entry_params <$> pre1 ++ [e1]) ->
  params_valid (Entry_params <$> pre2 ++ [e2]) ->
  book_posts (Entry_params <$> (pre1 ++ pre2) ++ [e2]) v = (v', true) ->
  holdings cur v' ≡64 holdings cur v - posted cur (Entry_params e1).
Proof.
  intros Hwf Hval1 Hval2 Hposts. rewrite (book_posts_holdings cur _ _ _ Hwf Hposts).
  pose proof (valid_posted cur _ Hval1) as S1. pose proof (valid_posted cur _ Hval2) as S2.
  rewrite !fmap_app, !sumZ_app in *. csimpl in *. simpl in S1, S2.
  set (x1 := sumZ (posted cur) (Entry_params <$> pre1)) in *.
  set (x2 := sumZ (posted cur) (Entry_params <$> pre2)) in *.
  set (y1 := posted cur (Entry_params e1)) in *. set (y2 := posted cur (Entry_params e2)) in *.
  transitivity (holdings cur v + (x1 + (y1 + 0)) + (x2 + (y2 + 0)) - y1);
    [apply eqm64_eq; simpl; lia|].
  rewrite S1, S2. apply eqm64_eq. lia.
Qed.

(** Lost update: two valid transactions whose last entries name the same
    account, and which succeed one after the other, can both succeed when run
    at the same time and yet leave only the second one's posting on that
    account: the money of the first one's is gone. *)
Theorem concurrent_posting_lost pre1 e1 pre2 e2 w v2 c c1 c2 :
  let k := AccountID_String (Entry_accountID e1) in
  inv w -> ready w -> Entry_accountID e2 = Entry_accountID e1 ->
  params_valid (Entry_params <$> pre1 ++ [e1]) -> params_valid (Entry_params <$> pre2 ++ [e2]) ->
  book_posts (Entry_params <$> pre1 ++ pre2) (view w) = (v2, true) ->
  v2 !! k = Some c -> post_entry (Entry_params e1) c = Ok c1 -> post_entry (Entry_params e2) c = Ok c2 ->
  exists w',
    rtc (post_interleave s) ([Loop (pre1 ++ [e1]); Loop (pre2 ++ [e2])], w)
      ([Posted (Ok tt); Posted (Ok tt)], w') /\
    view w' = <[k := c2]> v2 /\
    forall cur, holdings cur (view w') ≡64 holdings cur (view w) - posted cur (Entry_params e1).
Proof using Safe Live.
  intros k Hi Hr Hid Hval1 Hval2 Hpre Hc Hp1 Hp2.
  pose proof Hpre as Hsum. rewrite fmap_app, book_posts_app in Hpre.
  destruct (book_posts (Entry_params <$> pre1) (view w)) as [v1 []] eqn:E1; [|done]. cbn [fst snd] in Hpre.
  destruct (prefix_runs pre1 [e1] w v1 Hi Hr E1) as (n1 & wa & Ra & Hva & Hia & Hra).
  destruct (prefix_runs pre2 [e2] wa v2 Hia Hra) as (n2 & wb & Rb & Hvb & Hib & Hrb); [by rewrite Hva|].
  destruct (load_live e1 [] wb c c1 Hib Hrb) as (a1 & wc & Rc & <- & Hvc & Hic & Hrc);
    [by rewrite Hvb|done|].
  destruct (load_live e2 [] wc c c2 Hic Hrc) as (a2 & wd & Rd & <- & Hvd & Hid' & Hrd);
    [by rewrite Hvc, Hvb, Hid|done|].
  rewrite Hvc, Hvb in Hvd.
  assert (Hwf : acct_wf c) by (apply (safe_inv_wf _ Hid' k); by rewrite Hvd).
  destruct (post_entry_static _ _ _ Hp1) as (Hs1 & Hs2 & _).
  destruct (post_entry_static _ _ _ Hp2) as (Ht1 & Ht2 & _).
  destruct (save_live a1 e1 [] wd c Hid' Hrd) as (we & Re & Hve & Hie & Hre);
    [by rewrite Hvd|done|done|by eapply post_entry_wf|].
  assert (Hk : AccountID_String (Entry_accountID e2) = k) by (unfold k; by rewrite Hid).
  destruct (save_live a2 e2 [] we (core a1) Hie Hre) as (wf & Rf & Hvf & Hif & Hrf).
  { rewrite Hve, Hk. apply lookup_insert_eq. }
  { congruence. }
  { destruct Hs2 as (? & ? & ?), Ht2 as (? & ? & ?). split_and!; congruence. }
  { by eapply post_entry_wf. }
  assert (Hfinal : view wf = <[k := core a2]> v2).
  { rewrite Hvf, Hve, Hvd, Hk. apply insert_insert_eq. }
  exists wf. split_and!; [|exact Hfinal|].
  - assert (One : forall p w0 q w1, post_step s p w0 = (q, w1) -> post_steps s 1 p w0 = (q, w1))
      by (intros p w0 q w1 H; by rewrite post_steps_S, H).
    etrans; [exact (first_runs _ _ _ _ _ _ Ra)|].
    etrans; [exact (second_runs _ _ _ _ _ _ Rb)|].
    etrans; [exact (first_runs _ _ _ _ _ _ (One _ _ _ _ Rc))|].
    etrans; [exact (second_runs _ _ _ _ _ _ (One _ _ _ _ Rd))|].
    etrans; [exact (first_runs _ _ _ _ _ _ (One _ _ _ _ Re))|].
    etrans; [exact (second_runs _ _ _ _ _ _ (One _ _ _ _ Rf))|].
    etrans; [exact (first_runs 1 (Loop []) _ wf (Posted (Ok tt)) wf eq_refl)|].
    exact (second_runs 1 _ (Loop []) wf (Posted (Ok tt)) wf eq_refl).
  - intros cur. eapply (lost_holdings cur pre1 e1 pre2 e2); try done; [by apply safe_inv_wf|].
    rewrite fmap_app, book_posts_app, Hsum. csimpl. unfold book_post. simpl.
    rewrite Hk, Hc, Hp2. by rewrite Hfinal.
Qed.
End common.

(** ** Witnesses, on Postgres *)

Definition posting_entry (id : AccountID) (amt : Z) (ty : EntryType) : Entry :=
  MkEntry (MkEntryID 0%N) id (usd amt) ty 0.

Definition two_payments : list (list Entry) :=
  [[posting_entry alice 300 Debit; posting_entry bob 300 Credit];
   [posting_entry equity 50 Debit; posting_entry suspense 50 Credit]].

Lemma two_payments_disjoint : disjoint_loops two_payments.
Proof.
  intros i j l l' k Hi Hj (p & Hp & Hk) (q & Hq & Hk'). unfold names in Hk, Hk'.
  destruct i as [|[|i]], j as [|[|j]]; try done; exfalso; injection Hi as <-; injection Hj as <-;
    repeat (apply elem_of_cons in Hp as [->|Hp] || apply elem_of_cons in Hq as [->|Hq]);
    try (by apply elem_of_nil in Hp); try (by apply elem_of_nil in Hq);
    rewrite <- Hk in Hk'; vm_compute in Hk'; discriminate Hk'.
Qed.

(** Reads and writes of the two loops in turn. *)
Definition in_turn : list nat := [0; 1; 0; 1; 0; 1; 0; 1; 0; 1]%nat.

Lemma disjoint_transactions_serialize_witness :
  let c := schedule production in_turn (Loop <$> two_payments, pg_world) in
  forallb (fun p => match p with Posted (Ok _) => true | _ => false end) c.1 = true /\
  book_posts (Entry_params <$> concat two_payments) (pg_view pg_world) = (pg_view c.2, true).
Proof.
  intros c. assert (Hall : forallb (fun p => match p with Posted (Ok _) => true | _ => false end) c.1 = true)
    by (vm_compute; reflexivity).
  split; [exact Hall|].
  apply (disjoint_transactions_serialize production pg_view pg_inv pg_fresh two_payments pg_world c.1 c.2).
  - apply pg_world_inv.
  - apply two_payments_disjoint.
  - rewrite <- surjective_pairing. apply schedule_runs.
  - intros p Hp. rewrite forallb_forall in Hall. apply list_elem_of_In in Hp. specialize (Hall p Hp).
    by destruct p as [| |[[]|]].
Defined.

Lemma concurrent_posting_lost_witness :
  exists w',
    rtc (post_interleave production)
      ([Loop ([posting_entry alice 300 Debit] ++ [posting_entry bob 300 Credit]);
        Loop ([posting_entry equity 50 Debit] ++ [posting_entry bob 50 Credit])], pg_world)
      ([Posted (Ok tt); Posted (Ok tt)], w') /\
    (exists v2, pg_view w' = <[AccountID_String bob := asset bob "Bob" 50]> v2) /\
    forall cur, holdings cur (pg_view w') ≡64
      holdings cur (pg_view pg_world) - posted cur (Entry_params (posting_entry bob 300 Credit)).
Proof.
  set (v2 := (book_posts (Entry_params <$> [posting_entry alice 300 Debit; posting_entry equity 50 Debit])
                (pg_view pg_world)).1).
  assert (Hvalid : forall a amt, a = alice \/ a = equity -> amt = 300 \/ amt = 50 ->
    params_valid (Entry_params <$> [posting_entry a amt Debit] ++ [posting_entry bob amt Credit])).
  { intros a amt Ha Hamt. split_and!.
    - simpl. lia.
    - destruct Hamt as [-> | ->]; by repeat constructor.
    - exists USD. by repeat constructor.
    - destruct Hamt as [-> | ->]; reflexivity. }
  destruct (concurrent_posting_lost production pg_view pg_inv pg_ready pg_fresh pg_unlogged
    [posting_entry alice 300 Debit] (posting_entry bob 300 Credit)
    [posting_entry equity 50 Debit] (posting_entry bob 50 Credit) pg_world v2
    (asset bob "Bob" 0) (asset bob "Bob" 300) (asset bob "Bob" 50)) as (w' & Hr & Hv & Hh).
  - apply pg_world_inv.
  - apply pg_world_ready.
  - reflexivity.
  - apply Hvalid; by left.
  - apply Hvalid; by right.
  - unfold v2. rewrite pg_world_view. vm_compute. reflexivity.
  - unfold v2. rewrite pg_world_view. vm_compute. reflexivity.
  - reflexivity.
  - reflexivity.
  - exists w'. split; [exact Hr|]. split; [by exists v2|exact Hh].
Defined.
