(* ===== verification/Reachable.v ===== *)
(** * Invariants of the running program

    [app_step] is one call of the ledger service or one transfer on the
    production wiring, whatever it returns. A property of the world that each
    primitive operation keeps is kept by every step. *)
From S2P Require Import Prelude Go Identifiers Money Transaction Account Book Events Ports.
From S2P Require Import World LedgerService LedgerSafety Transfer TransferService InMemory.
From S2P Require Import Postgres Projection Production.
From stdpp Require Import base gmap strings list.
Local Open Scope Z_scope.

Section reachable.
Context {U : UuidLib} {O : Oracle}.

(** The database answers every statement from now on, and refuses none. *)
Definition database_up (w : World) : Prop := forall n, (w_stmt w <= n)%nat -> db_fault n = Up.

Lemma database_up_later w w' : (w_stmt w <= w_stmt w')%nat -> database_up w -> database_up w'.
Proof. intros H Hup n Hn. apply Hup. lia. Qed.

(** [P] is kept by every operation that the services call. *)
Class AppInvariant (P : World -> Prop) : Prop := {
  app_now :: Keeps P time_Now;
  app_uuid :: Keeps P uuid_NewV7;
  app_tx tx :: Keeps P (mem_tx_Save tx);
  app_find id :: Keeps P (pg_FindByID id);
  app_all :: Keeps P pg_FindAll;
  app_save a :: Keeps P (pg_Save a);
  app_append agg ty n es :: Keeps P (AppendWithOutbox agg ty n es);
  app_opened e :: Keeps P (ProjectAccountOpened e);
  app_recorded e :: Keeps P (ProjectTransactionRecorded e);
}.

Section invariant.
Context {P : World -> Prop} `{AI : !AppInvariant P}.

#[global] Instance newEntries_app ps now : Keeps P (newEntries ps now).
Proof using AI. induction ps; simpl; unfold newEntry, GenerateEntryID; apply _. Qed.
#[global] Instance NewTransaction_app ps d : Keeps P (NewTransaction ps d).
Proof using AI.
  unfold NewTransaction, construct, GenerateTransactionID.
  destruct ps as [|p [|q ps]]; try apply _. destruct (totals _ _ _). apply _.
Qed.
#[global] Instance applyEntry_app e : Keeps P (applyEntry production e).
Proof using AI. unfold applyEntry, entryOp. simpl. apply _. Qed.
#[global] Instance RecordTransaction_app cmd : Keeps P (RecordTransaction production cmd).
Proof using AI.
  unfold RecordTransaction, appendEvent, appendStored, projectTransactionRecorded. simpl. apply _.
Qed.
#[global] Instance OpenAccount_app cmd : Keeps P (OpenAccount production cmd).
Proof using AI.
  unfold OpenAccount, NewAccountWithType, GenerateAccountID, appendEvent, appendStored,
    projectAccountOpened. simpl. apply _.
Qed.
#[global] Instance getOrCreateSystemAccount_app name ty cur :
  Keeps P (getOrCreateSystemAccount production name ty cur).
Proof using AI.
  unfold getOrCreateSystemAccount. simpl. apply keeps_bind; [apply _|]. intros l. case_match; apply _.
Qed.
#[global] Instance Deposit_app id amt cur d : Keeps P (Deposit production id amt cur d).
Proof using AI. unfold Deposit, getOrCreateSystemEquity. apply _. Qed.
#[global] Instance suspenseAccountID_app cur : Keeps P (suspenseAccountID production cur).
Proof using AI. unfold suspenseAccountID. apply _. Qed.

#[global] Instance Execute_app cmd : Keeps P (Execute production cmd).
Proof using AI.
  unfold Execute, debitSource, creditDestination, compensate, NewTransfer, MarkDebited,
    MarkCompleted, MarkFailed, MarkCompensated, addStep.
  destruct (NewMoney _ _); [|apply _].
  repeat match goal with
  | |- Keeps _ (bindS _ _) => apply keeps_bindS; [|intros ?]
  | |- Keeps _ (let '(_, _) := ?p in _) => destruct p
  | |- Keeps _ (match ?r with _ => _ end) => destruct r
  | |- _ => apply _
  end.
Qed.
End invariant.

(** What the program does between two observations: a call of the ledger
    service or a transfer, whatever it returns. *)
Inductive app_step : World -> World -> Prop :=
| step_call c w : app_step w (run_call (s:=production) c w).2
| step_transfer cmd w : app_step w (Execute production cmd w).2.

Lemma app_step_inv (P : World -> Prop) `{!AppInvariant P} w w' : app_step w w' -> P w -> P w'.
Proof.
  intros [c w1|cmd w1] Hw; [|by apply (keeps (P:=P))].
  revert w1 Hw. change (Keeps P (run_call (s:=production) c)).
  destruct c; simpl; unfold GetBalance; simpl; apply _.
Qed.

End reachable.
