(* ===== verification/Accesses.v ===== *)
(** * Requests that run concurrently: one access at a time

    net/http serves each request in a goroutine of its own, and the services
    hold no lock: between two accesses of a request to the shared state (the
    clock, the UUID generator, the repositories, the outbox, the projector)
    any other request may run. [access] lists these accesses, as the production
    wiring of cmd/api/main.go offers them, and [perform] does one of them.

    Where a request stands is the list of the replies it has had: the code of
    [LedgerService] and [TransferService], which is polymorphic in the world,
    is run on [transcript], a world that answers from that list and stops at
    the first access without a reply. So the goroutines below run the
    definitions of LedgerService.v and TransferService.v themselves. *)
From S2P Require Import Prelude Go Identifiers Money Transaction Account Book Events Ports.
From S2P Require Import World LedgerService LedgerSafety Transfer TransferService InMemory.
From S2P Require Import Postgres Projection Production Reachable.
From stdpp Require Import base gmap strings list.
Local Open Scope Z_scope.

Section accesses.
Context {U : UuidLib} {O : Oracle}.

(** ** Accesses and replies *)

Inductive access :=
| ReadClock
| DrawUuid
| SaveTransaction (tx : Transaction)
| FindAccount (id : AccountID)
| FindAccounts
| SaveAccount (acc : Account)
| AppendEvents (aggregateID aggregateType : string) (expectedVersion : Z) (events : list StoredEvent)
| ProjectOpened (event : AccountOpenedEvent)
| ProjectRecorded (event : TransactionRecordedEvent).

Inductive reply :=
| Instant (t : time)
| Uuid (u : UUID)
| Done (r : res unit)
| OneAccount (r : res Account)
| Accounts (r : res (list Account)).

Definition replied {A} (f : A -> reply) (m : St World A) : St World reply :=
  let@ a := m in retS (f a).

(** One access, on the production wiring. *)
Definition perform (x : access) : St World reply :=
  match x with
  | ReadClock => replied Instant time_Now
  | DrawUuid => replied Uuid uuid_NewV7
  | SaveTransaction tx =>
      replied Done (TransactionRepository_Save (LS_transactions production) tx)
  | FindAccount id => replied OneAccount (Repository_FindByID (LS_accounts production) id)
  | FindAccounts => replied Accounts (Repository_FindAll (LS_accounts production))
  | SaveAccount acc => replied Done (Repository_Save (LS_accounts production) acc)
  | AppendEvents agg ty n es => replied Done (appendStored production agg ty n es)
  | ProjectOpened e => replied Done (ProjectAccountOpened e)
  | ProjectRecorded e => replied Done (ProjectTransactionRecorded e)
  end.

#[global] Instance replied_keeps {A} (P : World -> Prop) (f : A -> reply) m :
  Keeps P m -> Keeps P (replied f m).
Proof. unfold replied. apply _. Qed.

#[global] Instance perform_app (P : World -> Prop) `{!AppInvariant P} x : Keeps P (perform x).
Proof. destruct x; simpl; apply _. Qed.

(** ** The world of one request *)

Record transcript := MkTranscript {
  unread : list reply;                    (* replies not yet consumed *)
  asked : list (access * reply);          (* accesses made so far, with their replies *)
  waiting : option access;                (* the access that has no reply yet *)
}.

Definition start (replies : list reply) : transcript := MkTranscript replies [] None.

(** An access of a request that already waits changes nothing. *)
Definition ask (x : access) : St transcript (option reply) :=
  fun t =>
    match waiting t, unread t with
    | Some _, _ => (None, t)
    | None, [] => (None, MkTranscript [] (asked t) (Some x))
    | None, r :: rs => (Some r, MkTranscript rs (asked t ++ [(x, r)]) None)
    end.

(** The value that stands for a reply that has not come; the request does not
    get past it. *)
Definition errWaiting : error := errForeign "waiting".

Definition got_time (o : option reply) : time := match o with Some (Instant t) => t | _ => zero_time end.
Definition got_uuid (o : option reply) : UUID := match o with Some (Uuid u) => u | _ => uuid_Nil end.
Definition got_unit (o : option reply) : res unit :=
  match o with Some (Done r) => r | _ => Err errWaiting end.
Definition got_account (o : option reply) : res Account :=
  match o with Some (OneAccount r) => r | _ => Err errWaiting end.
Definition got_accounts (o : option reply) : res (list Account) :=
  match o with Some (Accounts r) => r | _ => Err errWaiting end.

Definition asking {A} (got : option reply -> A) (x : access) : St transcript A :=
  let@ o := ask x in retS (got o).

#[global] Instance transcript_runtime : Runtime transcript := {
  time_Now := asking got_time ReadClock;
  uuid_NewV7 := asking got_uuid DrawUuid;
}.

(** The collaborators of a request, with the outbox in the place it has in
    the production wiring; the reads of the transaction repository are not
    used by the services. *)
Definition transcribed : LedgerService transcript :=
  NewLedgerService
    (MkRepository transcript (fun acc => asking got_unit (SaveAccount acc))
       (fun id => asking got_account (FindAccount id)) (asking got_accounts FindAccounts))
    (MkTransactionRepository transcript (fun tx => asking got_unit (SaveTransaction tx))
       (fun _ => throw errWaiting) (fun _ => throw errWaiting))
    None
    (Some (MkOutboxAppender transcript (fun agg ty n es => asking got_unit (AppendEvents agg ty n es))))
    (Some (MkProjector transcript (fun e => asking got_unit (ProjectOpened e))
       (fun e => asking got_unit (ProjectRecorded e)))).

(** ** The same code on the transcript and on the world

    [traced w tr w']: the accesses of [tr], performed from [w] one after the
    other, get the replies of [tr] and lead to [w']. *)
Fixpoint traced (w : World) (tr : list (access * reply)) (w' : World) : Prop :=
  match tr with
  | [] => w' = w
  | (x, r) :: tr => (perform x w).1 = r /\ traced (perform x w).2 tr w'
  end.

(** ** The tree of accesses of a piece of code

    The next access depends on the replies to those before it. *)
Inductive prog (A : Type) :=
| Ret (a : A)
| Ask (x : access) (k : option reply -> prog A).
#[global] Arguments Ret {A} _.
#[global] Arguments Ask {A} _ _.

Fixpoint pbind {A B} (p : prog A) (k : A -> prog B) : prog B :=
  match p with
  | Ret a => k a
  | Ask x h => Ask x (fun o => pbind (h o) k)
  end.

Fixpoint replay {A} (p : prog A) : St transcript A :=
  match p with
  | Ret a => retS a
  | Ask x k => let@ o := ask x in replay (k o)
  end.

Fixpoint run {A} (p : prog A) : St World A :=
  match p with
  | Ret a => retS a
  | Ask x k => let@ r := perform x in run (k (Some r))
  end.

Lemma replay_pbind {A B} (p : prog A) (k : A -> prog B) t :
  replay (pbind p k) t = bindS (replay p) (fun a => replay (k a)) t.
Proof. revert t. induction p as [a|x h IH]; intros t; [done|]. simpl. by rewrite !bindS_run, IH, bindS_run. Qed.

Lemma run_pbind {A B} (p : prog A) (k : A -> prog B) w :
  run (pbind p k) w = bindS (run p) (fun a => run (k a)) w.
Proof. revert w. induction p as [a|x h IH]; intros w; [done|]. simpl. by rewrite !bindS_run, IH, bindS_run. Qed.

(** [m] on the transcript and [d] on the world are one piece of code. *)
Class Replays {A} (m : St transcript A) (d : St World A) := {
  code : prog A;
  code_replay t : m t = replay code t;
  code_run w : d w = run code w;
}.
#[global] Arguments code {_} _ _ {_}.

#[global] Instance replays_retS {A} (a : A) : Replays (retS a) (retS a).
Proof. by exists (Ret a). Qed.
#[global] Instance replays_ret {A} (a : A) : Replays (ret a) (ret a).
Proof. apply replays_retS. Qed.
#[global] Instance replays_throw {A} e : Replays (throw (A:=A) e) (throw e).
Proof. apply replays_retS. Qed.
#[global] Instance replays_liftR {A} (r : res A) : Replays (liftR r) (liftR r).
Proof. apply replays_retS. Qed.

#[global] Instance replays_bindS {A B} m d (k : A -> St transcript B) (h : A -> St World B) :
  Replays m d -> (forall a, Replays (k a) (h a)) -> Replays (bindS m k) (bindS d h).
Proof.
  intros Hm Hk. exists (pbind (code m d) (fun a => code (k a) (h a))).
  - intros t. by rewrite replay_pbind, !bindS_run, <- code_replay, <- code_replay.
  - intros w. by rewrite run_pbind, !bindS_run, <- code_run, <- code_run.
Qed.

Lemma bind_as_bindS {W A B} (m : M W A) (k : A -> M W B) w :
  bind m k w = bindS m (fun r => match r with Ok a => k a | Err e => throw e end) w.
Proof. unfold bind, bindS. by destruct (m w) as [[a|e] w1]. Qed.

Lemma replays_eq {A} (m m' : St transcript A) (d d' : St World A) :
  (forall t, m t = m' t) -> (forall w, d w = d' w) -> Replays m' d' -> Replays m d.
Proof.
  intros Hm Hd H. exists (code m' d'); intros; [by rewrite Hm, code_replay|by rewrite Hd, code_run].
Qed.

#[global] Instance replays_bind {A B} m d (k : A -> M transcript B) (h : A -> M World B) :
  Replays m d -> (forall a, Replays (k a) (h a)) -> Replays (bind m k) (bind d h).
Proof.
  intros Hm Hk. eapply replays_eq; [apply bind_as_bindS|apply bind_as_bindS|].
  apply replays_bindS; [done|]. intros [a|e]; apply _.
Qed.

Lemma wrapErr_as_bindS {W A} p (m : M W A) w :
  wrapErr p m w = bindS m (fun r => retS (res_wrap p r)) w.
Proof. unfold wrapErr, bindS. by destruct (m w). Qed.

#[global] Instance replays_wrapErr {A} p (m : M transcript A) (d : M World A) :
  Replays m d -> Replays (wrapErr p m) (wrapErr p d).
Proof.
  intros Hm. eapply replays_eq; [apply wrapErr_as_bindS|apply wrapErr_as_bindS|]. apply _.
Qed.

#[global] Instance replays_forEach {A} (l : list A) body body' :
  (forall x, Replays (body x) (body' x)) -> Replays (forEach l body) (forEach l body').
Proof. intros Hb. induction l; simpl; apply _. Qed.

#[global] Instance replays_if {A} (b : bool) (m n : St transcript A) (d e : St World A) :
  Replays m d -> Replays n e -> Replays (if b then m else n) (if b then d else e).
Proof. by destruct b. Qed.

(** An access. *)
Lemma replays_asking {A} (got : option reply -> A) (f : A -> reply) x (d : St World A) :
  perform x = replied f d -> (forall a, got (Some (f a)) = a) -> Replays (asking got x) d.
Proof.
  intros Hx Hgot. exists (Ask x (fun o => Ret (got o))); [done|].
  intros w. simpl. rewrite Hx. unfold replied. rewrite !bindS_run. simpl. rewrite Hgot.
  by destruct (d w).
Qed.

(** ** What the code does with the replies *)

Lemma replay_waits {A} (p : prog A) rs tr x :
  (replay p (MkTranscript rs tr (Some x))).2 = MkTranscript rs tr (Some x).
Proof. induction p as [a|y k IH]; [done|]. simpl. rewrite bindS_run. apply IH. Qed.

Lemma replay_empty {A} (p : prog A) tr :
  exists o, (replay p (MkTranscript [] tr None)).2 = MkTranscript [] tr o.
Proof.
  destruct p as [a|y k]; [by exists None|]. exists (Some y). simpl. rewrite bindS_run. apply replay_waits.
Qed.

(** One more reply lets code that waits make its access, and no other. *)
Lemma replay_one_more {A} (p : prog A) rs before tr x r :
  (replay p (MkTranscript rs before None)).2 = MkTranscript [] tr (Some x) ->
  exists o, (replay p (MkTranscript (rs ++ [r]) before None)).2 = MkTranscript [] (tr ++ [(x, r)]) o.
Proof.
  revert rs before. induction p as [a|y k IH]; intros rs before; simpl; [done|].
  rewrite !bindS_run. destruct rs as [|r1 rs]; simpl.
  - rewrite replay_waits. intros [= <- <-]. apply replay_empty.
  - apply IH.
Qed.

(** The accesses of [p] from [w], performed by nobody else. *)
Lemma replay_trace {A} (p : prog A) w :
  exists tr, traced w tr (run p w).2 /\
    (forall rest before, replay p (MkTranscript (tr.*2 ++ rest) before None) =
       ((run p w).1, MkTranscript rest (before ++ tr) None)) /\
    (forall k x r before, tr !! k = Some (x, r) ->
       (replay p (MkTranscript (take k tr.*2) before None)).2 =
         MkTranscript [] (before ++ take k tr) (Some x)).
Proof.
  revert w. induction p as [a|y h IH]; intros w.
  { exists []. split_and!; [done| |done]. intros rest before. simpl. by rewrite app_nil_r. }
  destruct (IH (Some (perform y w).1) (perform y w).2) as (tr & H1 & H2 & H3).
  exists ((y, (perform y w).1) :: tr). simpl. rewrite bindS_run. split_and!; [done|done| |].
  - intros rest before. rewrite bindS_run. simpl. by rewrite H2, <- app_assoc.
  - intros [|k] x r before; rewrite bindS_run; simpl.
    + intros [= <- <-]. by rewrite replay_waits, app_nil_r.
    + intros Hk. by rewrite (H3 _ _ _ _ Hk), <- app_assoc.
Qed.

#[global] Instance replays_now : Replays time_Now time_Now.
Proof. by apply (replays_asking _ Instant). Qed.
#[global] Instance replays_uuid : Replays uuid_NewV7 uuid_NewV7.
Proof. by apply (replays_asking _ Uuid). Qed.
#[global] Instance replays_save acc :
  Replays (Repository_Save (LS_accounts transcribed) acc) (Repository_Save (LS_accounts production) acc).
Proof. by apply (replays_asking _ Done). Qed.
#[global] Instance replays_find id :
  Replays (Repository_FindByID (LS_accounts transcribed) id)
    (Repository_FindByID (LS_accounts production) id).
Proof. by apply (replays_asking _ OneAccount). Qed.
#[global] Instance replays_all :
  Replays (Repository_FindAll (LS_accounts transcribed)) (Repository_FindAll (LS_accounts production)).
Proof. by apply (replays_asking _ Accounts). Qed.
#[global] Instance replays_tx tx :
  Replays (TransactionRepository_Save (LS_transactions transcribed) tx)
    (TransactionRepository_Save (LS_transactions production) tx).
Proof. by apply (replays_asking _ Done). Qed.
#[global] Instance replays_append agg ty n es :
  Replays (appendStored transcribed agg ty n es) (appendStored production agg ty n es).
Proof. by apply (replays_asking _ Done). Qed.
#[global] Instance replays_opened e :
  Replays (projectAccountOpened transcribed e) (projectAccountOpened production e).
Proof. apply replays_bindS; [by apply (replays_asking _ Done)|apply _]. Qed.
#[global] Instance replays_recorded e :
  Replays (projectTransactionRecorded transcribed e) (projectTransactionRecorded production e).
Proof. apply replays_bindS; [by apply (replays_asking _ Done)|apply _]. Qed.

(** ** The methods of the services *)

#[global] Instance replays_newEntries ps now : Replays (newEntries ps now) (newEntries ps now).
Proof. induction ps; simpl; unfold newEntry, GenerateEntryID; apply _. Qed.
#[global] Instance replays_NewTransaction ps d : Replays (NewTransaction ps d) (NewTransaction ps d).
Proof.
  unfold NewTransaction, construct, GenerateTransactionID.
  destruct ps as [|p [|q ps]]; try apply _. destruct (totals _ _ _). apply _.
Qed.
#[global] Instance replays_applyEntry e : Replays (applyEntry transcribed e) (applyEntry production e).
Proof. unfold applyEntry, entryOp, Account_Debit, Account_Credit. apply _. Qed.
#[global] Instance replays_RecordTransaction cmd :
  Replays (RecordTransaction transcribed cmd) (RecordTransaction production cmd).
Proof. unfold RecordTransaction, appendEvent. apply _. Qed.
#[global] Instance replays_OpenAccount cmd :
  Replays (OpenAccount transcribed cmd) (OpenAccount production cmd).
Proof. unfold OpenAccount, appendEvent, NewAccountWithType, GenerateAccountID. apply _. Qed.
#[global] Instance replays_system name ty cur :
  Replays (getOrCreateSystemAccount transcribed name ty cur)
    (getOrCreateSystemAccount production name ty cur).
Proof. apply replays_bind; [apply _|]. intros l. case_match; apply _. Qed.
#[global] Instance replays_suspense cur :
  Replays (suspenseAccountID transcribed cur) (suspenseAccountID production cur).
Proof. unfold suspenseAccountID. apply _. Qed.
#[global] Instance replays_Execute cmd : Replays (Execute transcribed cmd) (Execute production cmd).
Proof.
  unfold Execute, debitSource, creditDestination, compensate, NewTransfer, MarkDebited,
    MarkCompleted, MarkFailed, MarkCompensated, addStep.
  destruct (NewMoney _ _); [|apply _].
  repeat match goal with
  | |- Replays (bindS _ _) _ => apply replays_bindS; [|intros ?]
  | |- Replays (let '(_, _) := ?p in _) _ => destruct p
  | |- Replays (match ?r with _ => _ end) _ => destruct r
  | |- _ => apply _
  end.
Qed.

(** ** Tasks: what a request calls *)

Inductive task :=
| OpenTask (cmd : OpenAccountCmd)
| RecordTask (cmd : RecordTransactionCmd)
| DepositTask (id : AccountID) (amount : Z) (currency : Currency) (description : string)
| BalanceTask (id : AccountID)
| TransferTask (cmd : TransferCmd).

Inductive response :=
| Opened (r : res Account)
| Recorded (r : res Transaction)
| Deposited (r : res unit)
| Balance (r : res Money)
| Transferred (o : outcome).

Definition responds {W A} (f : A -> response) (m : St W A) : St W response :=
  let@ a := m in retS (f a).

Definition run_task {W} `{R : !Runtime W} (s : LedgerService W) (k : task) : St W response :=
  match k with
  | OpenTask cmd => responds Opened (OpenAccount s cmd)
  | RecordTask cmd => responds Recorded (RecordTransaction s cmd)
  | DepositTask id amt cur d => responds Deposited (Deposit s id amt cur d)
  | BalanceTask id => responds Balance (GetBalance s id)
  | TransferTask cmd => responds Transferred (Execute s cmd)
  end.

#[global] Instance replays_task k : Replays (run_task transcribed k) (run_task production k).
Proof.
  destruct k; simpl; unfold responds, Deposit, getOrCreateSystemEquity, GetBalance; apply _.
Qed.

(** ** Goroutines *)

(** A request that runs: its call and the accesses it has made. *)
Record goroutine := MkGoroutine {
  g_task : task;
  g_heard : list (access * reply);
}.

(** Where it stands: it waits for an access, or it has its response. *)
Definition stands (g : goroutine) : access + response :=
  let '(r, t) := run_task transcribed (g_task g) (start (g_heard g).*2) in
  match waiting t with
  | Some x => inl x
  | None => inr r
  end.

(** It makes its next access; a goroutine that has its response has ended. *)
Definition advance_one (g : goroutine) : St World goroutine :=
  match stands g with
  | inl x => let@ r := perform x in retS (MkGoroutine (g_task g) (g_heard g ++ [(x, r)]))
  | inr _ => retS g
  end.

#[global] Instance advance_one_app (P : World -> Prop) `{!AppInvariant P} g : Keeps P (advance_one g).
Proof. unfold advance_one. destruct (stands g); apply _. Qed.

Fixpoint advance_many (n : nat) (g : goroutine) : St World goroutine :=
  match n with
  | 0%nat => retS g
  | S n => let@ g := advance_one g in advance_many n g
  end.

(** A goroutine that runs alone makes the accesses of the sequential code. *)
Lemma advance_along k tr1 tr2 w1 w' :
  (forall i x r before, (tr1 ++ tr2) !! i = Some (x, r) ->
     (run_task transcribed k (MkTranscript (take i (tr1 ++ tr2).*2) before None)).2 =
       MkTranscript [] (before ++ take i (tr1 ++ tr2)) (Some x)) ->
  traced w1 tr2 w' ->
  advance_many (length tr2) (MkGoroutine k tr1) w1 = (MkGoroutine k (tr1 ++ tr2), w').
Proof.
  revert tr1 w1. induction tr2 as [|[x r] tr2 IH]; intros tr1 w1 Hpart Ht; simpl in Ht |- *.
  { by rewrite Ht, app_nil_r. }
  destruct Ht as [Hr Ht]. rewrite bindS_run.
  assert (Hs : stands (MkGoroutine k tr1) = inl x).
  { unfold stands, start. cbn [g_task g_heard].
    specialize (Hpart (length tr1) x r []). rewrite fmap_app, take_app_length' in Hpart by (by rewrite length_fmap).
    rewrite lookup_app_r, Nat.sub_diag in Hpart by lia. specialize (Hpart eq_refl).
    destruct (run_task transcribed k _) as [y t]. simpl in Hpart. by rewrite Hpart. }
  unfold advance_one at 1 2. rewrite Hs, bindS_run. cbn [fst snd g_task g_heard retS]. rewrite Hr.
  replace (tr1 ++ (x, r) :: tr2) with ((tr1 ++ [(x, r)]) ++ tr2) in * by (by rewrite <- app_assoc).
  by apply IH.
Qed.

(** What a goroutine has heard is what its code asked for. *)
Definition honest (g : goroutine) : Prop :=
  exists o, (run_task transcribed (g_task g) (start (g_heard g).*2)).2 = MkTranscript [] (g_heard g) o.

Lemma honest_new k : honest (MkGoroutine k []).
Proof.
  destruct (replay_empty (code (run_task transcribed k) (run_task production k)) []) as [o Ho].
  exists o. by rewrite code_replay.
Qed.

Lemma stands_waits g x :
  honest g -> stands g = inl x ->
  (run_task transcribed (g_task g) (start (g_heard g).*2)).2 = MkTranscript [] (g_heard g) (Some x).
Proof.
  intros [o Ho]. unfold stands. destruct (run_task _ _ _) as [r t]; simpl in *. subst t. simpl.
  destruct o; [by intros [= <-]|done].
Qed.

Lemma stands_ended g r :
  honest g -> stands g = inr r ->
  run_task transcribed (g_task g) (start (g_heard g).*2) = (r, MkTranscript [] (g_heard g) None).
Proof.
  intros [o Ho]. unfold stands. destruct (run_task _ _ _) as [y t]; simpl in *. subst t. simpl.
  destruct o; [done|by intros [= <-]].
Qed.

Lemma honest_advance g w : honest g -> honest (advance_one g w).1.
Proof.
  intros Hg. unfold advance_one. destruct (stands g) as [x|r] eqn:Hs; [|done].
  rewrite bindS_run. simpl. apply stands_waits in Hs; [|done].
  set (d := run_task production (g_task g)). unfold start in Hs.
  rewrite (code_replay (d:=d)) in Hs.
  destruct (replay_one_more _ _ _ _ _ (perform x w).1 Hs) as [o Ho].
  exists o. unfold start. cbn [g_task g_heard]. by rewrite (code_replay (d:=d)), fmap_app.
Qed.
End accesses.
