(* ===== verification/EventLog.v ===== *)
(** * The tables events and outbox

    What the appending operations of internal/infra/postgres do to the two
    tables, for every behaviour of the database: both inserts of each event or
    nothing, one version per event of an aggregate, and reads in the order of
    versions. *)
From S2P Require Import Prelude Go Identifiers Money Transaction Account Book Events Ports.
From S2P Require Import World LedgerService LedgerSafety Transfer TransferService InMemory.
From S2P Require Import Postgres Projection Production Reachable.
From stdpp Require Import base gmap strings list sorting.
Local Open Scope Z_scope.

Section eventlog.
Context {U : UuidLib} {O : Oracle}.

(** ** The rows that an append writes *)

(** [seq] is the last number drawn from the sequence, [i] the index of the
    head of the list. *)
Fixpoint event_rows (agg ty : string) (n i seq : Z) (es : list StoredEvent) : list EventRow :=
  match es with
  | [] => []
  | e :: es =>
      MkEventRow (seq + 1) agg ty (SE_EventType e) (event_version n i) (SE_Payload e)
        (db_time (SE_OccurredAt e)) :: event_rows agg ty n (i + 1) (seq + 1) es
  end.

Fixpoint outbox_rows (agg ty : string) (seq : Z) (now : time) (es : list StoredEvent)
    : list OutboxRow :=
  match es with
  | [] => []
  | e :: es =>
      MkOutboxRow (seq + 1) agg ty (SE_EventType e) (SE_Payload e) false now None ::
      outbox_rows agg ty (seq + 1) now es
  end.

Definition row_version (r : EventRow) : string * Z := (ev_aggregate_id r, ev_version r).

(** The constraint uq_aggregate_version. *)
Definition versions_unique (l : list EventRow) : Prop := NoDup (row_version <$> l).

Lemma has_version_spec agg v l :
  existsb (has_version agg v) l = false <-> (agg, v) ∉ row_version <$> l.
Proof.
  rewrite <- not_true_iff_false, existsb_exists, list_elem_of_fmap. unfold has_version. split.
  - intros H (r & [= -> ->] & Hr). apply H. exists r. split; [by apply list_elem_of_In|].
    rewrite bool_decide_eq_true_2, Z.eqb_refl by done. done.
  - intros H (r & Hr & Hv). bool_prop. apply H. exists r. split; [unfold row_version; congruence|].
    by apply list_elem_of_In.
Qed.

Lemma outbox_rows_fresh agg ty seq now es :
  Forall (fun r => seq < ob_id r <= seq + Z.of_nat (length es) /\ ob_published r = false)
    (outbox_rows agg ty seq now es) /\
  NoDup (ob_id <$> outbox_rows agg ty seq now es).
Proof.
  revert seq. induction es as [|e es IH]; intros seq; cbn [outbox_rows length]; csimpl.
  { split; constructor. }
  destruct (IH (seq + 1)) as [Hf Hn]. split.
  - constructor; [simpl; split; [lia|done]|]. eapply Forall_impl; [exact Hf|].
    intros r [? ?]. simpl. split; [lia|done].
  - constructor; [|done]. intros (r & Hr & Hin)%list_elem_of_fmap.
    rewrite Forall_forall in Hf. specialize (Hf r Hin). lia.
Qed.

(** *** Statements that succeed *)

Lemma exec_at_Ok_inv {A} (q : stmt A) w a w' :
  exec_at q w = (Ok a, w') ->
  db_fault (w_stmt w) = Up /\ q (w_db w) = (Ok a, w_db w') /\ w_uuid w' = w_uuid w.
Proof.
  unfold exec_at. destruct (db_fault (w_stmt w)); [|done|by destruct (q (w_db w))].
  destruct (q (w_db w)) as [r d]. intros [= -> <-]. done.
Qed.

Lemma conflictErr_Ok_inv m w w' : conflictErr m w = (Ok tt, w') -> m w = (Ok tt, w').
Proof. unfold conflictErr. by destruct (m w) as [[[]|e] w1]; intros [= <-]. Qed.

Lemma insert_event_Ok_inv agg ty v e d d' :
  insert_event agg ty v e d = (Ok tt, d') ->
  (agg, v) ∉ row_version <$> t_events d /\
  d' = set_events (set_seqs d (seq_events d + 1) (seq_outbox d) (seq_history d)) (t_events d ++
    [MkEventRow (seq_events d + 1) agg ty (SE_EventType e) v (SE_Payload e)
       (db_time (SE_OccurredAt e))]).
Proof.
  unfold insert_event. destruct (existsb _ _) eqn:E; [done|]. intros [= <-].
  by apply has_version_spec in E.
Qed.

Lemma append_unique (l : list EventRow) r :
  versions_unique l -> row_version r ∉ row_version <$> l -> versions_unique (l ++ [r]).
Proof.
  unfold versions_unique. intros Hl Hr. rewrite fmap_app. apply NoDup_app. split_and!; [done| |].
  - intros x Hx. csimpl. intros Hy. apply list_elem_of_singleton in Hy as ->. done.
  - csimpl. apply NoDup_singleton.
Qed.

(** *** The loops *)

Lemma outbox_loop_Ok agg ty n i now es w w' :
  outbox_loop agg ty n i now es w = (Ok tt, w') ->
  t_events (w_db w') = t_events (w_db w) ++ event_rows agg ty n i (seq_events (w_db w)) es /\
  t_outbox (w_db w') = t_outbox (w_db w) ++ outbox_rows agg ty (seq_outbox (w_db w)) now es /\
  seq_outbox (w_db w') = seq_outbox (w_db w) + Z.of_nat (length es) /\
  (versions_unique (t_events (w_db w)) -> versions_unique (t_events (w_db w'))).
Proof.
  revert i w. induction es as [|e es IH]; intros i w.
  { intros [= <-]. simpl. by rewrite !app_nil_r, Z.add_0_r. }
  cbn [outbox_loop]. intros H. go_inv.
  match goal with H : conflictErr _ _ = (Ok ?u, _) |- _ => destruct u;
    apply conflictErr_Ok_inv, exec_at_Ok_inv in H as (_ & E1 & _) end.
  match goal with H : exec_at _ _ = _ |- _ => apply exec_at_Ok_inv in H as (_ & E2 & _) end.
  match goal with H : outbox_loop _ _ _ _ _ _ _ = _ |- _ =>
    destruct (IH _ _ H) as (Hev & Hob & Hseq & Hu) end.
  apply insert_event_Ok_inv in E1 as [Hnew Hd1].
  match type of E2 with _ ?d = (Ok _, ?d') => assert (Hd2 : d' = (insert_outbox agg ty e now d).2)
    by (by rewrite E2) end.
  rewrite Hd2, Hd1 in Hev, Hob, Hseq, Hu. cbn in Hev, Hob, Hseq, Hu. rewrite Hev, Hob, <- !app_assoc.
  split_and!; [done|done|cbn [length]; lia|]. intros Hl. rewrite app_assoc, <- Hev. apply Hu.
  by apply append_unique.
Qed.

Lemma append_loop_unique agg ty n i es w w' :
  append_loop agg ty n i es w = (Ok tt, w') ->
  versions_unique (t_events (w_db w)) -> versions_unique (t_events (w_db w')).
Proof.
  revert i w. induction es as [|e es IH]; intros i w; [by intros [= <-]|].
  cbn [append_loop]. intros H. go_inv.
  match goal with H : conflictErr _ _ = (Ok ?u, _) |- _ => destruct u;
    apply conflictErr_Ok_inv, exec_at_Ok_inv in H as (_ & E1 & _) end.
  apply insert_event_Ok_inv in E1 as [Hnew Hd1]. intros Hl. eapply IH; [done|].
  rewrite Hd1. by apply append_unique.
Qed.

(** ** A transaction is applied or not *)

(** How [with_tx] ends: rolled back (or never begun), or its body ran without
    an error and was committed, with or without an acknowledgement. *)
Lemma with_tx_cases {A} (body : time -> M World A) w :
  ((exists e, (with_tx body w).1 = Err e) /\
     forall X (g : DB -> X), TableOf g -> g (w_db (with_tx body w).2) = g (w_db w)) \/
  (exists a w1, body (db_clock (w_stmt w)) (tick_stmt w) = (Ok a, w1) /\
     w_db (with_tx body w).2 = w_db w1 /\
     ((with_tx body w).1 = Ok a \/ exists e, (with_tx body w).1 = Err e)).
Proof.
  unfold with_tx. destruct (db_fault (w_stmt w)); [|by left; split; [eauto|]..].
  destruct (body _ (tick_stmt w)) as [[a|e] w1] eqn:Hb.
  2:{ left. split; [by eexists|]. intros X g Hg. by rewrite <- (Hg (w_db w) (w_db w1)). }
  destruct (db_fault (w_stmt w1)).
  - right. eauto 10.
  - left. split; [by eexists|]. intros X g Hg. by rewrite <- (Hg (w_db w) (w_db w1)).
  - right. exists a, w1. eauto 10.
Qed.

(** ** Invariants of the two tables through every operation

    An invariant of the tables events and outbox that [AppendWithOutbox] keeps
    is kept by the whole program: nothing else writes to them. *)
Class LogInvariant (P : World -> Prop) : Prop := {
  log_ext w w' :
    t_events (w_db w') = t_events (w_db w) -> t_outbox (w_db w') = t_outbox (w_db w) ->
    seq_outbox (w_db w) <= seq_outbox (w_db w') -> P w -> P w';
  log_append agg ty n es :: Keeps P (AppendWithOutbox agg ty n es);
}.

Definition log_tables (d : DB) : list EventRow * list OutboxRow := (t_events d, t_outbox d).
#[global] Instance log_tables_table : TableOf log_tables. Proof. done. Qed.

Lemma untouched_log (P : World -> Prop) {A} (m : St World A) :
  LogInvariant P -> Steps (untouched log_tables) m -> Keeps P m.
Proof. intros LI H w Hw. destruct (H w) as [[= He Ho] _ _ _ Hs]. by eapply log_ext. Qed.

#[global] Instance log_app (P : World -> Prop) `{LI : !LogInvariant P} : AppInvariant P.
Proof.
  split.
  - intros w. by apply log_ext.
  - intros w. by apply log_ext.
  - intros tx w. by apply log_ext.
  - intros id. by apply untouched_log, pg_FindByID_untouched.
  - by apply untouched_log, pg_FindAll_untouched.
  - intros a. by apply untouched_log, pg_Save_untouched.
  - apply _.
  - intros e. by apply untouched_log, ProjectAccountOpened_untouched.
  - intros e. apply untouched_log, ProjectTransactionRecorded_untouched; done || apply _.
Qed.

(** ** One version per event of an aggregate *)

Definition log_unique (w : World) : Prop := versions_unique (t_events (w_db w)).

Lemma with_tx_unique {A} (body : time -> M World A) :
  (forall t w a w', body t w = (Ok a, w') -> log_unique w -> log_unique w') ->
  Keeps log_unique (with_tx body).
Proof.
  intros Hb w Hw. destruct (with_tx_cases body w) as [[_ H]|(a & w1 & H1 & H2 & _)].
  - unfold log_unique. by rewrite (H _ t_events _).
  - unfold log_unique. rewrite H2. by apply (Hb _ _ _ _ H1).
Qed.

#[global] Instance log_unique_invariant : LogInvariant log_unique.
Proof.
  split; [unfold log_unique; by intros w w' -> _ _|]. intros agg ty n es.
  apply with_tx_unique. intros t w [] w' H. by apply (outbox_loop_Ok _ _ _ _ _ _ _ _ H).
Qed.
#[global] Instance pg_Append_unique agg ty n es : Keeps log_unique (pg_Append agg ty n es).
Proof. apply with_tx_unique. intros t w [] w' H. by apply (append_loop_unique _ _ _ _ _ _ _ H). Qed.

(** ** Reading *)

Definition version_lt (a b : StoredEvent) : Prop := SE_Version a < SE_Version b.

Lemma sorted_versions_strict l :
  StronglySorted version_le l -> NoDup (ev_version <$> l) ->
  StronglySorted version_lt (stored_event <$> l).
Proof.
  induction 1 as [|r l Hl IH Hr]; csimpl; [constructor|].
  intros [Hn Hd]%NoDup_cons. constructor; [by apply IH|]. rewrite Forall_fmap.
  rewrite Forall_forall in Hr |- *. intros x Hx. specialize (Hr x Hx). unfold version_le in Hr.
  unfold version_lt, compose; simpl. assert (ev_version r <> ev_version x); [|lia].
  intros E. apply Hn. rewrite E. by apply list_elem_of_fmap_2.
Qed.

(** Lists with strictly increasing versions are determined by their elements. *)
Lemma version_lt_unique l1 l2 :
  StronglySorted version_lt l1 -> StronglySorted version_lt l2 -> l1 ≡ₚ l2 -> l1 = l2.
Proof. apply StronglySorted_unique_strong. unfold version_lt. intros; lia. Qed.

Lemma version_lt_filter (f : StoredEvent -> bool) l :
  StronglySorted version_lt l -> StronglySorted version_lt (List.filter f l).
Proof.
  induction 1 as [|r l Hl IH Hr]; simpl; [constructor|]. destruct (f r); [|done].
  constructor; [done|]. rewrite Forall_forall in Hr |- *. intros x Hx.
  apply Hr. by apply list_elem_of_In, filter_In in Hx as [Hx%list_elem_of_In _].
Qed.

(** The versions of one aggregate are distinct. *)
Lemma aggregate_versions agg (f : EventRow -> bool) l :
  (forall r, f r = true -> ev_aggregate_id r = agg) ->
  versions_unique l -> NoDup (ev_version <$> List.filter f l).
Proof.
  intros Hf. unfold versions_unique. induction l as [|r l IH]; csimpl; [constructor|].
  intros [Hn Hd]%NoDup_cons. destruct (f r) eqn:E; [|by apply IH]. csimpl.
  constructor; [|by apply IH]. intros (x & Hv & Hx)%list_elem_of_fmap. apply Hn.
  apply list_elem_of_In, filter_In in Hx as [Hx Hfx]. apply list_elem_of_fmap. exists x.
  split; [|by apply list_elem_of_In]. unfold row_version. by rewrite (Hf r E), (Hf x Hfx), Hv.
Qed.

Context `{OLaws : !OracleLaws}.

#[local] Instance version_le_trans : Transitive version_le.
Proof. unfold version_le. intros a b c. lia. Qed.
#[local] Instance version_le_total : Total version_le.
Proof. unfold version_le. intros a b. lia. Qed.

Lemma LoadEventsFrom_Ok agg v w l w' :
  log_unique w -> pg_LoadEventsFrom agg v w = (Ok l, w') ->
  StronglySorted version_lt l /\
  l ≡ₚ stored_event <$> List.filter (after_version agg v) (t_events (w_db w)) /\
  t_events (w_db w') = t_events (w_db w).
Proof using OLaws.
  intros Hu. unfold pg_LoadEventsFrom. intros H. go_inv.
  match goal with H : exec _ _ = _ |- _ => unfold exec in H;
    apply exec_at_Ok_inv in H as (_ & E & _) end.
  injection E as <- <-. set (rows := List.filter _ (unordered _ _)).
  assert (Hp : rows ≡ₚ List.filter (after_version agg v) (t_events (w_db w))).
  { apply filter_perm, unordered_perm. }
  split_and!; [|by rewrite merge_sort_Permutation, Hp|done].
  apply sorted_versions_strict; [by apply StronglySorted_merge_sort; apply _|].
  rewrite merge_sort_Permutation, Hp. apply (aggregate_versions agg); [|exact Hu].
  intros r Hr. unfold after_version in Hr. by bool_prop.
Qed.
End eventlog.
