(* ===== verification/StorageTheorems.v ===== *)
(** * Theorems on the storage

    Both wirings of the service implement the ledger that its theorems are
    stated against; the event log and the outbox of Postgres, for every
    behaviour of the database. *)
From S2P Require Import Prelude Go Identifiers Money Transaction Account Book Events Ports.
From S2P Require Import LedgerService LedgerSafety LedgerLive Transfer TransferService World.
From S2P Require Import Sample InMemory Postgres Projection Production Scenario Reachable.
From S2P Require Import EventLog.
From stdpp Require Import base gmap strings list sorting.
Local Open Scope Z_scope.

Section storage.
Context {U : UuidLib} {O : Oracle}.

(** One event per version: in every world the program can reach from an
    empty database, whatever the database did (statements lost,
    acknowledgements lost, transactions rolled back), no two events of an
    aggregate have the same version. *)
Theorem event_versions_unique w :
  rtc app_step initial_world w -> versions_unique (t_events (w_db w)).
Proof.
  assert (H0 : log_unique initial_world) by apply NoDup_nil_2.
  intros H. change (log_unique w). induction H as [w|w1 w2 w3 Hs _ IH]; [done|].
  apply IH. by apply (app_step_inv log_unique w1).
Qed.

(** C17: [AppendWithOutbox] is atomic under every behaviour of the database:
    either both tables are as before, or each event has been added to both,
    in order, under consecutive versions and not yet published; the latter
    whenever it returns no error. *)
Theorem AppendWithOutbox_atomic agg ty n es (w : World) :
  let w' := (AppendWithOutbox agg ty n es w).2 in
  let added :=
    t_events (w_db w') =
      t_events (w_db w) ++ event_rows agg ty n 0 (seq_events (w_db w)) es /\
    t_outbox (w_db w') = t_outbox (w_db w) ++
      outbox_rows agg ty (seq_outbox (w_db w)) (db_clock (w_stmt w)) es in
  (added \/ t_events (w_db w') = t_events (w_db w) /\ t_outbox (w_db w') = t_outbox (w_db w)) /\
  ((AppendWithOutbox agg ty n es w).1 = Ok tt -> added).
Proof.
  unfold AppendWithOutbox.
  destruct (with_tx_cases (fun now => outbox_loop agg ty n 0 now es) w)
    as [[[e He] Hg]|([] & w1 & Hb & -> & Hr)].
  - rewrite He, (Hg _ t_events _), (Hg _ t_outbox _). split; [by right|done].
  - apply outbox_loop_Ok in Hb as (Hev & Hob & _). split; [left|intros _]; by rewrite Hev, Hob.
Qed.

(** Optimistic concurrency: when the version after the expected one is
    taken, appending at least one event returns [ErrVersionConflict] (or the
    error of BEGIN) and leaves both tables alone. *)
Theorem AppendWithOutbox_conflict agg ty n e es (w : World) r :
  r ∈ t_events (w_db w) -> ev_aggregate_id r = agg -> ev_version r = event_version n 0 ->
  ((AppendWithOutbox agg ty n (e :: es) w).1 = Err ErrVersionConflict \/
   (AppendWithOutbox agg ty n (e :: es) w).1 = Err (errWrap "begin tx" errConn)) /\
  t_events (w_db (AppendWithOutbox agg ty n (e :: es) w).2) = t_events (w_db w) /\
  t_outbox (w_db (AppendWithOutbox agg ty n (e :: es) w).2) = t_outbox (w_db w).
Proof.
  intros Hr Ha Hv. unfold AppendWithOutbox, with_tx.
  destruct (db_fault (w_stmt w)); [|split; [by right|done]..].
  assert (existsb (has_version agg (event_version n 0)) (t_events (w_db w)) = true) as Hex.
  { apply existsb_exists. exists r. split; [by apply list_elem_of_In|]. unfold has_version.
    by rewrite bool_decide_eq_true_2, Hv, Z.eqb_refl. }
  assert (exists w1, conflictErr (exec_at (insert_event agg ty (event_version n 0) e)) (tick_stmt w) =
            (Err ErrVersionConflict, w1)) as [w1 H1].
  { unfold conflictErr, exec_at, insert_event. cbn [w_db tick_stmt]. rewrite Hex.
    destruct (db_fault _); eauto. }
  cbn [outbox_loop]. rewrite (bind_fail _ _ _ _ _ H1). split; [by left|done].
Qed.

Lemma event_version_small n i :
  0 <= n -> 0 <= i -> n + i + 1 <= max_int64 -> event_version n i = n + i + 1.
Proof.
  unfold event_version, max_int64. intros. rewrite wrap64_add_l. apply wrap64_id.
  unfold in_int64, min_int64, max_int64. lia.
Qed.

(** What a reader sees of an appended event. *)
Definition seen (e : StoredEvent) : Z * EventType * json := (SE_Version e, SE_EventType e, SE_Payload e).

Lemma event_rows_seen agg ty n i seq es :
  0 <= n -> 0 <= i -> n + i + Z.of_nat (length es) <= max_int64 ->
  seen <$> (stored_event <$> event_rows agg ty n i seq es) =
    imap (fun j e => (n + i + Z.of_nat j + 1, SE_EventType e, SE_Payload e)) es /\
  StronglySorted version_lt (stored_event <$> event_rows agg ty n i seq es) /\
  Forall (fun e => n + i < SE_Version e) (stored_event <$> event_rows agg ty n i seq es) /\
  Forall (fun r => ev_aggregate_id r = agg) (event_rows agg ty n i seq es).
Proof.
  revert i seq. induction es as [|e es IH]; intros i seq Hn Hi Hl; cbn [length event_rows] in *.
  { split_and!; constructor. }
  destruct (IH (i + 1) (seq + 1)) as (Hs & Hsort & Hgt & Hagg); [lia..|].
  csimpl. unfold seen at 1. simpl. rewrite event_version_small by lia. split_and!.
  - rewrite Hs. f_equal; [do 2 f_equal; lia|]. apply imap_ext. intros j x _. simpl.
    do 2 f_equal. lia.
  - constructor; [done|]. eapply Forall_impl; [exact Hgt|]. intros x. unfold version_lt; simpl. lia.
  - constructor; [simpl; lia|].
    eapply Forall_impl; [exact Hgt|]. simpl. intros; lia.
  - by constructor.
Qed.

Context `{OLaws : !OracleLaws}.

(** C31: append and load: the events appended to a new aggregate are read
    back in their order, under the versions 1, 2, 3 and so on, with their
    types and payloads. *)
Theorem append_load_roundtrip agg ty es w w1 l w2 :
  log_unique w -> (forall r, r ∈ t_events (w_db w) -> ev_aggregate_id r <> agg) ->
  Z.of_nat (length es) <= max_int64 ->
  AppendWithOutbox agg ty 0 es w = (Ok tt, w1) -> pg_LoadEvents agg w1 = (Ok l, w2) ->
  seen <$> l = imap (fun j e => (Z.of_nat j + 1, SE_EventType e, SE_Payload e)) es.
Proof using OLaws.
  intros Hu Hno Hlen Happ Hload.
  pose proof (keeps_eq log_unique _ _ _ _ Happ Hu) as Hu1.
  destruct (with_tx_cases (fun now => outbox_loop agg ty 0 0 now es) w)
    as [[[e He] _]|([] & w0 & Hb & Hdb & _)].
  { unfold AppendWithOutbox in Happ. by rewrite Happ in He. }
  fold (AppendWithOutbox agg ty 0 es) in Hdb. rewrite Happ in Hdb.
  apply outbox_loop_Ok in Hb as (Hev & _). rewrite <- Hdb in Hev. cbn in Hev.
  destruct (LoadEventsFrom_Ok agg 0 w1 l w2 Hu1 Hload) as (Hsort & Hperm & _).
  destruct (event_rows_seen agg ty 0 0 (seq_events (w_db w)) es) as (Hs & Hsort' & Hgt & Hagg);
    [lia..|]. set (rows := event_rows _ _ _ _ _ _) in *.
  rewrite Hev, List.filter_app in Hperm.
  assert (List.filter (after_version agg 0) (t_events (w_db w)) = []) as E1.
  { clear -Hno. induction (t_events (w_db w)) as [|r rows IH]; simpl; [done|].
    unfold after_version at 1. rewrite bool_decide_eq_false_2 by (apply Hno; constructor).
    apply IH. intros x Hx. apply Hno. by constructor. }
  assert (List.filter (after_version agg 0) rows = rows) as E2.
  { clear -Hgt Hagg. induction rows as [|r rows IH]; simpl; [done|].
    apply Forall_cons in Hagg as [Ha Hagg]. csimpl in Hgt. apply Forall_cons in Hgt as [Hv Hgt].
    unfold after_version at 1. rewrite bool_decide_eq_true_2 by done. simpl in Hv.
    rewrite (proj2 (Z.ltb_lt 0 (ev_version r))) by lia. simpl. by rewrite IH. }
  rewrite E1, E2 in Hperm. simpl in Hperm.
  rewrite (version_lt_unique _ _ Hsort Hsort' Hperm), Hs. apply imap_ext. intros; simpl. done.
Qed.

Lemma after_version_split agg v rows :
  0 <= v ->
  stored_event <$> List.filter (after_version agg v) rows =
  List.filter (fun e => v <? SE_Version e) (stored_event <$> List.filter (after_version agg 0) rows).
Proof.
  intros Hv. induction rows as [|r rows IH]; simpl; [done|].
  assert (A : forall x, after_version agg x r =
            bool_decide (ev_aggregate_id r = agg) && (x <? ev_version r)) by done.
  rewrite !A. case_bool_decide; simpl; [|done].
  destruct (Z.ltb_spec 0 (ev_version r)) as [H0|H0], (Z.ltb_spec v (ev_version r)) as [H1|H1];
    csimpl; rewrite ?IH; try done; try lia.
  - by rewrite (proj2 (Z.ltb_lt v (ev_version r)) H1).
  - by rewrite (proj2 (Z.ltb_ge v (ev_version r)) H1).
Qed.

(** Replay from a snapshot: what [LoadEventsFrom] returns after version
    [v] is exactly the part of [LoadEvents] after [v], both in increasing
    order of versions, so that no event is lost or applied twice. *)
Theorem replay_from_snapshot agg v w l w1 l' w2 :
  log_unique w -> 0 <= v -> pg_LoadEvents agg w = (Ok l, w1) ->
  pg_LoadEventsFrom agg v w1 = (Ok l', w2) ->
  StronglySorted version_lt l /\ l' = List.filter (fun e => v <? SE_Version e) l.
Proof using OLaws.
  intros Hu Hv H1 H2. destruct (LoadEventsFrom_Ok _ _ _ _ _ Hu H1) as (Hs & Hp & Ht).
  assert (Hu1 : log_unique w1) by (unfold log_unique; by rewrite Ht).
  destruct (LoadEventsFrom_Ok _ _ _ _ _ Hu1 H2) as (Hs' & Hp' & _).
  split; [done|]. apply version_lt_unique; [done|by apply version_lt_filter|].
  rewrite Hp', (filter_perm _ _ _ Hp), Ht, after_version_split by done. done.
Qed.

Context `{Laws : !UuidLaws}.

(** Refinement: the service on the in-memory repositories satisfies both
    interfaces that the ledger theorems are stated against, for the book of
    its map of accounts. *)
Theorem in_memory_is_a_ledger :
  SafeService mem_service mem_view mem_inv mem_fresh /\
  LiveService mem_service mem_view mem_inv mem_ready mem_unlogged.
Proof using Laws OLaws. split; apply _. Qed.

(** C3: refinement: so does the wiring of main.go, for the book of the table
    accounts: the safe interface whatever the database does, the live one
    while it answers. *)
Theorem production_is_a_ledger :
  SafeService production pg_view pg_inv pg_fresh /\
  LiveService production pg_view pg_inv pg_ready pg_unlogged.
Proof using Laws OLaws. split; apply _. Qed.
End storage.

(** ** The properties on concrete runs *)

Lemma event_versions_unique_witness :
  exists w, rtc app_step initial_world w /\ length (t_events (w_db w)) = 2%nat /\
    versions_unique (t_events (w_db w)).
Proof.
  set (w1 := (run_call (s:=production) (CallOpenAccount (open_cmd "Alice")) initial_world).2).
  set (w2 := (run_call (s:=production) (CallOpenAccount (open_cmd "Bob")) w1).2).
  assert (H : rtc app_step initial_world w2).
  { eapply rtc_l; [apply step_call|]. apply rtc_once, step_call. }
  exists w2. split; [exact H|]. split; [vm_compute; reflexivity|].
  exact (event_versions_unique w2 H).
Defined.

Lemma pg_world_unique : log_unique pg_world.
Proof.
  assert (Keeps log_unique (setup production)) as K
    by (unfold setup, open_accounts, getOrCreateSystemEquity; apply _).
  apply K. apply NoDup_nil_2.
Qed.

Definition note (n : Z) : StoredEvent := MkStoredEvent "" "" "" "note.taken" 0 (JNum n) 0.
Definition notes : list StoredEvent := [note 10; note 20; note 30].

(** The first version of Alice's account is taken by its opening. *)
Lemma AppendWithOutbox_conflict_witness :
  exists r, r ∈ t_events (w_db pg_world) /\ ev_aggregate_id r = AccountID_String alice /\
    ev_version r = event_version 0 0 /\
    t_events (w_db (AppendWithOutbox (AccountID_String alice) "account" 0 notes pg_world).2) =
      t_events (w_db pg_world).
Proof.
  set (r := hd (MkEventRow 0 "" "" "" 0 (JNum 0) 0) (t_events (w_db pg_world))).
  assert (Hr : r ∈ t_events (w_db pg_world)).
  { apply list_elem_of_lookup. exists 0%nat. vm_compute. reflexivity. }
  assert (Ha : ev_aggregate_id r = AccountID_String alice) by (vm_compute; reflexivity).
  assert (Hv : ev_version r = event_version 0 0) by (vm_compute; reflexivity).
  exists r. split_and!; [exact Hr|exact Ha|exact Hv|].
  exact (proj1 (proj2 (AppendWithOutbox_conflict (AccountID_String alice) "account" 0 (note 10)
                         [note 20; note 30] pg_world r Hr Ha Hv))).
Defined.

Lemma no_notes r : r ∈ t_events (w_db pg_world) -> ev_aggregate_id r <> "notebook".
Proof.
  assert (H : forallb (fun r => negb (bool_decide (ev_aggregate_id r = "notebook")))
                (t_events (w_db pg_world)) = true) by (vm_compute; reflexivity).
  rewrite forallb_forall in H. intros Hr%list_elem_of_In%H. by bool_prop.
Qed.

Definition noted : World := (AppendWithOutbox "notebook" "notes" 0 notes pg_world).2.

Lemma noted_run : AppendWithOutbox "notebook" "notes" 0 notes pg_world = (Ok tt, noted).
Proof.
  unfold noted. assert ((AppendWithOutbox "notebook" "notes" 0 notes pg_world).1 = Ok tt) as <-
    by (vm_compute; reflexivity). apply surjective_pairing.
Qed.

Lemma append_load_roundtrip_witness :
  exists l w2, pg_LoadEvents "notebook" noted = (Ok l, w2) /\
    seen <$> l = [(1, "note.taken", JNum 10); (2, "note.taken", JNum 20); (3, "note.taken", JNum 30)].
Proof.
  assert (Hl : is_Ok (pg_LoadEvents "notebook" noted).1 = true) by (vm_compute; reflexivity).
  destruct (is_Ok_run _ _ Hl) as (l & w2 & H).
  exists l, w2. split; [exact H|].
  exact (append_load_roundtrip "notebook" "notes" notes pg_world noted l w2 pg_world_unique no_notes
           ltac:(by vm_compute) noted_run H).
Defined.

Lemma replay_from_snapshot_witness :
  exists l w1 l' w2, pg_LoadEvents "notebook" noted = (Ok l, w1) /\
    pg_LoadEventsFrom "notebook" 2 w1 = (Ok l', w2) /\
    l' = List.filter (fun e => 2 <? SE_Version e) l.
Proof.
  assert (Hl : is_Ok (pg_LoadEvents "notebook" noted).1 = true) by (vm_compute; reflexivity).
  destruct (is_Ok_run _ _ Hl) as (l & w1 & H1).
  assert (Hw1 : w1 = (pg_LoadEvents "notebook" noted).2) by (by rewrite H1).
  assert (Ho : is_Ok (pg_LoadEventsFrom "notebook" 2 w1).1 = true)
    by (rewrite Hw1; vm_compute; reflexivity).
  destruct (is_Ok_run _ _ Ho) as (l' & w2 & H2).
  exists l, w1, l', w2. split; [exact H1|]. split; [exact H2|].
  apply (replay_from_snapshot "notebook" 2 noted l w1 l' w2); [|lia|exact H1|exact H2].
  exact (keeps_eq log_unique _ _ _ _ noted_run pg_world_unique).
Defined.

Lemma in_memory_is_a_ledger_witness :
  @SafeService sample_uuid World world_runtime mem_service mem_view mem_inv mem_fresh.
Proof. exact (proj1 (@in_memory_is_a_ledger sample_uuid sample_oracle sample_oracle_law sample_uuid_laws)). Defined.

Lemma production_is_a_ledger_witness :
  @LiveService sample_uuid World world_runtime production pg_view pg_inv pg_ready pg_unlogged.
Proof. exact (proj2 (@production_is_a_ledger sample_uuid sample_oracle sample_oracle_law sample_uuid_laws)). Defined.
