(* ===== verification/OutboxWorker.v ===== *)
(** * internal/app/outbox_worker.go and internal/infra/publisher

    The worker that publishes the outbox. The broker behind [EventPublisher]
    has a state of its own, [B]; one tick of the worker runs on the pair of the
    world and that state. [Promise] states what a publisher that answers
    without an error has promised: the message is in [delivered]. *)
From S2P Require Import Prelude Go Identifiers Money Transaction Account Book Events Ports.
From S2P Require Import World LedgerService LedgerSafety Transfer TransferService InMemory.
From S2P Require Import Postgres Projection Production Reachable EventLog.
From stdpp Require Import base gmap strings list sorting.
Local Open Scope Z_scope.

(** app.EventPublisher *)
Record EventPublisher (B : Type) := MkEventPublisher {
  EventPublisher_Publish : string -> string -> json -> M B unit;
}.
Arguments EventPublisher_Publish {B} _ _ _ _.

(** A message: event type, aggregate and payload. *)
Definition message : Type := string * string * json.

Class Promise {B} (publisher : EventPublisher B) (delivered : B -> list message) : Prop := {
  promise_mono ty agg p b m :
    m ∈ delivered b -> m ∈ delivered (EventPublisher_Publish publisher ty agg p b).2;
  promise_Ok ty agg p b :
    is_Ok (EventPublisher_Publish publisher ty agg p b).1 = true ->
    (ty, agg, p) ∈ delivered (EventPublisher_Publish publisher ty agg p b).2;
}.

(** publisher.LogPublisher writes one line per message to the log. *)
Definition LogPublisher : EventPublisher (list message) :=
  MkEventPublisher _ (fun eventType aggregateID payload log =>
    (Ok tt, log ++ [(eventType, aggregateID, payload)])).

#[global] Instance LogPublisher_promise : Promise LogPublisher (fun log => log).
Proof. split; simpl; set_solver. Qed.

Section worker.
Context {U : UuidLib} {O : Oracle} {B : Type}.

Record OutboxWorker := MkOutboxWorker {
  OW_publisher : EventPublisher B;
  OW_interval : Z;    (* time.Duration, in nanoseconds *)
  OW_batchSize : Z;
}.

Definition NewOutboxWorker (publisher : EventPublisher B) : OutboxWorker :=
  MkOutboxWorker publisher 1000000000 50.

Context (w : OutboxWorker).

(** The loop over the entries: the ids of those that the publisher took. *)
Fixpoint publishEntries (entries : list OutboxEntry) : St B (list Z) :=
  match entries with
  | [] => retS []
  | entry :: entries =>
      let@ r := EventPublisher_Publish (OW_publisher w) (OE_EventType entry)
                  (OE_AggregateID entry) (OE_Payload entry) in
      let@ ids := publishEntries entries in
      retS (match r with
            | Err _ => ids                    (* skip this one, retry next poll *)
            | Ok _ => OE_ID entry :: ids
            end)
  end.

(** Errors are logged and forgotten. *)
Definition processBatch : St (World * B) unit :=
  fun '(db, b) =>
    match FetchUnpublished (OW_batchSize w) db with
    | (Err _, db) => (tt, (db, b))
    | (Ok entries, db) =>
        if bool_decide (length entries = 0%nat) then (tt, (db, b))
        else
          let '(publishedIDs, b) := publishEntries entries b in
          if bool_decide (0 < length publishedIDs)%nat
          then let '(_, db) := MarkPublished publishedIDs db in (tt, (db, b))
          else (tt, (db, b))
    end.

(** [ticks] is the number of ticks before the context is cancelled. *)
Fixpoint Start (ticks : nat) : St (World * B) unit :=
  match ticks with
  | 0%nat => retS tt
  | S ticks => let@ _ := processBatch in Start ticks
  end.

(** ** What a batch publishes *)

Definition entry_message (e : OutboxEntry) : message := (OE_EventType e, OE_AggregateID e, OE_Payload e).
Definition outbox_message (r : OutboxRow) : message := (ob_event_type r, ob_aggregate_id r, ob_payload r).
Definition event_message (r : EventRow) : message := (ev_event_type r, ev_aggregate_id r, ev_payload r).

Section promise.
Context {delivered : B -> list message} `{Hp : !Promise (OW_publisher w) delivered}.

Lemma publishEntries_delivered entries b m :
  m ∈ delivered b -> m ∈ delivered (publishEntries entries b).2.
Proof using Hp.
  revert b. induction entries as [|e es IH]; intros b Hm; simpl; [done|].
  rewrite !bindS_run. simpl. apply IH. by apply promise_mono.
Qed.

(** Every id that the loop collects belongs to an entry that was
    delivered. *)
Lemma publishEntries_ids entries b id :
  id ∈ (publishEntries entries b).1 ->
  exists e, e ∈ entries /\ OE_ID e = id /\ entry_message e ∈ delivered (publishEntries entries b).2.
Proof using Hp.
  revert b. induction entries as [|e es IH]; intros b; simpl.
  { intros Hi. by apply elem_of_nil in Hi. }
  rewrite !bindS_run. simpl.
  pose proof (promise_Ok (OE_EventType e) (OE_AggregateID e) (OE_Payload e) b) as Hok.
  destruct (EventPublisher_Publish _ _ _ _ b) as [[[]|er] b1]; cbn [fst snd is_Ok] in *.
  - intros [->|Hi]%elem_of_cons.
    + exists e. split; [constructor|]. split; [done|]. by apply publishEntries_delivered, Hok.
    + destruct (IH b1 Hi) as (e' & He & Hid & Hd). exists e'. split; [by constructor|done].
  - intros Hi. destruct (IH b1 Hi) as (e' & He & Hid & Hd). exists e'.
    split; [by constructor|done].
Qed.
End promise.

(** ** What a batch does to the table *)
Context `{OLaws : !OracleLaws}.

Definition pending (l : list OutboxRow) : list OutboxRow :=
  List.filter (fun r => negb (ob_published r)) l.

Lemma elem_of_pending r l : r ∈ pending l <-> r ∈ l /\ ob_published r = false.
Proof.
  unfold pending. rewrite !list_elem_of_In, filter_In, negb_true_iff. done.
Qed.

Lemma FetchUnpublished_db n db : w_db (FetchUnpublished n db).2 = w_db db.
Proof.
  unfold FetchUnpublished, bind, wrapErr, exec, exec_at.
  destruct (db_fault _); simpl; [|done|done]. by destruct (n <? 0).
Qed.

(** A fetched batch: the first rows, in some order, of those not published. *)
Lemma FetchUnpublished_Ok n db entries db' :
  FetchUnpublished n db = (Ok entries, db') ->
  w_db db' = w_db db /\ (w_stmt db <= w_stmt db')%nat /\
  exists rows, rows ≡ₚ pending (t_outbox (w_db db)) /\
    entries = outbox_entry <$> take (Z.to_nat n) rows.
Proof using OLaws.
  unfold FetchUnpublished. intros H. go_inv.
  match goal with H : exec _ _ = _ |- _ => unfold exec, exec_at in H end.
  destruct (db_fault _); [|done|by destruct (n <? 0)].
  destruct (n <? 0); [done|]. simpl in *. simplify_eq. split; [done|]. split; [simpl; lia|].
  eexists. split; [|done]. rewrite merge_sort_Permutation. apply filter_perm, unordered_perm.
Qed.

Lemma MarkPublished_cases ids db :
  t_events (w_db (MarkPublished ids db).2) = t_events (w_db db) /\
  (t_outbox (w_db (MarkPublished ids db).2) = t_outbox (w_db db) \/
   t_outbox (w_db (MarkPublished ids db).2) =
     mark_row ids (db_clock (w_stmt db)) <$> t_outbox (w_db db)).
Proof.
  unfold MarkPublished, exec, exec_at. destruct (db_fault _); simpl; auto.
Qed.

Lemma MarkPublished_seq ids db :
  seq_outbox (w_db (MarkPublished ids db).2) = seq_outbox (w_db db).
Proof. unfold MarkPublished, exec, exec_at. by destruct (db_fault _). Qed.

Lemma processBatch_cases db b :
  exists entries,
    (forall e, e ∈ entries -> exists r, r ∈ t_outbox (w_db db) /\ outbox_entry r = e) /\
    (processBatch (db, b)).2.2 = (publishEntries entries b).2 /\
    t_events (w_db (processBatch (db, b)).2.1) = t_events (w_db db) /\
    (t_outbox (w_db (processBatch (db, b)).2.1) = t_outbox (w_db db) \/
     exists now, t_outbox (w_db (processBatch (db, b)).2.1) =
       mark_row (publishEntries entries b).1 now <$> t_outbox (w_db db)).
Proof using OLaws.
  unfold processBatch. destruct (FetchUnpublished (OW_batchSize w) db) as [[entries|e] db1] eqn:Hf.
  2:{ exists []. pose proof (FetchUnpublished_db (OW_batchSize w) db) as Hd.
      rewrite Hf in Hd. cbn [snd fst] in *. rewrite Hd. split_and!; [by intros e' He%elem_of_nil|done|done|by left]. }
  apply FetchUnpublished_Ok in Hf as (Hd & _ & rows & Hr & He).
  exists entries. split.
  { intros e Hin. rewrite He in Hin. apply list_elem_of_fmap in Hin as (r & -> & Hin).
    exists r. split; [|done]. assert (r ∈ pending (t_outbox (w_db db))) as Hp.
    { rewrite <- Hr, <- (take_drop (Z.to_nat (OW_batchSize w)) rows). apply elem_of_app. by left. }
    by apply elem_of_pending in Hp as [? _]. }
  case_bool_decide as Hl.
  { apply nil_length_inv in Hl as ->. cbn [fst snd]. rewrite Hd. auto. }
  destruct (publishEntries entries b) as [ids b1]. cbn [fst snd].
  case_bool_decide; [|cbn [fst snd]; rewrite Hd; auto].
  destruct (MarkPublished_cases ids db1) as [H1 H2]. rewrite Hd in H1, H2.
  destruct (MarkPublished ids db1) as [r db2]; cbn [fst snd] in *.
  split_and!; [done|done|]. destruct H2 as [H2|H2]; eauto.
Qed.
End worker.
