(* ===== verification/WorkerTheorems.v ===== *)
(** * Theorems on the outbox worker

    No event is lost between the event log and the broker, whatever fails; and
    when nothing fails the outbox is drained. *)
From S2P Require Import Prelude Go Identifiers Money Transaction Account Book Events Ports.
From S2P Require Import World LedgerService LedgerSafety Transfer TransferService Sample.
From S2P Require Import InMemory Postgres Projection Production Scenario Reachable EventLog.
From S2P Require Import OutboxWorker.
From stdpp Require Import base gmap strings list sorting.
Local Open Scope Z_scope.

Section delivery.
Context {U : UuidLib} {O : Oracle} {B : Type} (worker : OutboxWorker (B:=B)).
Context (delivered : B -> list message).

(** Every event of the log has been delivered or waits in the outbox, and
    what is marked as published has been delivered; ids of the outbox are
    distinct and taken from the sequence. *)
Record accounted (b : B) (w : World) : Prop := {
  acc_events ev : ev ∈ t_events (w_db w) ->
    event_message ev ∈ delivered b \/
    exists o, o ∈ pending (t_outbox (w_db w)) /\ outbox_message o = event_message ev;
  acc_published o : o ∈ t_outbox (w_db w) -> ob_published o = true ->
    outbox_message o ∈ delivered b;
  acc_ids : NoDup (ob_id <$> t_outbox (w_db w));
  acc_seq o : o ∈ t_outbox (w_db w) -> ob_id o <= seq_outbox (w_db w);
}.

(** The rows of one append match. *)
Lemma appended_rows agg ty n i seqe seqo now es ev :
  ev ∈ event_rows agg ty n i seqe es ->
  exists o, o ∈ outbox_rows agg ty seqo now es /\ ob_published o = false /\
    outbox_message o = event_message ev.
Proof.
  revert i seqe seqo. induction es as [|e es IH]; intros i seqe seqo; simpl.
  { intros H. by apply elem_of_nil in H. }
  intros [->|H]%elem_of_cons.
  - eexists. split; [constructor|done].
  - destruct (IH _ _ (seqo + 1) H) as (o & Ho & ?). exists o. split; [by constructor|done].
Qed.

Lemma append_accounted b w w' agg ty n es now :
  t_events (w_db w') = t_events (w_db w) ++ event_rows agg ty n 0 (seq_events (w_db w)) es ->
  t_outbox (w_db w') = t_outbox (w_db w) ++ outbox_rows agg ty (seq_outbox (w_db w)) now es ->
  seq_outbox (w_db w') = seq_outbox (w_db w) + Z.of_nat (length es) ->
  accounted b w -> accounted b w'.
Proof.
  intros He Ho Hs [H1 H2 H3 H4].
  destruct (outbox_rows_fresh agg ty (seq_outbox (w_db w)) now es) as [Hf Hn].
  rewrite Forall_forall in Hf. split; rewrite ?He, ?Ho, ?Hs.
  - intros ev [Hev|Hev]%elem_of_app.
    + destruct (H1 ev Hev) as [Hd|(o & Hp & Hm)]; [by left|right]. exists o. split; [|done].
      unfold pending. rewrite List.filter_app. apply elem_of_app. by left.
    + right. destruct (appended_rows _ _ _ _ _ (seq_outbox (w_db w)) now _ _ Hev) as (o & Hin & Hp & Hm).
      exists o. split; [|done]. apply elem_of_pending. split; [|done]. apply elem_of_app. by right.
  - intros o [Hin|Hin]%elem_of_app; [by apply H2|]. intros Hp. apply Hf in Hin as [_ Hp']. congruence.
  - rewrite fmap_app. apply NoDup_app. split_and!; [done| |done].
    intros id (o & -> & Hin)%list_elem_of_fmap (o' & He' & Hin')%list_elem_of_fmap.
    apply H4 in Hin. apply Hf in Hin'. lia.
  - intros o [Hin|Hin]%elem_of_app; [apply H4 in Hin; lia|apply Hf in Hin; lia].
Qed.

#[global] Instance accounted_invariant b : LogInvariant (accounted b).
Proof.
  split.
  - intros w w' He Ho Hs [H1 H2 H3 H4]. split; rewrite ?He, ?Ho; try done.
    intros o Hin. apply H4 in Hin. lia.
  - intros agg ty n es w Hw. unfold AppendWithOutbox.
    destruct (with_tx_cases (fun now => outbox_loop agg ty n 0 now es) w)
      as [[_ Hg]|([] & w1 & Hb & Hdb & _)].
    + destruct Hw as [H1 H2 H3 H4].
      assert (Hu : Steps (untouched t_accounts) (AppendWithOutbox agg ty n es))
        by (by apply append_untouched).
      destruct (Hu w) as [_ _ _ _ Hs]. unfold AppendWithOutbox in Hs.
      split; rewrite ?(Hg _ t_events _), ?(Hg _ t_outbox _); try done.
      intros o Hin. apply H4 in Hin. lia.
    + apply outbox_loop_Ok in Hb as (He & Ho & Hs & _). rewrite <- Hdb in He, Ho, Hs.
      exact (append_accounted b w _ agg ty n es _ He Ho Hs Hw).
Qed.

Context `{Hp : !Promise (OW_publisher worker) delivered} `{OLaws : !OracleLaws}.

Lemma same_id (l : list OutboxRow) o1 o2 :
  NoDup (ob_id <$> l) -> o1 ∈ l -> o2 ∈ l -> ob_id o1 = ob_id o2 -> o1 = o2.
Proof.
  induction l as [|o l IH]; csimpl; intros Hn H1 H2 He; [by apply elem_of_nil in H1|].
  apply NoDup_cons in Hn as [Ho Hn].
  apply elem_of_cons in H1 as [->|H1]; apply elem_of_cons in H2 as [->|H2]; [done|..|by apply IH];
    destruct Ho; [rewrite He|rewrite <- He]; by apply list_elem_of_fmap_2.
Qed.

Lemma mark_row_frame ids now o :
  ob_id (mark_row ids now o) = ob_id o /\ outbox_message (mark_row ids now o) = outbox_message o /\
  (ob_published (mark_row ids now o) = true -> ob_published o = true \/ ob_id o ∈ ids).
Proof. unfold mark_row. case_bool_decide; naive_solver. Qed.

(** Marking the rows whose messages were delivered. *)
Lemma mark_accounted b w l now :
  (forall o, o ∈ t_outbox (w_db w) -> ob_id o ∈ l -> outbox_message o ∈ delivered b) ->
  accounted b w ->
  forall w', t_events (w_db w') = t_events (w_db w) ->
    t_outbox (w_db w') = mark_row l now <$> t_outbox (w_db w) ->
    seq_outbox (w_db w) <= seq_outbox (w_db w') -> accounted b w'.
Proof.
  intros Hl [H1 H2 H3 H4] w' He Ho Hs. split; rewrite ?He, ?Ho.
  - intros ev Hev. destruct (H1 ev Hev) as [Hd|(o & Hin & Hm)]; [by left|].
    apply elem_of_pending in Hin as [Hin Hpub].
    destruct (decide (ob_id o ∈ l)) as [Hid|Hid]; [left; rewrite <- Hm; by apply Hl|].
    right. exists o. split; [|done]. apply elem_of_pending. split; [|done].
    apply list_elem_of_fmap. exists o. split; [|done]. unfold mark_row. by rewrite bool_decide_eq_false_2.
  - intros o' (o & -> & Hin)%list_elem_of_fmap Hpub.
    destruct (mark_row_frame l now o) as (_ & -> & H). apply H in Hpub as [Hpub|Hid]; auto.
  - rewrite <- list_fmap_compose. erewrite list_fmap_ext; [exact H3|].
    intros i o _. unfold compose. by destruct (mark_row_frame l now o) as [-> _].
  - intros o' (o & -> & Hin)%list_elem_of_fmap. destruct (mark_row_frame l now o) as [-> _].
    apply H4 in Hin. lia.
Qed.

(** One tick. *)
Lemma processBatch_seq db b :
  seq_outbox (w_db (processBatch worker (db, b)).2.1) = seq_outbox (w_db db).
Proof.
  unfold processBatch. pose proof (FetchUnpublished_db (OW_batchSize worker) db) as Hd.
  destruct (FetchUnpublished _ db) as [[entries|e] db1]; cbn [fst snd] in *; [|by rewrite Hd].
  case_bool_decide; [cbn [fst snd]; by rewrite Hd|].
  destruct (publishEntries worker entries b) as [ids b1].
  case_bool_decide; cbn [fst snd]; [|by rewrite Hd].
  pose proof (MarkPublished_seq ids db1) as Hm. destruct (MarkPublished ids db1) as [r db2].
  cbn [fst snd] in *. by rewrite Hm, Hd.
Qed.

Lemma processBatch_accounted db b :
  accounted b db ->
  accounted (processBatch worker (db, b)).2.2 (processBatch worker (db, b)).2.1.
Proof using Hp OLaws.
  intros Hacc. destruct (processBatch_cases worker db b) as (entries & Hent & Hb & He & Ho).
  pose proof (processBatch_seq db b) as Hs. set (b1 := (publishEntries worker entries b).2) in *.
  assert (Hacc1 : accounted b1 db).
  { destruct Hacc as [H1 H2 H3 H4]. split; [| |done..].
    - intros ev Hev. destruct (H1 ev Hev); [left; by apply (publishEntries_delivered worker (delivered:=delivered))|by right].
    - intros o Hin Hpub. by apply (publishEntries_delivered worker (delivered:=delivered)), H2. }
  rewrite Hb. destruct Ho as [Ho|[now Ho]].
  - eapply log_ext; [exact He|exact Ho|lia|exact Hacc1].
  - eapply mark_accounted; [|exact Hacc1|exact He|exact Ho|lia].
    intros o Hin Hid. apply (publishEntries_ids worker (delivered:=delivered)) in Hid as (e & Hin' & Hid & Hd).
    destruct (Hent e Hin') as (o' & Ho' & <-). simpl in Hid.
    by rewrite (same_id _ o o' (acc_ids _ _ Hacc) Hin Ho' (eq_sym Hid)).
Qed.

(** The whole system: calls of the application and ticks of the worker, in
    any order, whatever they return. *)
Inductive system_step : World * B -> World * B -> Prop :=
| sys_app w w' b : app_step w w' -> system_step (w, b) (w', b)
| sys_tick s : system_step s (processBatch worker s).2.

Lemma system_accounted s s' :
  rtc system_step s s' -> accounted s.2 s.1 -> accounted s'.2 s'.1.
Proof using Hp OLaws.
  induction 1 as [s|s1 s2 s3 Hs _ IH]; [done|]. intros H. apply IH. destruct Hs as [w w' b Hw|[w b]].
  - by apply (app_step_inv (accounted b) w).
  - by apply processBatch_accounted.
Qed.

(** At-least-once delivery: in every state that the program and the
    worker can reach from an empty database, whatever the database does and
    whenever the publisher fails, each event of the log either has been
    delivered to the broker or is in the outbox, not yet published; and only
    delivered messages are marked as published. *)
Theorem outbox_at_least_once b0 w b :
  rtc system_step (initial_world, b0) (w, b) ->
  (forall ev, ev ∈ t_events (w_db w) ->
     event_message ev ∈ delivered b \/
     exists o, o ∈ pending (t_outbox (w_db w)) /\ outbox_message o = event_message ev) /\
  (forall o, o ∈ t_outbox (w_db w) -> ob_published o = true -> outbox_message o ∈ delivered b).
Proof using Hp OLaws.
  intros H. apply system_accounted in H as [H1 H2 _ _]; [done|].
  split; simpl; try (intros ? Hin; by apply elem_of_nil in Hin). constructor.
Qed.
End delivery.

Section drain.
Context {U : UuidLib} {O : Oracle} `{OLaws : !OracleLaws} {B : Type}.
Context (worker : OutboxWorker (B:=B)).

Definition accepts_all (publisher : EventPublisher B) : Prop :=
  forall ty agg p b, is_Ok (EventPublisher_Publish publisher ty agg p b).1 = true.

Lemma publishEntries_all entries b :
  accepts_all (OW_publisher worker) -> (publishEntries worker entries b).1 = OE_ID <$> entries.
Proof.
  intros Ha. revert b. induction entries as [|e es IH]; intros b; simpl; [done|].
  rewrite !bindS_run. csimpl. specialize (Ha (OE_EventType e) (OE_AggregateID e) (OE_Payload e) b).
  destruct (EventPublisher_Publish _ _ _ _ b) as [[[]|er] b1]; [|done]. simpl. by rewrite IH.
Qed.

Lemma pending_mark ids now l :
  length (pending (mark_row ids now <$> l)) =
  length (List.filter (fun o => negb (bool_decide (ob_id o ∈ ids))) (pending l)).
Proof.
  unfold pending. induction l as [|o l IH]; csimpl; [done|]. unfold mark_row at 1.
  case_bool_decide as Hid; simpl; destruct (ob_published o); simpl; rewrite ?IH; try done;
    [rewrite bool_decide_eq_true_2 by done|rewrite bool_decide_eq_false_2 by done]; simpl; by rewrite ?IH.
Qed.

Lemma filter_length_le {A} (f : A -> bool) (l : list A) : (length (List.filter f l) <= length l)%nat.
Proof. induction l as [|x l IH]; simpl; [done|]. destruct (f x); simpl; lia. Qed.

(** A batch of which every entry is published and marked. *)
Lemma mark_batch (n : nat) now l rows :
  rows ≡ₚ pending l ->
  (length (pending (mark_row (OE_ID <$> (outbox_entry <$> take n rows)) now <$> l)) <=
     length (pending l) - n)%nat.
Proof.
  intros Hr. rewrite pending_mark. set (f := fun o => negb _).
  rewrite <- (filter_perm f _ _ Hr), <- Hr, <- (take_drop n rows) at 1.
  rewrite List.filter_app, length_app.
  assert (List.filter f (take n rows) = []) as ->.
  { assert (H : forall o, o ∈ take n rows -> f o = false).
    { intros o Ho. unfold f. rewrite bool_decide_eq_true_2; [done|].
      rewrite <- list_fmap_compose. apply list_elem_of_fmap. by exists o. }
    clear -H. clearbody f. induction (take n rows) as [|o l' IH]; simpl; [done|].
    rewrite H by constructor. apply IH. intros o' Ho'. apply H. by constructor. }
  pose proof (filter_length_le f (drop n rows)). rewrite length_drop in H. simpl. lia.
Qed.

Lemma processBatch_drains db b :
  accepts_all (OW_publisher worker) -> database_up db -> 0 < OW_batchSize worker ->
  (length (pending (t_outbox (w_db (processBatch worker (db, b)).2.1))) <=
     length (pending (t_outbox (w_db db))) - Z.to_nat (OW_batchSize worker))%nat /\
  database_up (processBatch worker (db, b)).2.1.
Proof using OLaws.
  intros Ha Hup Hn. unfold processBatch.
  assert (exists entries db1, FetchUnpublished (OW_batchSize worker) db = (Ok entries, db1))
    as (entries & db1 & Hf).
  { unfold FetchUnpublished, bind, wrapErr, exec, exec_at. rewrite Hup by (simpl; lia).
    rewrite (proj2 (Z.ltb_ge _ _)) by lia. simpl. unfold ret. eauto. }
  rewrite Hf. apply FetchUnpublished_Ok in Hf as (Hd & Hs & rows & Hr & ->).
  assert (Hup1 : database_up db1) by (intros k Hk; apply Hup; lia).
  case_bool_decide as Hl; cbn [fst snd].
  { rewrite Hd, <- Hr. rewrite length_fmap, length_take in Hl. split; [lia|done]. }
  pose proof (publishEntries_all (outbox_entry <$> take (Z.to_nat (OW_batchSize worker)) rows) b Ha)
    as Hids.
  destruct (publishEntries worker _ b) as [ids b1]. cbn [fst] in Hids. subst ids.
  rewrite bool_decide_eq_true_2 by (rewrite length_fmap; lia).
  unfold MarkPublished, exec, exec_at. rewrite Hup1 by lia. cbn [fst snd]. split.
  - cbn. rewrite Hd. by apply mark_batch.
  - intros k Hk. apply Hup1. simpl in Hk. lia.
Qed.
End drain.

Section drained.
Context {U : UuidLib} {O : Oracle} `{OLaws : !OracleLaws} {B : Type}.

(** C36: the outbox is drained: while the database answers and the broker
    accepts, a worker as [NewOutboxWorker] makes it has published everything
    that was pending after one tick per fifty entries. *)
Theorem outbox_drains publisher ticks db (b : B) :
  accepts_all publisher -> database_up db ->
  (length (pending (t_outbox (w_db db))) <= 50 * ticks)%nat ->
  pending (t_outbox (w_db (Start (NewOutboxWorker publisher) ticks (db, b)).2.1)) = [].
Proof using OLaws.
  intros Ha. revert db b. induction ticks as [|ticks IH]; intros db b Hup Hl; cbn [Start].
  { simpl. apply nil_length_inv. lia. }
  rewrite bindS_run.
  destruct (processBatch_drains (NewOutboxWorker publisher) db b Ha Hup ltac:(done)) as [H1 H2].
  destruct ((processBatch (NewOutboxWorker publisher) (db, b)).2) as [db1 b1]. cbn [fst snd] in *.
  apply IH; [done|]. change (Z.to_nat (OW_batchSize (NewOutboxWorker publisher))) with 50%nat in H1.
  lia.
Qed.
End drained.

(** ** The properties on concrete runs *)

Lemma outbox_at_least_once_witness :
  exists w b, rtc (system_step (NewOutboxWorker LogPublisher)) (initial_world, []) (w, b) /\
    length b = 1%nat /\
    forall o, o ∈ t_outbox (w_db w) -> ob_published o = true -> outbox_message o ∈ b.
Proof.
  set (w1 := (run_call (s:=production) (CallOpenAccount (open_cmd "Alice")) initial_world).2).
  set (r := (processBatch (NewOutboxWorker LogPublisher) (w1, [])).2).
  assert (H : rtc (system_step (NewOutboxWorker LogPublisher)) (initial_world, []) (r.1, r.2)).
  { eapply rtc_l; [apply sys_app, step_call|]. apply rtc_once.
    rewrite <- surjective_pairing. apply sys_tick. }
  exists r.1, r.2. split; [exact H|]. split; [vm_compute; reflexivity|].
  exact (proj2 (outbox_at_least_once (NewOutboxWorker LogPublisher) (fun log => log) [] r.1 r.2 H)).
Defined.

Lemma outbox_drains_witness :
  length (pending (t_outbox (w_db pg_world))) = 5%nat /\
  pending (t_outbox (w_db (Start (NewOutboxWorker LogPublisher) 1 (pg_world, [])).2.1)) = [].
Proof.
  split; [vm_compute; reflexivity|].
  apply (outbox_drains LogPublisher 1 pg_world []).
  - intros ty agg p b. reflexivity.
  - intros n _. reflexivity.
  - vm_compute. repeat constructor.
Defined.
