(* ===== verification/Isolation.v ===== *)
(** * Transactions of the database, one statement at a time

    Postgres.v runs a transaction of the database in one step. Here several
    are open at a time, as [ProjectTransactionRecorded] and [AppendWithOutbox]
    open them: between any two statements of one, the others go on. At the
    isolation level of the program, READ COMMITTED, a statement sees what was
    committed before it and what its own transaction has written; a row that a
    transaction updates stays locked until its end, and the insert of a key
    that another transaction has inserted waits for the end of that one. The
    numbers of a sequence are drawn at once and never given back.

    Serializability.v compares this with one transaction after the other. *)
From S2P Require Import Prelude Go Identifiers Money Transaction Account Book Events Ports.
From S2P Require Import World Postgres Projection.
From stdpp Require Import base gmap strings list.
Local Open Scope string_scope.
Local Open Scope list_scope.
Local Open Scope Z_scope.

Section isolation.
Context {U : UuidLib} {O : Oracle}.

(** ** The statements of the two methods *)

Inductive sql :=
| SqlUpdateBalance (delta : Z) (ts : time) (accountID : string)
| SqlSelectBalance (accountID : string)
| SqlInsertHistory (event : TransactionRecordedEvent) (entry : EntryEventData) (balanceAfter : Z)
| SqlInsertEvent (aggregateID aggregateType : string) (version : Z) (e : StoredEvent)
| SqlInsertOutbox (aggregateID aggregateType : string) (e : StoredEvent) (now : time).

(** A statement without a result, answered with 0. *)
Definition unit_stmt (q : stmt unit) : stmt Z :=
  fun d => let '(r, d) := q d in (res_bind r (fun _ => Ok 0), d).

Definition sql_stmt (q : sql) : stmt Z :=
  match q with
  | SqlUpdateBalance delta ts id => unit_stmt (update_balance delta ts id)
  | SqlSelectBalance id => select_balance id
  | SqlInsertHistory event entry bal => unit_stmt (insert_history event entry bal)
  | SqlInsertEvent agg ty version e => unit_stmt (insert_event agg ty version e)
  | SqlInsertOutbox agg ty e now => unit_stmt (insert_outbox agg ty e now)
  end.

(** The body of a transaction: what it sends next depends on the answers. *)
Inductive tree :=
| Finish (r : res unit)
| Send (q : sql) (k : res Z -> tree).

(** [if err != nil { return fmt.Errorf(p + ": %w", err) }]. *)
Definition or_wrap (p : string) (k : Z -> tree) (r : res Z) : tree :=
  match r with
  | Ok v => k v
  | Err e => Finish (Err (errWrap p e))
  end.

(** The loop of [ProjectTransactionRecorded]. *)
Fixpoint project_tree (event : TransactionRecordedEvent) (entries : list EntryEventData) : tree :=
  match entries with
  | [] => Finish (Ok tt)
  | entry :: entries =>
      let id := EED_AccountID entry in
      Send (SqlUpdateBalance (entryDelta entry) (TRE_Timestamp event) id)
        (or_wrap ("update balance for " +:+ id) (fun _ =>
      Send (SqlSelectBalance id)
        (or_wrap ("get balance after for " +:+ id) (fun balanceAfter =>
      Send (SqlInsertHistory event entry balanceAfter)
        (or_wrap ("insert history for " +:+ id) (fun _ =>
      project_tree event entries))))))
  end.

(** The loop of [AppendWithOutbox]; [i] is the index of the head. *)
Fixpoint append_tree (aggregateID aggregateType : string) (expectedVersion i : Z) (now : time)
    (events : list StoredEvent) : tree :=
  match events with
  | [] => Finish (Ok tt)
  | e :: events =>
      Send (SqlInsertEvent aggregateID aggregateType (event_version expectedVersion i) e)
        (fun r => match r with
                  | Err _ => Finish (Err ErrVersionConflict)
                  | Ok _ =>
      Send (SqlInsertOutbox aggregateID aggregateType e now)
        (or_wrap "write outbox" (fun _ =>
      append_tree aggregateID aggregateType expectedVersion (i + 1) now events))
                  end)
  end.

(** The transactions of the program, with what they are called with. *)
Inductive transaction_call :=
| CallProject (event : TransactionRecordedEvent)
| CallAppend (aggregateID aggregateType : string) (expectedVersion : Z) (now : time)
    (events : list StoredEvent).

Definition tree_of (c : transaction_call) : tree :=
  match c with
  | CallProject event => project_tree event (TRE_Entries event)
  | CallAppend agg ty n now events => append_tree agg ty n 0 now events
  end.

(** *** The trees are the code of Projection.v and Postgres.v *)

Fixpoint play (t : tree) : M World unit :=
  match t with
  | Finish r => liftR r
  | Send q k => let@ r := exec_at (sql_stmt q) in play (k r)
  end.

Lemma exec_at_unit (q : stmt unit) w :
  exec_at (unit_stmt q) w = (res_bind (exec_at q w).1 (fun _ => Ok 0), (exec_at q w).2).
Proof.
  unfold exec_at, unit_stmt. by destruct (db_fault _); destruct (q (w_db w)) as [[[]|e] d].
Qed.

Lemma play_send q k w :
  play (Send q k) w = play (k (exec_at (sql_stmt q) w).1) (exec_at (sql_stmt q) w).2.
Proof. cbn [play]. exact (bindS_run _ (fun r => play (k r)) w). Qed.

Lemma play_project event entries w :
  play (project_tree event entries) w = forEach entries (projectEntry event) w.
Proof.
  revert w. induction entries as [|entry entries IH]; intros w; [done|].
  cbn [project_tree forEach]. unfold projectEntry.
  rewrite play_send. cbn [sql_stmt]. rewrite exec_at_unit. unfold bind at 1 2, wrapErr at 1.
  destruct (exec_at (update_balance _ _ _) w) as [[[]|e] w1]; [|done].
  cbn [res_bind or_wrap res_wrap fst snd]. rewrite play_send. cbn [sql_stmt].
  unfold bind at 1, wrapErr at 1.
  destruct (exec_at (select_balance _) w1) as [[v|e] w2]; [|done].
  cbn [or_wrap res_wrap fst snd]. rewrite play_send. cbn [sql_stmt]. rewrite exec_at_unit.
  unfold wrapErr at 1. destruct (exec_at (insert_history _ _ _) w2) as [[[]|e] w3]; [apply IH|done].
Qed.

Lemma play_append agg ty n i now events w :
  play (append_tree agg ty n i now events) w = outbox_loop agg ty n i now events w.
Proof.
  revert i w. induction events as [|e events IH]; intros i w; [done|].
  cbn [append_tree outbox_loop]. rewrite play_send. cbn [sql_stmt]. rewrite exec_at_unit.
  unfold bind at 1, conflictErr at 1.
  destruct (exec_at (insert_event _ _ _ _) w) as [[[]|er] w1]; [|done].
  cbn [res_bind fst snd]. rewrite play_send. cbn [sql_stmt]. rewrite exec_at_unit.
  unfold bind at 1, wrapErr at 1.
  destruct (exec_at (insert_outbox _ _ _ _) w1) as [[[]|er] w2]; [apply IH|done].
Qed.

(** Run without interruption while the database answers. *)
Fixpoint run (t : tree) : stmt unit :=
  match t with
  | Finish r => fun d => (r, d)
  | Send q k => fun d => let '(r, d) := sql_stmt q d in run (k r) d
  end.

(** ** What a statement answers and writes *)

(** A row that a transaction has written and not yet committed. *)
Inductive write :=
| WriteBalance (accountID : string) (row : AccountView)
| WriteHistory (row : TransactionHistoryEntry)
| WriteEvent (row : EventRow)
| WriteOutbox (row : OutboxRow).

Definition apply_write (d : DB) (w : write) : DB :=
  match w with
  | WriteBalance id row => set_balances d (<[id := row]> (t_account_balances d))
  | WriteHistory row => set_history d (t_transaction_history d ++ [row])
  | WriteEvent row => set_events d (t_events d ++ [row])
  | WriteOutbox row => set_outbox d (t_outbox d ++ [row])
  end.

Definition apply_writes (ws : list write) (d : DB) : DB := fold_left apply_write ws d.

(** An insert numbers its row; the number is drawn before the row is checked. *)
Definition sequence (q : sql) (d : DB) : option Z :=
  match q with
  | SqlInsertHistory _ _ _ => Some (seq_history d)
  | SqlInsertEvent _ _ _ _ => Some (seq_events d)
  | SqlInsertOutbox _ _ _ _ => Some (seq_outbox d)
  | _ => None
  end.

Definition draw (q : sql) (d : DB) : DB :=
  match q with
  | SqlInsertHistory _ _ _ => set_seqs d (seq_events d) (seq_outbox d) (seq_history d + 1)
  | SqlInsertEvent _ _ _ _ => set_seqs d (seq_events d + 1) (seq_outbox d) (seq_history d)
  | SqlInsertOutbox _ _ _ _ => set_seqs d (seq_events d) (seq_outbox d + 1) (seq_history d)
  | _ => d
  end.

(** The answer and the writes of a statement that finds the tables [d], with
    the number [n] for its row. *)
Definition statement (q : sql) (n : Z) (d : DB) : res Z * list write :=
  match q with
  | SqlUpdateBalance delta ts id =>
      match t_account_balances d !! id with
      | None => (Ok 0, [])
      | Some v =>
          if in_int64b (av_Balance v + delta) && in_int64b (av_Version v + 1)
          then (Ok 0, [WriteBalance id
                  (MkAccountView (av_AccountID v) (av_Name v) (av_AccountType v) (av_Currency v)
                     (av_Balance v + delta) (av_Status v) (av_Version v + 1) (db_time ts))])
          else (Err errOutOfRange, [])
      end
  | SqlSelectBalance id => ((select_balance id d).1, [])
  | SqlInsertHistory event entry bal =>
      (Ok 0, [WriteHistory (MkTransactionHistoryEntry n (TRE_TransactionID event)
         (EED_AccountID entry) (EED_Type entry) (EED_Amount entry) (EED_Currency entry)
         (TRE_Description event) bal (db_time (TRE_Timestamp event)))])
  | SqlInsertEvent agg ty version e =>
      if existsb (has_version agg version) (t_events d)
      then (Err (errForeign "duplicate key value violates unique constraint"), [])
      else (Ok 0, [WriteEvent (MkEventRow n agg ty (SE_EventType e) version (SE_Payload e)
                     (db_time (SE_OccurredAt e)))])
  | SqlInsertOutbox agg ty e now =>
      (Ok 0, [WriteOutbox (MkOutboxRow n agg ty (SE_EventType e) (SE_Payload e) false now None)])
  end.

(** With the next number of its sequence, this is the statement of Postgres.v
    and Projection.v. *)
Lemma statement_spec q d :
  sql_stmt q d =
  ((statement q (default 0 (sequence q d) + 1) d).1,
   apply_writes (statement q (default 0 (sequence q d) + 1) d).2 (draw q d)).
Proof.
  destruct q as [delta ts id|id|event entry bal|agg ty version e|agg ty e now]; cbn.
  - unfold unit_stmt, update_balance. destruct (t_account_balances d !! id) as [v|]; [|done].
    by destruct (_ && _).
  - unfold select_balance. by destruct (t_account_balances d !! id).
  - done.
  - unfold unit_stmt, insert_event. by destruct (existsb _ _).
  - done.
Qed.

(** ** The server *)

(** An open transaction: the statement it is at, the number drawn for it if
    any, and what it has written. [ot_call] and [ot_trace], the statements so
    far with their answers, are there for the proofs. *)
Record open_tx := MkOpen {
  ot_tree : tree;
  ot_number : option Z;
  ot_writes : list write;
  ot_call : transaction_call;
  ot_trace : list (sql * res Z);
}.

(** What has been done to the committed tables, in order. *)
Inductive unit_of_work :=
| Committed (c : transaction_call)
| Opened (e : AccountOpenedEvent).

Record server := MkServer {
  y_db : DB;
  y_open : gmap nat open_tx;
  y_log : list unit_of_work;
}.

Definition started (d : DB) : server := MkServer d ∅ [].

(** The rows of account_balances, and the keys of events, that a transaction
    holds until its end. *)
Definition locks_balance (id : string) (ws : list write) : Prop :=
  exists row, WriteBalance id row ∈ ws.
Definition holds_version (agg : string) (version : Z) (ws : list write) : Prop :=
  exists row, WriteEvent row ∈ ws /\ has_version agg version row = true.

(** The statement [q] has to wait for a transaction that has written [ws]. *)
Definition waits_for (q : sql) (ws : list write) : Prop :=
  match q with
  | SqlUpdateBalance _ _ id => locks_balance id ws
  | SqlInsertEvent agg _ version _ => holds_version agg version ws
  | _ => False
  end.

Definition blocked (q : sql) (i : nat) (s : server) : Prop :=
  exists j y, j <> i /\ y_open s !! j = Some y /\ waits_for q (ot_writes y).

(** The updates that a transaction has made or tried. *)
Definition has_updated (id : string) (tr : list (sql * res Z)) : Prop :=
  exists delta ts r, (SqlUpdateBalance delta ts id, r) ∈ tr.

(** When [ProjectAccountOpened] may run: at any time, as nothing in the program
    prevents it; or not while an open transaction has tried to update the row
    that it inserts. *)
Definition anytime (s : server) (e : AccountOpenedEvent) : Prop := True.
Definition settled (s : server) (e : AccountOpenedEvent) : Prop :=
  AOE_AccountID e ∈ dom (t_account_balances (y_db s)) \/
  forall i y, y_open s !! i = Some y -> ~ has_updated (AOE_AccountID e) (ot_trace y).

Inductive server_step (may_open : server -> AccountOpenedEvent -> Prop) :
    server -> server -> Prop :=
| srv_begin i c d os l :
    os !! i = None ->
    server_step may_open (MkServer d os l)
      (MkServer d (<[i := MkOpen (tree_of c) None [] c []]> os) l)
| srv_draw i q k ws c tr n d os l :
    os !! i = Some (MkOpen (Send q k) None ws c tr) ->
    sequence q d = Some n ->
    server_step may_open (MkServer d os l)
      (MkServer (draw q d) (<[i := MkOpen (Send q k) (Some (n + 1)) ws c tr]> os) l)
| srv_statement i q k number ws c tr r ws' d os l :
    os !! i = Some (MkOpen (Send q k) number ws c tr) ->
    (sequence q d <> None -> number <> None) ->
    ~ blocked q i (MkServer d os l) ->
    statement q (default 0 number) (apply_writes ws d) = (r, ws') ->
    server_step may_open (MkServer d os l)
      (MkServer d (<[i := MkOpen (k r) None (ws ++ ws') c (tr ++ [(q, r)])]> os) l)
| srv_rollback i y d os l :
    (* an error, a deadlock, a lost connection or the end of the process *)
    os !! i = Some y ->
    server_step may_open (MkServer d os l) (MkServer d (delete i os) l)
| srv_commit i number ws c tr d os l :
    os !! i = Some (MkOpen (Finish (Ok tt)) number ws c tr) ->
    server_step may_open (MkServer d os l)
      (MkServer (apply_writes ws d) (delete i os) (l ++ [Committed c]))
| srv_opened e d os l :
    may_open (MkServer d os l) e ->
    server_step may_open (MkServer d os l)
      (MkServer (insert_view e d).2 os (l ++ [Opened e])).

(** ** One after the other *)

Definition do_unit (d : DB) (u : unit_of_work) : DB :=
  match u with
  | Committed c => (run (tree_of c) d).2
  | Opened e => (insert_view e d).2
  end.

Definition serial (l : list unit_of_work) (d : DB) : DB := fold_left do_unit l d.

(** Every transaction of [l] succeeds where it stands. *)
Fixpoint all_succeed (l : list unit_of_work) (d : DB) : Prop :=
  match l with
  | [] => True
  | u :: l =>
      match u with Committed c => (run (tree_of c) d).1 = Ok tt | Opened _ => True end /\
      all_succeed l (do_unit d u)
  end.

(** ** Tables up to the numbers of their rows *)

Definition erase_event (r : EventRow) : EventRow :=
  MkEventRow 0 (ev_aggregate_id r) (ev_aggregate_type r) (ev_event_type r) (ev_version r)
    (ev_payload r) (ev_occurred_at r).
Definition erase_outbox (r : OutboxRow) : OutboxRow :=
  MkOutboxRow 0 (ob_aggregate_id r) (ob_aggregate_type r) (ob_event_type r) (ob_payload r)
    (ob_published r) (ob_created_at r) (ob_published_at r).
Definition erase_history (r : TransactionHistoryEntry) : TransactionHistoryEntry :=
  MkTransactionHistoryEntry 0 (th_TransactionID r) (th_AccountID r) (th_EntryType r) (th_Amount r)
    (th_Currency r) (th_Description r) (th_BalanceAfter r) (th_CreatedAt r).
Definition erase_db (d : DB) : DB :=
  MkDB (t_accounts d) (erase_event <$> t_events d) (t_snapshots d) (erase_outbox <$> t_outbox d)
    (t_account_balances d) (erase_history <$> t_transaction_history d) 0 0 0.

#[export] Instance db_equiv : Equiv DB := fun d d' => erase_db d = erase_db d'.
#[export] Instance db_equivalence : Equivalence (≡@{DB}).
Proof. split; unfold equiv, db_equiv; repeat intro; congruence. Qed.
End isolation.
