(* ===== verification/ReadModel.v ===== *)
(** * The read model

    What the projector does to the tables account_balances and
    transaction_history: an invariant of the two tables through every
    operation, and the exact balances when the database answers. *)
From S2P Require Import Prelude Go Identifiers Money Transaction Account Book Events Ports.
From S2P Require Import World LedgerService LedgerSafety LedgerLive Transfer TransferService.
From S2P Require Import InMemory Postgres Projection Production Reachable EventLog.
From stdpp Require Import base gmap strings list.
Local Open Scope Z_scope.

Section readmodel.
Context {U : UuidLib} {O : Oracle}.

(** ** The balance of an account and its latest history row agree *)

Definition rows_of (k : string) (h : list TransactionHistoryEntry) : list TransactionHistoryEntry :=
  List.filter (fun r => bool_decide (th_AccountID r = k)) h.
Definition latest (k : string) (h : list TransactionHistoryEntry) : Z :=
  default 0 (last (th_BalanceAfter <$> rows_of k h)).

(** What a history row has added to the balance of its account. *)
Definition row_delta (r : TransactionHistoryEntry) : Z :=
  if bool_decide (th_EntryType r = "CREDIT") then th_Amount r else wrap64 (- th_Amount r).
Definition history_sum (k : string) (h : list TransactionHistoryEntry) : Z := sumZ row_delta (rows_of k h).

Record consistent (d : DB) : Prop := {
  con_latest k v : t_account_balances d !! k = Some v ->
    av_Balance v = latest k (t_transaction_history d);
  con_known r : r ∈ t_transaction_history d -> th_AccountID r ∈ dom (t_account_balances d);
  con_total k v : t_account_balances d !! k = Some v ->
    av_Balance v = history_sum k (t_transaction_history d) /\
    av_Version v = 1 + Z.of_nat (length (rows_of k (t_transaction_history d)));
  con_running r before after : t_transaction_history d = before ++ r :: after ->
    th_BalanceAfter r = history_sum (th_AccountID r) (before ++ [r]);
}.

Definition history_row (event : TransactionRecordedEvent) (entry : EntryEventData) (id bal : Z)
    : TransactionHistoryEntry :=
  MkTransactionHistoryEntry id (TRE_TransactionID event) (EED_AccountID entry) (EED_Type entry)
    (EED_Amount entry) (EED_Currency entry) (TRE_Description event) bal
    (db_time (TRE_Timestamp event)).

Definition moved_view (v : AccountView) (delta : Z) (ts : time) : AccountView :=
  MkAccountView (av_AccountID v) (av_Name v) (av_AccountType v) (av_Currency v)
    (av_Balance v + delta) (av_Status v) (av_Version v + 1) (db_time ts).

(** One entry that is projected: its account is known, its balance moves and
    the row that is added holds the new balance. *)
Lemma projectEntry_Ok_inv event entry w w' :
  projectEntry event entry w = (Ok tt, w') ->
  exists v id, t_account_balances (w_db w) !! EED_AccountID entry = Some v /\
    t_account_balances (w_db w') =
      <[EED_AccountID entry := moved_view v (entryDelta entry) (TRE_Timestamp event)]>
        (t_account_balances (w_db w)) /\
    t_transaction_history (w_db w') = t_transaction_history (w_db w) ++
      [history_row event entry id (av_Balance v + entryDelta entry)].
Proof.
  unfold projectEntry. intros (u1 & w1 & H1 & H)%bind_Ok_inv.
  apply bind_Ok_inv in H as (bal & w2 & H2 & H3).
  apply wrapErr_Ok_inv, exec_at_Ok_inv in H1 as (_ & H1 & _).
  apply wrapErr_Ok_inv, exec_at_Ok_inv in H2 as (_ & H2 & _).
  apply wrapErr_Ok_inv, exec_at_Ok_inv in H3 as (_ & H3 & _).
  unfold update_balance in H1. unfold select_balance in H2. unfold insert_history in H3.
  destruct (t_account_balances (w_db w) !! EED_AccountID entry) as [v|] eqn:Hv.
  2:{ injection H1 as _ Hd1. by rewrite <- Hd1, Hv in H2. }
  destruct (in_int64b _ && in_int64b _); [|done]. injection H1 as _ Hd1.
  rewrite <- Hd1 in H2. simpl in H2. rewrite lookup_insert_eq in H2. injection H2 as Hb Hd2.
  injection H3 as Hd3. rewrite <- Hd3, <- Hd2, <- Hb. eexists v, _. by split_and!.
Qed.

Lemma latest_app k h r :
  latest k (h ++ [r]) = if bool_decide (th_AccountID r = k) then th_BalanceAfter r else latest k h.
Proof.
  unfold latest, rows_of. rewrite List.filter_app, fmap_app. simpl.
  case_bool_decide; csimpl; [by rewrite last_snoc|by rewrite app_nil_r].
Qed.

Lemma rows_of_app k h r :
  rows_of k (h ++ [r]) = rows_of k h ++ if bool_decide (th_AccountID r = k) then [r] else [].
Proof. unfold rows_of. rewrite List.filter_app. simpl. by case_bool_decide. Qed.

Lemma history_sum_app k h r :
  history_sum k (h ++ [r]) = history_sum k h + if bool_decide (th_AccountID r = k) then row_delta r else 0.
Proof. unfold history_sum. rewrite rows_of_app, sumZ_app. case_bool_decide; simpl; lia. Qed.

Lemma rows_of_none k h : (forall r, r ∈ h -> th_AccountID r <> k) -> rows_of k h = [].
Proof.
  intros Hno. unfold rows_of. induction h as [|r h IH]; simpl; [done|].
  rewrite bool_decide_eq_false_2 by (apply Hno; constructor). apply IH. intros r' Hr'.
  apply Hno. by constructor.
Qed.

(** The tables after an entry has been projected. *)
Lemma moved_consistent d d' event entry v id :
  t_account_balances d !! EED_AccountID entry = Some v ->
  t_account_balances d' =
    <[EED_AccountID entry := moved_view v (entryDelta entry) (TRE_Timestamp event)]>
      (t_account_balances d) ->
  t_transaction_history d' = t_transaction_history d ++
    [history_row event entry id (av_Balance v + entryDelta entry)] ->
  consistent d -> consistent d'.
Proof.
  intros Hv Hb Hh [H1 H2 H3 H4].
  destruct (H3 _ _ Hv) as [Ht Hn]. split; rewrite ?Hb, ?Hh.
  - intros k x. rewrite lookup_insert_Some, latest_app. simpl. intros [[<- <-]|[Hne Hx]].
    + by rewrite bool_decide_eq_true_2.
    + rewrite bool_decide_eq_false_2 by done. by apply H1.
  - intros r Hr. rewrite dom_insert_L. apply elem_of_union.
    apply elem_of_app in Hr as [Hr| ->%list_elem_of_singleton]; [right; by apply H2|].
    left. simpl. by apply elem_of_singleton.
  - intros k x. rewrite lookup_insert_Some, history_sum_app, rows_of_app. cbn [history_row th_AccountID].
    intros [[<- <-]|[Hne Hx]].
    + rewrite bool_decide_eq_true_2, length_app by done. simpl. rewrite Ht, Hn. split; [done|lia].
    + rewrite bool_decide_eq_false_2, app_nil_r, Z.add_0_r by done. by apply H3.
  - intros r before after He. destruct after as [|x after] using rev_ind.
    + apply app_inj_tail in He as [<- <-]. rewrite history_sum_app. cbn [history_row th_AccountID th_BalanceAfter].
      rewrite bool_decide_eq_true_2, Ht by done. done.
    + clear IHafter. rewrite app_comm_cons, app_assoc in He. apply app_inj_tail in He as [He _]. by eapply H4.
Qed.

Lemma projectEntry_consistent event entry w w' :
  projectEntry event entry w = (Ok tt, w') -> consistent (w_db w) -> consistent (w_db w').
Proof. intros (v & id & Hv & Hb & Hh)%projectEntry_Ok_inv. by eapply moved_consistent. Qed.

Lemma project_loop_consistent event es w w' :
  forEach es (projectEntry event) w = (Ok tt, w') -> consistent (w_db w) -> consistent (w_db w').
Proof.
  revert w. induction es as [|e es IH]; intros w; cbn [forEach]; [by intros [= <-]|].
  intros ([] & w1 & H1 & H2)%bind_Ok_inv Hc. eapply IH; [done|].
  by eapply projectEntry_consistent.
Qed.

Lemma insert_view_consistent e d : consistent d -> consistent (insert_view e d).2.
Proof.
  intros [H1 H2 H3 H4]. unfold insert_view.
  destruct (t_account_balances d !! AOE_AccountID e) eqn:He; [done|].
  assert (rows_of (AOE_AccountID e) (t_transaction_history d) = []) as Hno.
  { apply rows_of_none. intros r Hr Hk. apply H2 in Hr. rewrite Hk in Hr. by apply not_elem_of_dom in He. }
  split; simpl; [| | |exact H4].
  - intros k v. rewrite lookup_insert_Some. intros [[<- <-]|[_ Hv]]; [|by apply H1]. unfold latest. by rewrite Hno.
  - intros r Hr. rewrite dom_insert_L. apply elem_of_union. right. by apply H2.
  - intros k v. rewrite lookup_insert_Some. intros [[<- <-]|[_ Hv]]; [|by apply H3]. unfold history_sum. by rewrite Hno.
Qed.

Definition read_consistent (w : World) : Prop := consistent (w_db w).
Definition read_tables (d : DB) : gmap string AccountView * list TransactionHistoryEntry :=
  (t_account_balances d, t_transaction_history d).
#[global] Instance read_tables_table : TableOf read_tables. Proof. done. Qed.

Lemma consistent_tables d d' : read_tables d' = read_tables d -> consistent d -> consistent d'.
Proof. intros [= Hb Hh] [H1 H2 H3 H4]. by split; rewrite ?Hb, ?Hh. Qed.

Lemma empty_consistent d : t_account_balances d = ∅ -> t_transaction_history d = [] -> consistent d.
Proof.
  intros Hb Hh. split; rewrite ?Hb, ?Hh; try done; [intros r Hr; by apply elem_of_nil in Hr|].
  intros r [|? ?] after; done.
Qed.

Lemma untouched_read {A} (m : St World A) : Steps (untouched read_tables) m -> Keeps read_consistent m.
Proof. intros H w. destruct (H w) as [Ht _ _ _ _]. by apply consistent_tables. Qed.

#[global] Instance read_consistent_app : AppInvariant read_consistent.
Proof.
  split; try (by intros w); try (by intros ? w).
  - intros id. by apply untouched_read, pg_FindByID_untouched.
  - by apply untouched_read, pg_FindAll_untouched.
  - intros a. by apply untouched_read, pg_Save_untouched.
  - intros agg ty n es. by apply untouched_read, append_untouched.
  - intros e. apply keeps_wrapErr. intros w Hw. unfold exec, exec_at.
    pose proof (insert_view_consistent e (w_db w) Hw) as H.
    destruct (db_fault _); [by destruct (insert_view e (w_db w))|done|by destruct (insert_view e (w_db w))].
  - intros e w Hw. unfold ProjectTransactionRecorded.
    destruct (with_tx_cases (fun _ => forEach (TRE_Entries e) (projectEntry e)) w)
      as [[_ Hg]|([] & w1 & Hb & Hdb & _)].
    + eapply consistent_tables; [apply Hg; apply _|done].
    + unfold read_consistent. rewrite Hdb. by eapply project_loop_consistent.
Qed.

(** ** The projection when the database answers *)

(** Every balance can move by [a], and every row be changed [n] times. *)
Definition room (a n : Z) (t : gmap string AccountView) : Prop :=
  forall k v, t !! k = Some v ->
    min_int64 + a <= av_Balance v <= max_int64 - a /\ min_int64 <= av_Version v <= max_int64 - n.

Definition magnitude (entry : EntryEventData) : Z := Z.abs (entryDelta entry).
Definition delta_on (k : string) (entry : EntryEventData) : Z :=
  if bool_decide (EED_AccountID entry = k) then entryDelta entry else 0.

Lemma exec_at_up {A} (q : stmt A) w a d :
  database_up w -> q (w_db w) = (Ok a, d) ->
  exec_at q w = (Ok a, put_db (tick_stmt w) d) /\ database_up (put_db (tick_stmt w) d).
Proof.
  intros Hup Hq. unfold exec_at. rewrite Hup by lia. rewrite Hq. split; [done|].
  intros n Hn. apply Hup. simpl in Hn. lia.
Qed.

Lemma projectEntry_run event entry w v :
  database_up w -> t_account_balances (w_db w) !! EED_AccountID entry = Some v ->
  in_int64 (av_Balance v + entryDelta entry) -> in_int64 (av_Version v + 1) ->
  exists w', projectEntry event entry w = (Ok tt, w') /\ database_up w'.
Proof.
  intros Hup Hv Hb Hn. unfold projectEntry.
  set (d1 := set_balances (w_db w) (<[EED_AccountID entry :=
     moved_view v (entryDelta entry) (TRE_Timestamp event)]> (t_account_balances (w_db w)))).
  assert (H1 : update_balance (entryDelta entry) (TRE_Timestamp event) (EED_AccountID entry) (w_db w) =
               (Ok tt, d1)).
  { unfold update_balance. rewrite Hv. by rewrite !(proj2 (in_int64b_spec _)) by done. }
  destruct (exec_at_up _ _ _ _ Hup H1) as [E1 Hup1].
  rewrite (bind_run _ _ _ _ _ (wrapErr_run _ _ _ _ _ E1)).
  assert (H2 : select_balance (EED_AccountID entry) d1 = (Ok (av_Balance v + entryDelta entry), d1)).
  { unfold select_balance, d1; simpl. by rewrite lookup_insert_eq. }
  destruct (exec_at_up _ (put_db (tick_stmt w) d1) _ _ Hup1 H2) as [E2 Hup2].
  rewrite (bind_run _ _ _ _ _ (wrapErr_run _ _ _ _ _ E2)).
  edestruct (exec_at_up (insert_history event entry (av_Balance v + entryDelta entry)) _ tt _ Hup2 eq_refl)
    as [E3 Hup3].
  eexists. split; [exact (wrapErr_run _ _ _ _ _ E3)|exact Hup3].
Qed.

Lemma room_step a n t k v delta ts :
  room a n t -> t !! k = Some v -> room (a - Z.abs delta) (n - 1) (<[k := moved_view v delta ts]> t).
Proof.
  intros Hr Hv k' v'. rewrite lookup_insert_Some. intros [[<- <-]|[_ Hv']].
  - destruct (Hr _ _ Hv). simpl. lia.
  - destruct (Hr _ _ Hv'). lia.
Qed.

(** The loop: every account moves by the sum of its deltas. *)
Lemma project_loop_run event es w :
  database_up w -> room (sumZ magnitude es) (Z.of_nat (length es)) (t_account_balances (w_db w)) ->
  (forall e, e ∈ es -> EED_AccountID e ∈ dom (t_account_balances (w_db w))) ->
  exists w', forEach es (projectEntry event) w = (Ok tt, w') /\ database_up w' /\
    dom (t_account_balances (w_db w')) = dom (t_account_balances (w_db w)) /\
    forall k v, t_account_balances (w_db w) !! k = Some v ->
      exists v', t_account_balances (w_db w') !! k = Some v' /\
        av_Balance v' = av_Balance v + sumZ (delta_on k) es /\
        av_Version v' <= av_Version v + Z.of_nat (length es) /\ av_Version v <= av_Version v'.
Proof.
  revert w. induction es as [|e es IH]; intros w Hup Hroom Hk; cbn [forEach].
  { exists w. split_and!; [done..|]. intros k v Hv. exists v. simpl. split_and!; [done|lia..]. }
  assert (exists v, t_account_balances (w_db w) !! EED_AccountID e = Some v) as [v Hv].
  { apply elem_of_dom, Hk. constructor. }
  cbn [sumZ length] in Hroom. unfold magnitude at 1 in Hroom.
  assert (0 <= sumZ magnitude es) by (apply sumZ_nonneg; intros; unfold magnitude; lia).
  destruct (Hroom _ _ Hv) as [Hb Hn].
  destruct (projectEntry_run event e w v Hup Hv) as (w1 & H1 & Hup1);
    [unfold in_int64; lia..|]. rewrite (bind_run _ _ _ _ _ H1).
  apply projectEntry_Ok_inv in H1 as (v0 & id & Hv0 & Hb1 & _).
  assert (v0 = v) as -> by congruence.
  pose proof (room_step _ _ _ _ _ (entryDelta e) (TRE_Timestamp event) Hroom Hv) as Hroom1.
  rewrite <- Hb1 in Hroom1.
  assert (Hdom1 : dom (t_account_balances (w_db w1)) = dom (t_account_balances (w_db w))).
  { rewrite Hb1, dom_insert_L. apply elem_of_dom_2 in Hv. set_solver. }
  destruct (IH w1 Hup1) as (w' & H2 & Hup' & Hdom & Hall).
  { intros k x Hx. destruct (Hroom1 k x Hx). lia. }
  { intros e' He'. rewrite Hdom1. apply Hk. by constructor. }
  exists w'. split_and!; [done|done|congruence|]. intros k x Hx.
  assert (exists y, t_account_balances (w_db w1) !! k = Some y /\
            av_Balance y = av_Balance x + delta_on k e /\
            av_Version y <= av_Version x + 1 /\ av_Version x <= av_Version y)
    as (y & Hy & Hby & Hny & Hny').
  { rewrite Hb1, lookup_insert. unfold delta_on. case_decide as E.
    - subst k. assert (x = v) as -> by congruence. rewrite bool_decide_eq_true_2 by done.
      eexists. split; [done|]. simpl. lia.
    - rewrite bool_decide_eq_false_2 by done. exists x. split_and!; [done|lia..]. }
  destruct (Hall k y Hy) as (z & Hz & Hbz & Hnz & Hnz'). exists z.
  cbn [sumZ length]. split_and!; [done|lia..].
Qed.

Lemma ProjectTransactionRecorded_run event w :
  database_up w ->
  room (sumZ magnitude (TRE_Entries event)) (Z.of_nat (length (TRE_Entries event)))
    (t_account_balances (w_db w)) ->
  (forall e, e ∈ TRE_Entries event -> EED_AccountID e ∈ dom (t_account_balances (w_db w))) ->
  exists w', ProjectTransactionRecorded event w = (Ok tt, w') /\
    dom (t_account_balances (w_db w')) = dom (t_account_balances (w_db w)) /\
    forall k v, t_account_balances (w_db w) !! k = Some v ->
      exists v', t_account_balances (w_db w') !! k = Some v' /\
        av_Balance v' = av_Balance v + sumZ (delta_on k) (TRE_Entries event).
Proof.
  intros Hup Hroom Hk.
  destruct (project_loop_run event (TRE_Entries event) (tick_stmt w)) as (w1 & H1 & Hup1 & Hd & Hall).
  { eapply database_up_later; [|done]. simpl. lia. } { done. } { done. }
  unfold ProjectTransactionRecorded, with_tx. rewrite Hup by lia. cbn beta zeta. rewrite H1.
  rewrite Hup1 by lia. eexists. split; [done|]. split; [done|]. intros k v Hv.
  destruct (Hall k v Hv) as (v' & Hv' & Hb & _). eauto.
Qed.

(** ** From a recorded transaction to the read model *)

(** Nothing before the projection writes to the read model. *)
Record read_frame (w w' : World) : Prop := {
  rf_balances : t_account_balances (w_db w') = t_account_balances (w_db w);
  rf_stmt : (w_stmt w <= w_stmt w')%nat;
}.
#[global] Instance read_frame_preorder : PreOrder read_frame.
Proof. split; [by intros w|]. intros w1 w2 w3 [] []. split; [congruence|lia]. Qed.

Lemma untouched_frame {A} (m : St World A) :
  Steps (untouched t_account_balances) m -> Steps read_frame m.
Proof. intros H w. by destruct (H w) as [? _ _ ? _]. Qed.

#[local] Instance now_frame : Steps read_frame time_Now.
Proof. by intros w. Qed.
#[local] Instance uuid_frame : Steps read_frame uuid_NewV7.
Proof. by intros w. Qed.
#[local] Instance tx_frame tx : Steps read_frame (mem_tx_Save tx).
Proof. by intros w. Qed.
#[local] Instance find_frame id : Steps read_frame (pg_FindByID id).
Proof. apply untouched_frame, pg_FindByID_untouched. Qed.
#[local] Instance save_frame a : Steps read_frame (pg_Save a).
Proof. by apply untouched_frame, pg_Save_untouched. Qed.
#[local] Instance append_frame agg ty n es : Steps read_frame (AppendWithOutbox agg ty n es).
Proof. by apply untouched_frame, append_untouched. Qed.
#[local] Instance newEntries_frame ps now : Steps read_frame (newEntries ps now).
Proof. induction ps; simpl; unfold newEntry, GenerateEntryID; apply _. Qed.
#[local] Instance NewTransaction_frame ps d : Steps read_frame (NewTransaction ps d).
Proof.
  unfold NewTransaction, construct, GenerateTransactionID.
  destruct ps as [|p [|q ps]]; try apply _.
  apply steps_bind; [apply _..|intros _]. apply steps_bind; [apply _..|intros _].
  destruct (totals _ _ _). destruct (negb _); apply _.
Qed.
#[local] Instance applyEntry_frame e : Steps read_frame (applyEntry production e).
Proof.
  unfold applyEntry, entryOp, Account_Debit, Account_Credit. simpl.
  apply steps_bind; [apply _..|intros a]. apply steps_bind; [apply _| |intros; apply _].
  apply steps_wrapErr. repeat (case_match; try apply _);
    repeat (apply steps_bind; [apply _..|intros ?]); try (case_match; apply _); apply _.
Qed.

Lemma steps_eq {A} (m : St World A) w a w' : Steps read_frame m -> m w = (a, w') -> read_frame w w'.
Proof. intros Hm H. pose proof (Hm w) as Hw. by rewrite H in Hw. Qed.

(** The event of a transaction and the entries of its command. *)
Definition param_delta (p : EntryParams) : Z :=
  if bool_decide (EntryParams_Type p = "CREDIT") then params_amount p else wrap64 (- params_amount p).
Definition param_on (k : string) (p : EntryParams) : Z :=
  if bool_decide (AccountID_String (EntryParams_AccountID p) = k) then param_delta p else 0.

Lemma entry_event_sums k es :
  sumZ (delta_on k) (entryEventData <$> es) = sumZ (param_on k) (Entry_params <$> es) /\
  sumZ magnitude (entryEventData <$> es) =
    sumZ (fun p => Z.abs (param_delta p)) (Entry_params <$> es).
Proof. by rewrite !sumZ_fmap. Qed.

Lemma RecordTransaction_projects cmd w tx w' :
  let ps := cmdParams <$> RTC_Entries cmd in
  database_up w -> RecordTransaction production cmd w = (Ok tx, w') ->
  room (sumZ (fun p => Z.abs (param_delta p)) ps) (Z.of_nat (length ps))
    (t_account_balances (w_db w)) ->
  (forall p, p ∈ ps ->
     AccountID_String (EntryParams_AccountID p) ∈ dom (t_account_balances (w_db w))) ->
  dom (t_account_balances (w_db w')) = dom (t_account_balances (w_db w)) /\
  forall k v, t_account_balances (w_db w) !! k = Some v ->
    exists v', t_account_balances (w_db w') !! k = Some v' /\
      av_Balance v' = av_Balance v + sumZ (param_on k) ps.
Proof.
  intros ps Hup H Hroom Hk. rewrite RecordTransaction_steps in H.
  destruct (entryParams 0 (RTC_Entries cmd)) as [ps'|e] eqn:Hps; [|done].
  apply entryParams_Ok in Hps as [_ ->]. fold ps in H.
  destruct (NewTransaction ps (RTC_Description cmd) w) as [[tx1|e] w1] eqn:Ht; [|done].
  pose proof (steps_eq _ _ _ _ (NewTransaction_frame _ _) Ht) as F1.
  apply NewTransaction_Ok_inv in Ht as (_ & Htx & _).
  assert (Hes : Entry_params <$> Transaction_entries tx1 = ps) by (rewrite Htx; apply construct_spec).
  clear Htx.
  destruct (forEach (Transaction_entries tx1) (applyEntry production) w1) as [[[]|e] w2] eqn:Hf; [|done].
  pose proof (steps_eq _ _ _ _ _ Hf) as F2. unfold emitRecorded in H.
  apply bind_Ok_inv in H as ([] & w3 & H3 & H). apply wrapErr_Ok_inv in H3.
  pose proof (steps_eq _ _ _ _ (tx_frame _) H3) as F3. rewrite bindS_run in H.
  set (event := MkTransactionRecordedEvent _ _ _ _ _) in H.
  pose proof (now_frame w3) as F4.
  apply bind_Ok_inv in H as ([] & w5 & H5 & H). apply wrapErr_Ok_inv in H5.
  assert (F5 : read_frame (time_Now w3).2 w5).
  { eapply steps_eq; [|exact H5]. unfold appendEvent, appendStored. simpl. apply _. }
  rewrite bindS_run in H. unfold ret in H.
  assert (Hw' : w' = (projectTransactionRecorded production event w5).2) by congruence. clear H.
  unfold projectTransactionRecorded in Hw'. simpl in Hw'. rewrite bindS_run in Hw'.
  assert (F : read_frame w w5) by (do 4 (etrans; [eassumption|]); assumption).
  destruct F as [Fb Fs]. clear F1 F2 F3 F4 F5.
  destruct (ProjectTransactionRecorded_run event w5) as (w6 & H6 & Hd & Hall).
  - by eapply database_up_later.
  - rewrite Fb. unfold event; simpl. rewrite (proj2 (entry_event_sums "" _)), Hes, length_fmap.
    assert (length (Transaction_entries tx1) = length ps) as -> by (by rewrite <- Hes, length_fmap).
    exact Hroom.
  - rewrite Fb. unfold event; simpl. intros e (x & -> & Hx)%list_elem_of_fmap. apply (Hk (Entry_params x)).
    rewrite <- Hes. by apply list_elem_of_fmap_2.
  - rewrite H6 in Hw'. simpl in Hw'. subst w6. rewrite Fb in Hd, Hall. split; [done|].
    intros k v Hv. destruct (Hall k v Hv) as (v' & Hv' & Hb). exists v'. split; [done|].
    unfold event in Hb; simpl in Hb. by rewrite (proj1 (entry_event_sums k _)), Hes in Hb.
Qed.
End readmodel.
