(* ===== verification/Serializability.v ===== *)
(** * Interleaved transactions and serial ones

    The invariant behind IsolationTheorems.v: as long as no account is opened
    in the read model while a transaction that has tried to update its row is
    open, every open transaction of Isolation.v is explained by the committed
    tables, as if its statements had all been executed just now; so it can be
    moved to its commit. *)
From S2P Require Import Prelude Go Identifiers Money Transaction Account Book Events Ports.
From S2P Require Import World Postgres Projection Production Reachable EventLog ReadModel Isolation.
From stdpp Require Import base gmap strings list relations.
Local Open Scope string_scope.
Local Open Scope list_scope.
Local Open Scope Z_scope.

Section serializability.
Context {U : UuidLib} {O : Oracle}.

(** ** Tables up to the numbers of their rows *)

Definition erase_write (w : write) : write :=
  match w with
  | WriteBalance id row => WriteBalance id row
  | WriteHistory row => WriteHistory (erase_history row)
  | WriteEvent row => WriteEvent (erase_event row)
  | WriteOutbox row => WriteOutbox (erase_outbox row)
  end.

Lemma erase_write_inv w w' :
  erase_write w = erase_write w' ->
  match w, w' with
  | WriteBalance id row, WriteBalance id' row' => id = id' /\ row = row'
  | WriteHistory row, WriteHistory row' => erase_history row = erase_history row'
  | WriteEvent row, WriteEvent row' => erase_event row = erase_event row'
  | WriteOutbox row, WriteOutbox row' => erase_outbox row = erase_outbox row'
  | _, _ => False
  end.
Proof.
  destruct w, w'; cbn; intros H; try discriminate H; [by injection H| | |];
    injection H; intros; unfold erase_history, erase_event, erase_outbox; congruence.
Qed.

Lemma apply_write_equiv (d d' : DB) w w' :
  d ≡ d' -> erase_write w = erase_write w' -> apply_write d w ≡ apply_write d' w'.
Proof.
  unfold equiv, db_equiv, erase_db. intros [= H1 H2 H3 H4 H5 H6] Hw%erase_write_inv.
  destruct w, w'; try done; cbn; rewrite ?fmap_app; csimpl; try congruence.
  destruct Hw as [-> ->]. congruence.
Qed.

Lemma apply_writes_equiv ws ws' : forall d d' : DB,
  d ≡ d' -> erase_write <$> ws = erase_write <$> ws' -> apply_writes ws d ≡ apply_writes ws' d'.
Proof.
  revert ws'. induction ws as [|w ws IH]; intros [|w' ws'] d d' Hd Hw; try done.
  simplify_eq/=. apply IH; [by apply apply_write_equiv|done].
Qed.

Lemma has_version_erase agg v l :
  existsb (has_version agg v) l = existsb (has_version agg v) (erase_event <$> l).
Proof. induction l as [|r l IH]; csimpl; [done|]. by rewrite IH. Qed.

(** A statement answers and writes the same, but for the number of the row. *)
Lemma statement_equiv q n n' (d d' : DB) :
  d ≡ d' ->
  (statement q n d).1 = (statement q n' d').1 /\
  erase_write <$> (statement q n d).2 = erase_write <$> (statement q n' d').2.
Proof.
  unfold equiv, db_equiv, erase_db. intros [= H1 H2 H3 H4 H5 H6].
  destruct q as [delta ts id|id|event entry bal|agg ty version e|agg ty e now]; cbn.
  - rewrite H5. destruct (t_account_balances d' !! id); [|done]. by destruct (_ && _).
  - unfold select_balance. rewrite H5. by destruct (t_account_balances d' !! id).
  - done.
  - rewrite (has_version_erase _ _ (t_events d)), H2, <- has_version_erase.
    by destruct (existsb _ _).
  - done.
Qed.

Lemma draw_equiv q (d : DB) : draw q d ≡ d.
Proof. by destruct q. Qed.

(** The statement of Postgres.v and its writes, on tables that are the same. *)
Lemma sql_stmt_equiv q n (d d' : DB) :
  d ≡ d' ->
  (sql_stmt q d').1 = (statement q n d).1 /\
  (sql_stmt q d').2 ≡ apply_writes (statement q n d).2 d.
Proof.
  intros Hd. rewrite statement_spec. cbn [fst snd].
  destruct (statement_equiv q n (default 0 (sequence q d') + 1) d d' Hd) as [Hr Hw].
  split; [done|]. apply apply_writes_equiv; [|done]. by rewrite draw_equiv.
Qed.

Lemma apply_writes_app ws ws' d :
  apply_writes (ws ++ ws') d = apply_writes ws' (apply_writes ws d).
Proof. apply fold_left_app. Qed.

(** ** What a transaction reads *)

(** The row of an account that a transaction finds: its own last, or the one
    committed. *)
Lemma apply_balance ws : forall d id,
  (t_account_balances (apply_writes ws d) !! id = t_account_balances d !! id /\
     ~ locks_balance id ws) \/
  (locks_balance id ws /\
     forall d', t_account_balances (apply_writes ws d') !! id =
                t_account_balances (apply_writes ws d) !! id /\
       is_Some (t_account_balances (apply_writes ws d) !! id)).
Proof.
  induction ws as [|w ws IH] using rev_ind; intros d id.
  { left. split; [done|]. intros [row Hr]. by apply elem_of_nil in Hr. }
  assert (Hl : locks_balance id (ws ++ [w]) <->
               locks_balance id ws \/ exists row, w = WriteBalance id row).
  { unfold locks_balance. setoid_rewrite elem_of_app. setoid_rewrite list_elem_of_singleton.
    naive_solver. }
  assert (Hw : (exists row, w = WriteBalance id row /\ forall d0,
                  t_account_balances (apply_write d0 w) !! id = Some row) \/
               ((forall row, w <> WriteBalance id row) /\ forall d0,
                  t_account_balances (apply_write d0 w) !! id = t_account_balances d0 !! id)).
  { destruct w as [id' row|row|row|row]; try (right; split; [by intros|done]).
    destruct (decide (id' = id)) as [->|Hne]; [left; exists row; split; [done|]|right; split].
    - intros d0. cbn. by rewrite lookup_insert_eq.
    - intros row'. congruence.
    - intros d0. cbn. by rewrite lookup_insert_ne. }
  rewrite Hl. setoid_rewrite apply_writes_app. cbn [apply_writes fold_left].
  destruct Hw as [(row & -> & Hw)|[Hn Hw]].
  - right. split; [right; eauto|]. intros d'. rewrite !Hw. eauto.
  - setoid_rewrite Hw. destruct (IH d id) as [[E Hnl]|[Hlk E]].
    + left. split; [done|]. intros [?|[row Hr]]; [done|]. by destruct (Hn row).
    + right. split; [by left|done].
Qed.

Lemma apply_events ws : forall d,
  exists rows, t_events (apply_writes ws d) = t_events d ++ rows /\
    (forall d', t_events (apply_writes ws d') = t_events d' ++ rows) /\
    (forall agg v, existsb (has_version agg v) rows = true <-> holds_version agg v ws).
Proof.
  induction ws as [|w ws IH] using rev_ind; intros d.
  { exists []. split_and!; [by rewrite app_nil_r|intros; by rewrite app_nil_r|].
    intros agg v. split; [done|]. intros (row & Hr & _). by apply elem_of_nil in Hr. }
  destruct (IH d) as (rows & Hd & Hd' & Hv). setoid_rewrite apply_writes_app.
  cbn [apply_writes fold_left].
  assert (Hother : (forall row, w <> WriteEvent row) -> forall agg v,
            holds_version agg v (ws ++ [w]) <-> holds_version agg v ws).
  { intros Hne agg v. unfold holds_version. setoid_rewrite elem_of_app.
    setoid_rewrite list_elem_of_singleton. naive_solver. }
  destruct w as [id row|row|row|row];
    try (exists rows; split_and!; [done|done|]; intros agg v; by rewrite Hv, Hother).
  exists (rows ++ [row]). cbn. split_and!.
  - by rewrite Hd, app_assoc.
  - intros d'. by rewrite Hd', app_assoc.
  - intros agg v. rewrite existsb_app, orb_true_iff, Hv. cbn. rewrite orb_false_r.
    unfold holds_version. setoid_rewrite elem_of_app. setoid_rewrite list_elem_of_singleton.
    naive_solver.
Qed.

Lemma no_lock id : ~ locks_balance id [].
Proof. intros [row Hr]. by apply elem_of_nil in Hr. Qed.
Lemma no_version agg v : ~ holds_version agg v [].
Proof. intros (row & Hr & _). by apply elem_of_nil in Hr. Qed.
Ltac no_locks :=
  intros [= <- <-]; split; intros; exfalso; (by eapply no_lock) || (by eapply no_version).

(** What a statement locks. *)
Lemma statement_locks q n d r ws :
  statement q n d = (r, ws) ->
  (forall id, locks_balance id ws ->
     exists delta ts, q = SqlUpdateBalance delta ts id /\ is_Some (t_account_balances d !! id)) /\
  (forall agg v, holds_version agg v ws -> exists ty e, q = SqlInsertEvent agg ty v e).
Proof.
  destruct q as [delta ts id|id|event entry bal|agg ty version e|agg ty e now]; cbn.
  - destruct (t_account_balances d !! id) as [v|] eqn:Hv.
    2: no_locks.
    destruct (_ && _); [|no_locks].
    intros [= <- <-]. split.
    + intros id' [row Hr]. apply list_elem_of_singleton in Hr. simplify_eq. eauto.
    + intros agg version (row & Hr & _). by apply list_elem_of_singleton in Hr.
  - no_locks.
  - intros [= <- <-]. split; [intros id [row Hr]|intros agg v (row & Hr & _)];
      by apply list_elem_of_singleton in Hr.
  - destruct (existsb _ _); [no_locks|].
    intros [= <- <-]. split; [intros id [row Hr]; by apply list_elem_of_singleton in Hr|].
    intros agg' v (row & Hr & Hv). apply list_elem_of_singleton in Hr. simplify_eq.
    unfold has_version in Hv. cbn in Hv. bool_prop. subst. eauto.
  - intros [= <- <-]. split; [intros id [row Hr]|intros agg' v (row & Hr & _)];
      by apply list_elem_of_singleton in Hr.
Qed.

Lemma locks_balance_app id ws ws' :
  locks_balance id (ws ++ ws') <-> locks_balance id ws \/ locks_balance id ws'.
Proof. unfold locks_balance. setoid_rewrite elem_of_app. naive_solver. Qed.

Lemma holds_version_app agg v ws ws' :
  holds_version agg v (ws ++ ws') <-> holds_version agg v ws \/ holds_version agg v ws'.
Proof. unfold holds_version. setoid_rewrite elem_of_app. naive_solver. Qed.

(** ** What a transaction has done, on the committed tables [d] *)

Inductive explained (d : DB) : list (sql * res Z) -> list write -> Prop :=
| explained_nil : explained d [] []
| explained_snoc tr ws q n v ws' :
    explained d tr ws -> statement q n (apply_writes ws d) = (Ok v, ws') ->
    explained d (tr ++ [(q, Ok v)]) (ws ++ ws').

Definition has_read (id : string) (tr : list (sql * res Z)) : Prop :=
  exists r, (SqlSelectBalance id, r) ∈ tr.

(** A row that a transaction has updated is locked, or was not there. *)
Lemma explained_updated d tr ws id :
  explained d tr ws -> has_updated id tr ->
  locks_balance id ws \/ t_account_balances d !! id = None.
Proof.
  induction 1 as [|tr ws q n v ws' _ IH Hs]; intros (delta & ts & r & Hin).
  { by apply elem_of_nil in Hin. }
  rewrite locks_balance_app.
  apply elem_of_app in Hin as [Hin|Hin%list_elem_of_singleton].
  { destruct IH as [?|?]; [by exists delta, ts, r|by left; left|by right]. }
  simplify_eq. cbn in Hs. destruct (apply_balance ws d id) as [[E _]|[Hl E]]; [|by left; left].
  destruct (t_account_balances (apply_writes ws d) !! id) as [x|]; [|by right].
  destruct (_ && _); [|done]. injection Hs as <- <-. left. right.
  eexists. by apply list_elem_of_singleton.
Qed.

(** It stays explained while the rows it has touched and the versions it has
    inserted stay as they are. *)
Lemma explained_stable d d' tr ws :
  explained d tr ws ->
  (forall id, has_updated id tr \/ has_read id tr ->
     t_account_balances d' !! id = t_account_balances d !! id) ->
  (forall agg v, holds_version agg v ws ->
     existsb (has_version agg v) (t_events d') = existsb (has_version agg v) (t_events d)) ->
  explained d' tr ws.
Proof.
  induction 1 as [|tr ws q n v ws' _ IH Hs]; intros Hb He; [constructor|].
  assert (IH' : explained d' tr ws).
  { apply IH.
    - intros id H. apply Hb. unfold has_updated, has_read in *.
      setoid_rewrite elem_of_app. naive_solver.
    - intros agg x H. apply He. rewrite holds_version_app. by left. }
  apply explained_snoc with n; [done|]. rewrite <- Hs.
  assert (Hrow : forall id, has_updated id (tr ++ [(q, Ok v)]) \/ has_read id (tr ++ [(q, Ok v)]) ->
    t_account_balances (apply_writes ws d') !! id = t_account_balances (apply_writes ws d) !! id).
  { intros id Hid. destruct (apply_balance ws d id) as [[E Hn]|[Hl E]]; [|by apply E].
    destruct (apply_balance ws d' id) as [[E' _]|[Hl _]]; [|done]. rewrite E, E'. by apply Hb. }
  destruct q as [delta ts id|id|event entry bal|agg ty version e|agg ty e now]; cbn in *.
  - rewrite Hrow; [done|]. left. exists delta, ts, (Ok v). apply elem_of_app. right.
    by apply list_elem_of_singleton.
  - unfold select_balance. rewrite Hrow; [by destruct (_ !! id)|]. right. exists (Ok v).
    apply elem_of_app. right. by apply list_elem_of_singleton.
  - done.
  - destruct (apply_events ws d) as (rows & Hr & Hr' & _). rewrite Hr, Hr', !existsb_app.
    destruct (existsb _ (t_events (apply_writes ws d))) eqn:Hx; [done|]. rewrite Hr in Hx.
    rewrite existsb_app in Hx. injection Hs as _ <-.
    rewrite He; [done|]. rewrite holds_version_app. right. eexists.
    split; [by apply list_elem_of_singleton|]. unfold has_version. cbn.
    by rewrite bool_decide_eq_true_2, Z.eqb_refl.
  - done.
Qed.

(** ** The path of a transaction through its code *)

Inductive path (t : tree) : list (sql * res Z) -> tree -> Prop :=
| path_nil : path t [] t
| path_snoc tr q k r : path t tr (Send q k) -> path t (tr ++ [(q, r)]) (k r).

Lemma run_explained d t tr rest ws :
  path t tr rest -> explained d tr ws -> forall d1, d1 ≡ d ->
  exists d2, d2 ≡ apply_writes ws d /\ run t d1 = run rest d2.
Proof.
  intros Hp. revert ws. induction Hp as [|tr q k r _ IH]; intros ws He d1 Hd.
  - inversion He as [|? ? ? ? ? ? ? ? Hz]; subst; [by exists d1|]. by destruct tr.
  - inversion He as [Hz|tr0 ws0 q0 n v ws' He0 Hs Htr]; subst; [by destruct tr|].
    apply app_inj_tail in Htr as [-> [= -> <-]].
    destruct (IH ws0 He0 d1 Hd) as (d2 & Hd2 & Hr).
    destruct (sql_stmt_equiv q n (apply_writes ws0 d) d2 (symmetry Hd2)) as [Ha Hb].
    rewrite Hs in Ha, Hb. cbn [fst snd] in *. rewrite Hr. cbn [run].
    destruct (sql_stmt q d2) as [r2 d3]. cbn [fst snd] in *. subst r2. exists d3.
    split; [|done]. by rewrite apply_writes_app.
Qed.

(** *** The code stops at the first error and reads only what it has updated *)
Fixpoint guarded (updated : list string) (t : tree) : Prop :=
  match t with
  | Finish _ => True
  | Send q k =>
      (forall e, exists e', k (Err e) = Finish (Err e')) /\
      match q with SqlSelectBalance id => id ∈ updated | _ => True end /\
      forall v, guarded (match q with SqlUpdateBalance _ _ id => id :: updated | _ => updated end)
                  (k (Ok v))
  end.

Lemma project_guarded event entries : forall updated, guarded updated (project_tree event entries).
Proof.
  induction entries as [|entry entries IH]; intros updated; [done|].
  cbn [project_tree guarded or_wrap]. split_and!; [eauto|done|intros _].
  split_and!; [eauto|by apply list_elem_of_here|intros bal].
  split_and!; [eauto|done|intros _]. apply IH.
Qed.

Lemma append_guarded agg ty n now events : forall i, guarded [] (append_tree agg ty n i now events).
Proof.
  induction events as [|e events IH]; intros i; [done|].
  cbn [append_tree guarded or_wrap]. split_and!; [eauto|done|intros _].
  split_and!; [eauto|done|intros _]. apply IH.
Qed.

Lemma call_guarded c : guarded [] (tree_of c).
Proof. destruct c; [apply project_guarded|apply append_guarded]. Qed.

(** ** The invariant of the server *)

(** An open transaction has failed, or it is explained by the tables. *)
Definition tx_ok (d : DB) (y : open_tx) : Prop :=
  (exists e, ot_tree y = Finish (Err e)) \/
  (path (tree_of (ot_call y)) (ot_trace y) (ot_tree y) /\ explained d (ot_trace y) (ot_writes y) /\
   (forall id, has_read id (ot_trace y) -> has_updated id (ot_trace y)) /\
   exists updated, guarded updated (ot_tree y) /\
     forall id, id ∈ updated -> has_updated id (ot_trace y)).

Record good (d0 : DB) (s : server) : Prop := {
  good_succeed : all_succeed (y_log s) d0;
  good_serial : y_db s ≡ serial (y_log s) d0;
  good_tx i y : y_open s !! i = Some y -> tx_ok (y_db s) y;
  good_rows i y id : y_open s !! i = Some y -> locks_balance id (ot_writes y) ->
    is_Some (t_account_balances (y_db s) !! id);
  good_rows_apart i j y z id : i <> j -> y_open s !! i = Some y -> y_open s !! j = Some z ->
    locks_balance id (ot_writes y) -> ~ locks_balance id (ot_writes z);
  good_versions_apart i j y z agg v : i <> j -> y_open s !! i = Some y -> y_open s !! j = Some z ->
    holds_version agg v (ot_writes y) -> ~ holds_version agg v (ot_writes z);
}.

Lemma tx_ok_stable d d' y :
  tx_ok d y ->
  (forall id, has_updated id (ot_trace y) ->
     locks_balance id (ot_writes y) \/ t_account_balances d !! id = None ->
     t_account_balances d' !! id = t_account_balances d !! id) ->
  (forall agg v, holds_version agg v (ot_writes y) ->
     existsb (has_version agg v) (t_events d') = existsb (has_version agg v) (t_events d)) ->
  tx_ok d' y.
Proof.
  intros [Hf|(Hp & He & Hr & Hu)] Hb Hv; [by left|right]. split_and!; [done| |done|done].
  apply explained_stable with d; [done| |done].
  intros id H. assert (has_updated id (ot_trace y)) by (destruct H; auto).
  apply Hb; [done|]. by eapply explained_updated.
Qed.

(** A statement that the transaction goes on with. *)
Lemma tx_ok_statement d q k number ws c tr n r ws' :
  tx_ok d (MkOpen (Send q k) number ws c tr) ->
  statement q n (apply_writes ws d) = (r, ws') ->
  tx_ok d (MkOpen (k r) None (ws ++ ws') c (tr ++ [(q, r)])).
Proof.
  intros [[e He]|(Hp & He & Hr & upd & (Hstop & Hsel & Hg) & Hu)] Hs; [done|]. cbn in *.
  destruct r as [v|e]; [right|left; apply Hstop]. cbn. split_and!.
  - by constructor.
  - by apply explained_snoc with n.
  - intros id [r Hin]. apply elem_of_app in Hin as [Hin|Hin%list_elem_of_singleton].
    + destruct (Hr id) as (delta & ts & x & Hx); [by exists r|]. exists delta, ts, x.
      apply elem_of_app. by left.
    + simplify_eq. destruct (Hu _ Hsel) as (delta & ts & x & Hx). exists delta, ts, x.
      apply elem_of_app. by left.
  - eexists. split; [apply Hg|]. intros id Hid.
    assert (Hold : id ∈ upd -> has_updated id (tr ++ [(q, Ok v)])).
    { intros (delta & ts & x & Hx)%Hu. exists delta, ts, x. apply elem_of_app. by left. }
    destruct q as [delta ts id'| | | |]; auto. apply elem_of_cons in Hid as [->|Hid]; [|auto].
    exists delta, ts, (Ok v). apply elem_of_app. right. by apply list_elem_of_singleton.
Qed.

Lemma tx_ok_begin d c : tx_ok d (MkOpen (tree_of c) None [] c []).
Proof.
  right. cbn. split_and!; [constructor|constructor| |].
  - intros id [r Hr]. by apply elem_of_nil in Hr.
  - exists []. split; [apply call_guarded|]. intros id Hid. by apply elem_of_nil in Hid.
Qed.

(** An open transaction that begins or goes on. *)
Lemma good_insert d0 d d' os l i y :
  good d0 (MkServer d os l) -> d' ≡ d ->
  t_account_balances d' = t_account_balances d -> t_events d' = t_events d -> tx_ok d y ->
  (forall id, locks_balance id (ot_writes y) ->
     is_Some (t_account_balances d !! id) /\
     forall j z, j <> i -> os !! j = Some z -> ~ locks_balance id (ot_writes z)) ->
  (forall agg v j z, holds_version agg v (ot_writes y) -> j <> i -> os !! j = Some z ->
     ~ holds_version agg v (ot_writes z)) ->
  good d0 (MkServer d' (<[i := y]> os) l).
Proof.
  intros [Hsu Hse Ht Hr Hra Hva] Hd Hb He Hy Hrows Hvers. cbn in *.
  assert (Hstable : forall z, tx_ok d z -> tx_ok d' z).
  { intros z Hz. by apply tx_ok_stable with d; rewrite ?Hb, ?He. }
  split; cbn.
  - done.
  - by rewrite Hd.
  - intros j z [[-> ->]|[_ Hz]]%lookup_insert_Some; [by apply Hstable|].
    eapply Hstable, Ht, Hz.
  - intros j z id. rewrite Hb. intros [[-> ->]|[_ Hz]]%lookup_insert_Some Hl;
      [by apply Hrows|eauto].
  - intros j1 j2 z1 z2 id Hne [[<- <-]|[H1 Hz1]]%lookup_insert_Some
      [[<- <-]|[H2 Hz2]]%lookup_insert_Some Hl1 Hl2; [done| | |by eapply (Hra j1 j2)].
    + by eapply (proj2 (Hrows id Hl1) j2 z2).
    + by eapply (proj2 (Hrows id Hl2) j1 z1).
  - intros j1 j2 z1 z2 agg v Hne [[<- <-]|[H1 Hz1]]%lookup_insert_Some
      [[<- <-]|[H2 Hz2]]%lookup_insert_Some Hl1 Hl2; [done| | |by eapply (Hva j1 j2)].
    + by eapply (Hvers agg v j2 z2).
    + by eapply (Hvers agg v j1 z1).
Qed.

(** The committed tables change, and the other transactions do not notice. *)
Lemma good_change d0 d d' os os' l u :
  good d0 (MkServer d os l) ->
  (forall j z, os' !! j = Some z -> os !! j = Some z) ->
  match u with
  | Committed c => forall x, x ≡ d -> (run (tree_of c) x).1 = Ok tt
  | Opened _ => True
  end ->
  (forall x, x ≡ d -> do_unit x u ≡ d') ->
  (forall id, is_Some (t_account_balances d !! id) -> is_Some (t_account_balances d' !! id)) ->
  (forall j z, os' !! j = Some z ->
     (forall id, has_updated id (ot_trace z) ->
        locks_balance id (ot_writes z) \/ t_account_balances d !! id = None ->
        t_account_balances d' !! id = t_account_balances d !! id) /\
     (forall agg v, holds_version agg v (ot_writes z) ->
        existsb (has_version agg v) (t_events d') = existsb (has_version agg v) (t_events d))) ->
  good d0 (MkServer d' os' (l ++ [u])).
Proof.
  intros [Hsu Hse Ht Hr Hra Hva] Hos Hu Hd Hdom Hz. cbn in *. split; cbn.
  - clear - Hsu Hse Hu. revert d0 Hsu Hse. induction l as [|x l IH]; intros d0; cbn.
    + intros _ Hse. split; [|done]. destruct u; [|done]. by apply Hu.
    + intros [Hx Hl] Hse. split; [done|]. by apply IH.
  - unfold serial. rewrite fold_left_app. cbn. symmetry. by apply Hd.
  - intros j z Hj. destruct (Hz j z Hj). eapply tx_ok_stable; [eapply Ht, Hos, Hj|done|done].
  - intros j z id Hj Hl. eapply Hdom, Hr; [by apply Hos|done].
  - intros j1 j2 z1 z2 id Hne H1 H2. eapply Hra; [exact Hne|by apply Hos..].
  - intros j1 j2 z1 z2 agg v Hne H1 H2. eapply Hva; [exact Hne|by apply Hos..].
Qed.

Lemma insert_view_equiv e (d d' : DB) : d ≡ d' -> (insert_view e d).2 ≡ (insert_view e d').2.
Proof.
  unfold equiv, db_equiv. intros H. pose proof H as [= H1 H2 H3 H4 H5 H6]. unfold insert_view.
  rewrite H5. destruct (t_account_balances d' !! _); [done|].
  unfold erase_db. cbn. congruence.
Qed.

Lemma good_commit d0 d os l i number ws c tr :
  good d0 (MkServer d os l) -> os !! i = Some (MkOpen (Finish (Ok tt)) number ws c tr) ->
  good d0 (MkServer (apply_writes ws d) (delete i os) (l ++ [Committed c])).
Proof.
  intros Hg Hi. pose proof Hg as [_ _ Ht Hr Hra Hva]. cbn in *.
  destruct (Ht i _ Hi) as [[e He]|(Hp & He & _ & _)]; [done|]. cbn in Hp, He.
  assert (Hrun : forall x, x ≡ d -> (run (tree_of c) x).1 = Ok tt /\
                   (run (tree_of c) x).2 ≡ apply_writes ws d).
  { intros x Hx. destruct (run_explained _ _ _ _ _ Hp He x Hx) as (d2 & Hd2 & ->). done. }
  eapply good_change; [exact Hg| | | | |].
  - intros j z [_ Hz]%lookup_delete_Some. done.
  - intros x Hx. by apply Hrun.
  - intros x Hx. by apply Hrun.
  - intros id Hid. destruct (apply_balance ws d id) as [[-> _]|[_ E]]; [done|]. by apply (E d).
  - intros j z [Hne Hz]%lookup_delete_Some. split.
    + intros id _ [Hl|Hn]; (destruct (apply_balance ws d id) as [[E _]|[Hli _]]; [done|]); exfalso.
      * by eapply (Hra i j).
      * destruct (Hr _ _ id Hi Hli) as [v Hv]. congruence.
    + intros agg v Hh. destruct (apply_events ws d) as (rows & -> & _ & Hv).
      rewrite existsb_app. destruct (existsb _ rows) eqn:Hx; [|by rewrite orb_false_r].
      exfalso. apply Hv in Hx. by eapply (Hva i j).
Qed.

Lemma good_opened d0 d os l e :
  good d0 (MkServer d os l) -> settled (MkServer d os l) e ->
  good d0 (MkServer (insert_view e d).2 os (l ++ [Opened e])).
Proof.
  intros Hg Hs. eapply good_change; [exact Hg|done|done| | |].
  - intros x Hx. cbn. by apply insert_view_equiv.
  - intros id [v Hv]. unfold insert_view.
    destruct (t_account_balances d !! AOE_AccountID e) eqn:He; cbn; [by rewrite Hv|].
    rewrite lookup_insert_ne; [by rewrite Hv|]. congruence.
  - intros j z Hz. unfold insert_view.
    destruct (t_account_balances d !! AOE_AccountID e) eqn:He; cbn; [done|]. split; [|done].
    intros id Hu _. rewrite lookup_insert_ne; [done|]. intros <-.
    destruct Hs as [Hs|Hs]; cbn in Hs; [by apply elem_of_dom in Hs as [? ?]; congruence|].
    by eapply Hs.
Qed.

Lemma good_server_step d0 s s' : good d0 s -> server_step settled s s' -> good d0 s'.
Proof.
  intros Hg Hs. destruct Hs as [i c d os l Hi|i q k ws c tr n d os l Hi Hn
    |i q k number ws c tr r ws' d os l Hi _ Hb Hst|i y d os l Hi|i number ws c tr d os l Hi
    |e d os l Ho]; [| | | |by eapply good_commit|by apply good_opened].
  - eapply good_insert; [exact Hg|done|done|done|apply tx_ok_begin| |].
    + intros id Hl. by apply no_lock in Hl.
    + intros agg v j z Hl. by apply no_version in Hl.
  - pose proof Hg as [_ _ Ht Hr Hra Hva]. cbn in *.
    eapply good_insert; [exact Hg|apply draw_equiv|by destruct q|by destruct q| | |].
    + exact (Ht _ _ Hi).
    + intros id Hl. split; [by eapply Hr|]. intros j z Hne Hz. by eapply (Hra i j).
    + intros agg v j z Hl Hne Hz. by eapply (Hva i j).
  - pose proof Hg as [_ _ Ht Hr Hra Hva]. cbn in *.
    destruct (statement_locks _ _ _ _ _ Hst) as [Hlb Hlv].
    eapply good_insert; [exact Hg|done|done|done| | |].
    + exact (tx_ok_statement _ _ _ _ _ _ _ _ _ _ (Ht _ _ Hi) Hst).
    + intros id [Hl|Hl]%locks_balance_app.
      { split; [by eapply Hr|]. intros j z Hne Hz. by eapply (Hra i j). }
      destruct (Hlb id Hl) as (delta & ts & -> & Hv). split.
      * destruct (apply_balance ws d id) as [[<- _]|[Hli _]]; [done|]. by eapply Hr.
      * intros j z Hne Hz Hlz. apply Hb. by exists j, z.
    + intros agg v j z [Hl|Hl]%holds_version_app Hne Hz; [by eapply (Hva i j)|].
      destruct (Hlv agg v Hl) as (ty & e & ->). intros Hlz. apply Hb. by exists j, z.
  - destruct Hg as [Hsu Hse Ht Hr Hra Hva]. split; cbn in *; [done|done|..].
    + intros j z [_ Hz]%lookup_delete_Some. eauto.
    + intros j z id [_ Hz]%lookup_delete_Some. eauto.
    + intros j1 j2 z1 z2 id Hne [_ H1]%lookup_delete_Some [_ H2]%lookup_delete_Some. eauto.
    + intros j1 j2 z1 z2 agg v Hne [_ H1]%lookup_delete_Some [_ H2]%lookup_delete_Some. eauto.
Qed.

Lemma good_reachable d0 s : rtc (server_step settled) (started d0) s -> good d0 s.
Proof.
  revert s. apply rtc_ind_r; [|intros s1 s2 _ Hs Hg; by eapply good_server_step].
  split; cbn; try done; intros; by simplify_map_eq.
Qed.

(** ** The transactions one after the other are the calls of the code *)

Lemma run_play t : forall w,
  database_up w ->
  (play t w).1 = (run t (w_db w)).1 /\ w_db (play t w).2 = (run t (w_db w)).2 /\
  database_up (play t w).2.
Proof.
  induction t as [r|q k IH]; intros w Hup; [done|]. rewrite play_send. cbn [run].
  unfold exec_at. rewrite Hup by lia. destruct (sql_stmt q (w_db w)) as [r d]. cbn [fst snd].
  apply (IH r). eapply database_up_later; [|exact Hup]. simpl. lia.
Qed.

Lemma with_tx_run (body : time -> M World unit) c w :
  database_up w -> (forall w', body (db_clock (w_stmt w)) w' = play (tree_of c) w') ->
  let '(r, w') := with_tx body w in
  r = (run (tree_of c) (w_db w)).1 /\
  (r = Ok tt -> w_db w' = (run (tree_of c) (w_db w)).2).
Proof.
  intros Hup Hb. unfold with_tx. rewrite Hup by lia. rewrite Hb.
  destruct (run_play (tree_of c) (tick_stmt w)) as (Hr & Hd & Hup').
  { eapply database_up_later; [|exact Hup]. simpl. lia. }
  cbn [tick_stmt w_db] in Hr, Hd.
  destruct (play (tree_of c) (tick_stmt w)) as [[[]|e] w1]; cbn [fst snd] in *; [|by split].
  rewrite Hup' by lia. by split.
Qed.

(** While the database answers, each of the two methods does what its
    transaction does when it runs alone. *)
Lemma calls_are_code w :
  database_up w ->
  (forall event,
     let '(r, w') := ProjectTransactionRecorded event w in
     r = (run (tree_of (CallProject event)) (w_db w)).1 /\
     (r = Ok tt -> w_db w' = (run (tree_of (CallProject event)) (w_db w)).2)) /\
  (forall agg ty n events,
     let c := CallAppend agg ty n (db_clock (w_stmt w)) events in
     let '(r, w') := AppendWithOutbox agg ty n events w in
     r = (run (tree_of c) (w_db w)).1 /\ (r = Ok tt -> w_db w' = (run (tree_of c) (w_db w)).2)).
Proof.
  intros Hup. split.
  - intros event. apply (with_tx_run _ (CallProject event)); [done|]. intros w'. symmetry.
    apply play_project.
  - intros agg ty n events. apply (with_tx_run _ (CallAppend agg ty n _ events)); [done|].
    intros w'. symmetry. apply play_append.
Qed.

(** ** The read model *)

Lemma rows_of_erase k h : rows_of k (erase_history <$> h) = erase_history <$> rows_of k h.
Proof.
  unfold rows_of. induction h as [|r h IH]; csimpl; [done|]. rewrite IH.
  by destruct (bool_decide (th_AccountID r = k)).
Qed.

Lemma history_sum_erase k h : history_sum k (erase_history <$> h) = history_sum k h.
Proof. unfold history_sum. by rewrite rows_of_erase, sumZ_fmap. Qed.

Lemma latest_erase k h : latest k (erase_history <$> h) = latest k h.
Proof. unfold latest. rewrite rows_of_erase. by rewrite <- list_fmap_compose. Qed.

(** An invariant of the read model that does not look at numbers of rows. *)
Lemma consistent_erase d : consistent (erase_db d) <-> consistent d.
Proof.
  split; intros [H1 H2 H3 H4]; split; cbn [erase_db t_account_balances t_transaction_history] in *.
  - intros k v Hv. rewrite (H1 k v Hv). apply latest_erase.
  - intros r Hr. apply (H2 (erase_history r)). by apply list_elem_of_fmap_2.
  - intros k v Hv. destruct (H3 k v Hv) as [Ht Hn].
    by rewrite history_sum_erase in Ht; rewrite rows_of_erase, length_fmap in Hn.
  - intros r b a Hh. specialize (H4 (erase_history r) (erase_history <$> b) (erase_history <$> a)).
    rewrite Hh, fmap_app in H4. specialize (H4 eq_refl).
    change [erase_history r] with (erase_history <$> [r]) in H4.
    by rewrite <- fmap_app, history_sum_erase in H4.
  - intros k v Hv. rewrite (H1 k v Hv). symmetry. apply latest_erase.
  - intros r (r0 & -> & Hr)%list_elem_of_fmap. exact (H2 r0 Hr).
  - intros k v Hv. rewrite history_sum_erase, rows_of_erase, length_fmap. by apply H3.
  - intros r b a Hh.
    apply fmap_app_inv in Hh as (b0 & ra & -> & Hra & Hd).
    destruct ra as [|r0 a0]; [done|]. csimpl in Hra. injection Hra as -> ->.
    change [erase_history r0] with (erase_history <$> [r0]).
    rewrite <- fmap_app, history_sum_erase. by apply (H4 r0 b0 a0).
Qed.

#[export] Instance consistent_proper : Proper ((≡) ==> iff) consistent.
Proof.
  intros d d' Hd. rewrite <- (consistent_erase d), <- (consistent_erase d'). by rewrite Hd.
Qed.

(** An entry that is projected, by its three statements. *)
Lemma run_entry event entry entries d d' :
  run (project_tree event (entry :: entries)) d = (Ok tt, d') ->
  exists d1, run (project_tree event entries) d1 = (Ok tt, d') /\
    (consistent d -> consistent d1).
Proof.
  cbn [project_tree run sql_stmt]. unfold unit_stmt, update_balance.
  destruct (t_account_balances d !! EED_AccountID entry) as [v|] eqn:Hv.
  2: { cbn [res_bind or_wrap run sql_stmt]. unfold select_balance. by rewrite Hv. }
  destruct (in_int64b _ && in_int64b _); [|done].
  cbn [res_bind or_wrap run sql_stmt]. unfold select_balance.
  cbn [set_balances t_account_balances]. rewrite lookup_insert_eq.
  cbn [or_wrap run sql_stmt av_Balance]. unfold unit_stmt, insert_history.
  cbn [res_bind or_wrap]. intros Hrun. eexists. split; [exact Hrun|].
  intros Hc. eapply moved_consistent; [exact Hv| | |exact Hc]; reflexivity.
Qed.

Lemma run_project_consistent event entries : forall d d',
  run (project_tree event entries) d = (Ok tt, d') -> consistent d -> consistent d'.
Proof.
  induction entries as [|entry entries IH]; intros d d'; [by intros [= <-]|].
  intros (d1 & Hrun & Hc)%run_entry H. by eapply IH, Hc.
Qed.

(** An append leaves the read model alone. *)
Lemma run_append_tables agg ty n now events : forall i d,
  read_tables (run (append_tree agg ty n i now events) d).2 = read_tables d.
Proof.
  induction events as [|e events IH]; intros i d; [done|].
  cbn [append_tree run sql_stmt]. unfold unit_stmt, insert_event.
  destruct (existsb _ _); [done|]. cbn [res_bind run sql_stmt]. unfold unit_stmt, insert_outbox.
  cbn [res_bind or_wrap]. by rewrite IH.
Qed.

Lemma serial_consistent l : forall d, all_succeed l d -> consistent d -> consistent (serial l d).
Proof.
  induction l as [|u l IH]; intros d; cbn; [done|]. intros [Hu Hl] Hc. apply IH; [done|].
  destruct u as [[event|agg ty n now events]|e]; cbn in *.
  - destruct (run _ d) as [r d'] eqn:Hr. cbn in *. subst r. by eapply run_project_consistent.
  - eapply consistent_tables; [apply run_append_tables|done].
  - by apply insert_view_consistent.
Qed.

End serializability.
