(* ===== verification/IsolationTheorems.v ===== *)
(** * What interleaved transactions of the database leave

    The tables that they leave one after the other, in the order of their
    commits; and, on runs that are given as lists of moves, where that ends: an
    account that is opened in the read model in the middle of a projection
    leaves it inconsistent, and two projections that name their accounts in
    opposite orders wait for each other. *)
From S2P Require Import Prelude Go Identifiers Money Transaction Account Book Events Ports.
From S2P Require Import World Postgres Projection Production Reachable EventLog ReadModel Isolation.
From S2P Require Import Serializability Sample Scenario.
From stdpp Require Import base gmap strings list relations.
Local Open Scope string_scope.
Local Open Scope list_scope.
Local Open Scope Z_scope.

Section moves.
Context {U : UuidLib} {O : Oracle}.

(** ** Runs as lists of moves *)

Definition waits_forb (q : sql) (ws : list write) : bool :=
  existsb (fun w => match q, w with
                    | SqlUpdateBalance _ _ id, WriteBalance id' _ => bool_decide (id' = id)
                    | SqlInsertEvent agg _ v _, WriteEvent row => has_version agg v row
                    | _, _ => false
                    end) ws.

Lemma waits_forb_spec q ws : waits_for q ws <-> waits_forb q ws = true.
Proof.
  unfold waits_forb. rewrite existsb_exists. setoid_rewrite <- list_elem_of_In.
  destruct q as [delta ts id|id|event entry bal|agg ty version e|agg ty e now]; cbn.
  - unfold locks_balance. split.
    + intros [row Hr]. exists (WriteBalance id row). by rewrite bool_decide_eq_true_2.
    + intros ([id' row|?|?|?] & Hr & Hb); try done. bool_prop. subst. by exists row.
  - split; [done|]. by intros ([] & _ & ?).
  - split; [done|]. by intros ([] & _ & ?).
  - unfold holds_version. split.
    + intros (row & Hr & Hv). by exists (WriteEvent row).
    + intros ([?|?|row|?] & Hr & Hv); try done. by exists row.
  - split; [done|]. by intros ([] & _ & ?).
Qed.

Definition blockedb (q : sql) (i : nat) (s : server) : bool :=
  existsb (fun jy => negb (bool_decide (jy.1 = i)) && waits_forb q (ot_writes jy.2))
    (map_to_list (y_open s)).

Lemma blockedb_spec q i s : blocked q i s <-> blockedb q i s = true.
Proof.
  unfold blocked, blockedb. rewrite existsb_exists. setoid_rewrite <- list_elem_of_In. split.
  - intros (j & y & Hne & Hj & Hw). exists (j, y). split; [by apply elem_of_map_to_list|].
    cbn. rewrite bool_decide_eq_false_2 by done. by apply waits_forb_spec.
  - intros ([j y] & Hj%elem_of_map_to_list & Hb). cbn in Hb. apply andb_true_iff in Hb as [Hb Hw].
    bool_prop. exists j, y. split_and!; [done|done|by apply waits_forb_spec].
Qed.

Inductive server_move :=
| Begin (i : nat) (c : transaction_call)
| Draw (i : nat)
| Statement (i : nat)
| Rollback (i : nat)
| Commit (i : nat)
| OpenView (e : AccountOpenedEvent).

(** A move that is not possible changes nothing. *)
Definition apply_server_move (s : server) (m : server_move) : server :=
  let '(MkServer d os l) := s in
  match m with
  | Begin i c =>
      match os !! i with
      | None => MkServer d (<[i := MkOpen (tree_of c) None [] c []]> os) l
      | Some _ => s
      end
  | Draw i =>
      match os !! i with
      | Some (MkOpen (Send q k) None ws c tr) =>
          match sequence q d with
          | Some n => MkServer (draw q d) (<[i := MkOpen (Send q k) (Some (n + 1)) ws c tr]> os) l
          | None => s
          end
      | _ => s
      end
  | Statement i =>
      match os !! i with
      | Some (MkOpen (Send q k) number ws c tr) =>
          if (match sequence q d, number with Some _, None => true | _, _ => false end) ||
             blockedb q i s
          then s
          else
            let '(r, ws') := statement q (default 0 number) (apply_writes ws d) in
            MkServer d (<[i := MkOpen (k r) None (ws ++ ws') c (tr ++ [(q, r)])]> os) l
      | _ => s
      end
  | Rollback i =>
      match os !! i with
      | Some _ => MkServer d (delete i os) l
      | None => s
      end
  | Commit i =>
      match os !! i with
      | Some (MkOpen (Finish (Ok tt)) _ ws c _) =>
          MkServer (apply_writes ws d) (delete i os) (l ++ [Committed c])
      | _ => s
      end
  | OpenView e => MkServer (insert_view e d).2 os (l ++ [Opened e])
  end.

Definition opens (m : server_move) : bool := match m with OpenView _ => true | _ => false end.

Lemma apply_server_move_steps may_open m s :
  opens m = false \/ (forall s e, may_open s e) ->
  rtc (server_step may_open) s (apply_server_move s m).
Proof.
  intros Hm. destruct s as [d os l], m as [i c|i|i|i|i|e]; cbn [apply_server_move].
  - destruct (os !! i) eqn:Hi; [done|]. by apply rtc_once, srv_begin.
  - destruct (os !! i) as [[[r|q k] [n|] ws c tr]|] eqn:Hi; try done.
    destruct (sequence q d) eqn:Hq; [|done]. by apply rtc_once, srv_draw.
  - destruct (os !! i) as [[[r|q k] number ws c tr]|] eqn:Hi; try done.
    destruct (_ || _) eqn:Hb; [done|]. apply orb_false_iff in Hb as [Hn Hb].
    destruct (statement q (default 0 number) (apply_writes ws d)) as [r ws'] eqn:Hs.
    apply rtc_once. eapply srv_statement; [exact Hi| | |exact Hs].
    + intros Hq ->. by destruct (sequence q d).
    + rewrite blockedb_spec. congruence.
  - destruct (os !! i) as [y|] eqn:Hi; [|done]. by eapply rtc_once, srv_rollback.
  - destruct (os !! i) as [[[[[]|e]|q k] number ws c tr]|] eqn:Hi; try done.
    by eapply rtc_once, srv_commit.
  - apply rtc_once, srv_opened. by destruct Hm.
Qed.

Lemma server_moves_steps may_open ms : forall s,
  Forall (fun m => opens m = false) ms \/ (forall s e, may_open s e) ->
  rtc (server_step may_open) s (fold_left apply_server_move ms s).
Proof.
  induction ms as [|m ms IH]; intros s Hm; [done|]. cbn [fold_left]. etrans; [|apply IH].
  - apply apply_server_move_steps. destruct Hm as [Hm|]; [|by right]. left. by inversion Hm.
  - destruct Hm as [Hm|]; [|by right]. left. by inversion Hm.
Qed.
End moves.

(** ** The theorem *)
Section serializable.
Context {U : UuidLib} {O : Oracle}.

(** C10: Transactions of the database can be taken for single steps. Projections
    and appends whose statements interleave in any order, with rows locked
    until the end of the transaction that updated them, numbers of sequences
    drawn at any time, and transactions rolled back at any point, leave the
    tables that the committed ones leave one after the other, in the order of
    their commits and each of them with success, up to the numbers of the rows;
    so the read model stays consistent. It is assumed that no account is opened
    in the read model while an open transaction has tried to update its row. *)
Theorem interleaved_transactions_serialize d0 s :
  rtc (server_step settled) (started d0) s ->
  all_succeed (y_log s) d0 /\ y_db s ≡ serial (y_log s) d0 /\
  (consistent d0 -> consistent (y_db s)).
Proof.
  intros [Hs He _ _ _ _]%good_reachable. split_and!; [done|done|].
  intros Hc. rewrite He. by apply serial_consistent.
Qed.
End serializable.

(** ** A deposit beside the opening of the equity account *)

Definition equity_opened : AccountOpenedEvent :=
  MkAccountOpenedEvent "" "equity" "System Equity (USD)" "equity" "USD" 0.
Definition cash_opened : AccountOpenedEvent :=
  MkAccountOpenedEvent "" "cash" "Cash" "asset" "USD" 0.
Definition leg (id account : string) (amount : Z) (ty : string) : EntryEventData :=
  MkEntryEventData id account amount "USD" ty.
Definition deposit_event : TransactionRecordedEvent :=
  MkTransactionRecordedEvent "" "tx-1"
    [leg "e1" "equity" 500 "DEBIT"; leg "e2" "cash" 500 "CREDIT"]
    "first deposit" 0.
Definition back_event : TransactionRecordedEvent :=
  MkTransactionRecordedEvent "" "tx-2"
    [leg "e3" "cash" 200 "DEBIT"; leg "e4" "equity" 200 "CREDIT"]
    "a refund" 0.

Definition cash_only : DB := (insert_view cash_opened empty_db).2.
Definition both_open : DB := (insert_view equity_opened cash_only).2.

(** The deposit updates the equity account, which the read model does not have
    yet; then it is opened; then its balance is read. *)
Definition opening_race : list server_move :=
  [Begin 0 (CallProject deposit_event); Statement 0; OpenView equity_opened; Statement 0;
   Draw 0; Statement 0; Statement 0; Statement 0; Draw 0; Statement 0; Commit 0].

Definition after_opening_race : server :=
  fold_left apply_server_move opening_race (started cash_only).

Definition show_row (d : DB) (k : string) : option (Z * Z) :=
  (fun v => (av_Balance v, av_Version v)) <$> t_account_balances d !! k.
Definition show_history (d : DB) : list (string * Z) :=
  (fun r => (th_AccountID r, th_BalanceAfter r)) <$> t_transaction_history d.

Lemma show_row_equiv (d d' : DB) k : d ≡ d' -> show_row d k = show_row d' k.
Proof. unfold equiv, db_equiv, erase_db, show_row. intros [= _ _ _ _ -> _]. done. Qed.

Example after_opening_race_db :
  show_row (y_db after_opening_race) "equity" = Some (0, 1) /\
  show_row (y_db after_opening_race) "cash" = Some (500, 2) /\
  show_history (y_db after_opening_race) = [("equity", 0); ("cash", 500)].
Proof. vm_compute. done. Qed.

Lemma cash_only_consistent : consistent cash_only.
Proof. apply insert_view_consistent, empty_consistent; done. Qed.

(** Opening an account in the read model in the middle of a
    transaction that has missed its row breaks the read model: from consistent
    tables, with every statement executed and both calls successful, the
    history of the equity account sums up to -500 and its balance is 0; one
    after the other, in neither order, the two calls would leave that. *)
Theorem opening_race_breaks_read_model :
  consistent cash_only /\
  rtc (server_step anytime) (started cash_only) after_opening_race /\
  y_open after_opening_race = ∅ /\
  y_log after_opening_race = [Opened equity_opened; Committed (CallProject deposit_event)] /\
  ~ consistent (y_db after_opening_race) /\
  forall l, l ≡ₚ y_log after_opening_race -> all_succeed l cash_only ->
    ~ (y_db after_opening_race ≡ serial l cash_only).
Proof.
  split_and!.
  - apply cash_only_consistent.
  - apply server_moves_steps. by right.
  - vm_compute. done.
  - vm_compute. done.
  - intros [_ _ Ht _].
    assert (E : exists v, t_account_balances (y_db after_opening_race) !! "equity" = Some v /\
              av_Balance v = 0 /\
              history_sum "equity" (t_transaction_history (y_db after_opening_race)) = -500)
      by (eexists; split_and!; vm_compute; reflexivity).
    destruct E as (v & Hv & Hb & Hs). destruct (Ht _ _ Hv) as [Hz _]. lia.
  - intros l Hl Hsu He.
    assert (Hlog : y_log after_opening_race =
              [Opened equity_opened; Committed (CallProject deposit_event)])
      by (vm_compute; reflexivity).
    rewrite Hlog in Hl. symmetry in Hl. apply Permutation_length_2_inv in Hl as [->| ->].
    + apply (show_row_equiv _ _ "equity") in He. vm_compute in He. discriminate.
    + destruct Hsu as [Hsu _]. vm_compute in Hsu. discriminate.
Qed.

(** ** Two projections that wait for each other *)

Definition crossing : list server_move :=
  [Begin 0 (CallProject deposit_event); Begin 1 (CallProject back_event);
   Statement 0; Statement 1; Statement 0; Statement 1; Draw 0; Statement 0; Draw 1; Statement 1].

Definition after_crossing : server := fold_left apply_server_move crossing (started both_open).

(** Every open transaction is at a statement that draws no number and waits. *)
Definition all_stuck (s : server) : bool :=
  forallb (fun iy : nat * open_tx =>
    match ot_tree iy.2 with
    | Send q _ => bool_decide (sequence q (y_db s) = None) && blockedb q iy.1 s
    | Finish _ => false
    end) (map_to_list (y_open s)).

Lemma all_stuck_spec s :
  all_stuck s = true -> forall i y, y_open s !! i = Some y ->
  exists q k, ot_tree y = Send q k /\ sequence q (y_db s) = None /\ blocked q i s.
Proof.
  unfold all_stuck. rewrite forallb_forall. intros Hall i y Hi.
  apply elem_of_map_to_list, list_elem_of_In in Hi. specialize (Hall _ Hi). cbn in Hall.
  destruct (ot_tree y) as [r|q k]; [done|]. apply andb_true_iff in Hall as [Hq Hb].
  bool_prop. exists q, k. by rewrite blockedb_spec.
Qed.

(** A deposit and a refund between the same two accounts, recorded
    at the same time, update the accounts in opposite orders. Each holds the
    row that the other needs: no statement of either can be executed, and
    Postgres has to abort one of them, whose transaction the read model then
    lacks for good, as the service ignores the error of the projector. *)
Theorem crossing_projections_deadlock :
  consistent both_open /\
  rtc (server_step settled) (started both_open) after_crossing /\
  size (y_open after_crossing) = 2%nat /\
  (forall i y, y_open after_crossing !! i = Some y ->
     exists q k, ot_tree y = Send q k /\ blocked q i after_crossing) /\
  forall s', server_step settled after_crossing s' ->
    y_db s' = y_db after_crossing \/ exists e, y_db s' = (insert_view e (y_db after_crossing)).2.
Proof.
  pose proof (all_stuck_spec after_crossing ltac:(vm_compute; reflexivity)) as Hopen.
  split_and!.
  - apply insert_view_consistent, cash_only_consistent.
  - apply server_moves_steps. left. repeat constructor.
  - vm_compute. done.
  - intros i y Hi. destruct (Hopen i y Hi) as (q & k & ? & _ & ?). eauto.
  - intros s' Hs. revert Hopen. generalize dependent after_crossing. intros s0 Hs Hopen.
    destruct Hs as [i c d os l Hi|i q k ws c tr n d os l Hi Hn
      |i q k number ws c tr r ws' d os l Hi _ Hb Hst|i y d os l Hi|i number ws c tr d os l Hi
      |e d os l Ho]; cbn [y_db y_open] in *; [by left| |by left|by left| |right; eauto].
    + destruct (Hopen i _ Hi) as (q' & k' & Ht & Hq & _). cbn in Ht. simplify_eq.
    + destruct (Hopen i _ Hi) as (q' & k' & Ht & _). done.
Qed.

(** ** A run that the theorem applies to

    Two deposits and an append: the second deposit waits for the first at the
    equity account, and its update sees what the first has committed. *)
Definition second_deposit : TransactionRecordedEvent :=
  MkTransactionRecordedEvent "" "tx-3"
    [leg "e5" "equity" 300 "DEBIT"; leg "e6" "cash" 300 "CREDIT"]
    "second deposit" 0.
Definition some_append : transaction_call :=
  CallAppend "tx-1" "transaction" 0 0 [MkStoredEvent "" "" "" "transaction.recorded" 0 (JObj []) 0].

Definition rest_of (i : nat) : list server_move :=
  [Statement i; Statement i; Draw i; Statement i; Statement i; Statement i; Draw i; Statement i;
   Commit i].
Definition busy : list server_move :=
  [Begin 0 (CallProject deposit_event); Begin 1 (CallProject second_deposit); Begin 2 some_append;
   Draw 2; Statement 0; Statement 1; Statement 2] ++ drop 1 (rest_of 0) ++ [Draw 2] ++ rest_of 1 ++
  [Statement 2; Commit 2].
Definition after_busy : server := fold_left apply_server_move busy (started both_open).

Lemma after_busy_reachable : rtc (server_step settled) (started both_open) after_busy.
Proof. apply server_moves_steps. left. repeat constructor. Qed.

Lemma after_busy_shows :
  y_log after_busy =
    [Committed (CallProject deposit_event); Committed (CallProject second_deposit);
     Committed some_append] /\
  show_row (y_db after_busy) "equity" = Some (-800, 3) /\
  show_history (y_db after_busy) =
    [("equity", -500); ("cash", 500); ("equity", -800); ("cash", 800)].
Proof. vm_compute. done. Qed.

Lemma interleaved_transactions_serialize_witness :
  all_succeed (y_log after_busy) both_open /\
  y_db after_busy ≡ serial (y_log after_busy) both_open /\
  consistent (y_db after_busy).
Proof.
  pose proof after_busy_reachable as Hr. generalize dependent after_busy. intros s Hr.
  destruct (interleaved_transactions_serialize both_open s Hr) as (Hs & He & Hc).
  split; [exact Hs|split; [exact He|]]. apply Hc.
  apply insert_view_consistent, cash_only_consistent.
Defined.
