(* ===== verification/ReadModelRows.v ===== *)
(** * The rows of one account in the read model, statement by statement

    Isolation.v interleaves the statements of projections and appends. Here the
    rows of one account are followed through every such run: whatever happens
    to the other accounts, they stay consistent as long as the account is not
    opened while a projection that has missed its row is open. And an aggregate
    has one event of each version, without any condition. *)
From S2P Require Import Prelude Go Identifiers Money Transaction Account Book Events Ports.
From S2P Require Import World Postgres Projection Production Reachable EventLog ReadModel Isolation.
From S2P Require Import Serializability IsolationTheorems Sample Scenario.
From stdpp Require Import base gmap strings list relations.
Local Open Scope string_scope.
Local Open Scope list_scope.
Local Open Scope Z_scope.

Section rows.
Context {U : UuidLib} {O : Oracle}.

(** ** The rows of an account *)

(** The row of an account in account_balances, if any, and its rows in
    transaction_history. *)
Definition seen : Type := option AccountView * list TransactionHistoryEntry.

Definition see (k : string) (d : DB) : seen :=
  (t_account_balances d !! k, rows_of k (t_transaction_history d)).

(** The balance is the sum of the history, the version counts it, and each of
    its rows holds the balance it left; there is none of an unknown account. *)
Definition agrees (s : seen) : Prop :=
  match s.1 with
  | None => s.2 = []
  | Some v =>
      av_Balance v = sumZ row_delta s.2 /\ av_Version v = 1 + Z.of_nat (length s.2) /\
      forall before r after, s.2 = before ++ r :: after ->
        th_BalanceAfter r = sumZ row_delta (before ++ [r])
  end.

(** The balance has moved by an entry that the history does not have yet. *)
Definition ahead (entry : EntryEventData) (ts : time) (s : seen) : Prop :=
  exists v, agrees (Some v, s.2) /\ s.1 = Some (moved_view v (entryDelta entry) ts).

(** Then the history catches up. *)
Lemma ahead_agrees event entry n v l :
  ahead entry (TRE_Timestamp event) (Some v, l) ->
  agrees (Some v, l ++ [history_row event entry n (av_Balance v)]).
Proof.
  intros (v0 & (Hb & Hn & Hr) & [= ->]). cbn in *. split_and!.
  - rewrite sumZ_app, Hb. cbn. unfold row_delta. cbn. unfold entryDelta. lia.
  - rewrite length_app. cbn. lia.
  - intros before r after He. destruct after as [|x after] using rev_ind.
    + apply app_inj_tail in He as [<- <-]. rewrite sumZ_app, Hb. cbn. unfold row_delta, entryDelta.
      cbn. lia.
    + clear IHafter. rewrite app_comm_cons, app_assoc in He. apply app_inj_tail in He as [He _].
      by eapply Hr.
Qed.

(** ** What the writes of a transaction change of them *)
Context (k : string).

Lemma see_write d d' w : see k d = see k d' -> see k (apply_write d w) = see k (apply_write d' w).
Proof.
  unfold see. intros [= Hv Hh]. destruct w as [id row|row|row|row]; cbn -[rows_of]; try congruence.
  - destruct (decide (id = k)) as [->|Hne]; [rewrite !lookup_insert_eq|rewrite !lookup_insert_ne by done];
      congruence.
  - rewrite !rows_of_app. congruence.
Qed.

Lemma see_writes ws : forall d d',
  see k d = see k d' -> see k (apply_writes ws d) = see k (apply_writes ws d').
Proof. induction ws as [|w ws IH]; intros d d' H; [done|]. by apply IH, see_write. Qed.

(** A write to the rows of the account. *)
Definition touches (w : write) : Prop :=
  match w with
  | WriteBalance id _ => id = k
  | WriteHistory row => th_AccountID row = k
  | _ => False
  end.

Lemma see_untouched ws : forall d,
  (forall w, w ∈ ws -> ~ touches w) -> see k (apply_writes ws d) = see k d.
Proof.
  induction ws as [|w ws IH]; intros d H; [done|].
  change (apply_writes (w :: ws) d) with (apply_writes ws (apply_write d w)).
  rewrite IH by (intros; apply H; by constructor).
  assert (Hw : ~ touches w) by (apply H; constructor). unfold see.
  destruct w as [id row|row|row|row]; cbn -[rows_of] in *; try done.
  - by rewrite lookup_insert_ne.
  - rewrite rows_of_app, bool_decide_eq_false_2 by done. by rewrite app_nil_r.
Qed.

Lemma see_snoc ws ws' d : see k (apply_writes (ws ++ ws') d) = see k (apply_writes ws' (apply_writes ws d)).
Proof. by rewrite apply_writes_app. Qed.

(** ** Where a transaction stands *)

(** It inserts events and outbox rows only. *)
Fixpoint quiet (t : tree) : Prop :=
  match t with
  | Finish _ => True
  | Send q k =>
      match q with SqlInsertEvent _ _ _ _ | SqlInsertOutbox _ _ _ _ => True | _ => False end /\
      forall r, quiet (k r)
  end.

Lemma append_quiet agg ty n now events : forall i, quiet (append_tree agg ty n i now events).
Proof.
  induction events as [|e events IH]; intros i; [done|]. cbn [append_tree quiet].
  split; [done|]. intros [v|e']; [|done]. cbn [quiet]. split; [done|]. intros [v'|e']; [|done].
  apply IH.
Qed.

(** The statements of an entry after its update, and after its select. *)
Definition insert_tree (event : TransactionRecordedEvent) (entry : EntryEventData)
    (entries : list EntryEventData) (balanceAfter : Z) : tree :=
  Send (SqlInsertHistory event entry balanceAfter)
    (or_wrap ("insert history for " +:+ EED_AccountID entry) (fun _ => project_tree event entries)).

Definition select_tree (event : TransactionRecordedEvent) (entry : EntryEventData)
    (entries : list EntryEventData) : tree :=
  Send (SqlSelectBalance (EED_AccountID entry))
    (or_wrap ("get balance after for " +:+ EED_AccountID entry) (insert_tree event entry entries)).

(** What holds of the rows as the transaction sees them ([d] is committed, [ws]
    what it has written, [tr] its statements so far): in the middle of an entry
    for the account it has updated and locked its row, or there was none. *)
Inductive stands (d : DB) (ws : list write) (tr : list (sql * res Z)) : tree -> Prop :=
| stands_failed e : stands d ws tr (Finish (Err e))
| stands_quiet t : quiet t -> agrees (see k (apply_writes ws d)) -> stands d ws tr t
| stands_loop event entries :
    agrees (see k (apply_writes ws d)) -> stands d ws tr (project_tree event entries)
| stands_select event entry entries :
    (EED_AccountID entry <> k -> agrees (see k (apply_writes ws d))) ->
    (EED_AccountID entry = k ->
       (locks_balance k ws /\ ahead entry (TRE_Timestamp event) (see k (apply_writes ws d))) \/
       (t_account_balances d !! k = None /\ has_updated k tr)) ->
    stands d ws tr (select_tree event entry entries)
| stands_insert event entry entries bal :
    (EED_AccountID entry <> k -> agrees (see k (apply_writes ws d))) ->
    (EED_AccountID entry = k ->
       locks_balance k ws /\ ahead entry (TRE_Timestamp event) (see k (apply_writes ws d)) /\
       av_Balance <$> (see k (apply_writes ws d)).1 = Some bal) ->
    stands d ws tr (insert_tree event entry entries bal).

(** Only a transaction that has locked the row has written rows of the account. *)
Definition unlocked_untouched (ws : list write) : Prop :=
  locks_balance k ws \/ forall w, w ∈ ws -> ~ touches w.

Record tx_follows (d : DB) (y : open_tx) : Prop := {
  follows_stands : stands d (ot_writes y) (ot_trace y) (ot_tree y);
  follows_touches : unlocked_untouched (ot_writes y);
}.

(** The committed rows of the account, and what each open transaction makes of
    them. *)
Record rows_follow (s : server) : Prop := {
  rf_agrees : agrees (see k (y_db s));
  rf_tx i y : y_open s !! i = Some y -> tx_follows (y_db s) y;
  rf_row i y : y_open s !! i = Some y -> locks_balance k (ot_writes y) ->
    is_Some (t_account_balances (y_db s) !! k);
  rf_apart i j y z : i <> j -> y_open s !! i = Some y -> y_open s !! j = Some z ->
    locks_balance k (ot_writes y) -> ~ locks_balance k (ot_writes z);
}.

(** ** The other transactions *)

Lemma stands_same d d' ws tr t : see k d' = see k d -> stands d ws tr t -> stands d' ws tr t.
Proof.
  intros Hs. pose proof (see_writes ws _ _ Hs) as Hw. injection Hs as Hv _.
  destruct 1 as [e|t Hq Ha|event entries Ha|event entry entries Hne He|event entry entries bal Hne He].
  - constructor.
  - apply stands_quiet; [done|by rewrite Hw].
  - apply stands_loop. by rewrite Hw.
  - apply stands_select; rewrite Hw, ?Hv; done.
  - apply stands_insert; rewrite Hw; done.
Qed.

Lemma tx_follows_same d d' y : see k d' = see k d -> tx_follows d y -> tx_follows d' y.
Proof. intros Hs [H1 H2]. split; [|done]. by eapply stands_same. Qed.

(** One that has not locked the row, and is not in the middle of an entry that
    has missed it, takes the committed rows for its own. *)
Lemma follows_unlocked d d' y :
  tx_follows d y -> ~ locks_balance k (ot_writes y) -> agrees (see k d') ->
  (t_account_balances d !! k = None -> ~ has_updated k (ot_trace y)) -> tx_follows d' y.
Proof.
  intros [Hs Ht] Hl Ha Hu. split; [|done]. destruct Ht as [?|Ht]; [done|].
  assert (Hw : agrees (see k (apply_writes (ot_writes y) d'))) by by rewrite see_untouched.
  destruct Hs as [e|t Hq _|event entries _|event entry entries _ He|event entry entries bal _ He].
  - constructor.
  - by apply stands_quiet.
  - by apply stands_loop.
  - apply stands_select; [done|]. intros E. by destruct (He E) as [[? _]|[? ?]]; [|destruct Hu].
  - apply stands_insert; [done|]. intros E. by destruct (He E) as [? _].
Qed.

(** ** A statement *)

Lemma untouched_snoc ws ws' :
  unlocked_untouched ws -> locks_balance k ws' \/ (forall w, w ∈ ws' -> touches w -> locks_balance k ws) ->
  unlocked_untouched (ws ++ ws').
Proof.
  unfold unlocked_untouched. rewrite locks_balance_app. intros [?|Ht] [?|Hw]; auto.
  right. intros w [Hin|Hin]%elem_of_app Hk; [by eapply Ht|]. destruct (Hw w Hin Hk) as [row Hr].
  by apply (Ht _ Hr).
Qed.

(** The update of an entry. *)
Lemma follows_update d ws tr event entry entries n r ws' :
  agrees (see k (apply_writes ws d)) -> unlocked_untouched ws ->
  let q := SqlUpdateBalance (entryDelta entry) (TRE_Timestamp event) (EED_AccountID entry) in
  statement q n (apply_writes ws d) = (r, ws') ->
  unlocked_untouched (ws ++ ws') /\
  (forall z, r = Ok z -> stands d (ws ++ ws') (tr ++ [(q, r)]) (select_tree event entry entries)).
Proof.
  intros Ha Ht q. cbn. set (id := EED_AccountID entry) in *.
  destruct (t_account_balances (apply_writes ws d) !! id) as [v|] eqn:Hv.
  2:{ intros [= <- <-]. rewrite app_nil_r. split; [done|]. intros _ _.
      apply stands_select; [done|]. fold id. intros E. right. rewrite E in Hv. split.
      - destruct (apply_balance ws d k) as [[<- _]|[_ Hl]]; [done|].
        destruct (Hl d) as [_ [x Hx]]. congruence.
      - eexists _, _, _. apply elem_of_app. right. apply list_elem_of_singleton. unfold q.
        by rewrite E. }
  destruct (_ && _); intros [= <- <-]; [|by rewrite app_nil_r].
  destruct (decide (id = k)) as [E|Hne].
  - split; [apply untouched_snoc; [done|left; eexists; rewrite E; by constructor]|]. intros _ _.
    apply stands_select; [done|]. intros _. left.
    split; [apply locks_balance_app; right; eexists; rewrite E; by constructor|].
    exists v. rewrite see_snoc. unfold see in Ha |- *. cbn -[rows_of] in *. rewrite E in *.
    rewrite Hv in Ha. by rewrite lookup_insert_eq.
  - split.
    + apply untouched_snoc; [done|]. right. by intros w ->%list_elem_of_singleton.
    + intros _ _. apply stands_select; [|done]. intros _.
      rewrite see_snoc, see_untouched; [done|]. by intros w ->%list_elem_of_singleton.
Qed.

(** The insert of its history row. *)
Lemma follows_insert d ws event entry bal n :
  (EED_AccountID entry <> k -> agrees (see k (apply_writes ws d))) ->
  (EED_AccountID entry = k ->
     locks_balance k ws /\ ahead entry (TRE_Timestamp event) (see k (apply_writes ws d)) /\
     av_Balance <$> (see k (apply_writes ws d)).1 = Some bal) ->
  agrees (see k (apply_writes (ws ++ [WriteHistory (history_row event entry n bal)]) d)).
Proof.
  intros Hne He. rewrite see_snoc. destruct (decide (EED_AccountID entry = k)) as [E|E].
  2:{ rewrite see_untouched; [by apply Hne|]. by intros w ->%list_elem_of_singleton. }
  destruct (He E) as (_ & Ha & Hb). unfold see in *. cbn -[rows_of] in *.
  rewrite rows_of_app, bool_decide_eq_true_2 by done.
  destruct (t_account_balances (apply_writes ws d) !! k) as [v|]; [|done]. injection Hb as <-.
  by apply ahead_agrees.
Qed.

Lemma follows_statement d q kk number ws c tr n r ws' :
  tx_follows d (MkOpen (Send q kk) number ws c tr) ->
  (locks_balance k ws -> is_Some (t_account_balances d !! k)) ->
  statement q n (apply_writes ws d) = (r, ws') ->
  tx_follows d (MkOpen (kk r) None (ws ++ ws') c (tr ++ [(q, r)])).
Proof.
  intros [Hs Ht] Hrow Hst. cbn in *. remember (Send q kk) as t eqn:Et.
  destruct Hs as [e|t Hq Ha|event entries Ha|event entry entries Hne He|event entry entries bal Hne He].
  - done.
  - subst t. destruct Hq as [Hq Hk]. assert (Hw : forall w, w ∈ ws' -> ~ touches w).
    { destruct q; try done; cbn in Hst; [destruct (existsb _ _)|]; injection Hst as <- <-;
        [intros w Hw; by apply elem_of_nil in Hw|intros w ->%list_elem_of_singleton; intros [].. ]. }
    split; cbn; [apply stands_quiet; [by apply Hk|]; by rewrite see_snoc, see_untouched|].
    apply untouched_snoc; [done|]. right. intros w Hin Hw'. by destruct (Hw w Hin).
  - destruct entries as [|entry entries]; [done|]. injection Et as <- <-.
    destruct (follows_update d ws tr event entry entries n r ws' Ha Ht Hst) as [Ht' Hs].
    split; [|done]. cbn. destruct r as [z|e]; [by apply (Hs z)|apply stands_failed].
  - injection Et as <- <-. cbn in Hst. injection Hst as <- <-. rewrite app_nil_r.
    split; [|done]. cbn. unfold select_balance.
    destruct (t_account_balances (apply_writes ws d) !! EED_AccountID entry) as [v|] eqn:Hv;
      [|apply stands_failed].
    apply stands_insert; [done|]. intros E. rewrite E in Hv.
    destruct (He E) as [[Hl Ha]|[Hn _]]; [unfold see at 2; cbn; by rewrite Hv|].
    destruct (apply_balance ws d k) as [[Eq _]|[Hl _]]; [congruence|].
    destruct (Hrow Hl). congruence.
  - injection Et as <- <-. injection Hst as <- <-. split; cbn.
    + by apply stands_loop, follows_insert.
    + apply untouched_snoc; [done|]. right. intros w ->%list_elem_of_singleton. cbn. intros E.
      by destruct (He E).
Qed.

(** ** The server *)

(** The account is not opened while an open transaction has tried to update its
    row; the others may be opened at any time. *)
Definition settled_at (s : server) (e : AccountOpenedEvent) : Prop :=
  AOE_AccountID e = k -> settled s e.

Lemma rows_insert d d' os l l' i y :
  rows_follow (MkServer d os l) -> see k d' = see k d -> tx_follows d y ->
  (locks_balance k (ot_writes y) ->
     is_Some (t_account_balances d !! k) /\
     forall j z, j <> i -> os !! j = Some z -> ~ locks_balance k (ot_writes z)) ->
  rows_follow (MkServer d' (<[i := y]> os) l').
Proof.
  intros [Ha Htx Hr Hap] Hs Hy Hl. cbn in *. pose proof Hs as Hv. injection Hv as Hv _. split; cbn.
  - by rewrite Hs.
  - intros j z [[<- <-]|[_ Hz]]%lookup_insert_Some; eapply tx_follows_same; eauto.
  - intros j z. rewrite Hv. intros [[<- <-]|[_ Hz]]%lookup_insert_Some Hlz; [by apply Hl|eauto].
  - intros j1 j2 z1 z2 Hne [[<- <-]|[H1 Hz1]]%lookup_insert_Some
      [[<- <-]|[H2 Hz2]]%lookup_insert_Some Hl1 Hl2; [done| | |by eapply (Hap j1 j2)].
    + by eapply (proj2 (Hl Hl1) j2).
    + by eapply (proj2 (Hl Hl2) j1).
Qed.

Lemma rows_begin d os l i c :
  rows_follow (MkServer d os l) ->
  rows_follow (MkServer d (<[i := MkOpen (tree_of c) None [] c []]> os) l).
Proof.
  intros Hf. eapply rows_insert; [done|done| |by intros Hl%no_lock]. split; cbn.
  - destruct c as [event|agg ty n now events]; [apply stands_loop|apply stands_quiet; [apply append_quiet|]];
      apply Hf.
  - right. intros w Hw. by apply elem_of_nil in Hw.
Qed.

(** What the others make of the rows when a transaction commits, or another
    account is opened. *)
Lemma rows_commit d os l l' i number ws c tr :
  rows_follow (MkServer d os l) -> os !! i = Some (MkOpen (Finish (Ok tt)) number ws c tr) ->
  rows_follow (MkServer (apply_writes ws d) (delete i os) l').
Proof.
  intros [Ha Htx Hr Hap] Hi. cbn in *. destruct (Htx i _ Hi) as [Hs Ht]. cbn in Hs, Ht.
  assert (Ha' : agrees (see k (apply_writes ws d))).
  { remember (Finish (Ok tt)) as t eqn:Et. by destruct Hs. }
  split; cbn.
  - done.
  - intros j z [Hne Hz]%lookup_delete_Some. destruct Ht as [Hl|Hu].
    + eapply follows_unlocked; [eauto|by eapply (Hap i j)|done|].
      destruct (Hr i _ Hi Hl). congruence.
    + eapply tx_follows_same; [by apply see_untouched|eauto].
  - intros j z [_ Hz]%lookup_delete_Some Hl. destruct (Hr j z Hz Hl) as [v Hv].
    destruct (apply_balance ws d k) as [[-> _]|[_ E]]; [by exists v|by apply (E d)].
  - intros j1 j2 z1 z2 Hne [_ H1]%lookup_delete_Some [_ H2]%lookup_delete_Some. eauto.
Qed.

Lemma see_opened e d :
  see k (insert_view e d).2 = see k d \/
  (AOE_AccountID e = k /\ t_account_balances d !! k = None /\
   (agrees (see k d) -> agrees (see k (insert_view e d).2)) /\
   is_Some (t_account_balances (insert_view e d).2 !! k)).
Proof.
  unfold insert_view. destruct (t_account_balances d !! AOE_AccountID e) eqn:He; [by left|].
  destruct (decide (AOE_AccountID e = k)) as [<-|Hne].
  - right. split_and!; [done|done| |].
    + unfold see, agrees. cbn -[rows_of]. rewrite He, lookup_insert_eq. cbn -[rows_of]. intros ->.
      split_and!; [done|done|]. intros [|] r after; by intros.
    + cbn. rewrite lookup_insert_eq. eauto.
  - left. unfold see. cbn -[rows_of]. by rewrite lookup_insert_ne.
Qed.

Lemma rows_opened d os l l' e :
  rows_follow (MkServer d os l) -> settled_at (MkServer d os l) e ->
  rows_follow (MkServer (insert_view e d).2 os l').
Proof.
  intros [Ha Htx Hr Hap] Hs. cbn in *.
  destruct (see_opened e d) as [Hsee|(Hk & Hn & Hag & Hrow)].
  - pose proof Hsee as Hv. injection Hv as Hv _. split; cbn; [by rewrite Hsee| | |done].
    + intros i y Hi. by eapply tx_follows_same, Htx.
    + intros i y Hi. rewrite Hv. eauto.
  - split; cbn; [by apply Hag| |done|done].
    intros i y Hi. eapply follows_unlocked; [by eapply Htx| |by apply Hag|].
    + intros Hl. destruct (Hr i y Hi Hl). congruence.
    + intros _. destruct (Hs Hk) as [Hd|Hd]; cbn in Hd.
      * rewrite Hk in Hd. apply elem_of_dom in Hd as [? ?]. congruence.
      * rewrite <- Hk. by eapply Hd.
Qed.

Lemma rows_step s s' : rows_follow s -> server_step settled_at s s' -> rows_follow s'.
Proof.
  intros Hf Hs. destruct Hs as [i c d os l Hi|i q kk ws c tr n d os l Hi Hn
    |i q kk number ws c tr r ws' d os l Hi _ Hb Hst|i y d os l Hi|i number ws c tr d os l Hi
    |e d os l Ho].
  - by apply rows_begin.
  - pose proof Hf as [_ Htx Hr Hap]. cbn in *.
    eapply rows_insert; [exact Hf|by destruct q| |].
    + destruct (Htx i _ Hi). by split.
    + intros Hl. split; [by eapply (Hr i _ Hi)|]. intros j z Hne Hz. by eapply (Hap i j).
  - pose proof Hf as [_ Htx Hr Hap]. cbn in *.
    eapply rows_insert; [exact Hf|done| |].
    + eapply follows_statement; [by eapply Htx|by apply (Hr i _ Hi)|exact Hst].
    + cbn. intros [Hl|Hl]%locks_balance_app.
      { split; [by eapply (Hr i _ Hi)|]. intros j z Hne Hz. by eapply (Hap i j). }
      destruct (proj1 (statement_locks _ _ _ _ _ Hst) k Hl) as (delta & ts & -> & Hv). split.
      * destruct (apply_balance ws d k) as [[<- _]|[Hli _]]; [done|]. by eapply (Hr i _ Hi).
      * intros j z Hne Hz Hlz. apply Hb. by exists j, z.
  - destruct Hf as [Ha Htx Hr Hap]. split; cbn in *; [done|..].
    + intros j z [_ Hz]%lookup_delete_Some. eauto.
    + intros j z [_ Hz]%lookup_delete_Some. eauto.
    + intros j1 j2 z1 z2 Hne [_ H1]%lookup_delete_Some [_ H2]%lookup_delete_Some. eauto.
  - by eapply rows_commit.
  - by eapply rows_opened.
Qed.

Lemma rows_reachable s : rtc (server_step settled_at) (started empty_db) s -> rows_follow s.
Proof.
  revert s. apply rtc_ind_r; [|intros s1 s2 _ Hs Hf; by eapply rows_step].
  split; cbn; try done; intros; by simplify_map_eq.
Qed.

(** ** One event of each version, whatever may be opened *)

Record versions_apart (s : server) : Prop := {
  va_unique : versions_unique (t_events (y_db s));
  va_tx i y : y_open s !! i = Some y ->
    versions_unique (t_events (apply_writes (ot_writes y) (y_db s)));
  va_apart i j y z agg v : i <> j -> y_open s !! i = Some y -> y_open s !! j = Some z ->
    holds_version agg v (ot_writes y) -> ~ holds_version agg v (ot_writes z);
}.

Lemma versions_unique_apart l a b :
  versions_unique (l ++ a) -> versions_unique (l ++ b) ->
  (forall agg v, existsb (has_version agg v) a = true -> existsb (has_version agg v) b = true -> False) ->
  versions_unique ((l ++ a) ++ b).
Proof.
  unfold versions_unique. rewrite !fmap_app. intros Ha (_ & Hlb & Hb)%NoDup_app Hab.
  apply NoDup_app. split_and!; [done| |done]. intros [agg v] [Hx|Hx]%elem_of_app Hy; [by eapply Hlb|].
  apply (Hab agg v).
  - apply not_false_iff_true. by intros Hn%has_version_spec.
  - apply not_false_iff_true. by intros Hn%has_version_spec.
Qed.

(** The events of a transaction after a statement. *)
Lemma versions_statement q n d ws r ws' :
  versions_unique (t_events (apply_writes ws d)) -> statement q n (apply_writes ws d) = (r, ws') ->
  versions_unique (t_events (apply_writes (ws ++ ws') d)).
Proof.
  intros Hu. rewrite apply_writes_app. destruct q as [delta ts id|id|event entry bal|agg ty version e|agg ty e now];
    cbn.
  - destruct (_ !! id); [destruct (_ && _)|]; by intros [= <- <-].
  - by intros [= <- <-].
  - by intros [= <- <-].
  - destruct (existsb _ _) eqn:Hx; intros [= <- <-]; [done|]. cbn.
    apply append_unique; [done|]. by apply has_version_spec.
  - by intros [= <- <-].
Qed.

Lemma events_apply_same ws d d' :
  t_events d' = t_events d -> t_events (apply_writes ws d') = t_events (apply_writes ws d).
Proof. intros H. destruct (apply_events ws d) as (rows & -> & -> & _). by rewrite H. Qed.

Lemma versions_insert d d' os l l' i y :
  versions_apart (MkServer d os l) -> t_events d' = t_events d ->
  versions_unique (t_events (apply_writes (ot_writes y) d)) ->
  (forall agg v j z, holds_version agg v (ot_writes y) -> j <> i -> os !! j = Some z ->
     ~ holds_version agg v (ot_writes z)) ->
  versions_apart (MkServer d' (<[i := y]> os) l').
Proof.
  intros [Hu Htx Hap] He Hy Hh. cbn in *. split; cbn.
  - by rewrite He.
  - intros j z [[<- <-]|[_ Hz]]%lookup_insert_Some; rewrite (events_apply_same _ d); eauto.
  - intros j1 j2 z1 z2 agg v Hne [[<- <-]|[H1 Hz1]]%lookup_insert_Some
      [[<- <-]|[H2 Hz2]]%lookup_insert_Some Hl1 Hl2; [done| | |by eapply (Hap j1 j2)].
    + by eapply (Hh agg v j2).
    + by eapply (Hh agg v j1).
Qed.

Lemma versions_step may_open s s' :
  versions_apart s -> server_step may_open s s' -> versions_apart s'.
Proof.
  intros Hf Hs. pose proof Hf as [Hu Htx Hap].
  destruct Hs as [i c d os l Hi|i q kk ws c tr n d os l Hi Hn
    |i q kk number ws c tr r ws' d os l Hi _ Hb Hst|i y d os l Hi|i number ws c tr d os l Hi
    |e d os l _]; cbn in *.
  - eapply versions_insert; [exact Hf|done|done|]. by intros agg v j z Hl%no_version.
  - eapply versions_insert; [exact Hf|by destruct q|by apply (Htx i _ Hi)|].
    intros agg v j z Hl Hne Hz. by eapply (Hap i j).
  - eapply versions_insert; [exact Hf|done| |]; cbn.
    + eapply versions_statement; [by apply (Htx i _ Hi)|exact Hst].
    + intros agg v j z [Hl|Hl]%holds_version_app Hne Hz; [by eapply (Hap i j)|].
      destruct (proj2 (statement_locks _ _ _ _ _ Hst) agg v Hl) as (ty & e & ->).
      intros Hlz. apply Hb. by exists j, z.
  - split; cbn; [done|..].
    + intros j z [_ Hz]%lookup_delete_Some. eauto.
    + intros j1 j2 z1 z2 agg v Hne [_ H1]%lookup_delete_Some [_ H2]%lookup_delete_Some. eauto.
  - split; cbn; [by apply (Htx i _ Hi)| |].
    + intros j z [Hne Hz]%lookup_delete_Some. pose proof (Htx i _ Hi) as Hui. pose proof (Htx j z Hz) as Huj.
      cbn [ot_writes] in Hui. destruct (apply_events ws d) as (a & Ea & _ & Ha).
      destruct (apply_events (ot_writes z) (apply_writes ws d)) as (b & Eb & Eb' & Hvb).
      rewrite Eb, Ea. rewrite Ea in Hui. rewrite Eb' in Huj. apply versions_unique_apart; [done|done|].
      intros agg v H1%Ha H2%Hvb. by apply (Hap i j _ _ agg v Hne Hi Hz).
    + intros j1 j2 z1 z2 agg v Hne [_ H1]%lookup_delete_Some [_ H2]%lookup_delete_Some. eauto.
  - assert (He : t_events (insert_view e d).2 = t_events d)
      by (unfold insert_view; by destruct (_ !! _)).
    split; cbn; [by rewrite He| |done].
    intros i y Hi. rewrite (events_apply_same _ d) by done. eauto.
Qed.

Lemma versions_reachable may_open s :
  rtc (server_step may_open) (started empty_db) s -> versions_apart s.
Proof.
  revert s. apply rtc_ind_r; [|intros s1 s2 _ Hs Hf; by eapply versions_step].
  split; cbn; [apply NoDup_nil_2|..]; intros; by simplify_map_eq.
Qed.

(** ** The theorem *)

Lemma latest_agrees v l :
  agrees (Some v, l) -> av_Balance v = default 0 (last (th_BalanceAfter <$> l)).
Proof.
  intros (Hb & _ & Hr). cbn in *. destruct l as [|r l _] using rev_ind; [done|].
  rewrite fmap_app. csimpl. rewrite last_snoc. cbn. by rewrite (Hr l r []), Hb.
Qed.

(** C35: the tables in every interleaving of the statements of projections and
    appends, any number of them open at a time, committed or rolled back, and
    of accounts opened in the read model at any time. An aggregate has at most
    one event of each version. The read model of an account, whatever becomes
    of the others, is the running sum of its history, as long as the account
    itself is not opened while a projection that has tried to update its row
    is open: its balance is the sum of what its history rows have added,
    credits less the rest, with nothing lost and no wrap-around, and is that of
    its latest row; its version counts them; each row holds the balance it
    left; and an account that is not there has no rows. *)
Theorem tables_stay_consistent s :
  rtc (server_step settled_at) (started empty_db) s ->
  let history := t_transaction_history (y_db s) in
  versions_unique (t_events (y_db s)) /\
  match t_account_balances (y_db s) !! k with
  | None => rows_of k history = []
  | Some v =>
      av_Balance v = history_sum k history /\ av_Balance v = latest k history /\
      av_Version v = 1 + Z.of_nat (length (rows_of k history)) /\
      forall before r after, rows_of k history = before ++ r :: after ->
        th_BalanceAfter r = sumZ row_delta (before ++ [r])
  end.
Proof.
  intros Hr history. split; [by eapply va_unique, versions_reachable|].
  pose proof (rf_agrees s (rows_reachable s Hr)) as Ha. unfold see in Ha. fold history in Ha.
  destruct (t_account_balances (y_db s) !! k) as [v|] eqn:Hv; [|exact Ha].
  pose proof (latest_agrees v _ Ha). destruct Ha as (? & ? & ?). by split_and!.
Qed.
End rows.

(** ** A run that it applies to

    The one that breaks the equity account: the read model of the other account
    stays right. *)
Definition moves_settled (k : string) (m : server_move) : Prop :=
  match m with OpenView e => AOE_AccountID e <> k | _ => True end.

Lemma settled_moves_steps {U : UuidLib} {O : Oracle} k ms : Forall (moves_settled k) ms ->
  forall s, rtc (server_step (settled_at k)) s (fold_left apply_server_move ms s).
Proof.
  induction 1 as [|m ms Hm _ IH]; intros s; [done|]. cbn [fold_left]. etrans; [|apply IH].
  destruct m as [i c|i|i|i|i|e]; try (apply apply_server_move_steps; by left).
  destruct s as [d os l]. cbn. apply rtc_once, srv_opened. by intros E%Hm.
Qed.

Definition opened_cash : server := MkServer cash_only ∅ [Opened cash_opened].

Lemma tables_stay_consistent_witness :
  let s := fold_left apply_server_move opening_race opened_cash in
  rtc (server_step (settled_at "cash")) (started empty_db) s /\
  exists v, t_account_balances (y_db s) !! "cash" = Some v /\ av_Balance v = 500 /\
    av_Balance v = history_sum "cash" (t_transaction_history (y_db s)).
Proof.
  cbn zeta.
  assert (Hr : rtc (server_step (settled_at "cash")) (started empty_db)
            (fold_left apply_server_move opening_race opened_cash)).
  { eapply rtc_l; [|apply settled_moves_steps; repeat constructor; done].
    apply (srv_opened (settled_at "cash") cash_opened empty_db ∅ []). intros _. right.
    intros i y Hi. cbn in Hi. by rewrite lookup_empty in Hi. }
  split; [exact Hr|].
  assert (Hv : exists v, t_account_balances (y_db (fold_left apply_server_move opening_race opened_cash))
            !! "cash" = Some v /\ av_Balance v = 500) by (eexists; split; vm_compute; reflexivity).
  generalize dependent (fold_left apply_server_move opening_race opened_cash). intros s Hr Hv.
  destruct Hv as (v & Hv & Hb). exists v. split; [exact Hv|]. split; [exact Hb|].
  pose proof (tables_stay_consistent "cash" s Hr) as [_ H]. rewrite Hv in H. apply H.
Defined.
