(* ===== verification/ReadModelTheorems.v ===== *)
(** * Theorems on the read model

    The read model is consistent with its history in every reachable state; it
    follows the write model on entries that are debits or credits, and leaves
    it on entries that are neither. *)
From S2P Require Import Prelude Go Identifiers Money Transaction Account Book Events Ports.
From S2P Require Import World LedgerService LedgerSafety LedgerLive Transfer TransferService.
From S2P Require Import Sample InMemory Postgres Projection Production Scenario Reachable.
From S2P Require Import EventLog ReadModel.
From stdpp Require Import base gmap strings list.
Local Open Scope Z_scope.

Section readmodel.
Context {U : UuidLib} {O : Oracle}.
Notation key := AccountID_String.

(** Balance and history agree: in every world the program can reach from
    an empty database, whatever the database does, the balance of an account
    in the read model is the balance_after of its latest history row (zero
    when it has none), and every history row is of a known account. *)
Theorem history_explains_balance w :
  rtc app_step initial_world w ->
  (forall k v, t_account_balances (w_db w) !! k = Some v ->
     av_Balance v = latest k (t_transaction_history (w_db w))) /\
  (forall r, r ∈ t_transaction_history (w_db w) ->
     th_AccountID r ∈ dom (t_account_balances (w_db w))).
Proof.
  assert (H0 : read_consistent initial_world) by (by apply empty_consistent).
  intros H. enough (read_consistent w) as [H1 H2 _ _] by done.
  induction H as [w|w1 w2 w3 Hs _ IH]; [done|].
  apply IH. by apply (app_step_inv read_consistent w1).
Qed.

(** Read and write model have the same accounts with the same balances. *)
Record agree (w : World) : Prop := {
  agree_dom : dom (t_account_balances (w_db w)) = dom (pg_view w);
  agree_balance k c v : pg_view w !! k = Some c -> t_account_balances (w_db w) !! k = Some v ->
    av_Balance v = ac_amount c;
}.
(** Every row of the read model can still be changed [n] times. *)
Definition versions_below (n : Z) (w : World) : Prop :=
  forall k v, t_account_balances (w_db w) !! k = Some v -> min_int64 <= av_Version v <= max_int64 - n.

Lemma agree_room a n w : agree w -> headroom a (pg_view w) -> versions_below n w ->
  room a n (t_account_balances (w_db w)).
Proof.
  intros [Hd Hb] Hh Hn k v Hv. split; [|by eapply Hn].
  assert (exists c, pg_view w !! k = Some c) as [c Hc].
  { apply elem_of_dom. rewrite <- Hd. by apply elem_of_dom_2 in Hv. }
  rewrite (Hb _ _ _ Hc Hv). by apply Hh with k.
Qed.

(** On a debit or a credit of a positive amount both sides move by the same. *)
Lemma param_delta_signed p :
  is_posting (EntryParams_Type p) = true -> 0 < params_amount p <= max_int64 ->
  param_delta p = params_signed p /\ Z.abs (param_delta p) = params_amount p.
Proof.
  unfold is_posting, param_delta, params_signed, signed, credit_part, debit_part, params_amount.
  change "CREDIT"%string with Credit. unfold max_int64. intros Hp Ha.
  apply orb_true_iff in Hp as [Hp|Hp]; apply bool_decide_eq_true in Hp; rewrite Hp; simpl; [|lia].
  rewrite wrap64_id; [lia|]. unfold in_int64, min_int64, max_int64. lia.
Qed.

Lemma positive_each ps p :
  positive_amounts ps -> p ∈ ps -> 0 < params_amount p <= sumZ params_amount ps.
Proof.
  induction 1 as [|q ps Hq Hps IH]; [by intros ?%elem_of_nil|].
  pose proof (positive_amounts_sum ps Hps). simpl. intros [->|Hin]%elem_of_cons; [lia|].
  destruct (IH Hin). lia.
Qed.

Lemma posted_to_bound k ps :
  positive_amounts ps -> Z.abs (sumZ (posted_to k) ps) <= sumZ params_amount ps.
Proof.
  induction 1 as [|q ps Hq _ IH]; simpl; [lia|]. unfold posted_to at 1.
  pose proof (params_signed_bound q Hq). case_bool_decide; lia.
Qed.

Context `{Laws : !UuidLaws} `{OLaws : !OracleLaws}.

(** C11: the read model follows the write model: when the two agree (the same
    accounts with the same balances) and a transaction of debits and credits of
    positive amounts is recorded, with no other request at work, while the
    database answers and no balance, sum or version overflows, they agree again.
    The database has to answer, as [RecordTransaction] drops the error of the
    projector, after which the read model lacks the transaction. *)
Theorem read_model_follows cmd w tx w' :
  let ps := cmdParams <$> RTC_Entries cmd in
  pg_inv w -> database_up w -> RecordTransaction production cmd w = (Ok tx, w') ->
  Forall (fun p => is_posting (EntryParams_Type p) = true) ps -> positive_amounts ps ->
  sumZ params_amount ps <= max_int64 -> headroom (sumZ params_amount ps) (pg_view w) ->
  versions_below (Z.of_nat (length ps)) w -> agree w -> agree w'.
Proof using Laws OLaws.
  intros ps Hi Hup H Hty Hpos Hmax Hh Hn Hag.
  destruct (RecordTransaction_Ok (view:=pg_view) _ _ _ _ Hi H) as (_ & _ & Hp & _). fold ps in Hp.
  pose proof (safe_inv_wf (r:=pg_AccountRepository) _ Hi) as Hw. rewrite Forall_forall in Hty.
  pose proof (book_posts_known ps (pg_view w)) as Hk. rewrite Hp in Hk. specialize (Hk eq_refl).
  assert (Hd : forall p, p ∈ ps -> param_delta p = params_signed p /\
                 Z.abs (param_delta p) = params_amount p).
  { intros p Hin. apply param_delta_signed; [by apply Hty|].
    pose proof (positive_each ps p Hpos Hin). lia. }
  destruct (RecordTransaction_projects cmd w tx w' Hup H) as [Hdom Hall].
  { fold ps. rewrite (sumZ_ext_in _ params_amount).
    - by apply agree_room.
    - intros p Hin%list_elem_of_In. by apply Hd. }
  { intros p Hin. rewrite (agree_dom _ Hag). rewrite Forall_forall in Hk. by apply Hk. }
  pose proof (book_posts_dom ps (pg_view w)) as Hvd. rewrite Hp in Hvd. split.
  { rewrite Hdom, (agree_dom _ Hag). by rewrite <- Hvd. }
  intros k c' v' Hc' Hv'.
  assert (exists c, pg_view w !! k = Some c) as [c Hc].
  { apply elem_of_dom. rewrite <- Hvd. simpl. by apply elem_of_dom_2 in Hc'. }
  assert (exists v, t_account_balances (w_db w) !! k = Some v) as [v Hv].
  { apply elem_of_dom. rewrite <- Hdom. by apply elem_of_dom_2 in Hv'. }
  pose proof (book_posts_account ps (pg_view w) k c Hw Hc) as Ha. rewrite Hp in Ha.
  destruct (Ha eq_refl) as (c1 & Hc1 & Hamt & _). simpl in Hc1. rewrite Hc' in Hc1. simplify_eq.
  destruct (Hall k v Hv) as (v1 & Hv1 & Hb). rewrite Hv' in Hv1. simplify_eq. rewrite Hb, Hamt.
  rewrite (agree_balance _ Hag _ _ _ Hc Hv). fold ps.
  rewrite (sumZ_ext_in (param_on k) (posted_to k)).
  - pose proof (posted_to_bound k ps Hpos). pose proof (Hh _ _ Hc). symmetry. apply wrap64_id.
    unfold in_int64. lia.
  - intros p Hin%list_elem_of_In. unfold param_on, posted_to. by rewrite (proj1 (Hd p Hin)).
Qed.

(** On entries whose type is neither DEBIT nor CREDIT the two models
    part: the write model does not change, the read model subtracts every
    amount. *)
Theorem read_model_diverges cmd w tx w' :
  let ps := cmdParams <$> RTC_Entries cmd in
  pg_inv w -> database_up w -> RecordTransaction production cmd w = (Ok tx, w') ->
  Forall (fun p => is_posting (EntryParams_Type p) = false) ps -> positive_amounts ps ->
  sumZ params_amount ps <= max_int64 -> headroom (sumZ params_amount ps) (pg_view w) ->
  versions_below (Z.of_nat (length ps)) w -> agree w ->
  pg_view w' = pg_view w /\
  forall k c, pg_view w !! k = Some c -> exists v', t_account_balances (w_db w') !! k = Some v' /\
    av_Balance v' = ac_amount c -
      sumZ (fun p => if bool_decide (key (EntryParams_AccountID p) = k) then params_amount p else 0) ps.
Proof using Laws OLaws.
  intros ps Hi Hup H Hty Hpos Hmax Hh Hn Hag.
  destruct (RecordTransaction_Ok (view:=pg_view) _ _ _ _ Hi H) as (_ & _ & Hp & _). fold ps in Hp.
  rewrite Forall_forall in Hty.
  pose proof (book_posts_known ps (pg_view w)) as Hk. rewrite Hp in Hk. specialize (Hk eq_refl).
  assert (Hd : forall p, p ∈ ps -> param_delta p = - params_amount p).
  { intros p Hin. specialize (Hty p Hin). unfold is_posting in Hty. bool_prop. unfold param_delta.
    change "CREDIT"%string with Credit. rewrite bool_decide_eq_false_2 by done.
    pose proof (positive_each ps p Hpos Hin). apply wrap64_id.
    unfold in_int64, min_int64, max_int64 in *. lia. }
  destruct (RecordTransaction_projects cmd w tx w' Hup H) as [Hdom Hall].
  { fold ps. rewrite (sumZ_ext_in _ params_amount).
    - by apply agree_room.
    - intros p Hin%list_elem_of_In. rewrite (Hd p Hin).
      pose proof (positive_each ps p Hpos Hin). lia. }
  { intros p Hin. rewrite (agree_dom _ Hag). rewrite Forall_forall in Hk. by apply Hk. }
  rewrite Forall_forall in Hk.
  rewrite book_posts_unknown in Hp by done. injection Hp as Hview. split; [by rewrite Hview|].
  intros k c Hc.
  assert (exists v, t_account_balances (w_db w) !! k = Some v) as [v Hv].
  { apply elem_of_dom. rewrite (agree_dom _ Hag). by apply elem_of_dom_2 in Hc. }
  destruct (Hall k v Hv) as (v' & Hv' & Hb). exists v'. split; [done|].
  rewrite Hb, (agree_balance _ Hag _ _ _ Hc Hv). fold ps. rewrite <- Z.add_opp_r, sumZ_opp. f_equal.
  apply sumZ_ext_in. intros p Hin%list_elem_of_In. unfold param_on. rewrite (Hd p Hin).
  case_bool_decide; lia.
Qed.
End readmodel.

(** ** The properties on concrete runs *)

Lemma history_explains_balance_witness :
  exists w, rtc app_step initial_world w /\
    forall k v, t_account_balances (w_db w) !! k = Some v ->
      av_Balance v = latest k (t_transaction_history (w_db w)).
Proof.
  set (w1 := (run_call (s:=production) (CallOpenAccount (open_cmd "Alice")) initial_world).2).
  set (w2 := (run_call (s:=production) (CallDeposit alice 1000 USD "opening") w1).2).
  assert (H : rtc app_step initial_world w2).
  { eapply rtc_l; [apply step_call|]. apply rtc_once, step_call. }
  exists w2. split; [exact H|]. exact (proj1 (history_explains_balance w2 H)).
Defined.

(** A boolean test of every row of the read model of the sample world. *)
Lemma sample_rows (P : string -> AccountView -> bool) :
  forallb (fun kv => P kv.1 kv.2) (map_to_list (t_account_balances (w_db pg_world))) = true ->
  forall k v, t_account_balances (w_db pg_world) !! k = Some v -> P k v = true.
Proof.
  generalize (t_account_balances (w_db pg_world)). intros t. rewrite forallb_forall.
  intros H k v Hk. apply (H (k, v)). by apply list_elem_of_In, elem_of_map_to_list.
Qed.

Definition row_agrees (k : string) (v : AccountView) : bool :=
  match sample_book !! k with Some c => av_Balance v =? ac_amount c | None => false end.

Lemma pg_world_agree : agree pg_world.
Proof.
  split; [vm_compute; reflexivity|]. intros k c v Hc Hv.
  pose proof (sample_rows row_agrees ltac:(vm_compute; reflexivity) k v Hv) as H.
  unfold row_agrees in H. rewrite pg_world_view in Hc. rewrite Hc in H. by apply Z.eqb_eq.
Qed.

Lemma pg_world_versions : versions_below 2 pg_world.
Proof.
  intros k v Hv.
  pose proof (sample_rows (fun _ v => (0 <=? av_Version v) && (av_Version v <=? 10))
                ltac:(vm_compute; reflexivity) k v Hv) as H.
  cbn beta in H. bool_prop. unfold min_int64, max_int64. lia.
Qed.

Lemma pg_world_up : database_up pg_world.
Proof. intros n _. reflexivity. Qed.

Lemma pg_headroom n : n <= 2 ^ 40 -> headroom n (pg_view pg_world).
Proof. intros Hn. rewrite pg_world_view. by apply sample_headroom. Qed.

Lemma read_model_follows_witness :
  exists tx w', RecordTransaction production payment pg_world = (Ok tx, w') /\
    agree pg_world /\ agree w'.
Proof.
  assert (Ho : is_Ok (RecordTransaction production payment pg_world).1 = true)
    by (vm_compute; reflexivity).
  destruct (is_Ok_run _ _ Ho) as (tx & w' & H). exists tx, w'. split; [exact H|].
  split; [exact pg_world_agree|].
  refine (read_model_follows payment pg_world tx w' pg_world_inv pg_world_up H _ _ _ _
            pg_world_versions pg_world_agree).
  - by repeat constructor.
  - by repeat constructor.
  - by vm_compute.
  - apply pg_headroom. by vm_compute.
Defined.

(** Two entries of type "TRANSFER": Alice keeps her 1000, the read model shows
    700. *)
Definition mistyped : RecordTransactionCmd :=
  MkRecordTransactionCmd [MkEntryCmd alice 300 USD "TRANSFER"; MkEntryCmd bob 300 USD "TRANSFER"] "".

Lemma read_model_diverges_witness :
  exists tx w', RecordTransaction production mistyped pg_world = (Ok tx, w') /\
    pg_view w' = pg_view pg_world /\
    exists v', t_account_balances (w_db w') !! AccountID_String alice = Some v' /\ av_Balance v' = 700.
Proof.
  assert (Ho : is_Ok (RecordTransaction production mistyped pg_world).1 = true)
    by (vm_compute; reflexivity).
  destruct (is_Ok_run _ _ Ho) as (tx & w' & H). exists tx, w'. split; [exact H|].
  destruct (read_model_diverges mistyped pg_world tx w' pg_world_inv pg_world_up H) as [Hv Hr].
  - by repeat constructor.
  - by repeat constructor.
  - by vm_compute.
  - apply pg_headroom. by vm_compute.
  - exact pg_world_versions.
  - exact pg_world_agree.
  - split; [exact Hv|].
    destruct (Hr (AccountID_String alice) (asset alice "Alice" 1000)) as (v' & Hv' & Hb).
    { rewrite pg_world_view. reflexivity. }
    exists v'. split; [exact Hv'|]. rewrite Hb. reflexivity.
Defined.
