(* ===== verification/Processes.v ===== *)
(** * The whole program: requests and outbox workers on one database

    Any number of requests, each a [goroutine] that makes one access at a time,
    and any number of outbox workers, each a [batch] that makes one call at a
    time, take steps in any order. A request may never be scheduled again (its
    client is gone, or its process has died), and the program may be restarted,
    which loses the goroutines, the workers and what is kept in memory. Between
    any two steps something may look at the state (a query, a health check, the
    clock of the metrics) without changing a table.

    ProjectTransactionRecorded opens a transaction of the database, whose
    statements interleave with those of others (Isolation.v). An access that
    calls it writes the read model in one go; but between any two steps the
    read model may change to anything, so that nothing that is proved here
    depends on that (ReadModelRows.v is about the read model). AppendWithOutbox
    is one access: IsolationTheorems.v shows that interleaved appends leave what
    they leave one after the other, up to the numbers of the rows. *)
From S2P Require Import Prelude Go Identifiers Money Transaction Account Book Events Ports.
From S2P Require Import World LedgerService LedgerSafety Transfer TransferService InMemory.
From S2P Require Import Postgres Projection Production Reachable Accesses EventLog OutboxWorker.
From S2P Require Import WorkerTheorems ReadModel.
From stdpp Require Import base gmap strings list.
Local Open Scope Z_scope.

Section processes.
Context {U : UuidLib} {O : Oracle} {B : Type} (ow : OutboxWorker (B:=B)).

(** ** A worker, one call at a time *)

(** Where [processBatch] stands: before a tick, or in the loop over the
    entries, with those still to publish and the ids published so far. *)
Inductive batch :=
| Idle
| Batch (entries : list OutboxEntry) (publishedIDs : list Z).

Definition batch_step (b : batch) : St (World * B) batch :=
  fun '(db, br) =>
    match b with
    | Idle =>
        match FetchUnpublished (OW_batchSize ow) db with
        | (Err _, db) => (Idle, (db, br))
        | (Ok entries, db) =>
            if bool_decide (length entries = 0%nat) then (Idle, (db, br))
            else (Batch entries [], (db, br))
        end
    | Batch (entry :: entries) ids =>
        match EventPublisher_Publish (OW_publisher ow) (OE_EventType entry) (OE_AggregateID entry)
                (OE_Payload entry) br with
        | (Err _, br) => (Batch entries ids, (db, br))
        | (Ok _, br) => (Batch entries (ids ++ [OE_ID entry]), (db, br))
        end
    | Batch [] ids =>
        if bool_decide (0 < length ids)%nat
        then let '(_, db) := MarkPublished ids db in (Idle, (db, br))
        else (Idle, (db, br))
    end.

Fixpoint batch_steps (n : nat) (b : batch) : St (World * B) batch :=
  match n with
  | 0%nat => retS b
  | S n => let@ b := batch_step b in batch_steps n b
  end.

Lemma batch_loop entries ids db br :
  batch_steps (length entries) (Batch entries ids) (db, br) =
  (Batch [] (ids ++ (publishEntries ow entries br).1), (db, (publishEntries ow entries br).2)).
Proof.
  revert ids br. induction entries as [|e es IH]; intros ids br; simpl; [by rewrite app_nil_r|].
  rewrite !bindS_run. simpl.
  destruct (EventPublisher_Publish _ _ _ _ br) as [[[]|er] br1]; cbn [fst snd]; rewrite IH; simpl;
    by rewrite <- ?app_assoc.
Qed.

Lemma batch_steps_app n m b s :
  batch_steps (n + m) b s = batch_steps m (batch_steps n b s).1 (batch_steps n b s).2.
Proof. revert b s. induction n as [|n IH]; intros b s; [done|]. simpl. by rewrite !bindS_run, IH. Qed.

(** Alone, a worker runs [processBatch]. *)
Lemma batch_alone s : exists n, batch_steps n Idle s = (Idle, (processBatch ow s).2).
Proof.
  destruct s as [db br]. unfold processBatch.
  destruct (FetchUnpublished (OW_batchSize ow) db) as [[entries|e] db1] eqn:Hf.
  2:{ exists 1%nat. simpl. rewrite bindS_run. simpl. by rewrite Hf. }
  case_bool_decide as Hl.
  { exists 1%nat. simpl. rewrite bindS_run. simpl. by rewrite Hf, bool_decide_eq_true_2. }
  exists (1 + (length entries + 1))%nat. rewrite !batch_steps_app. simpl. rewrite !bindS_run.
  simpl. rewrite Hf, bool_decide_eq_false_2 by done. simpl. rewrite batch_loop. simpl.
  destruct (publishEntries ow entries br) as [ids br1]. simpl.
  case_bool_decide; [by destruct (MarkPublished ids db1)|done].
Qed.

(** ** The program *)

Record program := MkProgram {
  p_requests : list goroutine;
  p_workers : list batch;
  p_world : World;
  p_broker : B;
}.

(** A new process: the tables stay, the memory of the old one is lost. *)
Definition reboot (w : World) : World := put_accounts (put_transactions w ∅) ∅.

(** The tables without the read model. *)
Definition but_read (d : DB) : DB :=
  MkDB (t_accounts d) (t_events d) (t_snapshots d) (t_outbox d) ∅ [] (seq_events d) (seq_outbox d) 0.

(** What goes on between the steps: looks at the clock, statements that only
    read, and the statements of projections, whose outcome is left open. *)
Record background (w w' : World) : Prop := {
  obs_db : but_read (w_db w') = but_read (w_db w);
  obs_accounts : w_accounts w' = w_accounts w;
  obs_transactions : w_transactions w' = w_transactions w;
  obs_uuid : w_uuid w' = w_uuid w;
  obs_clock : (w_clock w <= w_clock w')%nat;
  obs_stmt : (w_stmt w <= w_stmt w')%nat;
}.

#[global] Instance background_preorder : PreOrder background.
Proof. split; [by intros w; split|]. intros w1 w2 w3 [] []. split; congruence || lia. Qed.

Lemma background_now : Steps background time_Now.
Proof. intros w. split; simpl; done || lia. Qed.

Lemma background_exec {A} (q : time -> stmt A) :
  (forall t d, (q t d).2 = d) -> Steps background (exec q).
Proof.
  intros Hq w. unfold exec, exec_at. specialize (Hq (db_clock (w_stmt w)) (w_db w)).
  destruct (db_fault (w_stmt w)); [destruct (q _ (w_db w))| |destruct (q _ (w_db w))];
    split; simpl in *; congruence || lia.
Qed.

Lemma background_range {A} (m : nat -> M World A) :
  (forall n, Steps background (m n)) -> Steps background (fun w => m (w_range w) (tick_range w)).
Proof. intros Hm w. etrans; [|exact (Hm (w_range w) (tick_range w))]. by split. Qed.

Inductive program_step : program -> program -> Prop :=
| step_arrives k rs ws w b :
    program_step (MkProgram rs ws w b) (MkProgram (rs ++ [MkGoroutine k []]) ws w b)
| step_request i g rs ws w b :
    rs !! i = Some g ->
    program_step (MkProgram rs ws w b)
      (MkProgram (<[i := (advance_one g w).1]> rs) ws (advance_one g w).2 b)
| step_starts rs ws w b :
    program_step (MkProgram rs ws w b) (MkProgram rs (ws ++ [Idle]) w b)
| step_worker j c rs ws w b :
    ws !! j = Some c ->
    program_step (MkProgram rs ws w b)
      (MkProgram rs (<[j := (batch_step c (w, b)).1]> ws) (batch_step c (w, b)).2.1
         (batch_step c (w, b)).2.2)
| step_skips j rows rs ws w w' b :
    (* SKIP LOCKED: the rows that another worker's statement has locked are left out *)
    ws !! j = Some Idle -> rows ⊆+ pending (t_outbox (w_db w)) ->
    Z.of_nat (length rows) <= OW_batchSize ow -> background w w' ->
    program_step (MkProgram rs ws w b)
      (MkProgram rs (<[j := Batch (outbox_entry <$> rows) []]> ws) w' b)
| step_looks rs ws w w' b :
    background w w' -> program_step (MkProgram rs ws w b) (MkProgram rs ws w' b)
| step_restarts rs ws w b :
    program_step (MkProgram rs ws w b) (MkProgram [] [] (reboot w) b).

(** What was booted on empty tables. *)
Definition booted (b : B) : program := MkProgram [] [] initial_world b.

(** The interleaving given by a list of steps, for concrete runs. *)
Inductive move := Arrive (k : task) | Request (i : nat) | StartWorker | Worker (j : nat) | Reboot.

Definition apply_move (m : move) (p : program) : program :=
  let '(MkProgram rs ws w b) := p in
  match m with
  | Arrive k => MkProgram (rs ++ [MkGoroutine k []]) ws w b
  | Request i =>
      match rs !! i with
      | Some g => let '(g, w) := advance_one g w in MkProgram (<[i := g]> rs) ws w b
      | None => p
      end
  | StartWorker => MkProgram rs (ws ++ [Idle]) w b
  | Worker j =>
      match ws !! j with
      | Some c => let '(c, (w, b)) := batch_step c (w, b) in MkProgram rs (<[j := c]> ws) w b
      | None => p
      end
  | Reboot => MkProgram [] [] (reboot w) b
  end.

Lemma moved_steps ms p : rtc program_step p (fold_left (fun p m => apply_move m p) ms p).
Proof.
  revert p. induction ms as [|m ms IH]; intros p; [done|]. cbn [fold_left]. etrans; [|apply IH].
  clear IH. destruct p as [rs ws w b], m as [k|i| |j|]; cbn [apply_move].
  - apply rtc_once, step_arrives.
  - destruct (rs !! i) as [g|] eqn:Hg; [|done]. apply rtc_once.
    pose proof (step_request i g rs ws w b Hg) as H. by destruct (advance_one g w).
  - apply rtc_once, step_starts.
  - destruct (ws !! j) as [c|] eqn:Hc; [|done]. apply rtc_once.
    pose proof (step_worker j c rs ws w b Hc) as H. by destruct (batch_step c (w, b)) as [? [? ?]].
  - apply rtc_once, step_restarts.
Qed.

(** ** Invariants of the world through every interleaving *)

(** What the accesses keep, the statements of a worker, a look at the state
    and a reboot keep. *)
Class ProgramInvariant (P : World -> Prop) : Prop := {
  program_app :: AppInvariant P;
  program_fetch n :: Keeps P (FetchUnpublished n);
  program_mark ids :: Keeps P (MarkPublished ids);
  program_looks w w' : background w w' -> P w -> P w';
  program_reboot w : P w -> P (reboot w);
}.

Lemma batch_step_keeps (P : World -> Prop) `{!ProgramInvariant P} c w b :
  P w -> P (batch_step c (w, b)).2.1.
Proof.
  intros Hw. destruct c as [|[|e es] ids]; simpl.
  - pose proof (keeps (P:=P) (m:=FetchUnpublished (OW_batchSize ow)) w Hw) as Hk.
    destruct (FetchUnpublished (OW_batchSize ow) w) as [[entries|e] db]; [|done]. by case_bool_decide.
  - case_bool_decide; [|done]. pose proof (keeps (P:=P) (m:=MarkPublished ids) w Hw) as Hk.
    by destruct (MarkPublished ids w).
  - by destruct (EventPublisher_Publish _ _ _ _ b) as [[?|?] ?].
Qed.

Lemma program_step_keeps (P : World -> Prop) `{!ProgramInvariant P} p p' :
  program_step p p' -> P (p_world p) -> P (p_world p').
Proof.
  intros [k rs ws w b|i g rs ws w b _|rs ws w b|j c rs ws w b _|j rows rs ws w w' b _ _ _ Ho
    |rs ws w w' b Ho|rs ws w b] Hw; cbn [p_world] in *; try done.
  - by apply (keeps (P:=P)).
  - by apply batch_step_keeps.
  - by eapply program_looks.
  - by eapply program_looks.
  - by apply program_reboot.
Qed.

Lemma program_keeps (P : World -> Prop) `{!ProgramInvariant P} p p' :
  rtc program_step p p' -> P (p_world p) -> P (p_world p').
Proof.
  induction 1 as [p|p1 p2 p3 Hs _ IH]; [done|]. intros Hp. apply IH. by eapply program_step_keeps.
Qed.

(** The tables that the background leaves alone. *)
Lemma but_read_eq (d d' : DB) :
  but_read d' = but_read d ->
  t_accounts d' = t_accounts d /\ t_events d' = t_events d /\ t_outbox d' = t_outbox d /\
  seq_events d' = seq_events d /\ seq_outbox d' = seq_outbox d.
Proof. unfold but_read. by intros [= -> -> _ -> -> ->]. Qed.

(** Invariants of the tables that a worker does not write. *)
Lemma worker_keeps (P : World -> Prop) :
  AppInvariant P ->
  (forall w w', t_accounts (w_db w') = t_accounts (w_db w) ->
     t_events (w_db w') = t_events (w_db w) -> P w -> P w') ->
  ProgramInvariant P.
Proof.
  intros HA HP. split; [done| | | |].
  - intros n w Hw. apply (HP w); [..|done]; by rewrite FetchUnpublished_db.
  - intros ids w Hw. apply (HP w); [..|done]; unfold MarkPublished, exec, exec_at;
      by destruct (db_fault _).
  - intros w w' [(? & ? & _)%but_read_eq _ _ _ _ _]. by apply HP.
  - intros w Hw. by apply (HP w).
Qed.

#[global] Instance log_unique_program : ProgramInvariant log_unique.
Proof. apply worker_keeps; [apply _|]. unfold log_unique. by intros w w' _ ->. Qed.

(** ** The log only grows *)

(** The rows of [l] are in the table events. *)
Definition logged (l : list EventRow) (w : World) : Prop := forall r, r ∈ l -> r ∈ t_events (w_db w).

(** A row of the outbox holds the entry [e]. *)
Definition queued (e : OutboxEntry) (w : World) : Prop :=
  exists o, o ∈ t_outbox (w_db w) /\ outbox_entry o = e.

Lemma append_grows agg ty n es w :
  let w' := (AppendWithOutbox agg ty n es w).2 in
  exists ev ob, t_events (w_db w') = t_events (w_db w) ++ ev /\
    t_outbox (w_db w') = t_outbox (w_db w) ++ ob /\
    (ev = [] \/ ev = event_rows agg ty n 0 (seq_events (w_db w)) es) /\
    ((AppendWithOutbox agg ty n es w).1 = Ok tt -> ev = event_rows agg ty n 0 (seq_events (w_db w)) es).
Proof.
  unfold AppendWithOutbox.
  destruct (with_tx_cases (fun now => outbox_loop agg ty n 0 now es) w)
    as [[[e He] Hg]|([] & w1 & Hb & Hdb & _)].
  - exists [], []. rewrite !app_nil_r, He. split_and!; [apply (Hg _ t_events _)|apply (Hg _ t_outbox _)|by left|done].
  - apply outbox_loop_Ok in Hb as (He & Ho & _). rewrite Hdb, He, Ho. eexists _, _. split_and!; try done.
    by right.
Qed.

#[global] Instance logged_invariant l : LogInvariant (logged l).
Proof.
  split; [unfold logged; by intros w w' -> _ _|]. intros agg ty n es w Hw r Hr.
  destruct (append_grows agg ty n es w) as (ev & ob & -> & _). apply elem_of_app. left. by apply Hw.
Qed.
#[global] Instance logged_program l : ProgramInvariant (logged l).
Proof. apply worker_keeps; [apply _|]. unfold logged. by intros w w' _ ->. Qed.

#[global] Instance queued_invariant e : LogInvariant (queued e).
Proof.
  split; [unfold queued; by intros w w' _ -> _|]. intros agg ty n es w (o & Ho & He).
  destruct (append_grows agg ty n es w) as (ev & ob & _ & Hob & _). exists o. rewrite Hob.
  split; [|done]. apply elem_of_app. by left.
Qed.
#[global] Instance queued_program e : ProgramInvariant (queued e).
Proof.
  split; [apply _| | | |done].
  - intros n w Hw. unfold queued. by rewrite FetchUnpublished_db.
  - intros ids w (o & Ho & He). unfold queued.
    destruct (MarkPublished_cases ids w) as [_ [-> | ->]]; [by exists o|].
    exists (mark_row ids (db_clock (w_stmt w)) o). split; [by apply list_elem_of_fmap_2|].
    rewrite <- He. unfold mark_row. by case_bool_decide.
  - intros w w' [(_ & _ & Ho & _)%but_read_eq _ _ _ _ _]. unfold queued. by rewrite Ho.
Qed.

(** ** Delivery through every interleaving *)
Section delivery.
Context (delivered : B -> list message) `{Hp : !Promise (OW_publisher ow) delivered}.
Context `{OLaws : !OracleLaws}.

(** What a worker holds comes from the outbox, and the ids it will mark are
    those of delivered messages. *)
Definition batch_ok (w : World) (b : B) (c : batch) : Prop :=
  match c with
  | Idle => True
  | Batch entries ids =>
      (forall e, e ∈ entries -> queued e w) /\
      (forall id, id ∈ ids -> exists e, queued e w /\ OE_ID e = id /\ entry_message e ∈ delivered b)
  end.

Record program_accounted (p : program) : Prop := {
  pa_accounted : accounted delivered (p_broker p) (p_world p);
  pa_workers c : c ∈ p_workers p -> batch_ok (p_world p) (p_broker p) c;
}.

Lemma batch_ok_mono w b w' b' c :
  (forall e, queued e w -> queued e w') -> (forall m, m ∈ delivered b -> m ∈ delivered b') ->
  batch_ok w b c -> batch_ok w' b' c.
Proof.
  intros Hw Hb. destruct c as [|es ids]; [done|]. intros [H1 H2]. split; [by auto|].
  intros id Hid. destruct (H2 id Hid) as (e & ? & ? & ?). exists e. auto.
Qed.

Lemma accounted_mono w b b' :
  (forall m, m ∈ delivered b -> m ∈ delivered b') -> accounted delivered b w -> accounted delivered b' w.
Proof. intros Hb [H1 H2 H3 H4]. split; [|by auto|done..]. intros ev Hev. destruct (H1 ev Hev); auto. Qed.

Lemma fetched_queued n w es w' :
  FetchUnpublished n w = (Ok es, w') -> forall e, e ∈ es -> queued e w'.
Proof using OLaws.
  intros (Hd & _ & rows & Hr & ->)%FetchUnpublished_Ok e (r & -> & Hin)%list_elem_of_fmap.
  exists r. split; [|done]. rewrite Hd.
  assert (r ∈ pending (t_outbox (w_db w))) as Hpe.
  { rewrite <- Hr, <- (take_drop (Z.to_nat n) rows). apply elem_of_app. by left. }
  by apply elem_of_pending in Hpe as [? _].
Qed.

(** The step of one worker: it keeps the account of deliveries and what it
    holds stays right. *)
Lemma batch_step_accounted c w b :
  accounted delivered b w -> batch_ok w b c ->
  let '(c', (w', b')) := batch_step c (w, b) in
  accounted delivered b' w' /\ batch_ok w' b' c' /\ (forall m, m ∈ delivered b -> m ∈ delivered b').
Proof using Hp OLaws.
  intros Hacc Hc. destruct c as [|[|e es] ids]; simpl.
  - pose proof (FetchUnpublished_db (OW_batchSize ow) w) as Hd.
    destruct (FetchUnpublished (OW_batchSize ow) w) as [[es|er] w1] eqn:Hf; cbn [snd] in Hd.
    2:{ split_and!; [|done..]. eapply log_ext; [by rewrite Hd..|by rewrite Hd|done]. }
    assert (accounted delivered b w1) by (eapply log_ext; [by rewrite Hd..|by rewrite Hd|done]).
    case_bool_decide; split_and!; try done.
    split; [by apply (fetched_queued _ _ _ _ Hf)|]. intros id Hid. by apply elem_of_nil in Hid.
  - case_bool_decide; [|done]. destruct (MarkPublished_cases ids w) as [He Ho].
    pose proof (MarkPublished_seq ids w) as Hs. destruct (MarkPublished ids w) as [r w1].
    cbn [snd] in *. split_and!; [|done..]. destruct Ho as [Ho|Ho]; [eapply log_ext; [exact He|exact Ho|lia|done]|].
    eapply mark_accounted; [|done|done|done|lia]. intros o Hin Hid.
    destruct Hc as [_ Hc]. destruct (Hc _ Hid) as (e & (o' & Hin' & <-) & Hid' & Hm). simpl in Hid'.
    by rewrite (same_id _ o o' (acc_ids _ _ _ Hacc) Hin Hin' (eq_sym Hid')).
  - destruct Hc as [Hes Hids].
    pose proof (promise_Ok (OE_EventType e) (OE_AggregateID e) (OE_Payload e) b) as Hok.
    pose proof (fun m => promise_mono (OE_EventType e) (OE_AggregateID e) (OE_Payload e) b m) as Hmono.
    destruct (EventPublisher_Publish _ _ _ _ b) as [[[]|er] b1]; cbn [fst snd is_Ok] in *;
      (split_and!; [by eapply accounted_mono|split|done]).
    + intros e' He'. apply Hes. by constructor.
    + intros id [Hid|Hid%list_elem_of_singleton]%elem_of_app.
      * destruct (Hids id Hid) as (e' & ? & ? & ?). exists e'. auto.
      * exists e. split_and!; [apply Hes; constructor|done|by apply Hok].
    + intros e' He'. apply Hes. by constructor.
    + intros id Hid. destruct (Hids id Hid) as (e' & ? & ? & ?). exists e'. auto.
Qed.

#[local] Arguments batch_step : simpl never.

Lemma background_accounted w w' b : background w w' -> accounted delivered b w -> accounted delivered b w'.
Proof using OLaws.
  intros [(_ & He & Ho & _ & Hs)%but_read_eq _ _ _ _ _]. apply log_ext; [done..|]. by rewrite Hs.
Qed.

Lemma program_step_accounted p p' : program_step p p' -> program_accounted p -> program_accounted p'.
Proof using Hp OLaws.
  intros [k rs ws w b|i g rs ws w b _|rs ws w b|j c rs ws w b Hj|j rows rs ws w w' b _ Hrows _ Ho
    |rs ws w w' b Ho|rs ws w b] [Ha Hw]; simpl in *.
  - by split.
  - split; cbn [p_world p_broker p_workers]; [by apply (keeps (P:=accounted delivered b))|]. intros c Hc.
    apply (batch_ok_mono w b); [|done|by apply Hw]. intros e. apply (keeps (P:=queued e)).
  - split; [done|]. intros c [Hc|Hc%list_elem_of_singleton]%elem_of_app; [by apply Hw|by rewrite Hc].
  - pose proof (batch_step_accounted c w b Ha (Hw c (list_elem_of_lookup_2 _ _ _ Hj))) as H.
    pose proof (fun e => batch_step_keeps (queued e) c w b) as Hq.
    destruct (batch_step c (w, b)) as [c' [w' b']]. destruct H as (H1 & H2 & H3). split; cbn [fst snd p_world p_broker p_workers] in *; [exact H1|].
    intros x [i Hi]%list_elem_of_lookup. destruct (decide (i = j)) as [->|Hne].
    + rewrite list_lookup_insert_eq in Hi by (by eapply lookup_lt_Some). by injection Hi as <-.
    + rewrite list_lookup_insert_ne in Hi by done. apply (batch_ok_mono w b); [exact Hq|done|].
      apply Hw. by apply list_elem_of_lookup_2 in Hi.
  - split; cbn [p_world p_broker p_workers]; [by eapply background_accounted|].
    intros c Hc. assert (Hold : forall x, batch_ok w b x -> batch_ok w' b x).
    { intros x. apply batch_ok_mono; [|done]. intros e. by apply program_looks. }
    apply list_elem_of_lookup in Hc as [i Hi]. apply list_lookup_insert_Some in Hi as [(_ & <- & _)|[_ Hi]].
    + split; [|intros id Hid; by apply elem_of_nil in Hid].
      intros e (o & -> & Hin)%list_elem_of_fmap. exists o. split; [|done].
      destruct Ho as [(_ & _ & -> & _)%but_read_eq _ _ _ _ _].
      eapply elem_of_submseteq in Hin; [|exact Hrows]. by apply elem_of_pending in Hin as [? _].
    + apply Hold, Hw. by eapply list_elem_of_lookup_2.
  - split; cbn [p_world p_broker p_workers]; [by eapply background_accounted|].
    intros c Hc. apply (batch_ok_mono w b); [|done|by apply Hw]. intros e. by apply program_looks.
  - split; cbn [p_workers p_world p_broker].
    + by apply (log_ext (P:=accounted delivered b) w).
    + intros c Hc. by apply elem_of_nil in Hc.
Qed.

Lemma initial_accounted b : accounted delivered b initial_world.
Proof. split; simpl; try (intros ? Hin; by apply elem_of_nil in Hin). constructor. Qed.

Lemma booted_accounted b p : rtc program_step (booted b) p -> program_accounted p.
Proof using Hp OLaws.
  intros H. assert (program_accounted (booted b)) as H0.
  { split; [apply initial_accounted|]. simpl. intros c Hc. by apply elem_of_nil in Hc. }
  revert H0. induction H as [p|p1 p2 p3 Hs _ IH]; [done|]. intros H0. apply IH.
  by eapply program_step_accounted.
Qed.
End delivery.
End processes.
