(* ===== verification/Journal.v ===== *)
(** * What the program writes to the event log

    Each request asks the outbox for events of its own making only: an opened
    account, or a transaction that [NewTransaction] accepted. So whatever the
    interleaving, the log holds nothing else; and a request that has answered
    without an error has its events there. *)
From S2P Require Import Prelude Go Identifiers Money Transaction Account Book Events Ports.
From S2P Require Import World LedgerService LedgerSafety Transfer TransferService InMemory.
From S2P Require Import Postgres Projection Production Reachable Accesses EventLog OutboxWorker.
From S2P Require Import WorkerTheorems ReadModel Processes.
From stdpp Require Import base gmap strings list.
Local Open Scope string_scope.
Local Open Scope list_scope.
Local Open Scope Z_scope.

Section journal.
Context {U : UuidLib} {O : Oracle}.

(** ** The events of the program *)

(** The event of a transaction recorded at [now]. *)
Definition recorded_event (tx : Transaction) (now : time) : DomainEvent :=
  TransactionRecorded (MkTransactionRecordedEvent "" (TransactionID_String (Transaction_id tx))
    (entryEventData <$> Transaction_entries tx) (Transaction_description tx) now).

Definition opened_event (acc : acct) (now : time) : DomainEvent :=
  AccountOpened (MkAccountOpenedEvent "" (AccountID_String (ac_id acc)) (ac_name acc) (ac_type acc)
    (ac_currency acc) now).

(** A transaction that satisfies the invariant of its aggregate, or an account
    as it is opened. *)
Inductive proper_event : DomainEvent -> Prop :=
| proper_transaction tx now : Transaction_wf tx -> proper_event (recorded_event tx now)
| proper_account id name ty c now :
    name <> "" -> validCurrency c = true -> ty ∈ [Asset; Liability; Equity] ->
    proper_event (opened_event (MkAcct id name ty c (MkMoney 0 c) Active) now).

(** What an event adds to the balances of the accounts in one currency. *)
Definition entry_signed (cur : Currency) (e : EntryEventData) : Z :=
  if bool_decide (EED_Currency e = cur) then signed (EED_Type e) (EED_Amount e) else 0.
Definition event_signed (cur : Currency) (e : DomainEvent) : Z :=
  match e with
  | AccountOpened _ => 0
  | TransactionRecorded t => sumZ (entry_signed cur) (TRE_Entries t)
  end.

(** A proper event moves money and makes none. *)
Lemma proper_event_balanced cur e : proper_event e -> event_signed cur e ≡64 0.
Proof.
  intros [tx now (_ & _ & [c Hc] & Hb)|]; simpl; [|done]. rewrite sumZ_fmap.
  assert (sumZ (fun e => entry_signed cur (entryEventData e)) (Transaction_entries tx) =
    sumZ (posted cur) (Entry_params <$> Transaction_entries tx)) as -> by (by rewrite sumZ_fmap).
  rewrite (posted_sum cur c) by (by apply Forall_fmap). case_bool_decide; [|done].
  rewrite params_signed_sum, <- entry_debits_params, <- entry_credits_params, Hb. by rewrite Z.sub_diag.
Qed.

Lemma proper_events_balanced cur es : Forall proper_event es -> sumZ (event_signed cur) es ≡64 0.
Proof.
  induction 1 as [|e es He _ IH]; simpl; [done|]. by rewrite (proper_event_balanced cur e He), IH.
Qed.

Definition aggregate_type (e : DomainEvent) : string :=
  match e with AccountOpened _ => "account" | TransactionRecorded _ => "transaction" end.

Definition to_store (e : DomainEvent) (payload : json) : StoredEvent :=
  MkStoredEvent "" "" "" (DomainEvent_EventType e) 0 payload (DomainEvent_OccurredAt e).

(** The row of the table events that holds [e]. *)
Record journal_row (e : DomainEvent) (r : EventRow) : Prop := {
  jr_aggregate : ev_aggregate_id r = DomainEvent_AggregateID e;
  jr_type : ev_aggregate_type r = aggregate_type e;
  jr_event : ev_event_type r = DomainEvent_EventType e;
  jr_version : ev_version r = 1;
  jr_payload : json_Marshal e = Ok (ev_payload r);
  jr_time : ev_occurred_at r = db_time (DomainEvent_OccurredAt e);
}.

Definition journal (w : World) : Prop :=
  forall r, r ∈ t_events (w_db w) -> exists e, proper_event e /\ journal_row e r.

(** An append of one such event. *)
Definition proper_access (x : access) : Prop :=
  match x with
  | AppendEvents agg ty n es =>
      exists e payload, proper_event e /\ json_Marshal e = Ok payload /\
        agg = DomainEvent_AggregateID e /\ ty = aggregate_type e /\ n = 0 /\ es = [to_store e payload]
  | _ => True
  end.

Lemma proper_rows agg ty n es seq r :
  proper_access (AppendEvents agg ty n es) -> r ∈ event_rows agg ty n 0 seq es ->
  exists e, proper_event e /\ journal_row e r.
Proof.
  intros (e & payload & He & Hp & -> & -> & -> & ->) ->%list_elem_of_singleton. by exists e.
Qed.

(** ** What a piece of code asks for

    Code that does not wait yet and comes to wait, waits for an access that
    satisfies [Q]; code that waits already does nothing. *)
Class Asks {A} (Q : access -> Prop) (m : St transcript A) : Prop := {
  asks_idle t : waiting t <> None -> (m t).2 = t;
  asks_for t x : waiting t = None -> waiting (m t).2 = Some x -> Q x;
}.

Section asks.
Context (Q : access -> Prop).

#[global] Instance asks_retS {A} (a : A) : Asks Q (retS a).
Proof. split; [done|]. simpl. intros t x -> ?. done. Qed.
#[global] Instance asks_ret {A} (a : A) : Asks Q (ret a).
Proof. apply asks_retS. Qed.
#[global] Instance asks_throw {A} e : Asks Q (throw (A:=A) e).
Proof. apply asks_retS. Qed.
#[global] Instance asks_liftR {A} (r : res A) : Asks Q (liftR r).
Proof. apply asks_retS. Qed.

(** The continuation may be used with what [m] returns only. *)
Lemma asks_bindS_post {A B} (m : St transcript A) (k : A -> St transcript B) :
  Asks Q m -> (forall t, Asks Q (k (m t).1)) -> Asks Q (bindS m k).
Proof.
  intros Hm Hk. split.
  - intros t Ht. rewrite bindS_run. rewrite (asks_idle (m:=m)) by done. by apply asks_idle.
  - intros t x Ht. rewrite bindS_run. destruct (waiting (m t).2) as [y|] eqn:Hy.
    + rewrite (asks_idle (m:=k (m t).1)) by congruence. rewrite Hy. intros [= <-]. by eapply (asks_for (m:=m)).
    + by apply (asks_for (m:=k (m t).1)).
Qed.

#[global] Instance asks_bindS {A B} (m : St transcript A) (k : A -> St transcript B) :
  Asks Q m -> (forall a, Asks Q (k a)) -> Asks Q (bindS m k).
Proof. intros Hm Hk. by apply asks_bindS_post. Qed.

Lemma asks_eq {A} (m m' : St transcript A) : (forall t, m t = m' t) -> Asks Q m' -> Asks Q m.
Proof. intros H [H1 H2]. split; intros t; rewrite H; eauto. Qed.

Lemma asks_bind_post {A B} (m : M transcript A) (k : A -> M transcript B) :
  Asks Q m -> (forall a t t', m t = (Ok a, t') -> Asks Q (k a)) -> Asks Q (bind m k).
Proof.
  intros Hm Hk. eapply asks_eq; [apply bind_as_bindS|]. apply asks_bindS_post; [done|].
  intros t. destruct (m t) as [[a|e] t'] eqn:E; [|apply _]. by eapply Hk.
Qed.

#[global] Instance asks_bind {A B} (m : M transcript A) (k : A -> M transcript B) :
  Asks Q m -> (forall a, Asks Q (k a)) -> Asks Q (bind m k).
Proof. intros Hm Hk. by apply asks_bind_post. Qed.

#[global] Instance asks_wrapErr {A} p (m : M transcript A) : Asks Q m -> Asks Q (wrapErr p m).
Proof. intros Hm. eapply asks_eq; [apply wrapErr_as_bindS|]. apply _. Qed.
#[global] Instance asks_forEach {A} (l : list A) (body : A -> M transcript unit) :
  (forall x, Asks Q (body x)) -> Asks Q (forEach l body).
Proof. intros Hb. induction l; simpl; apply _. Qed.
#[global] Instance asks_if {A} (b : bool) (m n : St transcript A) :
  Asks Q m -> Asks Q n -> Asks Q (if b then m else n).
Proof. by destruct b. Qed.

Lemma asks_asking {A} (got : option reply -> A) x : Q x -> Asks Q (asking got x).
Proof.
  intros Hx. split; intros t; unfold asking; rewrite bindS_run; simpl; unfold ask.
  - by destruct (waiting t).
  - intros y ->. destruct (unread t); simpl; congruence.
Qed.
End asks.

(** ** The code of the services *)
Notation proper := (Asks proper_access).

#[global] Instance asks_now : proper time_Now.
Proof. by apply asks_asking. Qed.
#[global] Instance asks_uuid : proper uuid_NewV7.
Proof. by apply asks_asking. Qed.
#[global] Instance asks_find id : proper (Repository_FindByID (LS_accounts transcribed) id).
Proof. by apply asks_asking. Qed.
#[global] Instance asks_all : proper (Repository_FindAll (LS_accounts transcribed)).
Proof. by apply asks_asking. Qed.
#[global] Instance asks_save acc : proper (Repository_Save (LS_accounts transcribed) acc).
Proof. by apply asks_asking. Qed.
#[global] Instance asks_tx tx : proper (TransactionRepository_Save (LS_transactions transcribed) tx).
Proof. by apply asks_asking. Qed.
#[global] Instance asks_opened e : proper (projectAccountOpened transcribed e).
Proof. apply asks_bindS; [by apply asks_asking|apply _]. Qed.
#[global] Instance asks_recorded e : proper (projectTransactionRecorded transcribed e).
Proof. apply asks_bindS; [by apply asks_asking|apply _]. Qed.

Lemma asks_append e :
  proper_event e -> proper (appendEvent transcribed (DomainEvent_AggregateID e) (aggregate_type e) 0 e).
Proof.
  intros He. unfold appendEvent. apply asks_bind_post; [apply _|]. intros payload t t' H. go_inv.
  apply asks_asking. by exists e, payload.
Qed.

#[global] Instance asks_NewTransaction ps d : proper (NewTransaction ps d).
Proof.
  unfold NewTransaction, construct, GenerateTransactionID.
  assert (forall l now, proper (newEntries l now)) as Hn.
  { intros l now. induction l; simpl; unfold newEntry, GenerateEntryID; apply _. }
  destruct ps as [|p [|q ps]]; try apply _. destruct (totals _ _ _). apply _.
Qed.

#[global] Instance asks_RecordTransaction cmd : proper (RecordTransaction transcribed cmd).
Proof.
  unfold RecordTransaction. apply asks_bind; [apply _|]. intros params.
  apply asks_bind_post; [apply _|]. intros tx t t' H.
  apply wrapErr_Ok_inv, NewTransaction_Ok_inv in H as (Hv & -> & _).
  destruct (construct_spec params (RTC_Description cmd) t) as [Hp Hd].
  set (tx := (construct params (RTC_Description cmd) t).1) in *. rewrite <- Hp in Hv.
  apply params_valid_entries in Hv. apply asks_bind.
  { apply asks_forEach. intros e. unfold applyEntry, entryOp, Account_Debit, Account_Credit. apply _. }
  intros _. apply asks_bind; [apply _|]. intros _. apply asks_bindS; [apply _|]. intros now.
  apply asks_bind; [|intros _; apply _]. apply asks_wrapErr. rewrite <- Hd.
  apply (asks_append (recorded_event tx now)). by constructor.
Qed.

Lemma commandAccountType_known t : commandAccountType t ∈ [Asset; Liability; Equity].
Proof. unfold commandAccountType. repeat case_bool_decide; set_solver. Qed.

#[global] Instance asks_OpenAccount cmd : proper (OpenAccount transcribed cmd).
Proof.
  unfold OpenAccount. apply asks_bind_post.
  { unfold NewAccountWithType, GenerateAccountID. apply _. }
  intros acc t t' H. apply wrapErr_Ok_inv, NewAccountWithType_Ok_inv in H as (Hn & Hc & u & _ & _ & Ha).
  apply asks_bind; [apply _|]. intros _. apply asks_bindS; [apply _|]. intros now.
  apply asks_bind; [|intros _; apply _]. apply asks_wrapErr.
  assert (Hi : Account_id acc = MkAccountID u) by (by injection Ha).
  assert (Hna : Account_name acc = OAC_Name cmd) by (by injection Ha).
  assert (Hcu : Account_currency acc = OAC_Currency cmd) by (by injection Ha).
  rewrite Hi, Hna, Hcu.
  apply (asks_append (opened_event (MkAcct (MkAccountID u) (OAC_Name cmd)
    (commandAccountType (OAC_AccountType cmd)) (OAC_Currency cmd) (MkMoney 0 (OAC_Currency cmd)) Active) now)).
  constructor; [done..|apply commandAccountType_known].
Qed.

#[global] Instance asks_system name ty cur : proper (getOrCreateSystemAccount transcribed name ty cur).
Proof. apply asks_bind; [apply _|]. intros l. case_match; apply _. Qed.
#[global] Instance asks_suspense cur : proper (suspenseAccountID transcribed cur).
Proof. unfold suspenseAccountID. apply _. Qed.
#[global] Instance asks_Execute cmd : proper (Execute transcribed cmd).
Proof.
  unfold Execute, debitSource, creditDestination, compensate, NewTransfer, MarkDebited,
    MarkCompleted, MarkFailed, MarkCompensated, addStep.
  destruct (NewMoney _ _); [|apply _].
  repeat match goal with
  | |- proper (bindS _ _) => apply asks_bindS; [|intros ?]
  | |- proper (let '(_, _) := ?p in _) => destruct p
  | |- proper (match ?r with _ => _ end) => destruct r
  | |- _ => apply _
  end.
Qed.

Lemma asks_task k : proper (run_task transcribed k).
Proof.
  destruct k; simpl; unfold responds, Deposit, getOrCreateSystemEquity, GetBalance; apply _.
Qed.

(** Every access a goroutine waits for is proper. *)
Lemma stands_proper g x : honest g -> stands g = inl x -> proper_access x.
Proof.
  intros Hg Hs. apply stands_waits in Hs; [|done].
  by eapply (asks_for (Asks:=asks_task (g_task g)) (start (g_heard g).*2)); [|rewrite Hs].
Qed.

(** ** The log, whatever the interleaving *)

#[global] Instance preserves_replied {A X} (h : World -> X) (f : A -> reply) m :
  Preserves h m -> Preserves h (replied f m).
Proof. unfold replied. apply _. Qed.

Lemma untouched_events {A} (m : St World A) :
  Steps (untouched t_events) m -> Preserves (fun w => t_events (w_db w)) m.
Proof. intros H w. by destruct (H w). Qed.

(** Only an append writes to the log. *)
Lemma perform_others x :
  (forall agg ty n es, x <> AppendEvents agg ty n es) ->
  Preserves (fun w => t_events (w_db w)) (perform x).
Proof.
  intros Hx. destruct x as [| | | | | |agg ty n es| |]; simpl; try apply preserves_replied;
    try (by intros w); [apply untouched_events..| |].
  - apply pg_FindByID_untouched.
  - apply pg_FindAll_untouched.
  - by apply pg_Save_untouched.
  - by destruct (Hx agg ty n es).
  - by apply untouched_events, ProjectAccountOpened_untouched.
  - apply untouched_events, ProjectTransactionRecorded_untouched; done || apply _.
Qed.

Lemma perform_events x w r :
  r ∈ t_events (w_db (perform x w).2) ->
  r ∈ t_events (w_db w) \/
  exists agg ty n es seq, x = AppendEvents agg ty n es /\ r ∈ event_rows agg ty n 0 seq es.
Proof.
  assert (Ho : (forall agg ty n es, x <> AppendEvents agg ty n es) ->
    r ∈ t_events (w_db (perform x w).2) -> r ∈ t_events (w_db w)).
  { intros Hx. pose proof (preserves (Preserves:=perform_others x Hx) w) as E. simpl in E. by rewrite E. }
  destruct x as [| | | | | |agg ty n es| |]; [left; by apply Ho..| |left; by apply Ho|left; by apply Ho].
  clear Ho. simpl. unfold replied. rewrite bindS_run. cbn [snd retS].
  change (appendStored production agg ty n es) with (AppendWithOutbox agg ty n es).
  destruct (append_grows agg ty n es w) as (ev & ob & -> & _ & Hev & _).
  intros [Hr|Hr]%elem_of_app; [by left|right].
  destruct Hev as [-> | ->]; [by apply elem_of_nil in Hr|]. eauto 10.
Qed.

(** An append that is acknowledged has written its rows. *)
Lemma perform_append agg ty n es w :
  (perform (AppendEvents agg ty n es) w).1 = Done (Ok tt) ->
  exists seq, logged (event_rows agg ty n 0 seq es) (perform (AppendEvents agg ty n es) w).2.
Proof.
  simpl. unfold replied. rewrite bindS_run. simpl. intros [= H].
  destruct (append_grows agg ty n es w) as (ev & ob & He & _ & _ & Hev).
  exists (seq_events (w_db w)). intros r Hr.
  change (r ∈ t_events (w_db (AppendWithOutbox agg ty n es w).2)). rewrite He, (Hev H).
  apply elem_of_app. by right.
Qed.

(** ** What an answer without an error acknowledges *)

(** Running code adds to the accesses made. *)
Definition asked_more (t t' : transcript) : Prop := asked t `prefix_of` asked t'.
#[global] Instance asked_more_preorder : PreOrder asked_more.
Proof. unfold asked_more. split; [by intros t|intros a b c; apply transitivity]. Qed.

#[global] Instance asking_more {A} (got : option reply -> A) x : Steps asked_more (asking got x).
Proof.
  intros t. unfold asking. rewrite bindS_run. simpl. unfold ask, asked_more.
  destruct (waiting t); [done|]. destruct (unread t); [done|]. simpl. by apply prefix_app_r.
Qed.

(** All code does, since it is a tree of accesses. *)
Lemma replay_more {A} (p : prog A) : Steps asked_more (replay p).
Proof.
  induction p as [a|x k IH]; simpl; [apply _|]. apply steps_bindS; [apply _| |done].
  intros t. pose proof (asking_more id x t) as H. unfold asking in H. by rewrite bindS_run in H.
Qed.
Lemma code_more {A} (m : St transcript A) d `{!Replays m d} t : asked_more t (m t).2.
Proof. rewrite code_replay. apply replay_more. Qed.

Definition acknowledged_append (e : DomainEvent) (x : access * reply) : Prop :=
  exists payload, json_Marshal e = Ok payload /\
    x = (AppendEvents (DomainEvent_AggregateID e) (aggregate_type e) 0 [to_store e payload], Done (Ok tt)).

Lemma asking_unit_Ok x t t' :
  asking got_unit x t = (Ok tt, t') -> (x, Done (Ok tt)) ∈ asked t'.
Proof.
  unfold asking. rewrite bindS_run. simpl. unfold ask. destruct (waiting t); [done|].
  destruct (unread t) as [|r rs]; [done|]. destruct r; simpl; try done. intros [= -> <-]. simpl.
  apply elem_of_app. right. by constructor.
Qed.

Lemma appendEvent_Ok e t t' :
  appendEvent transcribed (DomainEvent_AggregateID e) (aggregate_type e) 0 e t = (Ok tt, t') ->
  exists x, x ∈ asked t' /\ acknowledged_append e x.
Proof.
  unfold appendEvent. intros H. go_inv.
  match goal with H : json_Marshal _ = Ok ?p |- _ => rename p into payload end.
  match goal with H : appendStored _ _ _ _ _ _ = _ |- _ =>
    apply (asking_unit_Ok (AppendEvents _ _ 0 [to_store e payload])) in H end.
  eexists. split; [done|]. by exists payload.
Qed.

(** The transaction that a command records. *)
Definition transaction_of (cmd : RecordTransactionCmd) (tx : Transaction) : Prop :=
  Transaction_wf tx /\ entryParams 0 (RTC_Entries cmd) = Ok (Entry_params <$> Transaction_entries tx) /\
  Transaction_description tx = RTC_Description cmd.

Lemma RecordTransaction_acknowledges cmd t tx t' :
  RecordTransaction transcribed cmd t = (Ok tx, t') ->
  transaction_of cmd tx /\
  exists now x, x ∈ asked t' /\ acknowledged_append (recorded_event tx now) x.
Proof.
  unfold RecordTransaction. intros (params & t0 & H0 & H)%bind_Ok_inv.
  apply liftR_Ok_inv in H0 as [Hp ->]. apply bind_Ok_inv in H as (tx' & t1 & Hn & H).
  apply wrapErr_Ok_inv, NewTransaction_Ok_inv in Hn as (Hv & -> & _).
  destruct (construct_spec params (RTC_Description cmd) t) as [He Hd].
  set (tx' := (construct params (RTC_Description cmd) t).1) in *. rewrite <- He in Hv.
  apply params_valid_entries in Hv.
  apply bind_Ok_inv in H as ([] & t2 & _ & H). apply bind_Ok_inv in H as ([] & t3 & _ & H).
  rewrite bindS_run in H. rewrite <- Hd in H. apply bind_Ok_inv in H as ([] & t4 & Ha & H).
  apply wrapErr_Ok_inv in Ha.
  apply (appendEvent_Ok (recorded_event tx' (time_Now t3).1)) in Ha as (x & Hx & Hack).
  rewrite bindS_run in H. injection H as <- <-. split; [split_and!; [done|by rewrite He|done]|].
  eexists _, x. split; [|done]. eapply elem_of_prefix; [exact Hx|].
  apply (code_more _ (projectTransactionRecorded production _)).
Qed.

Lemma OpenAccount_acknowledges cmd t acc t' :
  OpenAccount transcribed cmd t = (Ok acc, t') ->
  core acc = MkAcct (Account_id acc) (OAC_Name cmd) (commandAccountType (OAC_AccountType cmd))
    (OAC_Currency cmd) (MkMoney 0 (OAC_Currency cmd)) Active /\
  exists now x, x ∈ asked t' /\ acknowledged_append (opened_event (core acc) now) x.
Proof.
  unfold OpenAccount. intros (acc' & t0 & Hn & H)%bind_Ok_inv.
  apply wrapErr_Ok_inv, NewAccountWithType_Ok_inv in Hn as (_ & _ & u & _ & _ & Hc).
  apply bind_Ok_inv in H as ([] & t1 & _ & H). rewrite bindS_run in H.
  apply bind_Ok_inv in H as ([] & t2 & Ha & H). apply wrapErr_Ok_inv in Ha.
  replace (commandAccountType (OAC_AccountType cmd)) with (ac_type (core acc')) in Ha by (by rewrite Hc).
  apply (appendEvent_Ok (opened_event (core acc') (time_Now t1).1)) in Ha as (x & Hx & Hack).
  rewrite bindS_run in H. injection H as <- <-. split.
  { rewrite Hc. by replace (Account_id acc') with (MkAccountID u) by (by injection Hc). }
  eexists _, x. split; [|done]. eapply elem_of_prefix; [exact Hx|].
  apply (code_more _ (projectAccountOpened production _)).
Qed.

(** What a response without an error says of the events that are [known]. *)
Section acknowledges.
Context (known : DomainEvent -> Prop).

Definition knows (cmd : RecordTransactionCmd) : Prop :=
  exists tx now, transaction_of cmd tx /\ known (recorded_event tx now).

Definition deposit_cmd (equity id : AccountID) (amount : Z) (cur : Currency) (d : string)
    : RecordTransactionCmd :=
  MkRecordTransactionCmd [MkEntryCmd equity amount cur Debit; MkEntryCmd id amount cur Credit] d.
Definition debit_cmd (cmd : TransferCmd) (suspense : AccountID) : RecordTransactionCmd :=
  MkRecordTransactionCmd
    [MkEntryCmd (TC_FromAccountID cmd) (TC_Amount cmd) (TC_Currency cmd) Debit;
     MkEntryCmd suspense (TC_Amount cmd) (TC_Currency cmd) Credit]
    ("Transfer out: " +:+ TC_Description cmd)%string.
Definition credit_cmd (cmd : TransferCmd) (suspense : AccountID) : RecordTransactionCmd :=
  MkRecordTransactionCmd
    [MkEntryCmd suspense (TC_Amount cmd) (TC_Currency cmd) Debit;
     MkEntryCmd (TC_ToAccountID cmd) (TC_Amount cmd) (TC_Currency cmd) Credit]
    ("Transfer in: " +:+ TC_Description cmd)%string.

(** An account that is open has its event; a recorded transaction has its
    event; a deposit and the two steps of a completed transfer have theirs. *)
Definition acknowledges (k : task) (r : response) : Prop :=
  match k, r with
  | OpenTask cmd, Opened (Ok acc) =>
      core acc = MkAcct (Account_id acc) (OAC_Name cmd) (commandAccountType (OAC_AccountType cmd))
        (OAC_Currency cmd) (MkMoney 0 (OAC_Currency cmd)) Active /\
      exists now, known (opened_event (core acc) now)
  | RecordTask cmd, Recorded (Ok tx) =>
      transaction_of cmd tx /\ exists now, known (recorded_event tx now)
  | DepositTask id amount cur d, Deposited (Ok _) =>
      exists equity, knows (deposit_cmd equity id amount cur d)
  | TransferTask cmd, Transferred (Some _, None) =>
      (exists suspense, knows (debit_cmd cmd suspense)) /\
      (exists suspense, knows (credit_cmd cmd suspense))
  | _, _ => True
  end.
End acknowledges.

Lemma acknowledges_mono (known known' : DomainEvent -> Prop) k r :
  (forall e, known e -> known' e) -> acknowledges known k r -> acknowledges known' k r.
Proof.
  intros H. unfold acknowledges, knows. destruct k, r; repeat case_match; try done; naive_solver.
Qed.

Definition asked_for (t : transcript) (e : DomainEvent) : Prop :=
  exists x, x ∈ asked t /\ acknowledged_append e x.

Lemma knows_more t t' cmd : asked_more t t' -> knows (asked_for t) cmd -> knows (asked_for t') cmd.
Proof.
  intros Ht (tx & now & Hc & x & Hx & He). exists tx, now. split; [done|]. exists x.
  split; [by eapply elem_of_prefix|done].
Qed.

Lemma RecordTransaction_knows cmd t tx t' :
  RecordTransaction transcribed cmd t = (Ok tx, t') -> knows (asked_for t') cmd.
Proof.
  intros (Hc & now & x & Hx)%RecordTransaction_acknowledges. exists tx, now.
  split; [done|]. by exists x.
Qed.

Lemma debitSource_knows cmd t tx t' :
  debitSource transcribed cmd t = (Ok tx, t') -> exists s, knows (asked_for t') (debit_cmd cmd s).
Proof.
  unfold debitSource. rewrite bindS_run. intros H%RecordTransaction_knows. eauto.
Qed.
Lemma creditDestination_knows cmd t tx t' :
  creditDestination transcribed cmd t = (Ok tx, t') -> exists s, knows (asked_for t') (credit_cmd cmd s).
Proof.
  unfold creditDestination. rewrite bindS_run. intros H%RecordTransaction_knows. eauto.
Qed.

#[global] Instance time_Now_more : Steps asked_more time_Now.
Proof. apply asking_more. Qed.
#[global] Instance debited_more saga : Steps asked_more (MarkDebited saga).
Proof. unfold MarkDebited, addStep. destruct (negb _); apply _. Qed.
#[global] Instance completed_more saga : Steps asked_more (MarkCompleted saga).
Proof. unfold MarkCompleted, addStep. destruct (negb _); apply _. Qed.
#[global] Instance credit_more cmd : Steps asked_more (creditDestination transcribed cmd).
Proof. intros t. apply (code_more _ (creditDestination production cmd)). Qed.

Lemma Execute_acknowledges cmd t saga t' :
  Execute transcribed cmd t = ((Some saga, None), t') ->
  (exists s, knows (asked_for t') (debit_cmd cmd s)) /\ (exists s, knows (asked_for t') (credit_cmd cmd s)).
Proof.
  unfold Execute. destruct (NewMoney _ _) as [m|e]; [|done].
  rewrite bindS_run. destruct (NewTransfer _ _ _ _ t) as [[saga0|e] t0]; [|done]. cbn [fst snd].
  rewrite bindS_run. destruct (debitSource transcribed cmd t0) as [[tx1|e] t1] eqn:Hd; cbn [fst snd].
  2:{ by rewrite bindS_run. }
  apply debitSource_knows in Hd as [s1 Hk1]. rewrite bindS_run.
  pose proof (steps (step:=asked_more) (m:=MarkDebited saga0) t1) as Hm1.
  destruct (MarkDebited saga0 t1) as [[[e|] saga1] t2]; [done|]. cbn [fst snd] in *.
  rewrite bindS_run. pose proof (steps (step:=asked_more) (m:=creditDestination transcribed cmd) t2) as Hm2.
  destruct (creditDestination transcribed cmd t2) as [[tx2|e] t3] eqn:Hc; cbn [fst snd] in *.
  - apply creditDestination_knows in Hc as [s2 Hk2]. rewrite bindS_run.
    pose proof (steps (step:=asked_more) (m:=MarkCompleted saga1) t3) as Hm3.
    destruct (MarkCompleted saga1 t3) as [[[e|] saga2] t4]; [done|]. cbn [fst snd] in *.
    intros [= _ <-]. split; [exists s1; eapply knows_more; [|exact Hk1]|exists s2; by eapply knows_more].
    by rewrite Hm1, Hm2.
  - rewrite bindS_run. destruct (MarkFailed _ _ _) as [saga2 t4]. cbn [fst snd]. rewrite bindS_run.
    destruct (compensate _ _ _) as [[tx3|e3] t5]; [|done]. cbn [fst snd]. by rewrite bindS_run.
Qed.

(** A goroutine that has ended asked for what its response acknowledges. *)
Lemma task_acknowledges k t r t' :
  run_task transcribed k t = (r, t') -> acknowledges (asked_for t') k r.
Proof.
  destruct k; simpl; unfold responds; rewrite bindS_run; intros [= <- <-]; simpl.
  - destruct (OpenAccount transcribed cmd t) as [[acc|e] t'] eqn:H; [|done]. cbn [fst snd].
    apply OpenAccount_acknowledges in H as (Hc & now & x & Hx). split; [done|]. exists now. by exists x.
  - destruct (RecordTransaction transcribed cmd t) as [[tx|e] t'] eqn:H; [|done]. cbn [fst snd].
    apply RecordTransaction_acknowledges in H as (Hc & now & x & Hx). split; [done|].
    exists now. by exists x.
  - destruct (Deposit transcribed id amount currency description t) as [[[]|e] t'] eqn:H; [|done].
    cbn [fst snd]. unfold Deposit in H. apply bind_Ok_inv in H as (eq & t1 & _ & H).
    apply bind_Ok_inv in H as (tx & t2 & Hr & [= <-]). apply RecordTransaction_knows in Hr.
    by exists (Account_id eq).
  - done.
  - destruct (Execute transcribed cmd t) as [[[saga|] [e|]] t'] eqn:H; try done. cbn [fst snd].
    by apply Execute_acknowledges in H.
Qed.
End journal.
