(* ===== verification/EventSourcing.v ===== *)
(** * The accounts as a function of the event log

    The event log is the record of the program: what the accounts table holds
    can be rebuilt from it. [rebuilt] replays events on an empty table; a call
    of the service that succeeds appends the events whose replay is what it did
    to the accounts. *)
From S2P Require Import Prelude Go Identifiers Money Transaction Account Book Events Ports.
From S2P Require Import World LedgerService LedgerSafety Transfer TransferService Scenario InMemory.
From S2P Require Import Postgres Projection Production Reachable Accesses EventLog OutboxWorker.
From S2P Require Import WorkerTheorems ReadModel Processes Journal.
From stdpp Require Import base gmap strings list.
Local Open Scope string_scope.
Local Open Scope list_scope.
Local Open Scope Z_scope.

Section sourcing.
Context {U : UuidLib} {O : Oracle}.

(** ** Replaying events *)

(** What the events tell of an account. *)
Record line := MkLine {
  ln_name : string;
  ln_type : AccountType;
  ln_currency : Currency;
  ln_amount : Z;
}.

Definition line_of (c : acct) : line := MkLine (ac_name c) (ac_type c) (ac_currency c) (ac_amount c).
Definition lines (w : World) : gmap string line := line_of <$> pg_view w.

Definition line_moved (amount : Z) (l : line) : line :=
  MkLine (ln_name l) (ln_type l) (ln_currency l) (wrap64 (ln_amount l + amount)).

Definition replay_entry (v : gmap string line) (e : EntryEventData) : gmap string line :=
  alter (line_moved (signed (EED_Type e) (EED_Amount e))) (EED_AccountID e) v.

Definition replay_event (v : gmap string line) (e : DomainEvent) : gmap string line :=
  match e with
  | AccountOpened a => <[AOE_AccountID a := MkLine (AOE_Name a) (AOE_AccountType a) (AOE_Currency a) 0]> v
  | TransactionRecorded t => foldl replay_entry v (TRE_Entries t)
  end.

Definition rebuilt : list DomainEvent -> gmap string line := foldl replay_event ∅.

(** Posting entries that are accepted is replaying them. *)
Lemma posts_replayed es v v' :
  book_wf v -> book_posts (Entry_params <$> es) v = (v', true) ->
  line_of <$> v' = foldl replay_entry (line_of <$> v) (entryEventData <$> es).
Proof.
  revert v. induction es as [|e es IH]; intros v Hw; csimpl; [by intros [= <-]|].
  destruct (book_post (Entry_params e) v) as [v1|] eqn:Hp; [|done]. intros Hv'.
  rewrite (IH v1); [|by eapply book_post_wf|done]. f_equal. clear IH Hv'.
  apply book_post_Some in Hp as (c & c' & Hc & -> & Hp). destruct (Hw _ _ Hc) as [_ Hcw].
  pose proof (post_entry_amount _ _ _ Hcw Hp) as Ha.
  destruct (post_entry_static _ _ _ Hp) as (_ & (Hn & Ht & Hcur) & _).
  apply map_eq. intros k. unfold replay_entry. rewrite lookup_fmap.
  destruct (decide (AccountID_String (Entry_accountID e) = k)) as [<-|Hne].
  - cbn [Entry_params EntryParams_AccountID] in *. rewrite lookup_insert_eq, lookup_alter_eq, lookup_fmap.
    change (EED_AccountID (entryEventData e)) with (AccountID_String (Entry_accountID e)). rewrite Hc. simpl. f_equal.
    unfold line_of, line_moved. cbn [ln_name ln_type ln_currency ln_amount]. rewrite Ha, Hn, Ht, Hcur. done.
  - rewrite lookup_insert_ne, lookup_alter_ne, lookup_fmap by done. done.
Qed.

(** ** What appends to the log *)

Definition log (w : World) : list EventRow := t_events (w_db w).

Lemma untouched_events_log {A} (m : St World A) : Steps (untouched t_events) m -> Preserves log m.
Proof. intros H w. by destruct (H w). Qed.

#[local] Instance log_now : Preserves log time_Now. Proof. done. Qed.
#[local] Instance log_uuid : Preserves log uuid_NewV7. Proof. done. Qed.
#[local] Instance log_tx tx : Preserves log (mem_tx_Save tx). Proof. done. Qed.
#[local] Instance log_find id : Preserves log (pg_FindByID id).
Proof. apply untouched_events_log, pg_FindByID_untouched. Qed.
#[local] Instance log_all : Preserves log pg_FindAll.
Proof. apply untouched_events_log, pg_FindAll_untouched. Qed.
#[local] Instance log_save a : Preserves log (pg_Save a).
Proof. by apply untouched_events_log, pg_Save_untouched. Qed.
#[local] Instance log_opened e : Preserves log (projectAccountOpened production e).
Proof. unfold projectAccountOpened. simpl. apply preserves_bindS; [|apply _]. by apply untouched_events_log, ProjectAccountOpened_untouched. Qed.
#[local] Instance log_recorded e : Preserves log (projectTransactionRecorded production e).
Proof.
  unfold projectTransactionRecorded. simpl. apply preserves_bindS; [|apply _].
  apply untouched_events_log, ProjectTransactionRecorded_untouched; done || apply _.
Qed.
#[local] Instance log_newEntries ps now : Preserves log (newEntries ps now).
Proof. induction ps; simpl; unfold newEntry, GenerateEntryID; apply _. Qed.
#[local] Instance log_NewTransaction ps d : Preserves log (NewTransaction ps d).
Proof.
  unfold NewTransaction, construct, GenerateTransactionID.
  destruct ps as [|p [|q ps]]; try apply _. destruct (totals _ _ _). apply _.
Qed.
#[local] Instance log_NewAccount name ty c : Preserves log (NewAccountWithType name ty c).
Proof. unfold NewAccountWithType, GenerateAccountID. apply _. Qed.
#[local] Instance log_applyEntry e : Preserves log (applyEntry production e).
Proof. unfold applyEntry, entryOp, Account_Debit, Account_Credit. simpl. apply _. Qed.

Lemma logs_event agg ty e w w' :
  agg = DomainEvent_AggregateID e -> ty = aggregate_type e ->
  appendEvent production agg ty 0 e w = (Ok tt, w') ->
  exists r, log w' = log w ++ [r] /\ journal_row e r.
Proof.
  intros -> ->. unfold appendEvent. intros H. go_inv.
  match goal with H : json_Marshal _ = Ok ?p |- _ => rename p into payload, H into Hp end.
  match goal with H : appendStored _ _ _ _ _ _ = _ |- _ => rename H into Ha end.
  unfold appendStored in Ha.
  cbn [LS_outbox production NewLedgerService OutboxAppender_AppendWithOutbox pg_OutboxAppender] in Ha.
  destruct (append_grows (DomainEvent_AggregateID e) (aggregate_type e) 0 [to_store e payload] w)
    as (ev & ob & Hev & _ & _ & Hok).
  change (AppendWithOutbox _ _ _ [to_store e payload] w) with (AppendWithOutbox (DomainEvent_AggregateID e) (aggregate_type e) 0
    [MkStoredEvent "" "" "" (DomainEvent_EventType e) 0 payload (DomainEvent_OccurredAt e)] w) in Hev, Hok.
  rewrite Ha in Hev, Hok. cbn [fst snd] in Hev, Hok. unfold log. rewrite Hev, (Hok eq_refl).
  eexists. split; [reflexivity|]. by split.
Qed.

(** ** Calls that succeed *)

(** From [w] to [w'] the log has grown by events whose replay is what happened
    to the accounts. *)
Definition follows (w w' : World) : Prop :=
  exists es rows, log w' = log w ++ rows /\ Forall2 journal_row es rows /\
    lines w' = foldl replay_event (lines w) es.

#[local] Instance follows_preorder : PreOrder follows.
Proof.
  split.
  - intros w. exists [], []. by rewrite app_nil_r.
  - intros w1 w2 w3 (es1 & r1 & L1 & J1 & E1) (es2 & r2 & L2 & J2 & E2). exists (es1 ++ es2), (r1 ++ r2).
    rewrite L2, L1, <- app_assoc, E2, E1, foldl_app. split_and!; [done|by apply Forall2_app|done].
Qed.

Lemma follows_same w w' : log w' = log w -> pg_view w' = pg_view w -> follows w w'.
Proof. intros Hl Hv. exists [], []. unfold lines. by rewrite Hl, Hv, app_nil_r. Qed.

Lemma RecordTransaction_logs cmd w tx w' :
  RecordTransaction production cmd w = (Ok tx, w') ->
  exists now r, log w' = log w ++ [r] /\ journal_row (recorded_event tx now) r.
Proof.
  rewrite RecordTransaction_steps. destruct (entryParams 0 (RTC_Entries cmd)) as [ps|e]; [|done].
  destruct (NewTransaction ps (RTC_Description cmd) w) as [[tx1|e] w1] eqn:Ht; [|done].
  pose proof (preserves_eq log _ _ _ _ Ht) as L1.
  apply NewTransaction_Ok_inv in Ht as (_ & Htx & _).
  assert (Hd : Transaction_description tx1 = RTC_Description cmd) by (rewrite Htx; apply construct_spec). clear Htx.
  destruct (forEach (Transaction_entries tx1) (applyEntry production) w1) as [[[]|e] w2] eqn:Hf; [|done].
  pose proof (preserves_eq log _ _ _ _ Hf) as L2. unfold emitRecorded. intros H.
  apply bind_Ok_inv in H as ([] & w3 & H3 & H). apply wrapErr_Ok_inv in H3.
  pose proof (preserves_eq log _ _ _ _ H3) as L3. rewrite bindS_run in H.
  apply bind_Ok_inv in H as ([] & w5 & H5 & H). apply wrapErr_Ok_inv in H5. rewrite <- Hd in H5, H.
  apply (logs_event _ _ (recorded_event tx1 (time_Now w3).1)) in H5 as (r & Hr & Hj); [|done..].
  rewrite bindS_run in H. injection H as <- Hw'. exists (time_Now w3).1, r. split; [|done].
  rewrite <- Hw', preserves, Hr, preserves. congruence.
Qed.

Lemma OpenAccount_logs cmd w acc w' :
  OpenAccount production cmd w = (Ok acc, w') ->
  exists now r, log w' = log w ++ [r] /\ journal_row (opened_event (core acc) now) r.
Proof.
  rewrite OpenAccount_steps. destruct (NewAccountWithType _ _ _ w) as [[acc1|e] w1] eqn:Hn; [|done].
  pose proof (preserves_eq log _ _ _ _ Hn) as L1.
  apply NewAccountWithType_Ok_inv in Hn as (_ & _ & u & _ & _ & Hc).
  destruct (Repository_Save (LS_accounts production) acc1 w1) as [[[]|e] w2] eqn:Hs; [|done].
  pose proof (preserves_eq log _ _ _ _ Hs) as L2. unfold emitOpened. rewrite bindS_run. intros H.
  apply bind_Ok_inv in H as ([] & w4 & H4 & H). apply wrapErr_Ok_inv in H4.
  replace (commandAccountType (OAC_AccountType cmd)) with (ac_type (core acc1)) in H4, H by (by rewrite Hc).
  apply (logs_event _ _ (opened_event (core acc1) (time_Now w2).1)) in H4 as (r & Hr & Hj); [|done..].
  rewrite bindS_run in H. injection H as <- Hw'. exists (time_Now w2).1, r. split; [|done].
  rewrite <- Hw', preserves, Hr, preserves. congruence.
Qed.

Context `{UL : !UuidLaws} `{OL : !OracleLaws}.

Lemma RecordTransaction_follows cmd w tx w' :
  pg_inv w -> RecordTransaction production cmd w = (Ok tx, w') -> follows w w'.
Proof using UL OL.
  intros Hi H. destruct (RecordTransaction_logs _ _ _ _ H) as (now & r & Hl & Hj).
  destruct (RecordTransaction_Ok (s:=production) (view:=pg_view) _ _ _ _ Hi H) as (_ & _ & Hp & He). rewrite <- He in Hp.
  exists [recorded_event tx now], [r]. split_and!; [done|by apply Forall2_cons|]. simpl.
  apply posts_replayed; [|done]. by apply (safe_inv_wf (view:=pg_view) (inv:=pg_inv)).
Qed.

Lemma OpenAccount_follows cmd w acc w' :
  pg_inv w -> OpenAccount production cmd w = (Ok acc, w') -> follows w w'.
Proof using UL OL.
  intros Hi H. destruct (OpenAccount_logs _ _ _ _ H) as (now & r & Hl & Hj).
  destruct (OpenAccount_safe (s:=production) (view:=pg_view) cmd w Hi) as (_ & u & _ & _ & Hok).
  rewrite H in Hok. destruct (Hok acc eq_refl) as (Hc & _ & _ & Hv).
  exists [opened_event (core acc) now], [r]. split_and!; [done|by apply Forall2_cons|].
  unfold lines. cbn [snd] in Hv. rewrite Hv, Hc, fmap_insert. reflexivity.
Qed.

Lemma system_account_follows name ty cur w acc w' :
  pg_inv w -> getOrCreateSystemAccount production name ty cur w = (Ok acc, w') -> follows w w'.
Proof using UL OL.
  intros Hi. rewrite getOrCreateSystemAccount_steps.
  destruct (Repository_FindAll (LS_accounts production) w) as [[all|e] w1] eqn:Hf; [|done].
  pose proof (preserves_eq log _ _ _ _ Hf) as Hl. pose proof (preserves_eq pg_view _ _ _ _ Hf) as Hv.
  pose proof (keeps_eq pg_inv _ _ _ _ Hf Hi) as Hi1. pose proof (follows_same _ _ Hl Hv) as Hw.
  destruct (find_first _ all) as [x|]; [intros [= _ <-]; exact Hw|]. intros H. etrans; [exact Hw|].
  by eapply OpenAccount_follows.
Qed.

Lemma serves_follows w w' : serves (s:=production) w w' -> pg_inv w -> follows w w'.
Proof using UL OL.
  intros [c w1 w2 H] Hi. destruct c as [cmd|cmd|id amt cur d|id]; simpl in H.
  - apply bind_Ok_inv in H as (acc & w3 & H & [= <-]). by eapply OpenAccount_follows.
  - apply bind_Ok_inv in H as (tx & w3 & H & [= <-]). by eapply RecordTransaction_follows.
  - unfold Deposit in H. apply bind_Ok_inv in H as (eq & w3 & H3 & H). apply wrapErr_Ok_inv in H3.
    apply bind_Ok_inv in H as (tx & w4 & H & [= <-]). unfold getOrCreateSystemEquity in H3.
    destruct (getOrCreateSystemAccount_safe (s:=production) (view:=pg_view) (equityName cur) "EQUITY" cur w1 Hi) as (Hi3 & _).
    rewrite H3 in Hi3. etrans; [by eapply system_account_follows|by eapply RecordTransaction_follows].
  - unfold GetBalance in H. apply bind_Ok_inv in H as (m & w3 & H & [= <-]).
    apply bind_Ok_inv in H as (acc & w4 & H & [= _ <-]). apply wrapErr_Ok_inv in H.
    apply follows_same; [exact (preserves_eq log _ _ _ _ H)|exact (preserves_eq pg_view _ _ _ _ H)].
Qed.

(** ** Transfers

    [Execute] drops the error of the suspense account and goes on with the nil
    id, so that what follows fails, since no account has it. *)
Context (Hnil : forall n, generator n <> uuid_Nil).

Definition no_nil (w : World) : Prop := pg_view w !! uuid_String uuid_Nil = None.

Lemma next_id_not_nil (w : World) : next_id w <> uuid_Nil.
Proof using Hnil. apply Hnil. Qed.

Lemma OpenAccount_no_nil cmd w : pg_inv w -> no_nil w -> no_nil (OpenAccount production cmd w).2.
Proof using UL OL Hnil.
  intros Hi Hn. destruct (OpenAccount_opens (s:=production) (view:=pg_view) cmd w Hi) as (_ & _ & Hv & _).
  unfold no_nil. destruct Hv as [->|(_ & _ & ->)]; [done|]. rewrite lookup_insert_ne; [done|].
  intros E%(inj uuid_String). by apply (next_id_not_nil w).
Qed.

Lemma RecordTransaction_no_nil cmd w tx w' :
  pg_inv w -> no_nil w -> RecordTransaction production cmd w = (Ok tx, w') ->
  pg_inv w' /\ no_nil w' /\ forall e, e ∈ RTC_Entries cmd -> EC_AccountID e <> MkAccountID uuid_Nil.
Proof using UL OL.
  intros Hi Hn H. destruct (RecordTransaction_Ok (s:=production) (view:=pg_view) _ _ _ _ Hi H) as (Hi' & _ & Hp & _).
  split; [done|]. split.
  - unfold no_nil in *. rewrite <- not_elem_of_dom in *. pose proof (book_posts_dom (cmdParams <$> RTC_Entries cmd) (pg_view w)) as Hd.
    rewrite Hp in Hd. cbn [fst] in Hd. by rewrite Hd.
  - intros e He E. pose proof (book_posts_known (cmdParams <$> RTC_Entries cmd) (pg_view w)) as Hk.
    rewrite Hp, Forall_fmap, Forall_forall in Hk. specialize (Hk eq_refl e He). simpl in Hk. rewrite E in Hk.
    apply elem_of_dom in Hk as [c Hc]. unfold no_nil in Hn. unfold AccountID_String in Hc. simpl in Hc. congruence.
Qed.

Lemma system_account_no_nil name ty cur w :
  pg_inv w -> no_nil w -> no_nil (getOrCreateSystemAccount production name ty cur w).2.
Proof using UL OL Hnil.
  intros Hi Hn. rewrite getOrCreateSystemAccount_steps.
  destruct (Repository_FindAll (LS_accounts production) w) as [[all|e] w2] eqn:Hf;
    pose proof (preserves_eq pg_view _ _ _ _ Hf) as Hv; pose proof (keeps_eq pg_inv _ _ _ _ Hf Hi) as Hi2;
    assert (no_nil w2) by (unfold no_nil; by rewrite Hv); [|done].
  destruct (find_first _ all); [done|by apply OpenAccount_no_nil].
Qed.

Lemma suspense_follows cur w :
  pg_inv w -> no_nil w ->
  let '(id, w1) := suspenseAccountID production cur w in
  pg_inv w1 /\ no_nil w1 /\ (follows w w1 \/ id = MkAccountID uuid_Nil).
Proof using UL OL Hnil.
  intros Hi Hn. unfold suspenseAccountID. rewrite bindS_run.
  pose proof (keeps (P:=pg_inv) (m:=getOrCreateSystemAccount production (suspenseName cur) "LIABILITY" cur) w Hi) as Hi1.
  pose proof (system_account_no_nil (suspenseName cur) "LIABILITY" cur w Hi Hn) as Hn1.
  destruct (getOrCreateSystemAccount _ _ _ _ w) as [[acc|e] w1] eqn:Hg; simpl; split_and!; [done|done| |done|done|by right].
  left. by eapply system_account_follows.
Qed.

Lemma leg_follows cur w (cmd : AccountID -> RecordTransactionCmd) tx w' :
  pg_inv w -> no_nil w ->
  (forall id, exists e, e ∈ RTC_Entries (cmd id) /\ EC_AccountID e = id) ->
  (let@ id := suspenseAccountID production cur in RecordTransaction production (cmd id)) w = (Ok tx, w') ->
  pg_inv w' /\ no_nil w' /\ follows w w'.
Proof using UL OL Hnil.
  intros Hi Hn Hcmd. rewrite bindS_run. pose proof (suspense_follows cur w Hi Hn) as Hs.
  destruct (suspenseAccountID production cur w) as [id w1]. destruct Hs as (Hi1 & Hn1 & Hf). cbn [fst snd]. intros H.
  destruct (RecordTransaction_no_nil _ _ _ _ Hi1 Hn1 H) as (Hi' & Hn' & He). split_and!; [done..|].
  destruct (Hcmd id) as (e & Hin & Hid). destruct Hf as [Hf|Hf]; [|exfalso; by apply (He e Hin); congruence].
  etrans; [exact Hf|by eapply RecordTransaction_follows].
Qed.

(** The other steps of the saga touch neither table. *)
Definition idle {A} (m : St World A) : Prop :=
  forall w, pg_inv w -> no_nil w -> pg_inv (m w).2 /\ no_nil (m w).2 /\ follows w (m w).2.

Lemma idle_frame {A} (m : St World A) :
  Preserves log m -> Preserves pg_view m -> Keeps pg_inv m -> idle m.
Proof.
  intros Hl Hv Hk w Hi Hn. split; [by apply Hk|]. split; [unfold no_nil; by rewrite Hv|].
  apply follows_same; [apply Hl|apply Hv].
Qed.

Lemma saga_idle :
  (forall from to m d, idle (NewTransfer from to m d)) /\ (forall t, idle (MarkDebited t)) /\
  (forall t, idle (MarkCompleted t)).
Proof using UL OL.
  split_and!; intros; apply idle_frame; unfold NewTransfer, MarkDebited, MarkCompleted, addStep; apply _.
Qed.

Lemma Execute_follows cmd w t w' :
  pg_inv w -> no_nil w -> Execute production cmd w = ((Some t, None), w') ->
  pg_inv w' /\ no_nil w' /\ follows w w'.
Proof using UL OL Hnil.
  destruct saga_idle as (SN & SD & SC). intros Hi Hn. unfold Execute.
  destruct (NewMoney _ _) as [money|e]; [|done]. rewrite bindS_run.
  destruct (SN (TC_FromAccountID cmd) (TC_ToAccountID cmd) money (TC_Description cmd) w Hi Hn) as (I0 & N0 & F0).
  destruct (NewTransfer _ _ _ _ w) as [[t0|e] w0]; cbn [fst snd] in *; [|done]. rewrite bindS_run.
  destruct (debitSource production cmd w0) as [[tx1|e] w1] eqn:H1; cbn [fst snd].
  2:{ rewrite bindS_run. by destruct (MarkFailed _ t0 w1). }
  apply leg_follows in H1 as (I1 & N1 & F1); [|done..|by eexists; split; [by right; left|]].
  rewrite bindS_run. destruct (SD t0 w1 I1 N1) as (I2 & N2 & F2).
  destruct (MarkDebited t0 w1) as [[[e|] t1] w2]; cbn [fst snd] in *; [done|]. rewrite bindS_run.
  destruct (creditDestination production cmd w2) as [[tx2|e] w3] eqn:H3; cbn [fst snd].
  2:{ rewrite bindS_run. destruct (MarkFailed _ t1 w3) as [t2 w4]. cbn [fst snd]. rewrite bindS_run.
      destruct (compensate production cmd w4) as [[tx3|e3] w5]; cbn [fst snd]; [|done]. rewrite bindS_run.
      by destruct (MarkCompensated t2 w5). }
  apply leg_follows in H3 as (I3 & N3 & F3); [|done..|by eexists; split; [by left|]].
  rewrite bindS_run. destruct (SC t1 w3 I3 N3) as (I4 & N4 & F4).
  destruct (MarkCompleted t1 w3) as [[[e|] t2] w4]; cbn [fst snd] in *; [done|]. intros [= _ <-].
  split_and!; [done..|]. do 4 (etrans; [eassumption|]). exact F4.
Qed.

(** One call of the services that returns without an error. *)
Inductive succeeds : World -> World -> Prop :=
| succeeds_call w w' : serves (s:=production) w w' -> succeeds w w'
| succeeds_transfer cmd t w w' : Execute production cmd w = ((Some t, None), w') -> succeeds w w'.

Lemma serves_no_nil w w' : serves (s:=production) w w' -> pg_inv w -> no_nil w -> no_nil w'.
Proof using UL OL Hnil.
  intros [c w1 w2 H] Hi Hn. destruct c as [cmd|cmd|id amt cur d|id]; simpl in H.
  - apply bind_Ok_inv in H as (acc & w3 & H & [= <-]). pose proof (OpenAccount_no_nil cmd w1 Hi Hn) as Hw. by rewrite H in Hw.
  - apply bind_Ok_inv in H as (tx & w3 & H & [= <-]). by eapply RecordTransaction_no_nil.
  - unfold Deposit in H. apply bind_Ok_inv in H as (eq & w3 & H3 & H). apply wrapErr_Ok_inv in H3.
    apply bind_Ok_inv in H as (tx & w4 & H & [= <-]). unfold getOrCreateSystemEquity in H3.
    destruct (getOrCreateSystemAccount_safe (s:=production) (view:=pg_view) (equityName cur) "EQUITY" cur w1 Hi) as (Hi3 & _).
    pose proof (system_account_no_nil (equityName cur) "EQUITY" cur w1 Hi Hn) as Hn3.
    rewrite H3 in Hi3, Hn3. by eapply RecordTransaction_no_nil.
  - unfold GetBalance in H. apply bind_Ok_inv in H as (m & w3 & H & [= <-]).
    apply bind_Ok_inv in H as (acc & w4 & H & [= _ <-]). apply wrapErr_Ok_inv in H.
    pose proof (preserves_eq pg_view _ _ _ _ H) as Hv. unfold no_nil. by rewrite Hv.
Qed.

Lemma succeeds_follows w w' :
  succeeds w w' -> pg_inv w -> no_nil w -> pg_inv w' /\ no_nil w' /\ follows w w'.
Proof using UL OL Hnil.
  intros [w1 w2 H|cmd t w1 w2 H] Hi Hn; [|by eapply Execute_follows].
  split; [by apply (serves_inv (s:=production) (view:=pg_view) (inv:=pg_inv) w1 w2 H)|].
  split; [by eapply serves_no_nil|by apply serves_follows].
Qed.

(** C12: event sourcing: on Postgres, from empty tables, after any sequence of
    calls of the services that return without an error (accounts opened,
    transactions recorded, deposits, transfers, queries), whatever the database
    does otherwise, the accounts table is a function of the event log: the rows
    of the log are the text of events whose replay from nothing gives every
    account, with its name, type, currency and balance, and no other. (The UUIDs
    that are drawn are of version 7, so that none is nil.) *)
Theorem accounts_rebuilt_from_log w w' :
  pg_inv w -> pg_view w = ∅ -> t_events (w_db w) = [] -> rtc succeeds w w' ->
  exists es, Forall2 journal_row es (t_events (w_db w')) /\ line_of <$> pg_view w' = rebuilt es.
Proof using UL OL Hnil.
  intros Hi Hv Hl H. assert (Hw : follows w w').
  { assert (no_nil w) as Hn by (unfold no_nil; by rewrite Hv). clear Hv Hl.
    induction H as [w|w1 w2 w3 Hs _ IH]; [done|].
    destruct (succeeds_follows w1 w2 Hs Hi Hn) as (Hi2 & Hn2 & Hf). etrans; [exact Hf|by apply IH]. }
  destruct Hw as (es & rows & Hrows & Hj & He). unfold log, lines in *. rewrite Hl in Hrows. simpl in Hrows.
  exists es. rewrite Hrows. split; [done|]. by rewrite He, Hv, fmap_empty.
Qed.
End sourcing.

(** Two accounts, a deposit of 1000 on the one and a transfer of 400 to the
    other, which open the equity and the suspense account. *)
Definition four_calls (w : World) : World :=
  (Execute production (MkTransferCmd alice bob 400 USD "rent")
    (run_call (s:=production) (CallDeposit alice 1000 USD "opening")
      (run_call (s:=production) (CallOpenAccount (open_cmd "Bob"))
        (run_call (s:=production) (CallOpenAccount (open_cmd "Alice")) w).2).2).2).2.

Lemma four_calls_succeed : rtc succeeds initial_world (four_calls initial_world).
Proof.
  unfold four_calls.
  set (w1 := (run_call _ initial_world).2). set (w2 := (run_call _ w1).2). set (w3 := (run_call _ w2).2).
  assert (H1 : succeeds initial_world w1) by (apply succeeds_call, serves_run; vm_compute; reflexivity).
  assert (H2 : succeeds w1 w2) by (apply succeeds_call, serves_run; vm_compute; reflexivity).
  assert (H3 : succeeds w2 w3) by (apply succeeds_call, serves_run; vm_compute; reflexivity).
  assert (H4 : exists t, (Execute production (MkTransferCmd alice bob 400 USD "rent") w3).1 = (Some t, None))
    by (eexists; vm_compute; reflexivity).
  destruct H4 as [t H4]. eapply rtc_l; [exact H1|]. eapply rtc_l; [exact H2|]. eapply rtc_l; [exact H3|].
  apply rtc_once. eapply succeeds_transfer. rewrite <- H4. apply surjective_pairing.
Qed.

Lemma sample_not_nil n : generator n <> uuid_Nil.
Proof. done. Qed.

Lemma accounts_rebuilt_from_log_witness :
  exists w' es, rtc succeeds initial_world w' /\ length (t_events (w_db w')) = 7%nat /\
    Forall2 journal_row es (t_events (w_db w')) /\ line_of <$> pg_view w' = rebuilt es.
Proof.
  assert (Hn : length (t_events (w_db (four_calls initial_world))) = 7%nat) by (vm_compute; reflexivity).
  pose proof four_calls_succeed as H. revert H Hn. generalize (four_calls initial_world) as w'. intros w' H Hn.
  destruct (accounts_rebuilt_from_log sample_not_nil initial_world w' (proj2 initial_inv) (fmap_empty core) eq_refl H)
    as (es & Hj & He). by exists w', es.
Defined.
