(* ===== verification/ProcessTheorems.v ===== *)
(** * Theorems on the whole program

    Every interleaving of requests, outbox workers, abandoned requests and
    restarts, and every behaviour of the database and of the broker. *)
From S2P Require Import Prelude Go Identifiers Money Transaction Account Book Events Ports.
From S2P Require Import World LedgerService LedgerSafety Transfer TransferService Sample.
From S2P Require Import InMemory Postgres Projection Production Scenario Reachable Accesses.
From S2P Require Import EventLog OutboxWorker WorkerTheorems ReadModel Processes Journal.
From stdpp Require Import base gmap strings list.
Local Open Scope string_scope.
Local Open Scope list_scope.
Local Open Scope Z_scope.

Section program.
Context {U : UuidLib} {O : Oracle} {B : Type} (ow : OutboxWorker (B:=B)).

(** ** The journal through every interleaving *)

(** The log holds the event [e]. *)
Definition stored (e : DomainEvent) (w : World) : Prop :=
  exists r, r ∈ t_events (w_db w) /\ journal_row e r.

Lemma stored_logged e w w' :
  (forall l, logged l w -> logged l w') -> stored e w -> stored e w'.
Proof.
  intros H (r & Hr & He). exists r. split; [|done]. apply (H [r]); [|by constructor].
  by intros x ->%list_elem_of_singleton.
Qed.

Record program_journal (p : program (B:=B)) : Prop := {
  pj_journal : journal (p_world p);
  pj_honest g : g ∈ p_requests p -> honest g;
  pj_heard g x e : g ∈ p_requests p -> x ∈ g_heard g -> acknowledged_append e x ->
    stored e (p_world p);
}.

(** One access of a request. *)
Lemma advance_journal g w :
  honest g -> journal w -> journal (advance_one g w).2.
Proof.
  intros Hg Hj. unfold advance_one. destruct (stands g) as [x|r] eqn:Hs; [|done].
  rewrite bindS_run. simpl. intros r [Hr|(agg & ty & n & es & seq & -> & Hr)]%perform_events; [by apply Hj|].
  apply (proper_rows agg ty n es seq); [|done]. by apply (stands_proper g).
Qed.

Lemma advance_heard g w x e :
  x ∈ g_heard (advance_one g w).1 -> acknowledged_append e x ->
  x ∈ g_heard g \/ stored e (advance_one g w).2.
Proof.
  unfold advance_one. destruct (stands g) as [y|r] eqn:Hs; [|by left].
  rewrite bindS_run. simpl. intros [Hx|Hx%list_elem_of_singleton]%elem_of_app; [by left|].
  intros (payload & Hp & ->). right. injection Hx as <- Hr.
  apply eq_sym, perform_append in Hr as [seq Hl].
  eexists. split; [apply Hl; by constructor|]. by split.
Qed.

Lemma insert_cases {A} (l : list A) i x y : y ∈ <[i := x]> l -> y = x \/ y ∈ l.
Proof.
  intros [j Hj]%list_elem_of_lookup. destruct (decide (i = j)) as [->|Hne].
  - left. assert (j < length l)%nat as Hlt.
    { apply lookup_lt_Some in Hj. by rewrite length_insert in Hj. }
    rewrite list_lookup_insert_eq in Hj by done. congruence.
  - right. rewrite list_lookup_insert_ne in Hj by done. by apply list_elem_of_lookup_2 in Hj.
Qed.

Lemma batch_step_events c w b :
  t_events (w_db (batch_step ow c (w, b)).2.1) = t_events (w_db w).
Proof.
  destruct c as [|[|e es] ids]; simpl.
  - pose proof (FetchUnpublished_db (OW_batchSize ow) w) as Hd.
    destruct (FetchUnpublished _ w) as [[l|er] w1]; [case_bool_decide|]; simpl in *; by rewrite Hd.
  - case_bool_decide; [|done]. destruct (MarkPublished_cases ids w) as [He _].
    by destruct (MarkPublished ids w).
  - by destruct (EventPublisher_Publish _ _ _ _ b) as [[?|?] ?].
Qed.

Lemma background_stored e w w' : background w w' -> stored e w -> stored e w'.
Proof. intros Ho. apply stored_logged. intros l. by apply program_looks. Qed.

Lemma background_journal w w' : background w w' -> journal w -> journal w'.
Proof. unfold journal. by intros [(_ & -> & _)%but_read_eq _ _ _ _ _]. Qed.

Lemma program_step_journal p p' : program_step ow p p' -> program_journal p -> program_journal p'.
Proof.
  intros Hs [Hj Hh Ha].
  destruct Hs as [k rs ws w b|i g rs ws w b Hi|rs ws w b|j c rs ws w b _|j rows rs ws w w' b _ _ _ Ho
    |rs ws w w' b Ho|rs ws w b]; split; cbn [p_world p_requests] in *; try done.
  - intros g [Hg| ->%list_elem_of_singleton]%elem_of_app; [by apply Hh|apply honest_new].
  - intros g x e [Hg| ->%list_elem_of_singleton]%elem_of_app Hx; [by eapply Ha|by apply elem_of_nil in Hx].
  - by apply advance_journal; [apply Hh; apply list_elem_of_lookup_2 in Hi|].
  - intros g' [-> |Hg']%insert_cases; [|by apply Hh]. apply honest_advance, Hh.
    by apply list_elem_of_lookup_2 in Hi.
  - assert (Hm : forall e, stored e w -> stored e (advance_one g w).2).
    { intros e. apply stored_logged. intros l. apply (keeps (P:=logged l)). }
    apply list_elem_of_lookup_2 in Hi.
    intros g' x e [-> |Hg']%insert_cases Hx Hack; [|by eapply Hm, Ha].
    destruct (advance_heard g w x e Hx Hack) as [Hx'|Hst]; [by eapply Hm, Ha|done].
  - intros r. rewrite batch_step_events. apply Hj.
  - intros g x e Hg Hx Hack. destruct (Ha g x e Hg Hx Hack) as (r & Hr & He). exists r.
    by rewrite batch_step_events.
  - by eapply background_journal.
  - intros g x e Hg Hx Hack. by eapply background_stored, Ha.
  - by eapply background_journal.
  - intros g x e Hg Hx Hack. by eapply background_stored, Ha.
  - intros g Hg. by apply elem_of_nil in Hg.
  - intros g x e Hg. by apply elem_of_nil in Hg.
Qed.

Lemma booted_journal b p : rtc (program_step ow) (booted b) p -> program_journal p.
Proof.
  intros H. assert (program_journal (booted b)) as H0.
  { split; simpl; [intros r Hr|intros g Hg|intros g x e Hg]; [by apply elem_of_nil in Hr|
      by apply elem_of_nil in Hg..]. }
  revert H0. induction H as [p|p1 p2 p3 Hs _ IH]; [done|]. intros H0. apply IH.
  by eapply program_step_journal.
Qed.

(** C7: every row of the event log, in every state that the program reaches
    from empty tables, is version 1 of an aggregate and holds, in the JSON of
    its event, either a transaction that satisfies the invariant of its
    aggregate (two entries at least, one currency, no zero amount, debits equal
    to credits) or an account as it is opened (a name, a supported currency, a
    known type): any number of requests and of outbox workers interleaved,
    requests abandoned, restarts, and failures of the database included. *)
Theorem log_is_journal b p r :
  rtc (program_step ow) (booted b) p -> r ∈ t_events (w_db (p_world p)) ->
  exists e, proper_event e /\ journal_row e r.
Proof. intros H Hr. by apply (pj_journal _ (booted_journal b p H)). Qed.

(** A goroutine that has ended: the events of its answer are in the log. *)
Lemma ended_acknowledges p g resp :
  program_journal p -> g ∈ p_requests p -> stands g = inr resp ->
  acknowledges (fun e => stored e (p_world p)) (g_task g) resp.
Proof.
  intros [_ Hh Ha] Hg Hs. apply stands_ended in Hs; [|by apply Hh]. apply task_acknowledges in Hs.
  eapply acknowledges_mono; [|exact Hs]. intros e (x & Hx & Hack). by eapply Ha.
Qed.

(** The log never forgets. *)
Lemma stored_steps e p p' :
  rtc (program_step ow) p p' -> stored e (p_world p) -> stored e (p_world p').
Proof. intros H. apply stored_logged. intros l. by apply (program_keeps ow (logged l)). Qed.

(** C5: the trial balance of the journal: in every state of every interleaving,
    whatever failed and whatever raced, the event log is the text of a list of
    events whose entries add up to zero in every currency (modulo 2^64), credits
    less debits: balances rebuilt from the log are balanced, although those of
    the accounts table need not be. *)
Theorem journal_trial_balance b p :
  rtc (program_step ow) (booted b) p ->
  exists es, Forall2 journal_row es (t_events (w_db (p_world p))) /\ Forall proper_event es /\
    forall cur, sumZ (event_signed cur) es ≡64 0.
Proof.
  intros H. pose proof (pj_journal _ (booted_journal b p H)) as Hj. unfold journal in Hj.
  assert (exists es, Forall2 journal_row es (t_events (w_db (p_world p))) /\ Forall proper_event es)
    as (es & Hr & He).
  { revert Hj. generalize (t_events (w_db (p_world p))). clear H. intros rows.
    induction rows as [|r rows IH]; intros Hj; [by exists []|].
    destruct IH as (es & H1 & H2); [intros x Hx; apply Hj; by constructor|].
    destruct (Hj r) as (e & ? & ?); [constructor|]. exists (e :: es). by split; constructor. }
  exists es. split_and!; [done..|]. intros cur. by apply proper_events_balanced.
Qed.

Section delivery.
Context (delivered : B -> list message) `{Hp : !Promise (OW_publisher ow) delivered}.
Context `{OLaws : !OracleLaws}.

(** The event is in the log, and it is delivered or waits in the outbox. *)
Definition on_its_way (e : DomainEvent) (p : program (B:=B)) : Prop :=
  exists r, r ∈ t_events (w_db (p_world p)) /\ journal_row e r /\
    (event_message r ∈ delivered (p_broker p) \/
     exists o, o ∈ pending (t_outbox (w_db (p_world p))) /\ outbox_message o = event_message r).

Lemma stored_on_its_way b e p :
  rtc (program_step ow) (booted b) p -> stored e (p_world p) -> on_its_way e p.
Proof using Hp OLaws.
  intros H (r & Hr & He). exists r. split_and!; [done..|].
  destruct (booted_accounted ow delivered b p H) as [[H1 _ _ _] _]. by apply H1.
Qed.

(** C4: what a request has been answered is durable: when a request ends
    without an error in some interleaving, the events of its answer (the
    account opened; the transaction recorded, with the entries and the
    description of the command; the transaction of a deposit; both
    transactions of a completed transfer) are in the log in every later state,
    after restarts too, and each has been delivered to the broker or waits in
    the outbox to be published. *)
Theorem acknowledged_is_logged b p g resp p' :
  rtc (program_step ow) (booted b) p -> g ∈ p_requests p -> stands g = inr resp ->
  rtc (program_step ow) p p' ->
  acknowledges (fun e => on_its_way e p') (g_task g) resp.
Proof using Hp OLaws.
  intros H Hg Hs Hp'. eapply acknowledges_mono; [|eapply ended_acknowledges; eauto using booted_journal].
  intros e He. apply (stored_on_its_way b); [by etrans|]. by eapply stored_steps.
Qed.

(** C8: at-least-once delivery: in every state of every interleaving, with
    any number of outbox workers that fetch, publish and mark at any time, are
    lost between two calls or publish the same entries, and whatever the
    database and the broker answer: each event of the log has been delivered to
    the broker or is in the outbox, not yet published; and only delivered
    messages are marked as published. *)
Theorem every_event_is_delivered_or_queued b p :
  rtc (program_step ow) (booted b) p ->
  (forall ev, ev ∈ t_events (w_db (p_world p)) ->
     event_message ev ∈ delivered (p_broker p) \/
     exists o, o ∈ pending (t_outbox (w_db (p_world p))) /\ outbox_message o = event_message ev) /\
  (forall o, o ∈ t_outbox (w_db (p_world p)) -> ob_published o = true ->
     outbox_message o ∈ delivered (p_broker p)).
Proof using Hp OLaws. intros H. by destruct (booted_accounted ow delivered b p H) as [[H1 H2 _ _] _]. Qed.
End delivery.

(** In every state of every interleaving an aggregate has at most one event of
    each version. (Nothing of that kind holds of the accounts that are posted
    to: racing deposits lose updates there.) *)
Theorem one_event_per_version b p :
  rtc (program_step ow) (booted b) p -> versions_unique (t_events (w_db (p_world p))).
Proof. intros H. apply (program_keeps ow log_unique _ _ H). apply NoDup_nil_2. Qed.
End program.

(** A request that no other one interrupts does what the sequential code
    does: after finitely many accesses it has the response and has left the
    world of [OpenAccount], [RecordTransaction], [Deposit], [GetBalance] or
    [Execute] on the production wiring. *)
Theorem goroutine_alone {U : UuidLib} {O : Oracle} k w :
  exists n, (advance_many n (MkGoroutine k []) w).2 = (run_task production k w).2 /\
    stands (advance_many n (MkGoroutine k []) w).1 = inr (run_task production k w).1.
Proof.
  destruct (replay_trace (code (run_task transcribed k) (run_task production k)) w) as (tr & H1 & H2 & H3).
  rewrite <- code_run in H1, H2. exists (length tr).
  rewrite (advance_along k [] tr w (run_task production k w).2).
  2:{ intros i x r before Hi. rewrite (code_replay (d:=run_task production k)). by apply (H3 i x r). }
  2:{ done. }
  split; [done|]. simpl. unfold stands, start. cbn [g_task g_heard].
  specialize (H2 [] []). rewrite app_nil_r, <- code_replay in H2. by rewrite H2.
Qed.

(** ** Races *)

Definition log_worker : OutboxWorker (B:=list message) := NewOutboxWorker LogPublisher.
Definition after_moves (ms : list move) : program (B:=list message) :=
  fold_left (fun p m => apply_move log_worker m p) ms (booted []).

Lemma after_moves_reachable ms : rtc (program_step log_worker) (booted []) (after_moves ms).
Proof. apply moved_steps. Qed.

Definition opens_alice : list move :=
  Arrive (OpenTask (open_cmd "Alice")) :: repeat (Request 0) 6.

Definition deposits : list move :=
  opens_alice ++
  [Arrive (DepositTask alice 700 USD "first"); Arrive (DepositTask alice 300 USD "second")].

(** The searches for the equity account are both made before either deposit
    creates it. *)
Definition racing_searches : list move :=
  deposits ++ [Request 1; Request 2] ++ repeat (Request 1) 30 ++ repeat (Request 2) 30.

(** The second deposit runs between the read and the write of Alice's account
    by the first. *)
Definition racing_balances : list move :=
  deposits ++ repeat (Request 1) 16 ++ repeat (Request 2) 30 ++ repeat (Request 1) 30.

(** Two workers that fetch before either marks. *)
Definition racing_workers : list move :=
  opens_alice ++ [StartWorker; StartWorker] ++ [Worker 0; Worker 1; Worker 0; Worker 1; Worker 0; Worker 1].

Definition both_deposited (p : program (B:=list message)) : Prop :=
  stands <$> drop 1 (p_requests p) = [inr (Deposited (Ok tt)); inr (Deposited (Ok tt))].

Definition balance_of (p : program (B:=list message)) (id : AccountID) : option Z :=
  ac_amount <$> pg_view (p_world p) !! AccountID_String id.
Definition read_balance_of (p : program (B:=list message)) (id : AccountID) : option Z :=
  av_Balance <$> t_account_balances (w_db (p_world p)) !! AccountID_String id.

(** The sixth id that is drawn; [bob] names the second. *)
Definition sixth : AccountID := MkAccountID 6%N.

(** The system account of a currency is not unique: two first deposits in
    a currency that search for its equity account before either creates it
    both create one, both succeed, and each is posted against its own. *)
Theorem racing_deposits_two_equities :
  exists p k1 k2 c1 c2, rtc (program_step log_worker) (booted []) p /\ both_deposited p /\
    k1 <> k2 /\ pg_view (p_world p) !! k1 = Some c1 /\ pg_view (p_world p) !! k2 = Some c2 /\
    ac_name c1 = equityName USD /\ ac_name c2 = equityName USD /\
    ac_amount c1 = -700 /\ ac_amount c2 = -300.
Proof.
  exists (after_moves racing_searches), (AccountID_String bob), (AccountID_String sixth).
  eexists _, _. split; [apply after_moves_reachable|].
  split_and!; vm_compute; reflexivity || discriminate.
Qed.

(** An acknowledged deposit can be lost: two deposits of 700 and 300 to
    one empty account, both answered with success and both in the event log and
    in the read model, leave 700 in the account when the one is applied between
    the other's read and write of it. *)
Theorem racing_deposits_lose_one :
  exists p, rtc (program_step log_worker) (booted []) p /\ both_deposited p /\
    length (t_events (w_db (p_world p))) = 4%nat /\
    read_balance_of p alice = Some 1000 /\ balance_of p alice = Some 700.
Proof.
  exists (after_moves racing_balances). split; [apply after_moves_reachable|].
  split_and!; vm_compute; reflexivity.
Qed.

(** Two workers publish an entry twice although nothing fails: both fetch
    it before either marks it. FOR UPDATE SKIP LOCKED in the query has no
    effect, since the statement is its own transaction and the locks end with
    it. *)
Theorem racing_workers_publish_twice :
  exists p o, rtc (program_step log_worker) (booted []) p /\
    t_outbox (w_db (p_world p)) = [o] /\ p_broker p = [outbox_message o; outbox_message o].
Proof.
  exists (after_moves racing_workers). eexists. split; [apply after_moves_reachable|].
  split; vm_compute; reflexivity.
Qed.

(** ** The properties on concrete runs *)

Lemma log_is_journal_witness :
  exists r, r ∈ t_events (w_db (p_world (after_moves racing_balances))) /\
    exists e, proper_event e /\ journal_row e r.
Proof.
  destruct (t_events (w_db (p_world (after_moves racing_balances)))) as [|r l] eqn:E.
  { exfalso. revert E. vm_compute. discriminate. }
  exists r. split; [constructor|].
  apply (log_is_journal log_worker [] (after_moves racing_balances) r).
  - apply after_moves_reachable.
  - rewrite E. constructor.
Defined.

Lemma journal_trial_balance_witness :
  balance_of (after_moves racing_balances) alice = Some 700 /\
  exists es, Forall2 journal_row es (t_events (w_db (p_world (after_moves racing_balances)))) /\
    Forall proper_event es /\ forall cur, sumZ (event_signed cur) es ≡64 0.
Proof.
  split; [vm_compute; reflexivity|].
  exact (journal_trial_balance log_worker [] (after_moves racing_balances) (after_moves_reachable racing_balances)).
Defined.

(** Restarted, with a worker that publishes, after the deposits. *)
Definition aftermath : list move := [Reboot; StartWorker; Worker 0; Worker 0; Worker 0].

Lemma acknowledged_is_logged_witness :
  exists g p', p' = after_moves (racing_balances ++ aftermath) /\
    g_task g = DepositTask alice 300 USD "second" /\ length (p_broker p') = 2%nat /\
    acknowledges (fun e => on_its_way (fun log => log) e p') (g_task g) (Deposited (Ok tt)).
Proof.
  destruct (p_requests (after_moves racing_balances) !! 2%nat) as [g|] eqn:E.
  2:{ exfalso. revert E. vm_compute. discriminate. }
  assert (Hg : (g_task <$> p_requests (after_moves racing_balances)) !! 2%nat =
                 Some (DepositTask alice 300 USD "second")) by (vm_compute; reflexivity).
  assert (Hs : (stands <$> p_requests (after_moves racing_balances)) !! 2%nat =
                 Some (inr (Deposited (Ok tt)))) by (vm_compute; reflexivity).
  rewrite list_lookup_fmap, E in Hg. rewrite list_lookup_fmap, E in Hs. injection Hg as Hg. injection Hs as Hs.
  exists g, (after_moves (racing_balances ++ aftermath)). split_and!; [done|done|vm_compute; reflexivity|].
  apply (acknowledged_is_logged log_worker (fun log => log) [] (after_moves racing_balances) g).
  - apply after_moves_reachable.
  - by apply list_elem_of_lookup_2 in E.
  - exact Hs.
  - unfold after_moves. rewrite fold_left_app. apply moved_steps.
Defined.

Lemma every_event_is_delivered_or_queued_witness :
  exists p, rtc (program_step log_worker) (booted []) p /\ length (p_broker p) = 2%nat /\
    forall o, o ∈ t_outbox (w_db (p_world p)) -> ob_published o = true -> outbox_message o ∈ p_broker p.
Proof.
  exists (after_moves racing_workers). split; [apply after_moves_reachable|].
  split; [vm_compute; reflexivity|].
  exact (proj2 (every_event_is_delivered_or_queued log_worker (fun log => log) []
                  (after_moves racing_workers) (after_moves_reachable _))).
Defined.
