(* ===== verification/Json.v ===== *)
(** * encoding/json: text

    The text that [json.Marshal] and [Encode] write for a document, and the
    value that [Decoder.Decode] reads from the bytes of a request body, before
    it is stored in a Go value (Requests.v). Strings are bytes: both directions
    decode UTF-8 as package unicode/utf8 does. *)
From S2P Require Import Prelude Go Strconv Events.
From stdpp Require Import base gmap strings list pretty.
From Stdlib Require Import Ascii String.
Local Open Scope string_scope.
Local Open Scope list_scope.
Local Open Scope Z_scope.

(** ** UTF-8 *)
Module Utf8.
Definition byte (c : ascii) : Z := Z.of_N (N_of_ascii c).
Definition chr (z : Z) : ascii := ascii_of_N (Z.to_N z).
Definition between (lo hi x : Z) : bool := (lo <=? x) && (x <=? hi).
Definition continuation (c : ascii) : bool := between 128 191 (byte c).

(** The well-formed sequences of two, three and four bytes. *)
Definition two (c0 c1 : ascii) : bool := between 194 223 (byte c0) && continuation c1.
Definition three (c0 c1 c2 : ascii) : bool :=
  between 224 239 (byte c0) &&
  between (if byte c0 =? 224 then 160 else 128) (if byte c0 =? 237 then 159 else 191) (byte c1) &&
  continuation c2.
Definition four (c0 c1 c2 c3 : ascii) : bool :=
  between 240 244 (byte c0) &&
  between (if byte c0 =? 240 then 144 else 128) (if byte c0 =? 244 then 143 else 191) (byte c1) &&
  continuation c2 && continuation c3.

(** The runes of a string: [None] for a byte that begins no well-formed
    sequence, which [utf8.DecodeRune] skips alone. *)
Fixpoint runes (s : string) : list (option Z) :=
  match s with
  | EmptyString => []
  | String c0 s1 =>
      if byte c0 <? 128 then Some (byte c0) :: runes s1
      else
        match s1 with
        | EmptyString => [None]
        | String c1 s2 =>
            if two c0 c1 then Some ((byte c0 - 192) * 64 + (byte c1 - 128)) :: runes s2
            else
              match s2 with
              | EmptyString => None :: runes s1
              | String c2 s3 =>
                  if three c0 c1 c2
                  then Some ((byte c0 - 224) * 4096 + (byte c1 - 128) * 64 + (byte c2 - 128)) :: runes s3
                  else
                    match s3 with
                    | EmptyString => None :: runes s1
                    | String c3 s4 =>
                        if four c0 c1 c2 c3
                        then Some ((byte c0 - 240) * 262144 + (byte c1 - 128) * 4096 +
                                   (byte c2 - 128) * 64 + (byte c3 - 128)) :: runes s4
                        else None :: runes s1
                    end
              end
        end
  end.

Definition surrogate (r : Z) : bool := between 55296 57343 r.
(** A Unicode scalar value. *)
Definition scalar (r : Z) : bool := between 0 1114111 r && negb (surrogate r).

Definition RuneError : Z := 65533.

(** [utf8.AppendRune]. *)
Definition encode (r : Z) : string :=
  if negb (scalar r) then String (chr 239) (String (chr 191) (String (chr 189) ""))
  else if r <? 128 then String (chr r) ""
  else if r <? 2048 then String (chr (192 + r / 64)) (String (chr (128 + r mod 64)) "")
  else if r <? 65536
  then String (chr (224 + r / 4096)) (String (chr (128 + r / 64 mod 64)) (String (chr (128 + r mod 64)) ""))
  else String (chr (240 + r / 262144)) (String (chr (128 + r / 4096 mod 64))
         (String (chr (128 + r / 64 mod 64)) (String (chr (128 + r mod 64)) ""))).

Fixpoint encode_all (l : list Z) : string :=
  match l with
  | [] => ""
  | r :: l => encode r +:+ encode_all l
  end.

Definition rune_or_error (o : option Z) : Z := default RuneError o.

(** The string with each bad byte replaced by U+FFFD. *)
Definition sanitized (s : string) : string := encode_all (rune_or_error <$> runes s).

(** [utf8.ValidString]. *)
Definition valid (s : string) : bool :=
  forallb (fun o => match o with Some _ => true | None => false end) (runes s).
End Utf8.

(** ** Writing *)
Module Json.
Import Utf8.

Definition hex_digit (n : nat) : ascii :=
  match String.get n "0123456789abcdef" with Some c => c | None => "0"%char end.

(** A character below 0x80, with the HTML escapes of [json.Marshal]. *)
Definition escape (c : ascii) : string :=
  let n := nat_of_ascii c in
  if (n =? 34)%nat then "\" +:+ String c ""
  else if (n =? 92)%nat then "\\"
  else if (n =? 8)%nat then "\b"
  else if (n =? 12)%nat then "\f"
  else if (n =? 10)%nat then "\n"
  else if (n =? 13)%nat then "\r"
  else if (n =? 9)%nat then "\t"
  else if (n <? 32)%nat || (n =? 60)%nat || (n =? 62)%nat || (n =? 38)%nat
  then "\u00" +:+ String (hex_digit (n / 16)) (String (hex_digit (n mod 16)) "")
  else String c "".

Definition escape_rune (o : option Z) : string :=
  match o with
  | None => "\ufffd"
  | Some r =>
      if r <? 128 then escape (chr r)
      else if r =? 8232 then "\u2028"
      else if r =? 8233 then "\u2029"
      else encode r
  end.

Fixpoint escape_all (l : list (option Z)) : string :=
  match l with
  | [] => ""
  | o :: l => escape_rune o +:+ escape_all l
  end.
Definition escaped (s : string) : string := escape_all (runes s).

Definition quote_char : ascii := ascii_of_nat 34.
Definition quote : string := String quote_char "".
Definition quoted (s : string) : string := quote +:+ escaped s +:+ quote.

Fixpoint joined (l : list string) : string :=
  match l with
  | [] => ""
  | [x] => x
  | x :: l => x +:+ "," +:+ joined l
  end.

Fixpoint text (j : json) : string :=
  match j with
  | JNum z => fmt_d z
  | JStr s => quoted s
  | JArr l => "[" +:+ joined (List.map text l) +:+ "]"
  | JObj fields =>
      "{" +:+ joined (List.map (fun kv => quoted (fst kv) +:+ ":" +:+ text (snd kv)) fields) +:+ "}"
  end.

Example text_object :
  text (JObj [("a<b", JNum (-3)); ("l", JArr [JStr "x"; JNum 0])]) =
  "{" +:+ quote +:+ "a\u003cb" +:+ quote +:+ ":-3," +:+ quote +:+ "l" +:+ quote +:+ ":[" +:+
  quote +:+ "x" +:+ quote +:+ ",0]}".
Proof. reflexivity. Qed.

(** ** Reading

    [Decode] scans one value and then stores it. The scan is a recursive
    descent here: [parse_value] reads the value at the head of its input and
    returns what follows it. Its fuel is never short: see [parse_fuel] in
    JsonTheorems.v. *)
Inductive value :=
| VNull
| VBool (b : bool)
| VNum (literal : string)
| VStr (s : string)
| VArr (l : list value)
| VObj (members : list (string * value)).

Definition is_char (n : nat) (c : ascii) : bool := (nat_of_ascii c =? n)%nat.
Definition is_space (c : ascii) : bool :=
  is_char 32 c || is_char 9 c || is_char 13 c || is_char 10 c.

Fixpoint skip_space (s : string) : string :=
  match s with
  | String c s1 => if is_space c then skip_space s1 else s
  | EmptyString => EmptyString
  end.

(** *** Strings *)

Definition hex_value (c : ascii) : option Z :=
  let b := byte c in
  if between 48 57 b then Some (b - 48)
  else if between 97 102 b then Some (b - 87)
  else if between 65 70 b then Some (b - 55)
  else None.
Definition is_hex (c : ascii) : bool := match hex_value c with Some _ => true | None => false end.

Definition simple_escape (c : ascii) : bool :=
  existsb (fun n => is_char n c) [98; 102; 110; 114; 116; 92; 47; 34]%nat.

Definition prepend (p : string) (o : option (string * string)) : option (string * string) :=
  match o with Some (raw, rest) => Some (p +:+ raw, rest) | None => None end.

(** What stands before the closing quote, as it is written. *)
Fixpoint lex_string (s : string) : option (string * string) :=
  match s with
  | EmptyString => None
  | String c s1 =>
      if is_char 34 c then Some ("", s1)
      else if byte c <? 32 then None
      else if is_char 92 c then
        match s1 with
        | EmptyString => None
        | String e s2 =>
            if simple_escape e then prepend (String c (String e "")) (lex_string s2)
            else if is_char 117 e then
              match s2 with
              | String h1 (String h2 (String h3 (String h4 s6))) =>
                  if is_hex h1 && is_hex h2 && is_hex h3 && is_hex h4
                  then prepend (String c (String e (String h1 (String h2 (String h3 (String h4 ""))))))
                         (lex_string s6)
                  else None
              | _ => None
              end
            else None
        end
      else prepend (String c "") (lex_string s1)
  end.

Definition hex_rune (o : option Z) : option Z :=
  match o with Some r => if r <? 128 then hex_value (chr r) else None | None => None end.
Definition hex4 (a b c d : option Z) : option Z :=
  match hex_rune a, hex_rune b, hex_rune c, hex_rune d with
  | Some x, Some y, Some z, Some t => Some (x * 4096 + y * 256 + z * 16 + t)
  | _, _, _, _ => None
  end.

Definition unescape_char (r : Z) : Z :=
  if r =? 98 then 8 else if r =? 102 then 12 else if r =? 110 then 10 else if r =? 114 then 13
  else if r =? 116 then 9 else r.

(** [utf16.DecodeRune]; [RuneError] when the two are no pair. *)
Definition decode_pair (r1 r2 : Z) : Z :=
  if between 55296 56319 r1 && between 56320 57343 r2
  then (r1 - 55296) * 1024 + (r2 - 56320) + 65536 else RuneError.

Definition is_rune (r : Z) (o : option Z) : bool := match o with Some x => x =? r | None => false end.

(** [unquote]: the runes of the raw text with its escapes resolved. *)
Fixpoint unescape (l : list (option Z)) : list Z :=
  match l with
  | [] => []
  | o :: l1 =>
      if is_rune 92 o then
        match l1 with
        | [] => []
        | e :: l2 =>
            if is_rune 117 e then
              match l2 with
              | a :: b :: c :: d :: l6 =>
                  match hex4 a b c d with
                  | None => []
                  | Some r =>
                      if surrogate r then
                        match l6 with
                        | o' :: e' :: a' :: b' :: c' :: d' :: l12 =>
                            if is_rune 92 o' && is_rune 117 e' then
                              let r' := decode_pair r (default 0 (hex4 a' b' c' d')) in
                              if r' =? RuneError then RuneError :: unescape l6 else r' :: unescape l12
                            else RuneError :: unescape l6
                        | _ => RuneError :: unescape l6
                        end
                      else r :: unescape l6
                  end
              | _ => []
              end
            else unescape_char (rune_or_error e) :: unescape l2
        end
      else rune_or_error o :: unescape l1
  end.

Definition unquote (raw : string) : string := encode_all (unescape (runes raw)).

(** *** Numbers *)

(** The integer part: 0, or digits that do not begin with 0. *)
Definition lex_int (s : string) : option (string * string) :=
  match s with
  | String c s1 =>
      if is_char 48 c then Some (String c "", s1)
      else if is_digit c then Some (split_digits s) else None
  | EmptyString => None
  end.

(** The fraction and the exponent, which may be absent. *)
Definition lex_digits1 (s : string) : option (string * string) :=
  match split_digits s with
  | (EmptyString, _) => None
  | r => Some r
  end.
Definition lex_frac (s : string) : option (string * string) :=
  match s with
  | String c s1 => if is_char 46 c then prepend (String c "") (lex_digits1 s1) else Some ("", s)
  | EmptyString => Some ("", s)
  end.
Definition lex_exp (s : string) : option (string * string) :=
  match s with
  | String c s1 =>
      if is_char 101 c || is_char 69 c then
        prepend (String c "")
          match s1 with
          | String g s2 =>
              if is_char 43 g || is_char 45 g then prepend (String g "") (lex_digits1 s2)
              else lex_digits1 s1
          | EmptyString => None
          end
      else Some ("", s)
  | EmptyString => Some ("", s)
  end.

Definition lex_unsigned (s : string) : option (string * string) :=
  match lex_int s with
  | None => None
  | Some (i, s1) =>
      match lex_frac s1 with
      | None => None
      | Some (f, s2) => prepend (i +:+ f) (lex_exp s2)
      end
  end.
Definition lex_number (s : string) : option (string * string) :=
  match s with
  | String c s1 => if is_char 45 c then prepend (String c "") (lex_unsigned s1) else lex_unsigned s
  | EmptyString => None
  end.

(** *** Values *)

Fixpoint strip (p s : string) : option string :=
  match p, s with
  | EmptyString, _ => Some s
  | String a p, String b s => if Ascii.eqb a b then strip p s else None
  | String _ _, EmptyString => None
  end.

Definition literal (s : string) : option (value * string) :=
  match strip "null" s, strip "true" s, strip "false" s with
  | Some r, _, _ => Some (VNull, r)
  | _, Some r, _ => Some (VBool true, r)
  | _, _, Some r => Some (VBool false, r)
  | _, _, _ => None
  end.

Definition scalar_value (s : string) : option (value * string) :=
  match s with
  | EmptyString => None
  | String c s1 =>
      if is_char 34 c then
        match lex_string s1 with Some (raw, r) => Some (VStr (unquote raw), r) | None => None end
      else if is_char 45 c || is_digit c then
        match lex_number s with Some (l, r) => Some (VNum l, r) | None => None end
      else literal s
  end.

(** A key and the colon after it. *)
Definition parse_key (s : string) : option (string * string) :=
  match skip_space s with
  | String c s1 =>
      if is_char 34 c then
        match lex_string s1 with
        | Some (raw, r) =>
            match skip_space r with
            | String c s2 => if is_char 58 c then Some (unquote raw, s2) else None
            | EmptyString => None
            end
        | None => None
        end
      else None
  | EmptyString => None
  end.

(** [depth] is how many arrays and objects may still be opened. *)
Fixpoint parse_value (n : nat) (depth : nat) (s : string) : option (value * string) :=
  match n with
  | O => None
  | S n =>
      match skip_space s with
      | EmptyString => None
      | String c s1 =>
          if is_char 91 c || is_char 123 c then
            match depth with
            | O => None
            | S depth =>
                match skip_space s1 with
                | EmptyString => None
                | String c2 s2 =>
                    if is_char 91 c then
                      if is_char 93 c2 then Some (VArr [], s2)
                      else
                        match parse_elements n depth s1 with
                        | Some (l, r) => Some (VArr l, r)
                        | None => None
                        end
                    else
                      if is_char 125 c2 then Some (VObj [], s2)
                      else
                        match parse_members n depth s1 with
                        | Some (l, r) => Some (VObj l, r)
                        | None => None
                        end
                end
            end
          else scalar_value (String c s1)
      end
  end
with parse_elements (n : nat) (depth : nat) (s : string) : option (list value * string) :=
  match n with
  | O => None
  | S n =>
      match parse_value n depth s with
      | None => None
      | Some (v, r) =>
          match skip_space r with
          | EmptyString => None
          | String c s1 =>
              if is_char 93 c then Some ([v], s1)
              else if is_char 44 c then
                match parse_elements n depth s1 with
                | Some (l, r) => Some (v :: l, r)
                | None => None
                end
              else None
          end
      end
  end
with parse_members (n : nat) (depth : nat) (s : string) : option (list (string * value) * string) :=
  match n with
  | O => None
  | S n =>
      match parse_key s with
      | None => None
      | Some (k, s1) =>
          match parse_value n depth s1 with
          | None => None
          | Some (v, r) =>
              match skip_space r with
              | EmptyString => None
              | String c s2 =>
                  if is_char 125 c then Some ([(k, v)], s2)
                  else if is_char 44 c then
                    match parse_members n depth s2 with
                    | Some (l, r) => Some ((k, v) :: l, r)
                    | None => None
                    end
                  else None
              end
          end
      end
  end.

Definition maxNestingDepth : nat := 10000.

(** The first value of the input; what follows it is not looked at. *)
Definition parse (s : string) : option (value * string) :=
  parse_value (S (2 * String.length s)) maxNestingDepth s.
End Json.
