(* ===== verification/JsonTheorems.v ===== *)
(** * What encoding/json writes it reads back

    The text of a document, followed by anything, is read as the document, with
    the bytes that are not UTF-8 replaced; the fuel of the reader is never
    short. *)
From S2P Require Import Prelude Go Strconv Events Json.
From stdpp Require Import base gmap strings list pretty.
From Stdlib Require Import Ascii String.
Local Open Scope string_scope.
Local Open Scope list_scope.
Local Open Scope Z_scope.
Import Utf8 Json.

(** ** Bytes *)

Lemma byte_range c : 0 <= byte c < 256.
Proof. unfold byte. pose proof (N_ascii_bounded c). lia. Qed.

Lemma byte_chr z : 0 <= z < 256 -> byte (chr z) = z.
Proof. intros Hz. unfold byte, chr. rewrite N_ascii_embedding by lia. lia. Qed.

Lemma chr_byte c : chr (byte c) = c.
Proof. unfold byte, chr. by rewrite N2Z.id, ascii_N_embedding. Qed.

Ltac byte_cases :=
  repeat match goal with
  | H : context [byte ?c] |- _ => lazymatch goal with
      | _ : 0 <= byte c < 256 |- _ => fail
      | _ => pose proof (byte_range c) end
  | |- context [byte ?c] => lazymatch goal with
      | _ : 0 <= byte c < 256 |- _ => fail
      | _ => pose proof (byte_range c) end
  end.

Lemma between_spec lo hi x : between lo hi x = true <-> lo <= x <= hi.
Proof. unfold between. rewrite andb_true_iff, !Z.leb_le. done. Qed.

Lemma between_false lo hi x : between lo hi x = false <-> x < lo \/ hi < x.
Proof. unfold between. rewrite andb_false_iff, !Z.leb_gt. done. Qed.

Lemma scalar_spec r : scalar r = true <-> (0 <= r <= 1114111 /\ ~ (55296 <= r <= 57343)).
Proof.
  unfold scalar, surrogate. rewrite andb_true_iff, negb_true_iff, between_spec, between_false. lia.
Qed.

(** ** Runes *)

Lemma runes_ascii c s : byte c < 128 -> runes (String c s) = Some (byte c) :: runes s.
Proof. intros Hc%Z.ltb_lt. simpl. by rewrite Hc. Qed.

(** A well-formed sequence is one rune. *)
Lemma runes_encode r s : scalar r = true -> runes (encode r +:+ s) = Some r :: runes s.
Proof.
  intros Hr. unfold encode. rewrite Hr. cbn [negb]. apply scalar_spec in Hr.
  destruct (Z.ltb_spec r 128) as [H1|H1].
  { simpl. rewrite byte_chr by lia. destruct (Z.ltb_spec r 128); [done|lia]. }
  assert (Hd : forall k, 0 < k -> r = k * (r / k) + r mod k /\ 0 <= r mod k < k).
  { intros k Hk. split; [apply Z.div_mod; lia|by apply Z.mod_pos_bound]. }
  pose proof (Hd 64 ltac:(lia)) as H64. pose proof (Hd 4096 ltac:(lia)) as H4096.
  pose proof (Hd 262144 ltac:(lia)) as H218.
  assert (Hm1 : 0 <= r / 64 mod 64 < 64) by (by apply Z.mod_pos_bound).
  assert (Hm2 : 0 <= r / 4096 mod 64 < 64) by (by apply Z.mod_pos_bound).
  assert (Hq1 : r / 64 = 64 * (r / 4096) + r / 64 mod 64).
  { replace (r / 4096) with (r / 64 / 64) by (by rewrite Z.div_div). apply Z.div_mod. lia. }
  assert (Hq2 : r / 4096 = 64 * (r / 262144) + r / 4096 mod 64).
  { replace (r / 262144) with (r / 4096 / 64) by (by rewrite Z.div_div). apply Z.div_mod. lia. }
  assert (Hlead : forall x, 192 <= x < 256 -> byte (chr x) <? 128 = false).
  { intros x Hx. rewrite byte_chr by lia. apply Z.ltb_ge. lia. }
  destruct (Z.ltb_spec r 2048) as [H2|H2].
  { simpl. rewrite Hlead by lia. unfold two, continuation. rewrite !byte_chr by lia.
    rewrite (proj2 (between_spec _ _ _)), (proj2 (between_spec _ _ _)) by lia. simpl.
    f_equal. f_equal. lia. }
  destruct (Z.ltb_spec r 65536) as [H3|H3]; simpl; (rewrite Hlead by lia);
    unfold two, three, four, continuation; rewrite !byte_chr by lia.
  - rewrite (proj2 (between_false _ _ _)) by lia. simpl.
    rewrite 3!(proj2 (between_spec _ _ _)); [simpl; f_equal; f_equal; lia|try lia..].
    destruct (Z.eqb_spec (224 + r / 4096) 224), (Z.eqb_spec (224 + r / 4096) 237); lia.
  - rewrite !(proj2 (between_false _ _ (240 + r / 262144))) by lia. simpl.
    rewrite 4!(proj2 (between_spec _ _ _)); [simpl; f_equal; f_equal; lia|try lia..].
    destruct (Z.eqb_spec (240 + r / 262144) 240), (Z.eqb_spec (240 + r / 262144) 244); lia.
Qed.

(** The encoding of a rune of two bytes and more. *)
Lemma encode_parts r :
  scalar r = true -> 128 <= r ->
  encode r =
    if r <? 2048 then String (chr (192 + r / 64)) (String (chr (128 + r mod 64)) "")
    else if r <? 65536
    then String (chr (224 + r / 4096)) (String (chr (128 + r / 64 mod 64)) (String (chr (128 + r mod 64)) ""))
    else String (chr (240 + r / 262144)) (String (chr (128 + r / 4096 mod 64))
           (String (chr (128 + r / 64 mod 64)) (String (chr (128 + r mod 64)) ""))).
Proof. intros Hr H. unfold encode. rewrite Hr. simpl. by destruct (Z.ltb_spec r 128); [lia|]. Qed.

Lemma chr_eq z c : z = byte c -> chr z = c.
Proof. intros ->. apply chr_byte. Qed.

Ltac div_lia := Z.to_euclidean_division_equations; lia.

Lemma two_encode c0 c1 r :
  two c0 c1 = true -> r = (byte c0 - 192) * 64 + (byte c1 - 128) ->
  scalar r = true /\ encode r = String c0 (String c1 "").
Proof.
  unfold two, continuation. rewrite andb_true_iff, !between_spec. intros [H0 H1] Hr.
  assert (Hs : scalar r = true) by (apply scalar_spec; lia). split; [done|].
  rewrite encode_parts by (done || lia). destruct (Z.ltb_spec r 2048); [|lia].
  rewrite (chr_eq _ c0), (chr_eq _ c1); [done|div_lia|div_lia].
Qed.

Lemma three_encode c0 c1 c2 r :
  three c0 c1 c2 = true -> r = (byte c0 - 224) * 4096 + (byte c1 - 128) * 64 + (byte c2 - 128) ->
  scalar r = true /\ encode r = String c0 (String c1 (String c2 "")).
Proof.
  unfold three, continuation. rewrite !andb_true_iff, !between_spec. intros [[H0 H1] H2] Hr.
  assert (Hb : 128 <= byte c1 <= 191 /\ 2048 <= r < 65536 /\ ~ (55296 <= r <= 57343)).
  { destruct (Z.eqb_spec (byte c0) 224), (Z.eqb_spec (byte c0) 237); lia. }
  assert (Hs : scalar r = true) by (apply scalar_spec; lia). split; [done|].
  rewrite encode_parts by (done || lia).
  destruct (Z.ltb_spec r 2048); [lia|]. destruct (Z.ltb_spec r 65536); [|lia].
  rewrite (chr_eq _ c0), (chr_eq _ c1), (chr_eq _ c2); [done|div_lia..].
Qed.

Lemma four_encode c0 c1 c2 c3 r :
  four c0 c1 c2 c3 = true ->
  r = (byte c0 - 240) * 262144 + (byte c1 - 128) * 4096 + (byte c2 - 128) * 64 + (byte c3 - 128) ->
  scalar r = true /\ encode r = String c0 (String c1 (String c2 (String c3 ""))).
Proof.
  unfold four, continuation. rewrite !andb_true_iff, !between_spec. intros [[[H0 H1] H2] H3] Hr.
  assert (Hb : 128 <= byte c1 <= 191 /\ 65536 <= r <= 1114111).
  { destruct (Z.eqb_spec (byte c0) 240), (Z.eqb_spec (byte c0) 244); lia. }
  assert (Hs : scalar r = true) by (apply scalar_spec; lia). split; [done|].
  rewrite encode_parts by (done || lia).
  destruct (Z.ltb_spec r 2048); [lia|]. destruct (Z.ltb_spec r 65536); [lia|].
  rewrite (chr_eq _ c0), (chr_eq _ c1), (chr_eq _ c2), (chr_eq _ c3); [done|div_lia..].
Qed.

(** What [runes] finds at the head of a string: a scalar value and its
    encoding, or a byte to skip. *)
Definition head_rune (s : string) (o : option Z) (t : string) : Prop :=
  match o with
  | Some r => scalar r = true /\ s = encode r +:+ t
  | None => exists c, s = String c t
  end.

Lemma runes_head s : s <> "" -> exists o t, head_rune s o t /\ runes s = o :: runes t.
Proof.
  destruct s as [|c0 s1]; [done|]. intros _. cbn [runes].
  destruct (Z.ltb_spec (byte c0) 128) as [H0|H0].
  { exists (Some (byte c0)), s1. split; [|done]. byte_cases. simpl.
    assert (Hs : scalar (byte c0) = true) by (apply scalar_spec; lia). split; [done|].
    unfold encode. rewrite Hs. simpl. destruct (Z.ltb_spec (byte c0) 128); [|lia]. simpl. by rewrite chr_byte. }
  assert (Hbad : head_rune (String c0 s1) None s1) by (by exists c0).
  destruct s1 as [|c1 s2]; [by exists None, ""|].
  destruct (two c0 c1) eqn:E2.
  { destruct (two_encode _ _ _ E2 eq_refl) as [Hs He]. eexists (Some _), s2. split; [|done].
    split; [done|]. by rewrite He. }
  destruct s2 as [|c2 s3]; [by exists None, (String c1 "")|].
  destruct (three c0 c1 c2) eqn:E3.
  { destruct (three_encode _ _ _ _ E3 eq_refl) as [Hs He]. eexists (Some _), s3. split; [|done].
    split; [done|]. by rewrite He. }
  destruct s3 as [|c3 s4]; [by exists None, (String c1 (String c2 ""))|].
  destruct (four c0 c1 c2 c3) eqn:E4.
  { destruct (four_encode _ _ _ _ _ E4 eq_refl) as [Hs He]. eexists (Some _), s4. split; [|done].
    split; [done|]. by rewrite He. }
  by exists None, (String c1 (String c2 (String c3 s4))).
Qed.

Lemma encode_nonempty r : encode r <> "".
Proof. unfold encode. repeat case_match; done. Qed.

(** Induction on a string rune by rune. *)
Lemma runes_ind (P : string -> list (option Z) -> Prop) :
  P "" [] ->
  (forall s o t, head_rune s o t -> P t (runes t) -> P s (o :: runes t)) ->
  forall s, P s (runes s).
Proof.
  intros H0 HS s. remember (String.length s) as n eqn:Hn.
  assert (Hle : (String.length s <= n)%nat) by lia. clear Hn. revert s Hle.
  induction n as [|n IH]; intros s Hle; (destruct (decide (s = "")) as [->|Hs]; [done|]).
  { destruct s; [done|simpl in Hle; lia]. }
  destruct (runes_head s Hs) as (o & t & Hh & ->). apply (HS s o t Hh). apply IH.
  assert (String.length t < String.length s)%nat; [|lia]. destruct o as [r|].
  - destruct Hh as [_ ->]. rewrite append_length. pose proof (encode_nonempty r).
    destruct (encode r); [done|simpl; lia].
  - destruct Hh as [c ->]. simpl. lia.
Qed.

Lemma runes_scalar s : Forall (fun o => forall r, o = Some r -> scalar r = true) (runes s).
Proof.
  apply (runes_ind (fun _ l => Forall (fun o => forall r, o = Some r -> scalar r = true) l)); [constructor|].
  intros s' o t Hh IH. constructor; [|done]. intros r ->. apply Hh.
Qed.

(** A string of well-formed sequences is what its runes encode. *)
Lemma sanitized_valid s : valid s = true -> sanitized s = s.
Proof.
  unfold valid, sanitized.
  apply (runes_ind (fun s l => forallb _ l = true -> encode_all (rune_or_error <$> l) = s)); [done|].
  intros s' o t Hh IH. destruct o as [r|]; [|done]. intros Hl.
  change (encode r +:+ encode_all (rune_or_error <$> runes t) = s').
  rewrite IH by done. by destruct Hh as [_ ->].
Qed.

(** ** Strings in quotes *)

(** An escaped rune is read back, by the scan for the closing quote as well as
    by [unquote]. *)
Record escapes (o : option Z) (p : string) : Prop := {
  esc_runes : exists q, (forall s, runes (p +:+ s) = q ++ runes s) /\
    forall l, unescape (q ++ l) = rune_or_error o :: unescape l;
  esc_lex s : lex_string (p +:+ s) = prepend p (lex_string s);
}.

Lemma escape_ascii c : byte c < 128 -> escapes (Some (byte c)) (escape c).
Proof.
  intros Hc. destruct c as [[] [] [] [] [] [] [] []]; try (exfalso; revert Hc; vm_compute; discriminate);
    (match goal with |- escapes _ (escape ?c) =>
       split; [exists (runes (escape c)); split; reflexivity|reflexivity] end).
Qed.

(** A byte from 0x80 on stands for itself. *)
Lemma lex_high c s : 128 <= byte c -> lex_string (String c s) = prepend (String c "") (lex_string s).
Proof.
  intros Hc. assert (Hn : forall n, (n < 128)%nat -> is_char n c = false).
  { intros n Hn. unfold is_char. apply Nat.eqb_neq. intros E.
    assert (byte c < 128); [|lia]. unfold byte, nat_of_ascii in *. lia. }
  simpl. rewrite !Hn by lia. destruct (Z.ltb_spec (byte c) 32); [lia|done].
Qed.

Lemma prepend_app p q o : prepend (p +:+ q) o = prepend p (prepend q o).
Proof. destruct o as [[raw rest]|]; simpl; [by rewrite append_assoc|done]. Qed.

Lemma lex_encode r s :
  scalar r = true -> 128 <= r -> lex_string (encode r +:+ s) = prepend (encode r) (lex_string s).
Proof.
  intros Hr H. rewrite encode_parts by done. apply scalar_spec in Hr.
  assert (Hlex : forall x p s', 128 <= x < 256 -> lex_string (p +:+ s') = prepend p (lex_string s') ->
    lex_string (String (chr x) p +:+ s') = prepend (String (chr x) p) (lex_string s')).
  { intros x p s' Hx Hp. change (String (chr x) p +:+ s') with (String (chr x) (p +:+ s')).
    rewrite lex_high by (rewrite byte_chr; lia). rewrite Hp.
    change (String (chr x) p) with (String (chr x) "" +:+ p). by rewrite prepend_app. }
  assert (Hnil : lex_string ("" +:+ s) = prepend "" (lex_string s)) by (change ("" +:+ s) with s; by destruct (lex_string s) as [[? ?]|]).
  destruct (Z.ltb_spec r 2048); [|destruct (Z.ltb_spec r 65536)];
    repeat (apply Hlex; [div_lia|]); done.
Qed.

Lemma escape_rune_escapes o :
  (forall r, o = Some r -> scalar r = true) -> escapes o (escape_rune o).
Proof.
  intros Hr. destruct o as [r|].
  2:{ split; [exists (runes "\ufffd"); split; reflexivity|reflexivity]. }
  specialize (Hr r eq_refl). simpl. pose proof (proj1 (scalar_spec r) Hr).
  destruct (Z.ltb_spec r 128).
  { replace (Some r) with (Some (byte (chr r))) by (by rewrite byte_chr by lia).
    apply escape_ascii. rewrite byte_chr; lia. }
  destruct (Z.eqb_spec r 8232) as [->|].
  { split; [exists (runes "\u2028"); split; reflexivity|reflexivity]. }
  destruct (Z.eqb_spec r 8233) as [->|].
  { split; [exists (runes "\u2029"); split; reflexivity|reflexivity]. }
  split; [|intros s; by apply lex_encode].
  exists [Some r]. split; [intros s; by rewrite runes_encode|].
  intros l. cbn [unescape app is_rune]. destruct (Z.eqb_spec r 92); [lia|done].
Qed.

Lemma escape_all_lex l s :
  Forall (fun o => forall r, o = Some r -> scalar r = true) l ->
  lex_string (escape_all l +:+ quote +:+ s) = Some (escape_all l, s).
Proof.
  induction 1 as [|o l Ho _ IH]; [done|]. simpl. rewrite append_assoc.
  rewrite (esc_lex _ _ (escape_rune_escapes o Ho)), IH. done.
Qed.

Lemma lex_escaped v s : lex_string (escaped v +:+ quote +:+ s) = Some (escaped v, s).
Proof. apply escape_all_lex, runes_scalar. Qed.

Lemma unescape_escape_all l :
  Forall (fun o => forall r, o = Some r -> scalar r = true) l ->
  unescape (runes (escape_all l)) = rune_or_error <$> l.
Proof.
  induction 1 as [|o l Ho _ IH]; [done|]. simpl.
  destruct (esc_runes _ _ (escape_rune_escapes o Ho)) as (q & H1 & H2).
  rewrite H1, H2. csimpl. by rewrite IH.
Qed.

Lemma unquote_escaped v : unquote (escaped v) = sanitized v.
Proof. unfold unquote, escaped, sanitized. by rewrite unescape_escape_all by apply runes_scalar. Qed.

(** ** Numbers *)

(** Text that does not continue a number. *)
Definition ends_number (s : string) : Prop :=
  match s with
  | EmptyString => True
  | String c _ =>
      is_digit c = false /\ is_char 46 c = false /\ is_char 101 c = false /\ is_char 69 c = false
  end.

Lemma split_digits_app ds s :
  all_digits ds = true -> ends_number s -> split_digits (ds +:+ s) = (ds, s).
Proof.
  intros Hds Hs. induction ds as [|c ds IH]; simpl in *.
  - destruct s as [|c s]; [done|]. simpl. by destruct Hs as [-> _].
  - apply andb_true_iff in Hds as [-> Hds]. by rewrite IH.
Qed.

Lemma lex_rest s : ends_number s -> lex_frac s = Some ("", s) /\ lex_exp s = Some ("", s).
Proof.
  destruct s as [|c s]; [done|]. intros (_ & H1 & H2 & H3). simpl. by rewrite H1, H2, H3.
Qed.

Lemma lex_unsigned_pos (p : positive) s : ends_number s -> lex_unsigned (pretty p +:+ s) = Some (pretty p, s).
Proof.
  intros Hs. destruct (pretty_pos_digits p) as [Hd _ Hh]. destruct (Hh ltac:(lia)) as (c & ds & Hp & Hc).
  unfold lex_unsigned. destruct (lex_rest s Hs) as [Hf He].
  assert (Hi : lex_int (pretty p +:+ s) = Some (pretty p, s)).
  { pose proof (split_digits_app (pretty p) s Hd Hs) as Hsp. rewrite Hp in *. simpl in Hsp |- *.
    simpl in Hd. apply andb_true_iff in Hd as [Hcd _].
    assert (is_char 48 c = false) as ->.
    { unfold is_char. apply Nat.eqb_neq. intros E. apply Hc. rewrite <- (ascii_nat_embedding c), E. done. }
    rewrite Hcd in *. by rewrite Hsp. }
  rewrite Hi, Hf, He. simpl. by rewrite !append_nil_r.
Qed.

Lemma lex_fmt z s : ends_number s -> lex_number (fmt_d z +:+ s) = Some (fmt_d z, s).
Proof.
  intros Hs. destruct z as [|p|p].
  - destruct (lex_rest s Hs) as [Hf He].
    change (lex_unsigned (String "0" s) = Some ("0", s)). unfold lex_unsigned. simpl. by rewrite Hf, He.
  - rewrite fmt_d_pos. pose proof (lex_unsigned_pos p s Hs) as H.
    destruct (do_head _ _ (pretty_pos_digits p) ltac:(lia)) as (c & ds & E & _).
    destruct (pretty_pos_head p c ds E) as [Hc _]. rewrite E in *. simpl in *. destruct (is_char 45 c) eqn:E45; [|done].
    unfold is_char in E45. apply Nat.eqb_eq in E45. exfalso. revert Hc.
    rewrite <- (ascii_nat_embedding c), E45. done.
  - rewrite fmt_d_neg, append_assoc. pose proof (lex_unsigned_pos p s Hs) as H.
    change (prepend "-" (lex_unsigned (pretty p +:+ s)) = Some ("-" +:+ pretty p, s)). by rewrite H.
Qed.

(** The first character of an integer. *)
Lemma fmt_head z : exists c s, fmt_d z = String c s /\ (is_char 45 c || is_digit c) = true.
Proof.
  destruct z as [|p|p].
  - by exists "0"%char, "".
  - rewrite fmt_d_pos. destruct (pretty p) as [|c s] eqn:E.
    { destruct (do_head _ _ (pretty_pos_digits p) ltac:(lia)) as (c & s & Hp & _). congruence. }
    exists c, s. destruct (pretty_pos_head p c s E) as [-> _]. by rewrite orb_true_r.
  - by exists "-"%char, (pretty p).
Qed.

(** ** Documents *)

Fixpoint value_of (j : json) : value :=
  match j with
  | JNum z => VNum (fmt_d z)
  | JStr s => VStr (sanitized s)
  | JArr l => VArr (List.map value_of l)
  | JObj fields => VObj (List.map (fun kv => (sanitized (fst kv), value_of (snd kv))) fields)
  end.

(** How many arrays and objects are open at once. *)
Fixpoint depth (j : json) : nat :=
  match j with
  | JNum _ | JStr _ => 0
  | JArr l => S (foldr max 0%nat (List.map depth l))
  | JObj fields => S (foldr max 0%nat (List.map (fun kv => depth (snd kv)) fields))
  end.

Section json_induction.
Context (P : json -> Prop).
Context (Hnum : forall z, P (JNum z)) (Hstr : forall s, P (JStr s)).
Context (Harr : forall l, Forall P l -> P (JArr l)).
Context (Hobj : forall fields, Forall (fun kv => P (snd kv)) fields -> P (JObj fields)).

Fixpoint json_induction (j : json) : P j :=
  match j with
  | JNum z => Hnum z
  | JStr s => Hstr s
  | JArr l =>
      Harr l ((fix go (l : list json) : Forall P l :=
                 match l with
                 | [] => @List.Forall_nil _ _
                 | x :: l => @List.Forall_cons _ _ x l (json_induction x) (go l)
                 end) l)
  | JObj fields =>
      Hobj fields ((fix go (l : list (string * json)) : Forall (fun kv => P (snd kv)) l :=
                 match l with
                 | [] => @List.Forall_nil _ _
                 | x :: l => @List.Forall_cons _ _ x l (json_induction (snd x)) (go l)
                 end) fields)
  end.
End json_induction.

(** [reads j]: the text of [j] in front of anything is read as [j], with fuel
    enough. *)
Definition follows (j : json) (s : string) : Prop := match j with JNum _ => ends_number s | _ => True end.
Definition reads (j : json) : Prop :=
  forall d s, (depth j <= d)%nat -> follows j s ->
    exists N, forall n, (N <= n)%nat -> parse_value n d (text j +:+ s) = Some (value_of j, s).

(** The head of the text of a document is not a space. *)
Lemma text_head j : exists c s, text j = String c s /\ is_space c = false /\ is_char 93 c = false.
Proof.
  destruct j as [z|v|l|f]; [|by eexists _, _..].
  destruct (fmt_head z) as (c & s & E & Hc). exists c, s. split; [exact E|].
  revert Hc. clear. destruct c as [[] [] [] [] [] [] [] []]; vm_compute; try discriminate; by split.
Qed.

Lemma skip_text j s : skip_space (text j +:+ s) = text j +:+ s.
Proof. destruct (text_head j) as (c & t & -> & Hs & _). simpl. by rewrite Hs. Qed.

Lemma reads_num z : reads (JNum z).
Proof.
  intros d s _ Hs. exists 1%nat. intros [|n] Hn; [lia|]. cbn [parse_value]. rewrite skip_text.
  pose proof (lex_fmt z s Hs) as Hl. change (text (JNum z)) with (fmt_d z).
  destruct (fmt_head z) as (c & t & E & Hc). rewrite E in *. change (String c t +:+ s) with (String c (t +:+ s)) in *. cbv iota.
  assert (Hno : is_char 91 c || is_char 123 c = false /\ is_char 34 c = false).
  { revert Hc. clear. destruct c as [[] [] [] [] [] [] [] []]; vm_compute; try discriminate; by split. }
  destruct Hno as [-> H34]. unfold scalar_value. rewrite H34, Hc.
  rewrite Hl. simpl. by rewrite E.
Qed.

Lemma reads_str v : reads (JStr v).
Proof.
  intros d s _ _. exists 1%nat. intros [|n] Hn; [lia|]. cbn [parse_value]. rewrite skip_text.
  change (text (JStr v) +:+ s) with (String quote_char ((escaped v +:+ quote) +:+ s)).
  rewrite append_assoc. change (is_char 91 quote_char || is_char 123 quote_char) with false.
  cbv iota. unfold scalar_value. change (is_char 34 quote_char) with true. cbv iota.
  rewrite lex_escaped, unquote_escaped. done.
Qed.

Definition sep (c : ascii) (s : string) : string := String c s.

(** Text that begins with a comma or a closing bracket ends a number. *)
Lemma follows_sep j c s : c ∈ [","; "]"; "}"]%char -> follows j (String c s).
Proof. destruct j; [|done..]. intros Hc. simpl. set_unfold in Hc. by destruct_or! Hc; subst c. Qed.

Lemma joined_cons x y l : joined (x :: y :: l) = x +:+ "," +:+ joined (y :: l).
Proof. done. Qed.

Lemma reads_elements l d s :
  l <> [] -> Forall reads l -> Forall (fun j => (depth j <= d)%nat) l ->
  exists N, forall n, (N <= n)%nat ->
    parse_elements n d (joined (List.map text l) +:+ "]" +:+ s) = Some (List.map value_of l, s).
Proof.
  intros Hl Hr Hd. induction l as [|j l IH]; [done|].
  apply Forall_cons in Hr as [Hj Hr]. apply Forall_cons in Hd as [Hdj Hd].
  destruct l as [|j2 l].
  - destruct (Hj d ("]" +:+ s) Hdj) as [N HN]; [apply follows_sep; set_solver|].
    exists (S N). intros [|n] Hn; [lia|]. cbn [List.map joined parse_elements].
    rewrite HN by lia. done.
  - destruct (IH ltac:(done) Hr Hd) as [N2 HN2].
    set (rest := joined (List.map text (j2 :: l)) +:+ "]" +:+ s) in *.
    destruct (Hj d ("," +:+ rest) Hdj) as [N HN]; [apply follows_sep; set_solver|].
    exists (S (N + N2)). intros [|n] Hn; [lia|]. cbn [List.map parse_elements].
    rewrite joined_cons, !append_assoc. fold (List.map text (j2 :: l)).
    change (joined (text j2 :: List.map text l)) with (joined (List.map text (j2 :: l))). fold rest.
    rewrite HN by lia. change (skip_space ("," +:+ rest)) with (String "," rest). cbv iota.
    change (is_char 93 ",") with false. change (is_char 44 ",") with true. cbv iota.
    by rewrite HN2 by lia.
Qed.

Lemma parse_key_text k s : parse_key (quoted k +:+ ":" +:+ s) = Some (sanitized k, s).
Proof.
  unfold quoted. rewrite !append_assoc. unfold parse_key.
  change (skip_space (quote +:+ escaped k +:+ quote +:+ ":" +:+ s))
    with (String quote_char (escaped k +:+ quote +:+ ":" +:+ s)).
  cbv iota. change (is_char 34 quote_char) with true. cbv iota.
  rewrite lex_escaped, unquote_escaped. done.
Qed.

Definition member_text (kv : string * json) : string := quoted (fst kv) +:+ ":" +:+ text (snd kv).

Lemma reads_members l d s :
  l <> [] -> Forall (fun kv => reads (snd kv)) l -> Forall (fun kv => (depth (snd kv) <= d)%nat) l ->
  exists N, forall n, (N <= n)%nat ->
    parse_members n d (joined (List.map member_text l) +:+ "}" +:+ s) =
      Some (List.map (fun kv => (sanitized (fst kv), value_of (snd kv))) l, s).
Proof.
  intros Hl Hr Hd. induction l as [|[k j] l IH]; [done|].
  apply Forall_cons in Hr as [Hj Hr]. apply Forall_cons in Hd as [Hdj Hd]. cbn [snd fst] in *.
  destruct l as [|kv2 l].
  - destruct (Hj d ("}" +:+ s) Hdj) as [N HN]; [apply follows_sep; set_solver|].
    exists (S N). intros [|n] Hn; [lia|]. cbn [List.map joined parse_members].
    unfold member_text. cbn [fst snd]. rewrite !append_assoc, parse_key_text, HN by lia. done.
  - destruct (IH ltac:(done) Hr Hd) as [N2 HN2].
    set (rest := joined (List.map member_text (kv2 :: l)) +:+ "}" +:+ s) in *.
    destruct (Hj d ("," +:+ rest) Hdj) as [N HN]; [apply follows_sep; set_solver|].
    exists (S (N + N2)). intros [|n] Hn; [lia|]. cbn [List.map parse_members].
    rewrite joined_cons, !append_assoc.
    change (joined (member_text kv2 :: List.map member_text l))
      with (joined (List.map member_text (kv2 :: l))). fold rest.
    unfold member_text at 1. cbn [fst snd]. rewrite !append_assoc, parse_key_text, HN by lia.
    change (skip_space ("," +:+ rest)) with (String "," rest). cbv iota.
    change (is_char 125 ",") with false. change (is_char 44 ",") with true. cbv iota.
    by rewrite HN2 by lia.
Qed.

Lemma depth_bound {A} (f : A -> json) l d :
  (foldr max 0 (List.map (fun x => depth (f x)) l) <= d)%nat ->
  Forall (fun x => (depth (f x) <= d)%nat) l.
Proof. induction l as [|x l IH]; simpl; constructor; [lia|apply IH; lia]. Qed.

(** A document that begins with the character [c2], not a space, is the
    rest of an opening bracket. *)
Lemma skip_joined_elements l s :
  l <> [] -> exists c t, joined (List.map text l) +:+ s = String c t /\
    is_space c = false /\ is_char 93 c = false.
Proof.
  destruct l as [|j l]; [done|]. intros _. destruct (text_head j) as (c & t & E & Hs & H93).
  destruct l as [|j2 l]; cbn [List.map]; [|rewrite joined_cons, append_assoc]; simpl;
    rewrite E; by eexists c, _.
Qed.

Lemma skip_joined_members l s :
  l <> [] -> exists t, joined (List.map member_text l) +:+ s = String quote_char t.
Proof.
  destruct l as [|kv l]; [done|]. intros _.
  destruct l as [|kv2 l]; cbn [List.map]; [|rewrite joined_cons, append_assoc];
    unfold member_text, quoted; by eexists.
Qed.

Lemma reads_arr l : Forall reads l -> reads (JArr l).
Proof.
  intros Hl d s Hd _. destruct d as [|d]; [cbn in Hd; lia|].
  assert (Hds : Forall (fun j => (depth j <= d)%nat) l).
  { apply (depth_bound (fun j => j)). exact (le_S_n _ _ Hd). }
  cbn [text]. rewrite !append_assoc. destruct (decide (l = [])) as [->|Hne].
  { exists 1%nat. intros [|n] Hn; [lia|]. done. }
  destruct (reads_elements l d s Hne Hl Hds) as [N HN]. exists (S N). intros [|n] Hn; [lia|].
  cbn [parse_value].
  set (body := joined (List.map text l) +:+ "]" +:+ s) in *.
  change (skip_space ("[" +:+ body)) with (String "[" body). cbv iota.
  change (is_char 91 "[" || is_char 123 "[") with true. change (is_char 91 "[") with true. cbv iota.
  destruct (skip_joined_elements l ("]" +:+ s) Hne) as (c & t & E & Hs & H93). fold body in E.
  assert (skip_space body = String c t) as -> by (rewrite E; simpl; by rewrite Hs).
  rewrite H93, HN by lia. done.
Qed.

Lemma reads_obj fields : Forall (fun kv => reads (snd kv)) fields -> reads (JObj fields).
Proof.
  intros Hl d s Hd _. destruct d as [|d]; [cbn in Hd; lia|].
  assert (Hds : Forall (fun kv : string * json => (depth (snd kv) <= d)%nat) fields).
  { apply depth_bound. exact (le_S_n _ _ Hd). }
  change (text (JObj fields)) with ("{" +:+ joined (List.map member_text fields) +:+ "}").
  rewrite !append_assoc. destruct (decide (fields = [])) as [->|Hne].
  { exists 1%nat. intros [|n] Hn; [lia|]. done. }
  destruct (reads_members fields d s Hne Hl Hds) as [N HN]. exists (S N). intros [|n] Hn; [lia|].
  cbn [parse_value].
  set (body := joined (List.map member_text fields) +:+ "}" +:+ s) in *.
  change (skip_space ("{" +:+ body)) with (String "{" body). cbv iota.
  change (is_char 91 "{" || is_char 123 "{") with true. change (is_char 91 "{") with false. cbv iota.
  destruct (skip_joined_members fields ("}" +:+ s) Hne) as (t & E). fold body in E.
  assert (skip_space body = String quote_char t) as -> by (by rewrite E).
  change (is_char 125 quote_char) with false. rewrite HN by lia. done.
Qed.

Lemma reads_all j : reads j.
Proof. apply json_induction; [apply reads_num|apply reads_str|apply reads_arr|apply reads_obj]. Qed.

(** ** The reader consumes its input *)

Notation len := String.length.

Lemma skip_space_len s : (len (skip_space s) <= len s)%nat.
Proof. induction s as [|c s IH]; simpl; [done|]. destruct (is_space c); simpl; lia. Qed.

Lemma prepend_Some p o raw r :
  prepend p o = Some (raw, r) -> exists raw', o = Some (raw', r).
Proof. destruct o as [[raw' r']|]; [|done]. simpl. intros [= _ ->]. eauto. Qed.

Lemma lex_string_len s raw r : lex_string s = Some (raw, r) -> (len r < len s)%nat.
Proof.
  remember (len s) as n eqn:Hn. revert s raw r Hn.
  induction (lt_wf n) as [n _ IH]. intros [|c s1] raw r ->; [done|]. simpl.
  destruct (is_char 34 c); [intros [= _ <-]; lia|]. destruct (byte c <? 32); [done|].
  destruct (is_char 92 c).
  - destruct s1 as [|e s2]; [done|]. destruct (simple_escape e).
    { intros [raw' H]%prepend_Some. apply (IH (len s2)) in H; simpl; lia || done. }
    destruct (is_char 117 e); [|done].
    destruct s2 as [|h1 [|h2 [|h3 [|h4 s6]]]]; try done. destruct (_ && _); [|done].
    intros [raw' H]%prepend_Some. apply (IH (len s6)) in H; simpl; lia || done.
  - intros [raw' H]%prepend_Some. apply (IH (len s1)) in H; simpl; lia || done.
Qed.

Lemma split_digits_len s : (len (snd (split_digits s)) <= len s)%nat.
Proof.
  induction s as [|c s IH]; simpl; [done|]. destruct (is_digit c); [|done].
  destruct (split_digits s). simpl in *. lia.
Qed.

Lemma lex_digits1_len s raw r : lex_digits1 s = Some (raw, r) -> (len r <= len s)%nat.
Proof.
  unfold lex_digits1. pose proof (split_digits_len s) as H.
  destruct (split_digits s) as [[|c d] r']; [done|]. by intros [= _ <-].
Qed.

Lemma lex_int_len s raw r : lex_int s = Some (raw, r) -> (len r < len s)%nat.
Proof.
  destruct s as [|c s]; simpl; [done|]. destruct (is_char 48 c); [intros [= _ <-]; lia|].
  destruct (is_digit c); [|done]. pose proof (split_digits_len s) as H.
  destruct (split_digits s) as [d r']. intros [= _ <-]. simpl in H. lia.
Qed.

Lemma lex_frac_len s raw r : lex_frac s = Some (raw, r) -> (len r <= len s)%nat.
Proof.
  destruct s as [|c s]; simpl; [by intros [= _ <-]|]. destruct (is_char 46 c); [|by intros [= _ <-]].
  intros [raw' H]%prepend_Some. apply lex_digits1_len in H. lia.
Qed.

Lemma lex_exp_len s raw r : lex_exp s = Some (raw, r) -> (len r <= len s)%nat.
Proof.
  destruct s as [|c s]; simpl; [by intros [= _ <-]|].
  destruct (is_char 101 c || is_char 69 c); [|by intros [= _ <-]].
  intros [raw' H]%prepend_Some. destruct s as [|g s]; [done|].
  destruct (is_char 43 g || is_char 45 g).
  - apply prepend_Some in H as [raw2 H]. apply lex_digits1_len in H. simpl. lia.
  - apply lex_digits1_len in H. lia.
Qed.

Lemma lex_number_len s raw r : lex_number s = Some (raw, r) -> (len r < len s)%nat.
Proof.
  assert (Hu : forall s raw r, lex_unsigned s = Some (raw, r) -> (len r < len s)%nat).
  { intros s' raw' r'. unfold lex_unsigned. destruct (lex_int s') as [[i s1]|] eqn:H1; [|done].
    destruct (lex_frac s1) as [[f s2]|] eqn:H2; [|done]. intros [raw2 H3]%prepend_Some.
    apply lex_int_len in H1. apply lex_frac_len in H2. apply lex_exp_len in H3. lia. }
  destruct s as [|c s]; [done|]. cbn [lex_number].
  destruct (is_char 45 c); [|by apply Hu]. intros [raw' H]%prepend_Some. apply Hu in H. simpl. lia.
Qed.

Lemma strip_len p s r : strip p s = Some r -> (len s = len p + len r)%nat.
Proof.
  revert s. induction p as [|a p IH]; intros [|b s]; simpl; try done; try (by intros [= <-]).
  destruct (Ascii.eqb a b); [|done]. intros H%IH. lia.
Qed.

Lemma scalar_value_len s v r : scalar_value s = Some (v, r) -> (len r < len s)%nat.
Proof.
  destruct s as [|c s]; [done|]. unfold scalar_value. destruct (is_char 34 c).
  { destruct (lex_string s) as [[raw r']|] eqn:H; [|done]. intros [= _ <-].
    apply lex_string_len in H. simpl. lia. }
  destruct (is_char 45 c || is_digit c).
  { destruct (lex_number _) as [[l r']|] eqn:H; [|done]. intros [= _ <-]. by apply lex_number_len in H. }
  unfold literal. destruct (strip "null" _) eqn:H1.
  { intros [= _ <-]. apply strip_len in H1. simpl in *. lia. }
  destruct (strip "true" _) eqn:H2.
  { intros [= _ <-]. apply strip_len in H2. simpl in *. lia. }
  destruct (strip "false" _) eqn:H3; [|done].
  intros [= _ <-]. apply strip_len in H3. simpl in *. lia.
Qed.

Lemma parse_key_len s k r : parse_key s = Some (k, r) -> (len r < len s)%nat.
Proof.
  unfold parse_key. pose proof (skip_space_len s) as H0. destruct (skip_space s) as [|c s1]; [done|].
  destruct (is_char 34 c); [|done]. destruct (lex_string s1) as [[raw r']|] eqn:H1; [|done].
  apply lex_string_len in H1. pose proof (skip_space_len r') as H2.
  destruct (skip_space r') as [|c2 s2]; [done|]. destruct (is_char 58 c2); [|done].
  intros [= _ <-]. simpl in *. lia.
Qed.

(** What is left is shorter. *)
Lemma parse_len n :
  (forall d s v r, parse_value n d s = Some (v, r) -> (len r < len s)%nat) /\
  (forall d s l r, parse_elements n d s = Some (l, r) -> (len r < len s)%nat) /\
  (forall d s l r, parse_members n d s = Some (l, r) -> (len r < len s)%nat).
Proof.
  induction n as [|n (IHv & IHe & IHm)]; [done|]. split_and!; intros d s x r; cbn [parse_value parse_elements parse_members].
  - pose proof (skip_space_len s) as H0. destruct (skip_space s) as [|c s1]; [done|].
    destruct (is_char 91 c || is_char 123 c).
    2:{ intros H%scalar_value_len. lia. }
    destruct d as [|d]; [done|]. pose proof (skip_space_len s1) as H1.
    destruct (skip_space s1) as [|c2 s2]; [done|]. simpl in *.
    destruct (is_char 91 c).
    + destruct (is_char 93 c2); [intros [= _ <-]; lia|].
      destruct (parse_elements n d s1) as [[l r']|] eqn:H; [|done]. intros [= _ <-]. apply IHe in H. lia.
    + destruct (is_char 125 c2); [intros [= _ <-]; lia|].
      destruct (parse_members n d s1) as [[l r']|] eqn:H; [|done]. intros [= _ <-]. apply IHm in H. lia.
  - destruct (parse_value n d s) as [[v r']|] eqn:H; [|done]. apply IHv in H.
    pose proof (skip_space_len r') as H1. destruct (skip_space r') as [|c s1]; [done|]. simpl in *.
    destruct (is_char 93 c); [intros [= _ <-]; lia|]. destruct (is_char 44 c); [|done].
    destruct (parse_elements n d s1) as [[l r2]|] eqn:H2; [|done]. intros [= _ <-]. apply IHe in H2. lia.
  - destruct (parse_key s) as [[k s1]|] eqn:Hk; [|done]. apply parse_key_len in Hk.
    destruct (parse_value n d s1) as [[v r']|] eqn:H; [|done]. apply IHv in H.
    pose proof (skip_space_len r') as H1. destruct (skip_space r') as [|c s2]; [done|]. simpl in *.
    destruct (is_char 125 c); [intros [= _ <-]; lia|]. destruct (is_char 44 c); [|done].
    destruct (parse_members n d s2) as [[l r2]|] eqn:H2; [|done]. intros [= _ <-]. apply IHm in H2. lia.
Qed.

(** Fuel in excess changes nothing. *)
Lemma parse_fuel_more n m :
  (forall d s, (2 * len s < n)%nat -> (2 * len s < m)%nat -> parse_value n d s = parse_value m d s) /\
  (forall d s, (2 * len s + 1 < n)%nat -> (2 * len s + 1 < m)%nat -> parse_elements n d s = parse_elements m d s) /\
  (forall d s, (2 * len s < n)%nat -> (2 * len s < m)%nat -> parse_members n d s = parse_members m d s).
Proof.
  revert m. induction n as [|n IH]; intros [|m]; [split_and!; intros; lia..|].
  destruct (IH m) as (IHv & IHe & IHm).
  split_and!; intros d s Hn Hm; cbn [parse_value parse_elements parse_members].
  - pose proof (skip_space_len s) as H0. destruct (skip_space s) as [|c s1]; [done|]. simpl in H0.
    destruct (_ || _); [|done]. destruct d as [|d]; [done|].
    destruct (skip_space s1) as [|c2 s2]; [done|].
    rewrite IHe, IHm by lia. done.
  - rewrite IHv by lia. destruct (parse_value m d s) as [[v r]|] eqn:H; [|done].
    apply (proj1 (parse_len m)) in H. pose proof (skip_space_len r) as H1.
    destruct (skip_space r) as [|c s1]; [done|]. simpl in H1. rewrite IHe by lia. done.
  - destruct (parse_key s) as [[k s1]|] eqn:Hk; [|done]. apply parse_key_len in Hk.
    rewrite IHv by lia. destruct (parse_value m d s1) as [[v r]|] eqn:H; [|done].
    apply (proj1 (parse_len m)) in H. pose proof (skip_space_len r) as H1.
    destruct (skip_space r) as [|c s2]; [done|]. simpl in H1. rewrite IHm by lia. done.
Qed.

Lemma parse_fuel n s : (2 * len s < n)%nat -> parse_value n maxNestingDepth s = parse s.
Proof. intros Hn. apply (proj1 (parse_fuel_more n _)); lia. Qed.

(** What encoding/json writes it reads back: the text of a document in
    front of any other text is read as that document and what follows it is
    left, with every byte of its strings and keys that is no UTF-8 replaced by
    U+FFFD (nothing is replaced in valid strings); integers come back as the
    same literal. The text may be followed by anything that does not continue a
    number; nesting is limited to 10000. *)
Theorem json_roundtrip j s :
  (depth j <= maxNestingDepth)%nat -> follows j s -> parse (text j +:+ s) = Some (value_of j, s).
Proof.
  intros Hd Hs. destruct (reads_all j maxNestingDepth s Hd Hs) as [N HN].
  rewrite <- (parse_fuel (N + S (2 * len (text j +:+ s)))) by lia. apply HN. lia.
Qed.

Definition sample_document : json :=
  JObj [("name", JStr "A<B"); ("n", JArr [JNum (-12); JNum 0; JStr (String (chr 255) "x")])].

Lemma json_roundtrip_witness :
  parse (text sample_document +:+ String (chr 10) "trailing") =
    Some (VObj [("name", VStr "A<B");
                ("n", VArr [VNum "-12"; VNum "0"; VStr (encode RuneError +:+ "x")])],
          String (chr 10) "trailing").
Proof.
  refine (json_roundtrip sample_document (String (chr 10) "trailing") _ I).
  apply Nat.leb_le. vm_compute. reflexivity.
Defined.
