(* ===== verification/Requests.v ===== *)
(** * Request bodies: [json.NewDecoder(r.Body).Decode(&req)]

    The request types of internal/infra/http/handlers.go, and how the value
    that is read from a body is stored in them. A member is stored in the field
    of its name, or else of its name up to case; other members are skipped; of
    two members for one field the later is stored over the earlier; null
    changes nothing; a value of the wrong type is an error, which [Decode]
    returns after it has stored the rest. *)
From S2P Require Import Prelude Go Strconv Events Json.
From stdpp Require Import base gmap strings list.
From Stdlib Require Import Ascii String SpecFloat.
Local Open Scope string_scope.
Local Open Scope list_scope.
Local Open Scope Z_scope.
Import Utf8 Json.

(** ** The request types *)

Record openAccountRequest := MkOpenAccountRequest {
  OAR_Name : string;
  OAR_AccountType : string;
  OAR_Currency : string;
}.

Record entryRequest := MkEntryRequest {
  ER_AccountID : string;
  ER_Amount : Z;
  ER_Currency : string;
  ER_Type : string;
}.

Record recordTransactionRequest := MkRecordTransactionRequest {
  RTR_Entries : list entryRequest;
  RTR_Description : string;
}.

(** The anonymous structs of [Deposit] and [Transfer]. *)
Record depositRequest := MkDepositRequest {
  DR_AccountID : string;
  DR_Amount : spec_float;
  DR_Currency : string;
  DR_Description : string;
}.

Record transferRequest := MkTransferRequest {
  TR_FromAccountID : string;
  TR_ToAccountID : string;
  TR_Amount : spec_float;
  TR_Currency : string;
  TR_Description : string;
}.

(** ** Storing a value

    The new content of a variable, and whether no error was noted. *)
Definition stored (A : Type) : Type := A * bool.

Definition store_string (v : value) (old : string) : stored string :=
  match v with
  | VNull => (old, true)
  | VStr s => (s, true)
  | _ => (old, false)
  end.

(** [strconv.ParseInt(literal, 10, 64)]: a fraction or an exponent is an error. *)
Definition store_int64 (v : value) (old : Z) : stored Z :=
  match v with
  | VNull => (old, true)
  | VNum l => match atoi l with Some z => (z, true) | None => (old, false) end
  | _ => (old, false)
  end.

Definition store_float64 (v : value) (old : spec_float) : stored spec_float :=
  match v with
  | VNull => (old, true)
  | VNum l => match parse_float l with Some x => (x, true) | None => (old, false) end
  | _ => (old, false)
  end.

(** *** Structs *)

(** A field: its name in the tag and the store of its type. *)
Definition field (R : Type) : Type := string * (value -> R -> stored R).

(** The name as [foldName] compares it: ASCII letters in upper case, and the
    two other runes whose case orbit holds an ASCII letter, U+017F and U+212A. *)
Definition fold_rune (r : Z) : Z :=
  if between 97 122 r then r - 32 else if r =? 383 then 83 else if r =? 8490 then 75 else r.
Definition fold_name (s : string) : list Z := fold_rune <$> (rune_or_error <$> runes s).

Definition named {R} (key : string) (f : field R) : bool := bool_decide (f.1 = key).
Definition folded {R} (key : string) (f : field R) : bool :=
  bool_decide (fold_name f.1 = fold_name key).

Definition find_field {R} (fields : list (field R)) (key : string) : option (field R) :=
  match find_first (named key) fields with
  | Some f => Some f
  | None => find_first (folded key) fields
  end.

Definition store_member {R} (fields : list (field R)) (r : stored R) (member : string * value)
    : stored R :=
  match find_field fields member.1 with
  | None => r
  | Some f => let '(x, ok) := f.2 member.2 r.1 in (x, r.2 && ok)
  end.

Definition store_struct {R} (fields : list (field R)) (v : value) (old : R) : stored R :=
  match v with
  | VNull => (old, true)
  | VObj members => fold_left (store_member fields) members (old, true)
  | _ => (old, false)
  end.

(** *** Slices

    A slice is its backing array as far as it was ever written, and its
    length: the elements of an earlier array for the same field are stored
    over, not cleared. *)
Record slice (A : Type) := MkSlice { backing : list A; length_of : nat }.
#[global] Arguments MkSlice {A} _ _.
#[global] Arguments backing {A} _.
#[global] Arguments length_of {A} _.

Definition elements {A} (s : slice A) : list A := take (length_of s) (backing s).

(** The elements of [l] stored over those of [old]. *)
Fixpoint store_elements {A} (zero : A) (store : value -> A -> stored A) (l : list value) (old : list A)
    : stored (list A) :=
  match l with
  | [] => (old, true)
  | v :: l =>
      let '(x, ok) := store v (default zero (head old)) in
      let '(xs, oks) := store_elements zero store l (tail old) in
      (x :: xs, ok && oks)
  end.

Definition store_slice {A} (zero : A) (store : value -> A -> stored A) (v : value) (old : slice A)
    : stored (slice A) :=
  match v with
  | VNull | VArr [] => (MkSlice [] 0, true)
  | VArr l =>
      let '(xs, ok) := store_elements zero store l (backing old) in (MkSlice xs (List.length l), ok)
  | _ => (old, false)
  end.

(** A field of a struct: [get] and [set]. *)
Definition at_field {R A} (name : string) (store : value -> A -> stored A) (get : R -> A)
    (set : R -> A -> R) : field R :=
  (name, fun v r => let '(x, ok) := store v (get r) in (set r x, ok)).

(** ** The request types as structs *)

Definition openAccountRequest_fields : list (field openAccountRequest) :=
  [at_field "name" store_string OAR_Name
     (fun r x => MkOpenAccountRequest x (OAR_AccountType r) (OAR_Currency r));
   at_field "account_type" store_string OAR_AccountType
     (fun r x => MkOpenAccountRequest (OAR_Name r) x (OAR_Currency r));
   at_field "currency" store_string OAR_Currency
     (fun r x => MkOpenAccountRequest (OAR_Name r) (OAR_AccountType r) x)].

Definition entryRequest_fields : list (field entryRequest) :=
  [at_field "account_id" store_string ER_AccountID
     (fun r x => MkEntryRequest x (ER_Amount r) (ER_Currency r) (ER_Type r));
   at_field "amount" store_int64 ER_Amount
     (fun r x => MkEntryRequest (ER_AccountID r) x (ER_Currency r) (ER_Type r));
   at_field "currency" store_string ER_Currency
     (fun r x => MkEntryRequest (ER_AccountID r) (ER_Amount r) x (ER_Type r));
   at_field "type" store_string ER_Type
     (fun r x => MkEntryRequest (ER_AccountID r) (ER_Amount r) (ER_Currency r) x)].

Definition zero_entryRequest : entryRequest := MkEntryRequest "" 0 "" "".

(** [recordTransactionRequest] while it is decoded. *)
Definition transaction_parts : Type := slice entryRequest * string.
Definition recordTransactionRequest_fields : list (field transaction_parts) :=
  [at_field "entries" (store_slice zero_entryRequest (store_struct entryRequest_fields)) fst
     (fun r x => (x, r.2));
   at_field "description" store_string snd (fun r x => (r.1, x))].

Definition depositRequest_fields : list (field depositRequest) :=
  [at_field "account_id" store_string DR_AccountID
     (fun r x => MkDepositRequest x (DR_Amount r) (DR_Currency r) (DR_Description r));
   at_field "amount" store_float64 DR_Amount
     (fun r x => MkDepositRequest (DR_AccountID r) x (DR_Currency r) (DR_Description r));
   at_field "currency" store_string DR_Currency
     (fun r x => MkDepositRequest (DR_AccountID r) (DR_Amount r) x (DR_Description r));
   at_field "description" store_string DR_Description
     (fun r x => MkDepositRequest (DR_AccountID r) (DR_Amount r) (DR_Currency r) x)].

Definition transferRequest_fields : list (field transferRequest) :=
  [at_field "from_account_id" store_string TR_FromAccountID
     (fun r x => MkTransferRequest x (TR_ToAccountID r) (TR_Amount r) (TR_Currency r) (TR_Description r));
   at_field "to_account_id" store_string TR_ToAccountID
     (fun r x => MkTransferRequest (TR_FromAccountID r) x (TR_Amount r) (TR_Currency r) (TR_Description r));
   at_field "amount" store_float64 TR_Amount
     (fun r x => MkTransferRequest (TR_FromAccountID r) (TR_ToAccountID r) x (TR_Currency r) (TR_Description r));
   at_field "currency" store_string TR_Currency
     (fun r x => MkTransferRequest (TR_FromAccountID r) (TR_ToAccountID r) (TR_Amount r) x (TR_Description r));
   at_field "description" store_string TR_Description
     (fun r x => MkTransferRequest (TR_FromAccountID r) (TR_ToAccountID r) (TR_Amount r) (TR_Currency r) x)].

(** ** [Decode]

    [None] when it returns an error: no value, one that is not JSON, or one
    that does not fit. What follows the first value is not read. *)
Definition Decode {R} (fields : list (field R)) (zero : R) (body : string) : option R :=
  match parse body with
  | None => None
  | Some (v, _) => let '(r, ok) := store_struct fields v zero in if ok then Some r else None
  end.

Definition decode_openAccountRequest : string -> option openAccountRequest :=
  Decode openAccountRequest_fields (MkOpenAccountRequest "" "" "").
Definition decode_recordTransactionRequest (body : string) : option recordTransactionRequest :=
  match Decode recordTransactionRequest_fields (MkSlice [] 0, "") body with
  | Some (entries, description) => Some (MkRecordTransactionRequest (elements entries) description)
  | None => None
  end.
Definition decode_depositRequest : string -> option depositRequest :=
  Decode depositRequest_fields (MkDepositRequest "" (S754_zero false) "" "").
Definition decode_transferRequest : string -> option transferRequest :=
  Decode transferRequest_fields (MkTransferRequest "" "" (S754_zero false) "" "").

(** ** What a body means *)
Notation q := quote.

Example decode_case : decode_openAccountRequest
  ("{" +:+ q +:+ "NAME" +:+ q +:+ ":" +:+ q +:+ "Alice" +:+ q +:+ "," +:+ q +:+ "x" +:+ q +:+ ":[{}]}") =
  Some (MkOpenAccountRequest "Alice" "" "").
Proof. vm_compute. reflexivity. Qed.
Example decode_null : decode_openAccountRequest "null" = Some (MkOpenAccountRequest "" "" "").
Proof. vm_compute. reflexivity. Qed.
Example decode_empty : decode_openAccountRequest "" = None /\ decode_openAccountRequest "[]" = None.
Proof. vm_compute. done. Qed.
Example decode_amounts :
  (DR_Amount <$> decode_depositRequest ("{" +:+ q +:+ "amount" +:+ q +:+ ":0.29}")) =
    Some (S754_finite false 5224175567749775 (-54)) /\
  decode_depositRequest ("{" +:+ q +:+ "amount" +:+ q +:+ ":" +:+ q +:+ "1" +:+ q +:+ "}") = None.
Proof. vm_compute. done. Qed.
