(* ===== verification/Http.v ===== *)
(** * internal/infra/http: responses and recorders

    What a handler does to its [http.ResponseWriter] is a list of calls; the
    response that the client receives, and what the two recorders of the
    package see, are functions of that list. [writeJSON] is built on the text
    that [json.NewEncoder(w).Encode] writes. *)
From S2P Require Import Prelude Go Events Json.
From stdpp Require Import base gmap strings list pretty.
From Stdlib Require Import Ascii String.
Local Open Scope Z_scope.
Local Open Scope string_scope.
Local Open Scope list_scope.

(** ** Responses *)

(** A call on the [http.ResponseWriter]. *)
Inductive rw_call :=
| SetHeader (name value : string)   (* w.Header().Set(name, value) *)
| WriteHeader (status : Z)
| Write (bytes : string).

(** How a handler ends: it returns, or it panics after some calls. *)
Inductive handled :=
| Returned (calls : list rw_call)
| Panicked (calls : list rw_call).

Definition handled_calls (h : handled) : list rw_call :=
  match h with Returned l | Panicked l => l end.

(** Calls made before those of [h]. *)
Definition after_calls (l : list rw_call) (h : handled) : handled :=
  match h with Returned l' => Returned (l ++ l') | Panicked l' => Panicked (l ++ l') end.

(** The status that net/http sends: that of the first [WriteHeader], and 200
    when the body is written, or the handler returns, without one. *)
Fixpoint sent_status (l : list rw_call) : Z :=
  match l with
  | [] => 200
  | WriteHeader status :: _ => status
  | Write _ :: _ => 200
  | SetHeader _ _ :: l => sent_status l
  end.

Fixpoint sent_body (l : list rw_call) : string :=
  match l with
  | [] => ""
  | Write b :: l => b +:+ sent_body l
  | _ :: l => sent_body l
  end.

(** The headers that are set before they are sent. *)
Fixpoint sent_headers (l : list rw_call) : list (string * string) :=
  match l with
  | SetHeader name value :: l => (name, value) :: sent_headers l
  | _ => []
  end.

(** [responseRecorder] (idempotency.go) and [statusRecorder]
    (metrics_middleware.go): the last [WriteHeader] wins; the former starts
    with status 0, the latter with 200. Both pass every call on. *)
Fixpoint recorded_status (status : Z) (l : list rw_call) : Z :=
  match l with
  | [] => status
  | WriteHeader status' :: l => recorded_status status' l
  | _ :: l => recorded_status status l
  end.
Definition responseRecorder_status : list rw_call -> Z := recorded_status 0.
Definition statusRecorder_status : list rw_call -> Z := recorded_status 200.

Definition responseRecorder_body : list rw_call -> string := sent_body.

(** [writeJSON(w, status, v)]. [Encode] writes the text and a line feed, or
    nothing when [v] cannot be encoded; its error is dropped. *)
Definition writeJSON (status : Z) (v : res json) : list rw_call :=
  [SetHeader "Content-Type" "application/json"; WriteHeader status] ++
  match v with
  | Ok j => [Write (Json.text j +:+ String (ascii_of_nat 10) "")]
  | Err _ => []
  end.

(** [errorResponse{Error: e}]. *)
Definition errorResponse (e : string) : res json := Ok (JObj [("error", JStr e)]).

(** ** Recorders see what the client gets *)

(** A response written the usual way: headers, one status, then the body. *)
Definition well_written (l : list rw_call) : Prop :=
  exists hs status bs, l = (uncurry SetHeader <$> hs) ++ WriteHeader status :: (Write <$> bs).

Lemma recorded_writes status bs : recorded_status status (Write <$> bs) = status.
Proof. induction bs; csimpl; done. Qed.

Lemma well_written_status l :
  well_written l ->
  sent_status l = responseRecorder_status l /\ sent_status l = statusRecorder_status l.
Proof.
  intros (hs & status & bs & ->). unfold responseRecorder_status, statusRecorder_status.
  induction hs as [|[k v] hs IH]; csimpl; [by rewrite recorded_writes|exact IH].
Qed.

Lemma well_written_sent hs status bs :
  let l := (uncurry SetHeader <$> hs) ++ WriteHeader status :: (Write <$> bs) in
  sent_status l = status /\ sent_headers l = hs /\ sent_body l = foldr String.append "" bs.
Proof.
  induction hs as [|[k v] hs (H1 & H2 & H3)]; csimpl in *.
  - split_and!; [done|done|]. induction bs; csimpl; congruence.
  - by rewrite H1, H2, H3.
Qed.

Lemma writeJSON_well_written status v : well_written (writeJSON status v).
Proof.
  exists [("Content-Type", "application/json")], status.
  destruct v as [j|e]; [by eexists [_]|by exists []].
Qed.
