(* ===== verification/Handlers.v ===== *)
(** * internal/infra/http/handlers.go

    Each handler takes its request as [json.Decoder] leaves it (Requests.v),
    [None] when the body is not accepted, and returns the calls it makes on the
    response writer; [serve_api] is the handler that router.go registers for
    each request of the API. Amounts of deposits and transfers are float64 dollars: a
    [spec_float] of 53 bits. *)
From S2P Require Import Prelude Go Identifiers Money Transaction Account Book Events Ports World.
From S2P Require Import LedgerService Transfer TransferService Postgres Projection Requests Http.
From stdpp Require Import base gmap strings list.
From Stdlib Require Import SpecFloat.
Local Open Scope string_scope.
Local Open Scope list_scope.
Local Open Scope Z_scope.

(** ** Dollars to cents *)

(** float64 multiplication. *)
Definition float64_mul : spec_float -> spec_float -> spec_float := SFmul 53 1024.

(** The constant 100. *)
Definition float64_100 : spec_float := S754_finite false 7036874417766400 (-46).

(** The truncation of a finite value towards zero. *)
Definition float64_trunc (x : spec_float) : option Z :=
  match x with
  | S754_zero _ => Some 0
  | S754_finite s m e =>
      let a := if 0 <=? e then Z.pos m * 2 ^ e else Z.pos m / 2 ^ (- e) in
      Some (if s then - a else a)
  | _ => None
  end.

Section handlers.
Context {U : UuidLib} {O : Oracle}.

(** What [int64(x)] is when the value does not fit, which Go leaves to the
    implementation. *)
Context (int64_overflow : spec_float -> Z).

Definition float64_to_int64 (x : spec_float) : Z :=
  match float64_trunc x with
  | Some z => if in_int64b z then z else int64_overflow x
  | None => int64_overflow x
  end.

(** [int64(req.Amount * 100)]. *)
Definition cents (amount : spec_float) : Z := float64_to_int64 (float64_mul amount float64_100).

(** ** Handlers *)

(** [Handler]: its transfer service is built on [svc], its query service is
    that of Projection.v. *)
Context (svc : LedgerService World).

Definition reply (status : Z) (v : res json) : St World handled :=
  retS (Returned (writeJSON status v)).

(** [if x == "" { x = d }]. *)
Definition or_default (x d : string) : string := if bool_decide (x = "") then d else x.

Definition account_json (acc : Account) : json :=
  JObj [("account_id", JStr (AccountID_String (Account_id acc)));
        ("account_type", JStr (Account_accountType acc));
        ("balance", JNum (Money_amount (Account_balance acc)));
        ("currency", JStr (Account_currency acc)); ("name", JStr (Account_name acc));
        ("status", JStr (Account_status acc))].

Definition Handler_OpenAccount (body : option openAccountRequest) : St World handled :=
  match body with
  | None => reply 400 (errorResponse "invalid request body")
  | Some req =>
      let@ r := OpenAccount svc (MkOpenAccountCmd (OAR_Name req) (OAR_AccountType req)
                                   (OAR_Currency req)) in
      match r with
      | Err err => reply 422 (errorResponse (Error err))
      | Ok acc => reply 201 (Ok (account_json acc))
      end
  end.

(** The loop over the entries: [None] when an id is invalid. *)
Fixpoint entryCmds (entries : list entryRequest) : option (list EntryCmd) :=
  match entries with
  | [] => Some []
  | e :: entries =>
      match NewAccountID (ER_AccountID e) with
      | Err _ => None
      | Ok accID =>
          match entryCmds entries with
          | None => None
          | Some cmds => Some (MkEntryCmd accID (ER_Amount e) (ER_Currency e) (ER_Type e) :: cmds)
          end
      end
  end.

Definition Handler_RecordTransaction (body : option recordTransactionRequest) : St World handled :=
  match body with
  | None => reply 400 (errorResponse "invalid request body")
  | Some req =>
      match entryCmds (RTR_Entries req) with
      | None => reply 400 (errorResponse "invalid account_id in entry")
      | Some entries =>
          let@ r := RecordTransaction svc (MkRecordTransactionCmd entries (RTR_Description req)) in
          match r with
          | Err err => reply 422 (errorResponse (Error err))
          | Ok tx =>
              reply 201 (Ok (JObj [("description", JStr (Transaction_description tx));
                                   ("transaction_id", JStr (TransactionID_String (Transaction_id tx)))]))
          end
      end
  end.

Definition Handler_Deposit (body : option depositRequest) : St World handled :=
  match body with
  | None => reply 400 (errorResponse "invalid request body")
  | Some req =>
      match NewAccountID (DR_AccountID req) with
      | Err _ => reply 400 (errorResponse "invalid account_id")
      | Ok accID =>
          let cents := cents (DR_Amount req) in
          if cents <=? 0 then reply 400 (errorResponse "amount must be positive")
          else
            let desc := or_default (DR_Description req) "Deposit" in
            let currency := or_default (DR_Currency req) USD in
            let@ r := Deposit svc accID cents currency desc in
            match r with
            | Err err => reply 422 (errorResponse (Error err))
            | Ok _ => reply 200 (Ok (JObj [("status", JStr "deposited")]))
            end
      end
  end.

Definition step_json (s : SagaStep) : res json :=
  res_bind (json_time (SagaStep_Timestamp s)) (fun ts =>
    Ok (JObj [("action", JStr (SagaStep_Action s));
              ("state", JStr (SagaState_string (SagaStep_State s)));
              ("detail", JStr (SagaStep_Detail s)); ("timestamp", ts)])).

(** An array: the first element that cannot be encoded fails the whole. *)
Fixpoint array_json (l : list (res json)) : res (list json) :=
  match l with
  | [] => Ok []
  | x :: l => res_bind x (fun j => res_bind (array_json l) (fun js => Ok (j :: js)))
  end.

Definition saga_json (err : list (string * json)) (saga : Transfer) : res json :=
  res_bind (array_json (step_json <$> Transfer_steps saga)) (fun steps =>
    Ok (JObj (err ++ [("state", JStr (SagaState_string (Transfer_state saga)));
                      ("steps", JArr steps); ("transfer_id", JStr (Transfer_id saga))]))).

(** [saga.ID()] on a nil [*Transfer] panics, before anything is written. *)
Definition Handler_Transfer (body : option transferRequest) : St World handled :=
  match body with
  | None => reply 400 (errorResponse "invalid request body")
  | Some req =>
      match NewAccountID (TR_FromAccountID req) with
      | Err _ => reply 400 (errorResponse "invalid from_account_id")
      | Ok fromID =>
          match NewAccountID (TR_ToAccountID req) with
          | Err _ => reply 400 (errorResponse "invalid to_account_id")
          | Ok toID =>
              let currency := or_default (TR_Currency req) USD in
              let desc := or_default (TR_Description req) "Transfer" in
              let@ o := Execute svc (MkTransferCmd fromID toID (cents (TR_Amount req)) currency desc) in
              match o with
              | (None, _) => retS (Panicked [])
              | (Some saga, Some err) => reply 422 (saga_json [("error", JStr (Error err))] saga)
              | (Some saga, None) => reply 201 (saga_json [] saga)
              end
          end
      end
  end.

Definition view_json (v : AccountView) : res json :=
  res_bind (json_time (av_UpdatedAt v)) (fun ts =>
    Ok (JObj [("account_id", JStr (av_AccountID v)); ("name", JStr (av_Name v));
              ("account_type", JStr (av_AccountType v)); ("currency", JStr (av_Currency v));
              ("balance", JNum (av_Balance v)); ("status", JStr (av_Status v));
              ("version", JNum (av_Version v)); ("updated_at", ts)])).

Definition history_json (r : TransactionHistoryEntry) : res json :=
  res_bind (json_time (th_CreatedAt r)) (fun ts =>
    Ok (JObj [("id", JNum (th_ID r)); ("transaction_id", JStr (th_TransactionID r));
              ("account_id", JStr (th_AccountID r)); ("entry_type", JStr (th_EntryType r));
              ("amount", JNum (th_Amount r)); ("currency", JStr (th_Currency r));
              ("description", JStr (th_Description r)); ("balance_after", JNum (th_BalanceAfter r));
              ("created_at", ts)])).

(** [accountID] is the URL parameter. *)
Definition Handler_GetBalance (accountID : string) : St World handled :=
  let@ r := GetAccountBalance accountID in
  match r with
  | Err err => reply 404 (errorResponse (Error err))
  | Ok view => reply 200 (view_json view)
  end.

Definition Handler_ListAccounts : St World handled :=
  let@ r := ListAccounts in
  match r with
  | Err err => reply 500 (errorResponse (Error err))
  | Ok accounts => reply 200 (res_bind (array_json (view_json <$> accounts)) (fun l => Ok (JArr l)))
  end.

Definition Handler_GetTransactionHistory (accountID : string) : St World handled :=
  let@ r := GetTransactionHistory accountID 100 0 in
  match r with
  | Err err => reply 500 (errorResponse (Error err))
  | Ok history => reply 200 (res_bind (array_json (history_json <$> history)) (fun l => Ok (JArr l)))
  end.

(** ** Routes *)

(** The routes of [NewRouter] under /api/v1, with their decoded requests. *)
Inductive api_request :=
| GetAccounts
| PostAccounts (body : option openAccountRequest)
| GetAccountByID (accountID : string)
| GetAccountTransactions (accountID : string)
| PostTransactions (body : option recordTransactionRequest)
| PostDeposit (body : option depositRequest)
| PostTransfers (body : option transferRequest).

Definition serve_api (r : api_request) : St World handled :=
  match r with
  | GetAccounts => Handler_ListAccounts
  | PostAccounts body => Handler_OpenAccount body
  | GetAccountByID id => Handler_GetBalance id
  | GetAccountTransactions id => Handler_GetTransactionHistory id
  | PostTransactions body => Handler_RecordTransaction body
  | PostDeposit body => Handler_Deposit body
  | PostTransfers body => Handler_Transfer body
  end.

Definition api_method (r : api_request) : string :=
  match r with
  | GetAccounts | GetAccountByID _ | GetAccountTransactions _ => "GET"
  | _ => "POST"
  end.
End handlers.
