(* ===== verification/Dollars.v ===== *)
(** * Amounts in dollars

    What is left of an amount between the literal in the body of a request and
    the int64 of cents that the handlers of deposits and transfers compute
    (handlers.go): [strconv.ParseFloat], the product with 100, and the
    truncation, each within one unit in the last place of a float64. *)
From S2P Require Import Prelude Go Strconv Handlers.
From stdpp Require Import base gmap strings list pretty.
From Stdlib Require Import Ascii String SpecFloat.
Local Open Scope string_scope.
Local Open Scope list_scope.
Local Open Scope Z_scope.

(** ** Rounding *)

Lemma digits2_bounds p : 2 ^ (Z.pos (digits2_pos p) - 1) <= Z.pos p < 2 ^ Z.pos (digits2_pos p).
Proof.
  induction p as [p IH|p IH|]; [| |by split]; cbn [digits2_pos]; rewrite Pos2Z.inj_succ, Z.pow_succ_r by lia.
  all: replace (Z.succ (Z.pos (digits2_pos p)) - 1) with (Z.succ (Z.pos (digits2_pos p) - 1)) by lia;
    rewrite Z.pow_succ_r by lia; lia.
Qed.

(** The number of digits from bounds. *)
Lemma digits2_from p d : 0 < d -> 2 ^ (d - 1) <= Z.pos p < 2 ^ d -> Z.pos (digits2_pos p) = d.
Proof.
  intros Hd [H1 H2]. destruct (digits2_bounds p) as [H3 H4].
  assert (d - 1 < Z.pos (digits2_pos p)) by (apply (Z.pow_lt_mono_r_iff 2); lia).
  assert (Z.pos (digits2_pos p) - 1 < d) by (apply (Z.pow_lt_mono_r_iff 2); lia). lia.
Qed.

Lemma shr_1_m r : 0 <= shr_m r -> shr_m (shr_1 r) = shr_m r / 2.
Proof.
  destruct r as [[|p|p] r s]; simpl; [done| |lia]. intros _. destruct p as [p|p|]; [| |done]; simpl.
  - rewrite Pos2Z.inj_xI. apply (Z.div_unique _ _ _ 1); lia.
  - rewrite Pos2Z.inj_xO. apply (Z.div_unique _ _ _ 0); lia.
Qed.

Lemma iter_shr_m p r : 0 <= shr_m r -> shr_m (iter_pos shr_1 p r) = shr_m r / 2 ^ Z.pos p.
Proof.
  assert (Hdiv : forall z a b, 0 <= a -> 0 <= b -> z / 2 ^ a / 2 ^ b = z / 2 ^ (a + b)).
  { intros z a b Ha Hb. rewrite Z.div_div by lia. by rewrite Z.pow_add_r. }
  assert (Hpos : forall z a, 0 <= a -> 0 <= z -> 0 <= z / 2 ^ a) by (intros; apply Z.div_pos; lia).
  revert r. induction p as [p IH|p IH|]; intros r Hr; cbn [iter_pos].
  - assert (0 <= shr_m (shr_1 r)) by (rewrite shr_1_m by done; apply Z.div_pos; lia).
    rewrite !IH, shr_1_m by (rewrite ?IH; auto with lia).
    change (shr_m r / 2) with (shr_m r / 2 ^ 1). rewrite !Hdiv by lia. f_equal. f_equal. lia.
  - rewrite !IH by (rewrite ?IH; auto with lia). rewrite Hdiv by lia. f_equal. f_equal. lia.
  - by rewrite shr_1_m.
Qed.

Lemma shr_of_loc_m m l : shr_m (shr_record_of_loc m l) = m.
Proof. by destruct l as [|[]]. Qed.

(** A shift loses what it shifts out. *)
Lemma shr_fexp_run m e l :
  0 <= m ->
  let n := Z.max 0 (fexp 53 1024 (Zdigits2 m + e) - e) in
  exists r, shr_fexp 53 1024 m e l = (r, e + n) /\ shr_m r = m / 2 ^ n.
Proof.
  intros Hm n. unfold shr_fexp, shr. fold n. subst n. destruct (_ - e) as [|p|p] eqn:E.
  - exists (shr_record_of_loc m l). rewrite shr_of_loc_m. split; [f_equal; lia|]. by rewrite Z.div_1_r.
  - eexists. split; [f_equal; lia|]. by rewrite iter_shr_m, shr_of_loc_m by (by rewrite shr_of_loc_m).
  - exists (shr_record_of_loc m l). rewrite shr_of_loc_m. split; [f_equal; lia|]. by rewrite Z.div_1_r.
Qed.

Lemma nearest_even_cases m l : round_nearest_even m l = m \/ round_nearest_even m l = m + 1.
Proof. destruct l as [|[]]; simpl; auto. destruct (Z.even m); auto. Qed.

(** What one rounding leaves: a normal number within one unit in the last place. *)
Definition rounds_to (s : bool) (m e : Z) (x : spec_float) : Prop :=
  exists p e', x = S754_finite s p e' /\ e <= e' /\ 2 ^ 52 <= Z.pos p < 2 ^ 53 /\
    Z.abs (Z.pos p * 2 ^ (e' - e) - m) * 2 ^ 52 <= m.

Lemma round_mantissa s p0 e' m e :
  e <= e' -> -1074 <= e' <= 900 -> 2 ^ 52 <= Z.pos p0 <= 2 ^ 53 ->
  Z.abs (Z.pos p0 * 2 ^ (e' - e) - m) * 2 ^ 52 <= m ->
  rounds_to s m e
    (let '(r, e'') := shr_fexp 53 1024 (Z.pos p0) e' loc_Exact in
     match shr_m r with
     | Z0 => S754_zero s
     | Zpos q => if e'' <=? 1024 - 53 then S754_finite s q e'' else S754_infinity s
     | _ => S754_nan
     end).
Proof.
  intros He He' Hp Hm. destruct (shr_fexp_run (Z.pos p0) e' loc_Exact ltac:(lia)) as (r & -> & Hr).
  cbn [Zdigits2] in *. unfold fexp, emin in *. destruct (decide (Z.pos p0 = 2 ^ 53)) as [Heq|Hne].
  - rewrite (digits2_from p0 54) in * by lia.
    replace (Z.max 0 _) with 1 in * by lia. rewrite Hr, Heq. change (2 ^ 53 / 2 ^ 1) with (Z.pos 4503599627370496).
    cbv iota. rewrite (proj2 (Z.leb_le _ _)) by lia. eexists _, _. split; [reflexivity|].
    split_and!; [lia..|]. replace (e' + 1 - e) with (e' - e + 1) by lia. rewrite Z.pow_add_r by lia.
    rewrite Heq in Hm. change (Z.pos 4503599627370496) with (2 ^ 52).
    replace (2 ^ 52 * (2 ^ (e' - e) * 2 ^ 1)) with (2 ^ 53 * 2 ^ (e' - e)) by lia. exact Hm.
  - rewrite (digits2_from p0 53) in * by lia.
    replace (Z.max 0 _) with 0 in * by lia. rewrite Hr, Z.div_1_r, Z.add_0_r. cbv iota.
    rewrite (proj2 (Z.leb_le _ _)) by lia. eexists _, _. split; [reflexivity|]. split_and!; [lia..|]. exact Hm.
Qed.

Lemma round_near s p e l :
  2 ^ 52 <= Z.pos p -> -1074 <= e -> Z.pos (digits2_pos p) + e <= 900 ->
  rounds_to s (Z.pos p) e (binary_round_aux 53 1024 s (Z.pos p) e l).
Proof.
  intros Hp He Hd. unfold binary_round_aux. destruct (digits2_bounds p) as [D1 D2].
  set (d := Z.pos (digits2_pos p)) in *.
  assert (53 <= d) as Hd53.
  { assert (52 < d); [|lia]. apply (Z.pow_lt_mono_r_iff 2); lia. }
  destruct (shr_fexp_run (Z.pos p) e l ltac:(lia)) as (r & -> & Hr). cbn [Zdigits2] in *. fold d in Hr |- *.
  unfold fexp at 1 in Hr. unfold fexp at 1. unfold emin in *.
  replace (Z.max 0 _) with (d - 53) in * by lia.
  set (m1 := Z.pos p / 2 ^ (d - 53)) in *.
  assert (0 < 2 ^ (d - 53)) as Hpow by lia.
  assert (H1 : m1 * 2 ^ (d - 53) <= Z.pos p < (m1 + 1) * 2 ^ (d - 53)).
  { pose proof (Z.div_mod (Z.pos p) (2 ^ (d - 53)) ltac:(lia)) as Hq.
    pose proof (Z.mod_pos_bound (Z.pos p) (2 ^ (d - 53)) Hpow). fold m1 in Hq. lia. }
  assert (H2 : 2 ^ 52 <= m1 < 2 ^ 53).
  { split.
    - apply Z.div_le_lower_bound; [done|]. rewrite <- Z.pow_add_r by lia.
      by replace (d - 53 + 52) with (d - 1) by lia.
    - apply Z.div_lt_upper_bound; [done|]. rewrite <- Z.pow_add_r by lia.
      by replace (d - 53 + 53) with d by lia. }
  rewrite Hr. destruct (round_nearest_even m1 _) as [|p0|p0] eqn:E;
    destruct (nearest_even_cases m1 (loc_of_shr_record r)) as [E'|E']; rewrite E in E'; try lia.
  all: apply round_mantissa; [lia..|]; replace (e + (d - 53) - e) with (d - 53) by lia; rewrite E'; nia.
Qed.

(** A number that fits in 53 bits is not changed. *)
Lemma iter_shr_exact p m :
  0 <= m -> (2 ^ Z.pos p | m) ->
  iter_pos shr_1 p (Build_shr_record m false false) = Build_shr_record (m / 2 ^ Z.pos p) false false.
Proof.
  assert (H1 : forall m, 0 <= m -> shr_1 (Build_shr_record (m * 2) false false) = Build_shr_record m false false).
  { intros [|q|q] Hq; [done| |lia]. replace (Z.pos q * 2) with (Z.pos q~0) by lia. done. }
  intros Hm [a ->]. rewrite Z.div_mul by lia. assert (0 <= a) as Ha by nia. clear Hm.
  revert a Ha. induction p as [p IH|p IH|]; intros a Ha; cbn [iter_pos].
  - replace (a * 2 ^ Z.pos p~1) with (a * 2 ^ Z.pos p * 2 ^ Z.pos p * 2).
    2:{ replace (Z.pos p~1) with (Z.pos p + Z.pos p + 1) by lia. rewrite !Z.pow_add_r by lia. ring. }
    rewrite H1 by nia. rewrite (IH (a * 2 ^ Z.pos p)) by nia. by apply IH.
  - replace (a * 2 ^ Z.pos p~0) with (a * 2 ^ Z.pos p * 2 ^ Z.pos p).
    2:{ replace (Z.pos p~0) with (Z.pos p + Z.pos p) by lia. rewrite !Z.pow_add_r by lia. ring. }
    rewrite (IH (a * 2 ^ Z.pos p)) by nia. by apply IH.
  - by apply H1.
Qed.

Lemma round_exact s a n e :
  2 ^ 52 <= Z.pos a < 2 ^ 53 -> 0 <= n -> -1074 <= e -> e + n <= 900 ->
  binary_round_aux 53 1024 s (Z.pos a * 2 ^ n) e loc_Exact = S754_finite s a (e + n).
Proof.
  intros Ha Hn He Hb.
  assert (Hf : forall m e n, 0 < m -> -1074 <= e -> 0 <= n -> Z.pos a * 2 ^ n = m ->
    shr_fexp 53 1024 m e loc_Exact = (Build_shr_record (Z.pos a) false false, e + n)).
  { clear s n e Hn He Hb. intros [|q|q] e n Hm He Hn Hq; try lia. unfold shr_fexp, fexp, emin. cbn [Zdigits2].
    assert (Hd : 2 ^ (53 + n - 1) <= Z.pos q < 2 ^ (53 + n)).
    { rewrite <- Hq. replace (53 + n - 1) with (52 + n) by lia. rewrite !Z.pow_add_r by lia.
      assert (0 < 2 ^ n) by lia. nia. }
    rewrite (digits2_from q (53 + n)) by (exact Hd || lia).
    replace (_ - e) with n by lia. cbn [shr_record_of_loc]. rewrite <- Hq. destruct n as [|n|n]; [|cbn [shr]|lia].
    - by rewrite Z.mul_1_r, Z.add_0_r.
    - rewrite iter_shr_exact by (lia || by eexists). by rewrite Z.div_mul by lia. }
  unfold binary_round_aux. rewrite (Hf _ e n) by lia. cbn [shr_m loc_of_shr_record round_nearest_even].
  rewrite (Hf _ (e + n) 0) by lia. cbn [shr_m]. rewrite Z.add_0_r. by rewrite (proj2 (Z.leb_le _ _)) by lia.
Qed.

(** ** A literal with two decimals *)

Lemma digits_value_ge s acc z : 0 <= acc -> digits_value s acc = Some z -> acc * 10 ^ Z.of_nat (String.length s) <= z.
Proof.
  revert acc. induction s as [|c s IH]; intros acc Ha; simpl; [intros [= ->]; lia|].
  destruct (is_digit c) eqn:Hc; [|done]. unfold is_digit in Hc. apply andb_true_iff in Hc as [Hc _].
  apply Z.leb_le in Hc. intros Hz%IH; [|lia]. rewrite Nat2Z.inj_succ, Z.pow_succ_r by lia.
  assert (0 < 10 ^ Z.of_nat (String.length s)) by lia. nia.
Qed.

Lemma pretty_short p n : Z.pos p < 10 ^ Z.of_nat n -> (String.length (pretty p) <= n)%nat.
Proof.
  intros Hp. destruct (pretty_pos_digits p) as [_ Hv Hh]. destruct (Hh ltac:(lia)) as (c & ds & E & Hc).
  specialize (Hv 0). rewrite E in Hv |- *. simpl in Hv. destruct (is_digit c) eqn:Hd; [|done].
  assert (1 <= digit_value c).
  { unfold is_digit, digit_value in *. apply andb_true_iff in Hd as [Hd _]. apply Z.leb_le in Hd.
    destruct (decide (nat_of_ascii c = 48%nat)) as [H48|]; [|lia].
    destruct Hc. rewrite <- (ascii_nat_embedding c), H48. done. }
  apply digits_value_ge in Hv; [|lia]. simpl.
  assert (Z.of_nat (String.length ds) < Z.of_nat n); [|lia]. apply (Z.pow_lt_mono_r_iff 10); [lia..|].
  assert (0 < 10 ^ Z.of_nat (String.length ds)) by lia. simpl in Hv. nia.
Qed.

(** k/100, as [strconv.ParseFloat] reads it: the quotient to 53 bits or more,
    rounded. *)
Section hundredths.
Context (p : positive) (Hp : Z.pos p < 2 ^ 50).

(** The places of the quotient behind the point. *)
Definition places : Z := 60 - Z.pos (digits2_pos p).
Definition quotient : Z := Z.pos p * 2 ^ places / 100.
Definition hundredths : spec_float :=
  binary_round_aux 53 1024 false quotient (- places) (new_location 100 (Z.pos p * 2 ^ places mod 100)).

Lemma places_bounds : 10 <= places <= 59 /\ 2 ^ 59 <= Z.pos p * 2 ^ places < 2 ^ 60.
Proof using Hp.
  destruct (digits2_bounds p) as [D1 D2]. unfold places. set (d := Z.pos (digits2_pos p)) in *.
  assert (d <= 50) as Hd by (apply Z.lt_pred_le, (Z.pow_lt_mono_r_iff 2); lia).
  assert (0 < d) as Hd0 by lia. split_and!; [lia..| |].
  - replace 59 with (d - 1 + (60 - d)) by lia. rewrite Z.pow_add_r by lia. apply Z.mul_le_mono_nonneg_r; lia.
  - replace 60 with (d + (60 - d)) at 2 by lia. rewrite Z.pow_add_r by lia. apply Z.mul_lt_mono_pos_r; lia.
Qed.

Lemma quotient_bounds :
  2 ^ 52 <= quotient < 2 ^ 54 /\ 100 * quotient <= Z.pos p * 2 ^ places < 100 * (quotient + 1).
Proof using Hp.
  destruct places_bounds as [_ H1]. pose proof (Z.div_mod (Z.pos p * 2 ^ places) 100 ltac:(lia)) as H2.
  pose proof (Z.mod_pos_bound (Z.pos p * 2 ^ places) 100 ltac:(lia)) as H3. fold quotient in H2. lia.
Qed.

Lemma hundredths_near : rounds_to false quotient (- places) hundredths.
Proof using Hp.
  destruct places_bounds as [H1 _], quotient_bounds as [H2 _]. unfold hundredths.
  destruct quotient as [|q|q] eqn:E; [lia| |lia]. apply round_near; [lia..|].
  destruct (digits2_bounds q) as [Q1 _]. assert (Z.pos (digits2_pos q) - 1 < 54); [|lia].
  apply (Z.pow_lt_mono_r_iff 2); lia.
Qed.

Lemma float64_of_hundredths : float64_of_decimal false (Npos p) (-2) = Some hundredths.
Proof using Hp.
  destruct places_bounds as [H1 _]. unfold float64_of_decimal. pose proof (pretty_short p 16 ltac:(simpl; lia)).
  rewrite (proj2 (Z.ltb_ge 309 _)), (proj2 (Z.ltb_ge _ (-330))) by lia.
  change (0 <=? -2) with false. change (10 ^ (- -2)) with (Z.pos 100). cbv iota.
  assert (SFdiv 53 1024 (S754_finite false p 0) (S754_finite false 100 0) = hundredths) as ->.
  { unfold SFdiv, SFdiv_core_binary, fexp, emin, hundredths. cbn [Zdigits2 xorb].
    change (Z.pos (digits2_pos 100)) with 7. replace (Z.min _ _) with (- places) by (unfold places in *; lia).
    replace (0 - 0 - - places) with places by lia.
    replace (match places with Z0 => Z.pos p | Zpos _ => Z.shiftl (Z.pos p) places | Zneg _ => 0 end)
      with (Z.pos p * 2 ^ places).
    2:{ rewrite Z.shiftl_mul_pow2 by lia. destruct places; [lia|done|lia]. }
    unfold quotient, Z.div, Z.modulo. by destruct (Z.div_eucl (Z.pos p * 2 ^ places) 100). }
  by destruct hundredths_near as (m & e & -> & _).
Qed.

(** A multiple of a quarter is a float64. *)
Lemma hundredths_exact :
  (25 | Z.pos p) ->
  exists a n, hundredths = S754_finite false a (n - places) /\ 0 <= n <= 1 /\ 2 ^ 52 <= Z.pos a < 2 ^ 53 /\
    100 * (Z.pos a * 2 ^ n) = Z.pos p * 2 ^ places.
Proof using Hp.
  intros [j Hj]. destruct places_bounds as [H1 _], quotient_bounds as [H2 _].
  assert (Hq : Z.pos p * 2 ^ places = 100 * (j * 2 ^ (places - 3) * 2)).
  { rewrite Hj. replace places with (places - 3 + 3) at 1 by lia. rewrite Z.pow_add_r by lia. ring. }
  assert (E : quotient = j * 2 ^ (places - 3) * 2).
  { unfold quotient. rewrite Hq, Z.mul_comm. by apply Z.div_mul. }
  assert (L : new_location 100 (Z.pos p * 2 ^ places mod 100) = loc_Exact).
  { rewrite Hq, Z.mul_comm, Z.mod_mul by lia. done. }
  unfold hundredths. rewrite L, Hq. rewrite E in *. set (b := j * 2 ^ (places - 3)) in *.
  destruct (decide (b * 2 < 2 ^ 53)) as [Hb|Hb].
  - exists (Z.to_pos (b * 2)), 0. pose proof (round_exact false (Z.to_pos (b * 2)) 0 (- places)) as H.
    rewrite Z2Pos.id in * by lia. rewrite Z.mul_1_r in *. rewrite H by lia. split_and!; lia || (f_equal; lia).
  - exists (Z.to_pos b), 1. pose proof (round_exact false (Z.to_pos b) 1 (- places)) as H.
    rewrite Z2Pos.id in * by lia. change (2 ^ 1) with 2 in *. rewrite H by lia. split_and!; lia || (f_equal; lia).
Qed.
End hundredths.

(** ** The product with 100, and the truncation *)

Lemma trunc_scaled p e E :
  E <= e -> E <= 0 -> float64_trunc (S754_finite false p e) = Some (Z.pos p * 2 ^ (e - E) / 2 ^ (- E)).
Proof.
  intros He HE. unfold float64_trunc. f_equal. destruct (Z.leb_spec 0 e) as [H|H].
  - replace (e - E) with (e + - E) by lia. rewrite Z.pow_add_r, Z.mul_assoc by lia. by rewrite Z.div_mul by lia.
  - replace (- E) with (- e + (e - E)) by lia. rewrite (Z.pow_add_r 2 (- e)) by lia.
    by rewrite Z.div_mul_cancel_r by lia.
Qed.

(** [cents] of a number that is near [q * 2 ^ - s], by the values in units of
    [2 ^ (- s - 46)]. *)
Lemma cents_near ovf s q x :
  0 <= s <= 59 -> 2 ^ 52 <= q < 2 ^ 54 -> rounds_to false q (- s) x ->
  exists X Y, Z.abs (X - q) * 2 ^ 52 <= q /\ Z.abs (Y - X * 100 * 2 ^ 46) * 2 ^ 52 <= X * 100 * 2 ^ 46 /\
    cents ovf x = (let z := Y / 2 ^ (s + 46) in if in_int64b z then z else ovf (float64_mul x float64_100)).
Proof.
  intros Hs Hq (p & e & -> & He & Hp & Hx). replace (e - - s) with (e + s) in Hx by lia.
  assert (e + s < 3) as He3.
  { apply (Z.pow_lt_mono_r_iff 2); [lia..|]. assert (0 < 2 ^ (e + s)) by lia.
    assert (2 ^ 52 * 2 ^ (e + s) <= Z.pos p * 2 ^ (e + s)) by (apply Z.mul_le_mono_nonneg_r; lia). lia. }
  set (m := (p * 7036874417766400)%positive).
  assert (Hm : Z.pos m = Z.pos p * 100 * 2 ^ 46) by (unfold m; lia).
  assert (Hr : rounds_to false (Z.pos m) (e + -46) (float64_mul (S754_finite false p e) float64_100)).
  { apply round_near; [lia|lia|]. destruct (digits2_bounds m) as [M1 _].
    assert (Z.pos (digits2_pos m) - 1 < 106); [|fold m; lia]. apply (Z.pow_lt_mono_r_iff 2); lia. }
  destruct Hr as (p3 & e3 & Hy & He3' & _ & Hy3). rewrite Hm in Hy3.
  exists (Z.pos p * 2 ^ (e + s)), (Z.pos p3 * 2 ^ (e3 - (e + -46)) * 2 ^ (e + s)).
  assert (0 < 2 ^ (e + s)) as Hpow by lia. split_and!; [exact Hx|nia|].
  unfold cents, float64_to_int64. rewrite Hy, (trunc_scaled _ _ (- s - 46)) by lia.
  replace (- (- s - 46)) with (s + 46) by lia. rewrite <- Z.mul_assoc, <- Z.pow_add_r by lia.
  by replace (e3 - (e + -46) + (e + s)) with (e3 - (- s - 46)) by lia.
Qed.

Lemma cents_of_hundredths ovf p :
  Z.pos p < 2 ^ 50 -> Z.pos p - 1 <= cents ovf (hundredths p) <= Z.pos p.
Proof.
  intros Hp. destruct (places_bounds p Hp) as [Hs _], (quotient_bounds p Hp) as [Hq Hk].
  destruct (cents_near ovf (places p) _ _ ltac:(lia) Hq (hundredths_near p Hp)) as (X & Y & HX & HY & ->).
  set (s := places p) in *. set (q := quotient p) in *.
  assert (Hz : Z.pos p - 1 <= Y / 2 ^ (s + 46) <= Z.pos p).
  { rewrite Z.pow_add_r by lia. set (t := 2 ^ s) in *. assert (0 < t) by lia.
    assert (Z.pos p * t < 2 ^ 50 * t) by (apply Z.mul_lt_mono_pos_r; lia).
    split; [apply Z.div_le_lower_bound; lia|]. apply Z.lt_succ_r, Z.div_lt_upper_bound; lia. }
  cbv zeta. assert (in_int64b (Y / 2 ^ (s + 46)) = true) as ->; [|exact Hz].
  apply in_int64b_spec. unfold in_int64, min_int64, max_int64. lia.
Qed.

Lemma cents_of_quarters ovf p : Z.pos p < 2 ^ 50 -> (25 | Z.pos p) -> cents ovf (hundredths p) = Z.pos p.
Proof.
  intros Hp H25. destruct (hundredths_exact p Hp H25) as (a & n & -> & Hn & Ha & Hv).
  destruct (places_bounds p Hp) as [Hs Hb]. unfold cents, float64_to_int64, float64_mul, float64_100.
  set (s := places p) in *. cbn [SFmul xorb].
  assert (Hm : Z.pos (a * 7036874417766400) = Z.pos (p * 2 ^ Z.to_pos (s - 7)) * 2 ^ (53 - n)).
  { rewrite !Pos2Z.inj_mul, Pos2Z.inj_pow, Z2Pos.id by lia.
    apply (Z.mul_reg_r _ _ (2 ^ n)); [lia|]. rewrite <- (Z.mul_assoc _ (2 ^ (53 - n))), <- Z.pow_add_r by lia.
    replace (53 - n + n) with (7 + 46) by lia. rewrite (Z.pow_add_r 2 7) by lia.
    replace (Z.pos p * 2 ^ (s - 7) * (2 ^ 7 * 2 ^ 46)) with (Z.pos p * (2 ^ (s - 7) * 2 ^ 7) * 2 ^ 46) by ring.
    rewrite <- Z.pow_add_r by lia. replace (s - 7 + 7) with s by lia. rewrite <- Hv. change (2 ^ 46) with 70368744177664. ring. }
  assert (Hpp : Z.pos (p * 2 ^ Z.to_pos (s - 7)) = Z.pos p * 2 ^ (s - 7)).
  { by rewrite Pos2Z.inj_mul, Pos2Z.inj_pow, Z2Pos.id by lia. }
  assert (Hsz : Z.pos p * 2 ^ s = Z.pos p * 2 ^ (s - 7) * 2 ^ 7).
  { rewrite <- Z.mul_assoc, <- Z.pow_add_r by lia. f_equal. f_equal. lia. }
  rewrite Hm, round_exact; [|rewrite Hpp; lia|lia..]. unfold float64_trunc. rewrite (proj2 (Z.leb_gt _ _)) by lia.
  rewrite Hpp. replace (- _) with (s - 7) by lia. rewrite Z.div_mul by lia.
  assert (in_int64b (Z.pos p) = true) as ->; [|done].
  apply in_int64b_spec. unfold in_int64, min_int64, max_int64. lia.
Qed.

(** ** From the text *)

Lemma split_digits_value s t acc z :
  digits_value s acc = Some z -> split_digits (s +:+ t) = (s +:+ (split_digits t).1, (split_digits t).2).
Proof.
  revert acc. induction s as [|c s IH]; intros acc; simpl; [intros _; apply surjective_pairing|].
  destruct (is_digit c); [|done]. intros H. by rewrite (IH _ H).
Qed.

Lemma digits_value_split s t acc z :
  digits_value (s +:+ t) acc = Some z -> exists y, digits_value s acc = Some y /\ digits_value t y = Some z.
Proof.
  revert acc. induction s as [|c s IH]; intros acc; simpl; [eauto|]. destruct (is_digit c); [apply IH|done].
Qed.

Lemma parse_float_decimal int frac k :
  digits_value (int +:+ frac) 0 = Some k ->
  parse_float (int +:+ "." +:+ frac) = float64_of_decimal false (Z.to_N k) (0 - Z.of_nat (String.length frac)).
Proof.
  intros H. destruct (digits_value_split _ _ _ _ H) as (y & Hi & Hf).
  assert (Hfrac : split_digits frac = (frac, "")).
  { pose proof (split_digits_value frac "" y k Hf) as Hs. by rewrite !append_nil_r in Hs. }
  assert (Hsplit : split_digits (int +:+ "." +:+ frac) = (int, "." +:+ frac)).
  { rewrite (split_digits_value int _ 0 y Hi). simpl. by rewrite append_nil_r. }
  unfold parse_float.
  assert (Hm : forall l, (forall r, l <> String "-"%char r) ->
    match l with String "-"%char s => (true, s) | s => (false, s) end = (false, l)).
  { intros [|c r] Hne; [done|]. destruct (decide (c = "-"%char)) as [->|Hc]; [by destruct (Hne r)|].
    destruct c as [[] [] [] [] [] [] [] []]; done || by destruct Hc. }
  rewrite Hm.
  2:{ intros r E. destruct int as [|c s]; [done|]. injection E as -> _. done. }
  change ("." +:+ frac) with (String "."%char frac) in *. rewrite Hsplit. cbv beta iota. by rewrite Hfrac, H.
Qed.

(** C40: bounds: an amount that a client writes in dollars with two decimals,
    of k cents, below eleven trillion dollars (2^50 cents), is taken for k or for
    k - 1 cents, never for anything else, and for exactly k when it is a
    multiple of a quarter, whole dollars included; on every machine. 0.29
    dollars are taken for 28 cents. *)
Theorem cents_of_literal (ovf : spec_float -> Z) int frac k :
  digits_value (int +:+ frac) 0 = Some k -> String.length frac = 2%nat -> k < 2 ^ 50 ->
  exists x, parse_float (int +:+ "." +:+ frac) = Some x /\
    k - 1 <= cents ovf x <= k /\ ((25 | k) -> cents ovf x = k) /\
    cents ovf <$> parse_float "0.29" = Some 28.
Proof.
  intros Hk Hf Hlt. rewrite (parse_float_decimal _ _ _ Hk), Hf. change (0 - Z.of_nat 2) with (-2).
  assert (0 <= k) as H0 by (apply digits_value_ge in Hk; lia). destruct k as [|p|p]; [| |lia].
  - exists (S754_zero false). split; [reflexivity|]. change (cents ovf (S754_zero false)) with 0.
    split_and!; lia || reflexivity.
  - exists (hundredths p). split; [by apply float64_of_hundredths|]. split_and!; [by apply cents_of_hundredths..| |done].
    by apply cents_of_quarters.
Qed.

Lemma cents_of_literal_witness :
  exists x, parse_float "1234567890.25" = Some x /\ cents (fun _ => 0) x = 123456789025.
Proof.
  destruct (cents_of_literal (fun _ => 0) "1234567890" "25" 123456789025 eq_refl eq_refl ltac:(lia))
    as (x & Hx & _ & H & _). exists x. split; [exact Hx|]. apply H. by exists 4938271561.
Defined.
