(* ===== verification/Idempotency.v ===== *)
(** * internal/infra/redis/idempotency.go and internal/infra/http/idempotency.go

    The store of idempotency keys and the middleware on it. Redis is
    third-party: the commands that the store sends are the fields of
    [RedisClient], their documented behaviour the class [RedisLaws], stated on
    the keys that are live (set and not expired). *)
From S2P Require Import Prelude Go Strconv Events Http.
From stdpp Require Import base gmap strings list pretty.
From Stdlib Require Import Ascii String.
Local Open Scope string_scope.
Local Open Scope list_scope.
Local Open Scope Z_scope.

Inductive redis_cmd :=
| CmdSet (key value : string) (ttl : Z)
| CmdDel (key : string).

Class RedisClient (R : Type) := {
  redis_Get : string -> M R (option string);    (* Get(key).Bytes(); [None] for redis.Nil or a nil slice *)
  redis_SetNX : string -> string -> Z -> M R bool;
  redis_Exec : list redis_cmd -> M R unit;      (* a pipeline *)
  redis_Del : string -> M R unit;
}.

(** What one command of a pipeline does to the live keys. *)
Definition apply_cmd (c : redis_cmd) (m : gmap string string) : gmap string string :=
  match c with
  | CmdSet k v _ => <[k := v]> m
  | CmdDel k => delete k m
  end.

(** Documented behaviour of the commands when they answer. *)
Class RedisLaws (R : Type) `{RedisClient R} (live : R -> gmap string string) : Prop := {
  redis_Get_Ok k r v r' :
    redis_Get k r = (Ok v, r') ->
    live r' = live r /\
    match live r !! k with
    | None => v = None
    | Some s => s <> "" -> v = Some s
    end;
  redis_SetNX_Ok k v ttl r ok r' :
    redis_SetNX k v ttl r = (Ok ok, r') ->
    match live r !! k with
    | None => ok = true /\ live r' = <[k := v]> (live r)
    | Some _ => ok = false /\ live r' = live r
    end;
  redis_Exec_Ok cmds r r' :
    redis_Exec cmds r = (Ok tt, r') -> live r' = foldl (fun m c => apply_cmd c m) (live r) cmds;
  redis_Del_Ok k r r' : redis_Del k r = (Ok tt, r') -> live r' = delete k (live r);
}.

(** Every HTTP status survives its text form. *)
Lemma atoi_status z : 0 <= z <= 999 -> atoi (fmt_d z) = Some z.
Proof. intros Hz. apply atoi_fmt. unfold in_int64, min_int64, max_int64. lia. Qed.

(** ** redis/idempotency.go *)
Section store.
Context {R : Type} `{RC : !RedisClient R}.

Definition DefaultTTL : Z := 24 * 3600 * 1000000000.
Definition lockTTL : Z := 30 * 1000000000.

Definition idempotencyKey (key : string) : string := "idem:" +:+ key.
Definition idempotencyLock (key : string) : string := "idem:lock:" +:+ key.
Definition idempotencyStatus (key : string) : string := "idem:status:" +:+ key.

Definition store_Check (key : string) : M R (option string) := redis_Get (idempotencyKey key).

Definition store_Lock (key : string) : M R bool :=
  redis_SetNX (idempotencyLock key) "processing" lockTTL.

Definition store_Store (key response : string) (statusCode : Z) : M R unit :=
  redis_Exec [CmdSet (idempotencyKey key) response DefaultTTL;
              CmdSet (idempotencyStatus key) (fmt_d statusCode) DefaultTTL;
              CmdDel (idempotencyLock key)].

Definition errSyntax : error := errForeign "strconv.Atoi: parsing: invalid syntax".

Definition store_GetStatus (key : string) : M R Z :=
  let! val := redis_Get (idempotencyStatus key) in
  match val with
  | None => ret 0
  | Some s => match atoi s with Some z => ret z | None => throw errSyntax end
  end.

Definition store_Unlock (key : string) : M R unit := redis_Del (idempotencyLock key).

(** ** http/idempotency.go

    The middleware around a handler [next]; the state is that of Redis and of
    the rest of the program. The parts between two commands to Redis are the
    definitions below, so that requests can also be interleaved. *)
Context {W : Type} (next : St W handled).

(** The response that is sent again. *)
Definition replayed (status : Z) (cached : string) : list rw_call :=
  [SetHeader "Content-Type" "application/json"; SetHeader "Idempotency-Replayed" "true";
   WriteHeader (if status =? 0 then 200 else status); Write cached].

Definition conflict_response : list rw_call :=
  SetHeader "Retry-After" "1" :: writeJSON 409 (errorResponse "request is already being processed").

Definition on_redis {A} (m : St R A) : St (R * W) A := fun s => let '(a, r) := m s.1 in (a, (r, s.2)).
Definition on_world {A} (m : St W A) : St (R * W) A := fun s => let '(a, w) := m s.2 in (a, (s.1, w)).

(** [status, _ := store.GetStatus(ctx, key)]: 0 when it fails. *)
Definition status_or_zero (key : string) : St R Z :=
  let@ r := store_GetStatus key in retS (match r with Ok z => z | Err _ => 0 end).

(** "Store the response for future replays". *)
Definition save_response (key : string) (calls : list rw_call) : St R unit :=
  let@ r := store_Store key (responseRecorder_body calls) (responseRecorder_status calls) in
  match r with
  | Ok _ => retS tt
  | Err _ => let@ _ := store_Unlock key in retS tt
  end.

Definition IdempotencyMiddleware (method key : string) : St (R * W) handled :=
  if negb (bool_decide (method = "POST")) && negb (bool_decide (method = "PUT"))
  then on_world next
  else if bool_decide (key = "") then on_world next
  else
    let@ r := on_redis (store_Check key) in
    match r with
    | Err _ => retS (Returned (writeJSON 500 (errorResponse "idempotency check failed")))
    | Ok (Some cached) =>
        let@ status := on_redis (status_or_zero key) in
        retS (Returned (replayed status cached))
    | Ok None =>
        let@ r := on_redis (store_Lock key) in
        match r with
        | Err _ => retS (Returned (writeJSON 500 (errorResponse "idempotency lock failed")))
        | Ok false => retS (Returned conflict_response)
        | Ok true =>
            let@ h := on_world next in
            match h with
            | Panicked calls => retS (Panicked calls)
            | Returned calls =>
                let@ _ := on_redis (save_response key calls) in
                retS (Returned calls)
            end
        end
    end.

(** ** Interleaved requests

    Where a write request with a key stands between two commands. *)
Inductive phase :=
| Arrived
| Hit (cached : string)              (* a cached response was found *)
| Checked                            (* none was found *)
| Locked                             (* the lock is held, the handler has not run *)
| Ran (calls : list rw_call)         (* the handler has returned *)
| Unlocking (calls : list rw_call)   (* the response could not be stored *)
| Finished (h : handled).

Definition advance (key : string) (p : phase) : St (R * W) phase :=
  match p with
  | Arrived =>
      let@ r := on_redis (store_Check key) in
      retS match r with
           | Err _ => Finished (Returned (writeJSON 500 (errorResponse "idempotency check failed")))
           | Ok (Some cached) => Hit cached
           | Ok None => Checked
           end
  | Hit cached =>
      let@ status := on_redis (status_or_zero key) in
      retS (Finished (Returned (replayed status cached)))
  | Checked =>
      let@ r := on_redis (store_Lock key) in
      retS match r with
           | Err _ => Finished (Returned (writeJSON 500 (errorResponse "idempotency lock failed")))
           | Ok false => Finished (Returned conflict_response)
           | Ok true => Locked
           end
  | Locked =>
      let@ h := on_world next in
      retS match h with
           | Panicked calls => Finished (Panicked calls)
           | Returned calls => Ran calls
           end
  | Ran calls =>
      let@ r := on_redis (store_Store key (responseRecorder_body calls)
                            (responseRecorder_status calls)) in
      retS match r with
           | Ok _ => Finished (Returned calls)
           | Err _ => Unlocking calls
           end
  | Unlocking calls =>
      let@ _ := on_redis (store_Unlock key) in
      retS (Finished (Returned calls))
  | Finished h => retS (Finished h)
  end.

Fixpoint advance_n (n : nat) (key : string) (p : phase) : St (R * W) phase :=
  match n with
  | 0%nat => retS p
  | S n => let@ p := advance key p in advance_n n key p
  end.

(** A request, with the times at which it took the lock and at which it was done
    with it, and whether storing its response has failed. *)
Record request := MkRequest {
  rq_key : string;
  rq_phase : phase;
  rq_taken : option Z;
  rq_left : option Z;
  rq_unstored : bool;
}.

Definition arrived (key : string) : request := MkRequest key Arrived None None false.

(** The requests between taking the lock and storing the response. *)
Definition holding (p : phase) : bool :=
  match p with Locked | Ran _ => true | _ => false end.

(** The next step of a request, at the time [now]. *)
Definition advance_request (now : Z) (q : request) (s : R * W) : request * (R * W) :=
  let '(p, s) := advance (rq_key q) (rq_phase q) s in
  let was := holding (rq_phase q) in
  (MkRequest (rq_key q) p
     (if negb was && holding p then Some now else rq_taken q)
     (if was && negb (holding p) then Some now else rq_left q)
     (match p with Unlocking _ => true | _ => rq_unstored q end), s).

(** A configuration: the requests in flight, the time and the state. *)
Record requests := MkRequests {
  in_flight : list request;
  rs_clock : Z;
  store_and_world : R * W;
}.

(** Redis drops a key when its time to live is over, not before. A lock that
    was taken at [t] can be dropped from [t + lockTTL] on, as the program never
    renews it; of other keys nothing is assumed. *)
Context (live : R -> gmap string string).
Record drops (l : list request) (now : Z) (r r' : R) : Prop := {
  drops_only : live r' ⊆ live r;
  drops_late q t :
    q ∈ l -> holding (rq_phase q) = true -> rq_taken q = Some t -> now < t + lockTTL ->
    live r' !! idempotencyLock (rq_key q) = live r !! idempotencyLock (rq_key q);
}.

Inductive request_step : requests -> requests -> Prop :=
| il_request l now s i q :
    l !! i = Some q ->
    request_step (MkRequests l now s)
      (MkRequests (<[i := (advance_request now q s).1]> l) now (advance_request now q s).2)
| il_time l now now' s :
    now <= now' -> request_step (MkRequests l now s) (MkRequests l now' s)
| il_expires l now r w r' :
    drops l now r r' -> request_step (MkRequests l now (r, w)) (MkRequests l now (r', w)).

(** The request has kept the lock for as long as the lock lives. *)
Definition overran (now : Z) (q : request) : Prop :=
  exists t, rq_taken q = Some t /\ t + lockTTL <= default now (rq_left q).

(** Redis answers every command. *)
Class RedisUp : Prop := {
  up_Get k r : is_Ok (redis_Get k r).1 = true;
  up_SetNX k v ttl r : is_Ok (redis_SetNX k v ttl r).1 = true;
  up_Exec cmds r : is_Ok (redis_Exec cmds r).1 = true;
  up_Del k r : is_Ok (redis_Del k r).1 = true;
}.
End store.
Arguments RedisUp R {RC}.

(** What a command that fails may have done: the connection can be lost before
    it is executed or after, and a pipeline can be executed in part. *)
Class RedisErrs (R : Type) `{RedisClient R} (live : R -> gmap string string) : Prop := {
  redis_Get_Err k r e r' : redis_Get k r = (Err e, r') -> live r' = live r;
  redis_SetNX_Err k v ttl r e r' :
    redis_SetNX k v ttl r = (Err e, r') ->
    live r' = live r \/ (live r !! k = None /\ live r' = <[k := v]> (live r));
  redis_Exec_Err cmds r e r' :
    redis_Exec cmds r = (Err e, r') ->
    exists done, done `sublist_of` cmds /\ live r' = foldl (fun m c => apply_cmd c m) (live r) done;
  redis_Del_Err k r e r' :
    redis_Del k r = (Err e, r') -> live r' = live r \/ live r' = delete k (live r);
}.

(** A Redis without failures and without expiry. *)
Definition map_redis : RedisClient (gmap string string) := {|
  redis_Get k m := (Ok (m !! k), m);
  redis_SetNX k v _ m :=
    match m !! k with
    | Some _ => (Ok false, m)
    | None => (Ok true, <[k := v]> m)
    end;
  redis_Exec cmds m := (Ok tt, foldl (fun m c => apply_cmd c m) m cmds);
  redis_Del k m := (Ok tt, delete k m);
|}.

Lemma map_redis_laws : @RedisLaws _ map_redis (fun m => m).
Proof.
  split; simpl.
  - intros k r v r' [= <- <-]. split; [done|]. by destruct (r !! k).
  - intros k v ttl r ok r'. destruct (r !! k); by intros [= <- <-].
  - intros cmds r r' [= <-]. done.
  - intros k r r' [= <-]. done.
Qed.

Lemma map_redis_up : @RedisUp _ map_redis.
Proof. split; try done. intros k v ttl r. simpl. by destruct (r !! k). Qed.

Lemma map_redis_errs : @RedisErrs _ map_redis (fun m => m).
Proof. split; simpl; try done. intros k v ttl r e r'. by destruct (r !! k). Qed.
