(* ===== verification/IdempotencyTheorems.v ===== *)
(** * Theorems on idempotency keys

    For every Redis with the documented behaviour: a completed request is
    replayed while Redis answers, and two requests with one key do not run at
    the same time unless one of them has kept its lock until it expired, or
    Redis failed to store a response. But a duplicate can run after the first
    request, and beside it when its lock expires, a panic leaves the lock of its
    key behind, the name of a key can be that of a lock, and a Redis that fails
    during a replay turns an error into a success. *)
From S2P Require Import Prelude Go Strconv Events Http Idempotency.
From stdpp Require Import base gmap strings list pretty.
Local Open Scope string_scope.
Local Open Scope list_scope.
Local Open Scope Z_scope.

(** The three names of a key are different. *)
Lemma key_names key :
  idempotencyKey key <> idempotencyLock key /\ idempotencyKey key <> idempotencyStatus key /\
  idempotencyLock key <> idempotencyStatus key.
Proof.
  unfold idempotencyKey, idempotencyLock, idempotencyStatus.
  split_and!; intros E; [apply (f_equal String.length) in E; rewrite !append_length in E; simpl in E; lia..|].
  by injection E.
Qed.

Lemma lock_inj key key' : idempotencyLock key = idempotencyLock key' -> key = key'.
Proof. unfold idempotencyLock. simpl. intros E. by injection E. Qed.

Lemma write_method method :
  method = "POST" \/ method = "PUT" ->
  negb (bool_decide (method = "POST")) && negb (bool_decide (method = "PUT")) = false.
Proof. by intros [-> | ->]. Qed.

Section idempotency.
Context {R : Type} `{RC : !RedisClient R} {live : R -> gmap string string} `{RL : !RedisLaws R live}.
Context {W : Type}.

(** ** One command or one run of the handler at a time *)

Lemma on_redis_bind {A B} (m : St R A) (k : A -> St (R * W) B) r w a r' :
  m r = (a, r') -> bindS (on_redis m) k (r, w) = k a (r', w).
Proof. intros H. rewrite bindS_run. unfold on_redis. cbn [fst snd]. by rewrite H. Qed.

Lemma on_world_bind {A B} (m : St W A) (k : A -> St (R * W) B) r w a w' :
  m w = (a, w') -> bindS (on_world m) k (r, w) = k a (r, w').
Proof. intros H. rewrite bindS_run. unfold on_world. cbn [fst snd]. by rewrite H. Qed.

Lemma bindS_eq {A B} (m : St R A) (k : A -> St R B) r a r' :
  m r = (a, r') -> bindS m k r = k a r'.
Proof. intros H. rewrite bindS_run. by rewrite H. Qed.

(** ** The commands, when Redis answers *)

Lemma store_Check_run key r :
  RedisUp R ->
  exists v r', store_Check key r = (Ok v, r') /\ live r' = live r /\
    match live r !! idempotencyKey key with None => v = None | Some s => s <> "" -> v = Some s end.
Proof using RL.
  intros Hup. destruct (is_Ok_run _ _ (up_Get (idempotencyKey key) r)) as (v & r' & H).
  exists v, r'. split; [exact H|]. by apply redis_Get_Ok.
Qed.

Lemma store_Lock_run key r :
  RedisUp R ->
  exists ok r', store_Lock key r = (Ok ok, r') /\
    match live r !! idempotencyLock key with
    | None => ok = true /\ live r' = <[idempotencyLock key := "processing"]> (live r)
    | Some _ => ok = false /\ live r' = live r
    end.
Proof using RL.
  intros Hup.
  destruct (is_Ok_run _ _ (up_SetNX (idempotencyLock key) "processing" lockTTL r)) as (ok & r' & H).
  exists ok, r'. split; [exact H|]. by eapply redis_SetNX_Ok.
Qed.

(** The live keys after a response has been stored. *)
Definition stored (key response : string) (status : Z) (m : gmap string string) : gmap string string :=
  delete (idempotencyLock key)
    (<[idempotencyStatus key := fmt_d status]> (<[idempotencyKey key := response]> m)).

Lemma store_Store_run key response status r :
  RedisUp R ->
  exists r', store_Store key response status r = (Ok tt, r') /\
    live r' = stored key response status (live r).
Proof using RL.
  intros Hup. unfold store_Store.
  match goal with |- context [redis_Exec ?c] => set (cmds := c) end.
  destruct (is_Ok_run _ _ (up_Exec cmds r)) as ([] & r' & H).
  exists r'. split; [exact H|]. by rewrite (redis_Exec_Ok _ _ _ H).
Qed.

Lemma stored_lookup key response status m :
  stored key response status m !! idempotencyKey key = Some response /\
  stored key response status m !! idempotencyStatus key = Some (fmt_d status) /\
  stored key response status m !! idempotencyLock key = None.
Proof.
  destruct (key_names key) as (H1 & H2 & H3). unfold stored. split_and!.
  - by rewrite lookup_delete_ne, lookup_insert_ne, lookup_insert_eq.
  - by rewrite lookup_delete_ne, lookup_insert_eq.
  - apply lookup_delete_eq.
Qed.

Lemma status_or_zero_run key r status :
  RedisUp R -> live r !! idempotencyStatus key = Some (fmt_d status) -> 0 <= status <= 999 ->
  exists r', status_or_zero key r = (status, r') /\ live r' = live r.
Proof using RL.
  intros Hup Hs Hr. unfold status_or_zero, store_GetStatus.
  destruct (is_Ok_run _ _ (up_Get (idempotencyStatus key) r)) as (v & r' & H).
  pose proof (redis_Get_Ok _ _ _ _ H) as [Hl Hv]. rewrite Hs in Hv.
  pose proof (atoi_status status Hr) as Ha.
  assert (fmt_d status <> "") as Hne by (intros E; by rewrite E in Ha).
  rewrite Hv in H by done. exists r'. rewrite bindS_run, (bind_run _ _ _ _ _ H), Ha. done.
Qed.

Lemma status_or_zero_live key r :
  RedisUp R -> exists status r', status_or_zero key r = (status, r') /\ live r' = live r.
Proof using RL.
  intros Hup. unfold status_or_zero, store_GetStatus.
  destruct (is_Ok_run _ _ (up_Get (idempotencyStatus key) r)) as (v & r' & H).
  pose proof (redis_Get_Ok _ _ _ _ H) as [Hl _].
  rewrite bindS_run, (bind_run _ _ _ _ _ H).
  destruct v as [v|]; [destruct (atoi v)|]; by eexists _, _.
Qed.

(** A request with a new key, from the handler's response on. *)
Lemma first_request (next : St W handled) key r w calls w1 :
  RedisUp R -> key <> "" ->
  live r !! idempotencyKey key = None -> live r !! idempotencyLock key = None ->
  next w = (Returned calls, w1) ->
  exists r1, IdempotencyMiddleware next "POST" key (r, w) = (Returned calls, (r1, w1)) /\
    live r1 = stored key (responseRecorder_body calls) (responseRecorder_status calls)
                (<[idempotencyLock key := "processing"]> (live r)).
Proof using RL.
  intros Hup Hk H1 H2 Hn. unfold IdempotencyMiddleware.
  rewrite bool_decide_eq_true_2, (bool_decide_eq_false_2 (key = "")) by done. cbn [negb andb].
  destruct (store_Check_run key r Hup) as (v & ra & Hc & Hla & Hv). rewrite H1 in Hv. subst v.
  rewrite (on_redis_bind _ _ _ _ _ _ Hc). cbn beta iota.
  destruct (store_Lock_run key ra Hup) as (ok & rb & Hl & Hv). rewrite Hla, H2 in Hv.
  destruct Hv as [-> Hlb]. rewrite (on_redis_bind _ _ _ _ _ _ Hl). cbn beta iota.
  rewrite (on_world_bind _ _ _ _ _ _ Hn). cbn beta iota.
  destruct (store_Store_run key (responseRecorder_body calls) (responseRecorder_status calls) rb Hup)
    as (rc & Hs & Hlc).
  exists rc. split; [|by rewrite Hlc, Hlb].
  assert (Hsave : save_response key calls rb = (tt, rc)).
  { unfold save_response. by rewrite (bindS_eq _ _ _ _ _ Hs). }
  by rewrite (on_redis_bind _ _ _ _ _ _ Hsave).
Qed.

(** A request whose response is stored. *)
Lemma repeated_request (next : St W handled) method key r w status body :
  RedisUp R -> key <> "" -> method = "POST" \/ method = "PUT" ->
  live r !! idempotencyKey key = Some body -> body <> "" ->
  live r !! idempotencyStatus key = Some (fmt_d status) -> 0 <= status <= 999 ->
  exists r', IdempotencyMiddleware next method key (r, w) = (Returned (replayed status body), (r', w)) /\
    live r' = live r.
Proof using RL.
  intros Hup Hk Hm L1 Hb L2 Hs.
  destruct (store_Check_run key r Hup) as (v & ra & Hc & Hla & Hv).
  rewrite L1 in Hv. rewrite Hv in Hc by done. rewrite <- Hla in L2.
  destruct (status_or_zero_run key ra status Hup L2 Hs) as (rb & Hz & Hlb).
  exists rb. split; [|by rewrite Hlb]. unfold IdempotencyMiddleware.
  rewrite (bool_decide_eq_false_2 (key = "")) by done.
  rewrite (write_method method Hm).
  rewrite (on_redis_bind _ _ _ _ _ _ Hc). cbn beta iota.
  by rewrite (on_redis_bind _ _ _ _ _ _ Hz).
Qed.

Lemma replayed_sent status body :
  0 < status ->
  sent_status (replayed status body) = status /\ sent_body (replayed status body) = body /\
  ("Idempotency-Replayed", "true") ∈ sent_headers (replayed status body).
Proof.
  intros Hs. unfold replayed. rewrite (proj2 (Z.eqb_neq _ 0)) by lia. cbn.
  split_and!; [done|apply append_nil_r|set_solver].
Qed.

(** Replay: once a request with a new key has been answered with a body
    and a status below 1000, and while the key is live, every further write
    request with that key gets the recorded status and body again (marked as
    replayed), and the handler does not run. *)
Theorem completed_request_is_replayed (next : St W handled) method key r w calls w1 :
  RedisUp R -> key <> "" -> method = "POST" \/ method = "PUT" ->
  live r !! idempotencyKey key = None -> live r !! idempotencyLock key = None ->
  next w = (Returned calls, w1) -> sent_body calls <> "" ->
  well_written calls -> 0 < sent_status calls <= 999 ->
  exists r1 r2 again,
    IdempotencyMiddleware next "POST" key (r, w) = (Returned calls, (r1, w1)) /\
    IdempotencyMiddleware next method key (r1, w1) = (Returned again, (r2, w1)) /\
    sent_status again = sent_status calls /\ sent_body again = sent_body calls /\
    ("Idempotency-Replayed", "true") ∈ sent_headers again /\ live r2 = live r1.
Proof using RL.
  intros Hup Hk Hm H1 H2 Hn Hb Hw Hs.
  destruct (first_request next key r w calls w1 Hup Hk H1 H2 Hn) as (r1 & Hf & Hl1).
  destruct (well_written_status calls Hw) as [Hst _]. rewrite <- Hst in Hl1.
  unfold responseRecorder_body in Hl1.
  destruct (stored_lookup key (sent_body calls) (sent_status calls)
              (<[idempotencyLock key := "processing"]> (live r))) as (L1 & L2 & _).
  rewrite <- Hl1 in L1, L2.
  destruct (repeated_request next method key r1 w1 _ _ Hup Hk Hm L1 Hb L2 ltac:(lia)) as (r2 & Ha & Hl2).
  destruct (replayed_sent (sent_status calls) (sent_body calls) ltac:(lia)) as (S1 & S2 & S3).
  by exists r1, r2, (replayed (sent_status calls) (sent_body calls)).
Qed.

(** A new key whose lock is taken. *)
Lemma locked_request_refused (next : St W handled) method key r w v :
  RedisUp R -> key <> "" -> method = "POST" \/ method = "PUT" ->
  live r !! idempotencyKey key = None -> live r !! idempotencyLock key = Some v ->
  exists r', IdempotencyMiddleware next method key (r, w) = (Returned conflict_response, (r', w)) /\
    live r' = live r.
Proof using RL.
  intros Hup Hk Hm H1 H2. unfold IdempotencyMiddleware.
  rewrite (bool_decide_eq_false_2 (key = "")) by done.
  rewrite (write_method method Hm).
  destruct (store_Check_run key r Hup) as (x & ra & Hc & Hla & Hv). rewrite H1 in Hv. subst x.
  destruct (store_Lock_run key ra Hup) as (ok & rb & Hl & Hv). rewrite Hla, H2 in Hv.
  destruct Hv as [-> Hlb]. exists rb. split; [|congruence].
  rewrite (on_redis_bind _ _ _ _ _ _ Hc). cbn beta iota.
  by rewrite (on_redis_bind _ _ _ _ _ _ Hl).
Qed.

(** A handler that panics leaves the lock of its key behind: the panic
    goes through the middleware, no response is stored, and every further
    write request with that key is refused with 409, without running, for as
    long as the lock lives. *)
Theorem panic_keeps_the_lock (next : St W handled) method key r w calls w1 :
  RedisUp R -> key <> "" -> method = "POST" \/ method = "PUT" ->
  live r !! idempotencyKey key = None -> live r !! idempotencyLock key = None ->
  next w = (Panicked calls, w1) ->
  exists r1, IdempotencyMiddleware next "POST" key (r, w) = (Panicked calls, (r1, w1)) /\
    forall r2 w2, live r2 = live r1 -> exists r3,
      IdempotencyMiddleware next method key (r2, w2) = (Returned conflict_response, (r3, w2)) /\
      live r3 = live r1.
Proof using RL.
  intros Hup Hk Hm H1 H2 Hn.
  destruct (store_Check_run key r Hup) as (v & ra & Hc & Hla & Hv). rewrite H1 in Hv. subst v.
  destruct (store_Lock_run key ra Hup) as (ok & rb & Hl & Hv). rewrite Hla, H2 in Hv.
  destruct Hv as [-> Hlb]. exists rb. split.
  - unfold IdempotencyMiddleware.
    rewrite bool_decide_eq_true_2, (bool_decide_eq_false_2 (key = "")) by done. cbn [negb andb].
    rewrite (on_redis_bind _ _ _ _ _ _ Hc). cbn beta iota.
    rewrite (on_redis_bind _ _ _ _ _ _ Hl). cbn beta iota.
    by rewrite (on_world_bind _ _ _ _ _ _ Hn).
  - intros r2 w2 E. rewrite <- E. apply (locked_request_refused _ _ _ _ _ "processing"); try done.
    + rewrite E, Hlb, lookup_insert_ne; [done|]. apply not_eq_sym, key_names.
    + rewrite E, Hlb. apply lookup_insert_eq.
Qed.

(** Keys share one name space with locks: completing a request whose key
    is "lock:k" leaves its response under the name of the lock of "k", so that
    a request with the key "k", never seen before, is refused with 409 and its
    handler does not run. *)
Theorem key_collision_refuses (next : St W handled) key r w calls w1 :
  RedisUp R -> key <> "" ->
  live r !! idempotencyKey ("lock:" +:+ key) = None ->
  live r !! idempotencyLock ("lock:" +:+ key) = None ->
  live r !! idempotencyKey key = None ->
  next w = (Returned calls, w1) ->
  exists r1 r2,
    IdempotencyMiddleware next "POST" ("lock:" +:+ key) (r, w) = (Returned calls, (r1, w1)) /\
    IdempotencyMiddleware next "POST" key (r1, w1) = (Returned conflict_response, (r2, w1)).
Proof using RL.
  intros Hup Hk H1 H2 H3 Hn.
  destruct (first_request next ("lock:" +:+ key) r w calls w1 Hup ltac:(done) H1 H2 Hn)
    as (r1 & Hf & Hl1).
  assert (Hn1 : live r1 !! idempotencyKey key = None).
  { rewrite Hl1. unfold stored. rewrite lookup_delete_ne, !lookup_insert_ne; [done|..];
      unfold idempotencyKey, idempotencyLock, idempotencyStatus; intros E;
      apply (f_equal String.length) in E; rewrite !append_length in E; simpl in E; lia. }
  assert (Hlock : live r1 !! idempotencyLock key = Some (responseRecorder_body calls)).
  { change (idempotencyLock key) with (idempotencyKey ("lock:" +:+ key)).
    rewrite Hl1. by destruct (stored_lookup ("lock:" +:+ key) (responseRecorder_body calls)
      (responseRecorder_status calls) (<[idempotencyLock ("lock:" +:+ key) := "processing"]> (live r)))
      as [-> _]. }
  destruct (locked_request_refused next "POST" key r1 w1 _ Hup Hk ltac:(by left) Hn1 Hlock)
    as (r2 & Hr & _).
  by exists r1, r2.
Qed.
(** The other way round: while the key "k" is locked, a write request whose key
    is "lock:k" is taken for the duplicate of a completed one. Its handler does
    not run, and it is answered with 200 and the body "processing", the text of
    the lock. *)
Theorem lock_is_replayed (next : St W handled) method key r w :
  RedisUp R -> method = "POST" \/ method = "PUT" ->
  live r !! idempotencyLock key = Some "processing" ->
  live r !! idempotencyStatus ("lock:" +:+ key) = None ->
  exists r' calls,
    IdempotencyMiddleware next method ("lock:" +:+ key) (r, w) = (Returned calls, (r', w)) /\
    sent_status calls = 200 /\ sent_body calls = "processing" /\ live r' = live r.
Proof using RL.
  intros Hup Hm Hl Hs. unfold IdempotencyMiddleware.
  rewrite (bool_decide_eq_false_2 (_ = "")) by done.
  rewrite (write_method method Hm).
  destruct (store_Check_run ("lock:" +:+ key) r Hup) as (v & ra & Hc & Hla & Hv).
  change (idempotencyKey ("lock:" +:+ key)) with (idempotencyLock key) in Hv. rewrite Hl in Hv.
  rewrite Hv in Hc by done. rewrite (on_redis_bind _ _ _ _ _ _ Hc). cbn beta iota.
  destruct (is_Ok_run _ _ (up_Get (idempotencyStatus ("lock:" +:+ key)) ra)) as (v' & rb & H).
  pose proof (redis_Get_Ok _ _ _ _ H) as [Hlb Hn]. rewrite Hla, Hs in Hn. subst v'.
  assert (status_or_zero ("lock:" +:+ key) ra = (0, rb)) as Hz.
  { unfold status_or_zero, store_GetStatus. by rewrite bindS_run, (bind_run _ _ _ _ _ H). }
  exists rb, (replayed 0 "processing"). rewrite (on_redis_bind _ _ _ _ _ _ Hz). split_and!; [done..|congruence].
Qed.

(** The error of GetStatus is dropped: when Redis answers the first command of a
    replay and fails on the second, a stored response is sent again with 200,
    whatever its status was, a stored error included. *)
Theorem replay_loses_status (next : St W handled) method key r w cached r1 e r2 :
  method = "POST" \/ method = "PUT" -> key <> "" ->
  redis_Get (idempotencyKey key) r = (Ok (Some cached), r1) ->
  redis_Get (idempotencyStatus key) r1 = (Err e, r2) ->
  exists calls, IdempotencyMiddleware next method key (r, w) = (Returned calls, (r2, w)) /\
    sent_status calls = 200 /\ sent_body calls = cached.
Proof.
  intros Hm Hk H1 H2. unfold IdempotencyMiddleware.
  rewrite (bool_decide_eq_false_2 (key = "")) by done.
  rewrite (write_method method Hm).
  rewrite (on_redis_bind (store_Check key) _ _ _ _ _ H1). cbn beta iota.
  assert (status_or_zero key r1 = (0, r2)) as Hz.
  { unfold status_or_zero, store_GetStatus. by rewrite bindS_run, (bind_fail _ _ _ _ _ H2). }
  exists (replayed 0 cached). rewrite (on_redis_bind _ _ _ _ _ _ Hz). split_and!; [done..|apply append_nil_r].
Qed.

(** ** Interleaved requests *)

Lemma advance_S (next : St W handled) n key p s :
  advance_n next (S n) key p s =
    advance_n next n key (advance next key p s).1 (advance next key p s).2.
Proof. apply bindS_run. Qed.

Lemma advance_finished (next : St W handled) n key h s :
  advance_n next n key (Finished h) s = (Finished h, s).
Proof. induction n as [|n IH]; [done|]. by rewrite advance_S. Qed.

Ltac advance_step H :=
  rewrite advance_S; cbn [advance]; rewrite (on_redis_bind _ _ _ _ _ _ H); cbn [retS fst snd].

(** A request alone, step by step, is the middleware. *)
Lemma advance_alone (next : St W handled) method key s :
  method = "POST" \/ method = "PUT" -> key <> "" ->
  advance_n next 5 key Arrived s =
    (Finished (IdempotencyMiddleware next method key s).1, (IdempotencyMiddleware next method key s).2).
Proof.
  intros Hm Hk. destruct s as [r w]. unfold IdempotencyMiddleware.
  rewrite (bool_decide_eq_false_2 (key = "")) by done.
  rewrite (write_method method Hm).
  destruct (store_Check key r) as [[[cached|]|e] r1] eqn:Hc;
    rewrite (on_redis_bind _ _ _ _ _ _ Hc); advance_step Hc; [|..|apply advance_finished].
  - destruct (status_or_zero key r1) as [st r2] eqn:Hz.
    rewrite (on_redis_bind _ _ _ _ _ _ Hz). advance_step Hz. apply advance_finished.
  - destruct (store_Lock key r1) as [[[|]|e] r2] eqn:Hl;
      rewrite (on_redis_bind _ _ _ _ _ _ Hl); advance_step Hl; [|apply advance_finished..].
    destruct (next w) as [[calls|calls] w1] eqn:Hn;
      rewrite (on_world_bind _ _ _ _ _ _ Hn), advance_S; cbn [advance];
      rewrite (on_world_bind _ _ _ _ _ _ Hn); [|apply advance_finished].
    destruct (store_Store key (responseRecorder_body calls) (responseRecorder_status calls) r2)
      as [[[]|e] r3] eqn:Hs; cbn [retS fst snd]; advance_step Hs.
    + rewrite (on_redis_bind _ _ _ _ tt r3); [apply advance_finished|].
      unfold save_response. by rewrite (bindS_eq _ _ _ _ _ Hs).
    + destruct (store_Unlock key r3) as [x r4] eqn:Hu. advance_step Hu.
      rewrite (on_redis_bind _ _ _ _ tt r4); [apply advance_finished|].
      unfold save_response. rewrite (bindS_eq _ _ _ _ _ Hs). by rewrite (bindS_eq _ _ _ _ _ Hu).
Qed.

Definition has_lock (key : string) (m : gmap string string) : Prop :=
  is_Some (m !! idempotencyLock key).

Lemma has_lock_insert key k v m : has_lock key m -> has_lock key (<[k := v]> m).
Proof.
  unfold has_lock. intros H.
  destruct (decide (k = idempotencyLock key)) as [->|Hne];
    [by rewrite lookup_insert_eq|by rewrite lookup_insert_ne].
Qed.

Lemma has_lock_delete key key' m :
  key' <> key -> has_lock key' m -> has_lock key' (delete (idempotencyLock key) m).
Proof.
  unfold has_lock. intros Hne H. rewrite lookup_delete_ne; [exact H|].
  intros E. by apply lock_inj in E.
Qed.

Context `{RE : !RedisErrs R live}.

(** What one step of a request does to the locks, whatever Redis answers, unless
    it is to store the response and fails, or follows that. *)
Definition unlocking (p : phase) : bool := match p with Unlocking _ => true | _ => false end.

Record lock_step (key : string) (p p' : phase) (m m' : gmap string string) : Prop := {
  step_other key' : key' <> key -> has_lock key' m -> has_lock key' m';
  step_waiting :
    holding p = false -> unlocking p = false -> has_lock key m -> has_lock key m';
  step_held : holding p' = true -> (holding p = true -> has_lock key m) -> has_lock key m';
  step_taken : holding p' = true -> holding p = false -> ~ has_lock key m;
}.

Lemma lock_step_same key p p' m :
  (holding p' = true -> holding p = true) -> lock_step key p p' m m.
Proof.
  intros Hh. split; auto. intros H1 H2. rewrite (Hh H1) in H2. done.
Qed.

Lemma lock_step_kept key p p' m m' :
  (forall key', has_lock key' m -> has_lock key' m') -> holding p' = false ->
  lock_step key p p' m m'.
Proof. intros Hm Hp. split; intros; auto; congruence. Qed.

Lemma lock_step_given_back key p p' m m' :
  (forall key', key' <> key -> has_lock key' m -> has_lock key' m') ->
  holding p || unlocking p = true -> holding p' = false -> lock_step key p p' m m'.
Proof.
  intros Hm Hp Hp'. split; intros; auto; try congruence.
  apply orb_true_iff in Hp as [?|?]; congruence.
Qed.

(** Part of the pipeline of [store_Store] leaves the locks of other keys. *)
Lemma stored_in_part key key' response status done m :
  key' <> key ->
  done `sublist_of` [CmdSet (idempotencyKey key) response DefaultTTL;
                     CmdSet (idempotencyStatus key) status DefaultTTL;
                     CmdDel (idempotencyLock key)] ->
  has_lock key' m -> has_lock key' (foldl (fun m c => apply_cmd c m) m done).
Proof.
  intros Hne Hd. assert (Hc : forall c, c ∈ done ->
    (exists k v, c = CmdSet k v DefaultTTL) \/ c = CmdDel (idempotencyLock key)).
  { intros c Hc. eapply sublist_subseteq in Hc; [|exact Hd]. set_solver. }
  clear Hd. revert m. induction done as [|c l IH]; intros m Hm; [done|]. cbn [foldl].
  apply IH; [intros c' Hc'; apply Hc; by constructor|].
  destruct (Hc c ltac:(by constructor)) as [(k & v & ->)| ->]; cbn;
    [by apply has_lock_insert|by apply has_lock_delete].
Qed.

(** What a request reads leaves everything as it is, what it takes, or cannot
    take, keeps the locks of the others. *)
Lemma store_Check_live key r : live (store_Check key r).2 = live r.
Proof using RL RE.
  unfold store_Check. destruct (redis_Get _ r) as [[v|e] r'] eqn:H; cbn [snd].
  - apply (redis_Get_Ok _ _ _ _ H).
  - by eapply redis_Get_Err.
Qed.

Lemma status_or_zero_reads key r : live (status_or_zero key r).2 = live r.
Proof using RL RE.
  unfold status_or_zero, store_GetStatus.
  rewrite bindS_run. destruct (redis_Get (idempotencyStatus key) r) as [[v|e] r'] eqn:H.
  - rewrite (bind_run _ _ _ _ _ H). destruct (redis_Get_Ok _ _ _ _ H) as [<- _].
    by destruct v as [v|]; [cbn; destruct (atoi v)|].
  - rewrite (bind_fail _ _ _ _ _ H). cbn [snd]. by eapply redis_Get_Err.
Qed.

Lemma advance_locks (next : St W handled) key p r w :
  lock_step key p (advance next key p (r, w)).1 (live r) (live (advance next key p (r, w)).2.1).
Proof using RL RE.
  destruct p as [|cached| | |calls|calls|h]; cbn [advance].
  - destruct (store_Check key r) as [v r'] eqn:H. rewrite (on_redis_bind _ _ _ _ _ _ H). cbn.
    pose proof (store_Check_live key r) as Hl. rewrite H in Hl. cbn in Hl. rewrite Hl.
    apply lock_step_same. by destruct v as [[?|]|].
  - destruct (status_or_zero key r) as [st r'] eqn:H. rewrite (on_redis_bind _ _ _ _ _ _ H). cbn.
    pose proof (status_or_zero_reads key r) as Hl. rewrite H in Hl. cbn in Hl. rewrite Hl.
    by apply lock_step_same.
  - destruct (store_Lock key r) as [[ok|e] r'] eqn:H; rewrite (on_redis_bind _ _ _ _ _ _ H); cbn.
    + apply redis_SetNX_Ok in H.
      destruct (live r !! idempotencyLock key) as [v|] eqn:E; destruct H as [-> ->];
        [by apply lock_step_same|].
      split; intros; try (by apply has_lock_insert).
      * unfold has_lock. rewrite lookup_insert_eq. done.
      * unfold has_lock. rewrite E. by intros [? ?].
    + apply lock_step_kept; [|done]. intros key'.
      apply redis_SetNX_Err in H as [->|[_ ->]]; [done|apply has_lock_insert].
  - rewrite bindS_run. unfold on_world. cbn [fst snd]. destruct (next w) as [h w']. cbn.
    by apply lock_step_same.
  - destruct (store_Store key (responseRecorder_body calls) (responseRecorder_status calls) r)
      as [[[]|e] r'] eqn:H; rewrite (on_redis_bind _ _ _ _ _ _ H); cbn;
      apply lock_step_given_back; try done; intros key' Hne.
    + apply redis_Exec_Ok in H. rewrite H. by eapply stored_in_part.
    + apply redis_Exec_Err in H as (part & Hp & ->). by eapply stored_in_part.
  - destruct (store_Unlock key r) as [x r'] eqn:H. rewrite (on_redis_bind _ _ _ _ _ _ H). cbn.
    apply lock_step_given_back; [|done..]. intros key' Hne Hk.
    destruct x as [[]|e]; [rewrite (redis_Del_Ok _ _ _ H); by apply has_lock_delete|].
    apply redis_Del_Err in H as [->| ->]; [done|by apply has_lock_delete].
  - by apply lock_step_same.
Qed.

(** *** The times of a request *)

Definition stamped (q : request) : Prop :=
  match rq_phase q with
  | Arrived | Checked => rq_taken q = None /\ rq_left q = None
  | Locked | Ran _ => (exists t, rq_taken q = Some t) /\ rq_left q = None
  | Unlocking _ => rq_unstored q = true
  | Hit _ | Finished _ => True
  end.

(** The phases that can follow a phase. *)
Definition next_phase (p p' : phase) : bool :=
  match p, p' with
  | Arrived, (Hit _ | Checked) | Checked, Locked | Locked, Ran _ | Ran _, Unlocking _
  | _, Finished _ => true
  | _, _ => false
  end.

Lemma advance_phase (next : St W handled) key p s : next_phase p (advance next key p s).1 = true.
Proof.
  destruct p; cbn [advance]; rewrite ?bindS_run; try done.
  - by destruct (on_redis _ s) as [[[?|]|?] ?].
  - by destruct (on_redis _ s) as [[[]|?] ?].
  - by destruct (on_world _ s) as [[?|?] ?].
  - by destruct (on_redis _ s) as [[?|?] ?].
Qed.

Lemma advance_request_key (next : St W handled) now q s :
  rq_key (advance_request next now q s).1 = rq_key q.
Proof. unfold advance_request. by destruct (advance _ _ _ _). Qed.

Lemma advance_request_spec (next : St W handled) now q s :
  let p' := (advance next (rq_key q) (rq_phase q) s).1 in
  let q' := (advance_request next now q s).1 in
  rq_phase q' = p' /\ (advance_request next now q s).2 = (advance next (rq_key q) (rq_phase q) s).2 /\
  (stamped q -> stamped q') /\ (unlocking p' = true -> rq_unstored q' = true) /\
  (stamped q -> overran now q -> overran now q') /\ (rq_unstored q = true -> rq_unstored q' = true).
Proof.
  cbn zeta. unfold advance_request, stamped, overran.
  destruct q as [key p taken left unstored]; cbn [rq_key rq_phase rq_taken rq_left rq_unstored].
  pose proof (advance_phase next key p s) as Hp.
  destruct (advance next key p s) as [p' s']. cbn [fst snd] in *.
  destruct p, p'; cbn in Hp; try done; cbn; split_and!; try done; try naive_solver;
    intros (t & -> & H); exists t; split; try done; by destruct left.
Qed.

(** *** The invariant: a key whose locks have been kept in time *)

Definition spoiled (now : Z) (l : list request) (key : string) : Prop :=
  exists q, q ∈ l /\ rq_key q = key /\ (overran now q \/ rq_unstored q = true).

Definition exclusive (key : string) (l : list request) (m : gmap string string) : Prop :=
  (forall q, q ∈ l -> rq_key q = key -> holding (rq_phase q) = true -> has_lock key m) /\
  (forall i j a b, l !! i = Some a -> l !! j = Some b -> rq_key a = key -> rq_key b = key ->
     holding (rq_phase a) = true -> holding (rq_phase b) = true -> i = j).

Definition kept_apart (c : requests (R:=R) (W:=W)) : Prop :=
  (forall q, q ∈ in_flight c -> stamped q) /\
  forall key, spoiled (rs_clock c) (in_flight c) key \/
    exclusive key (in_flight c) (live (store_and_world c).1).

Lemma elem_of_insert_cases (l : list request) i q x :
  x ∈ <[i := q]> l -> x = q \/ x ∈ l.
Proof.
  intros [j Hj]%list_elem_of_lookup. apply list_lookup_insert_Some in Hj as [(_ & ? & _)|[_ Hj]];
    [by left|right; by eapply list_elem_of_lookup_2].
Qed.

Lemma overran_later now now' q : now <= now' -> overran now q -> overran now' q.
Proof. intros Hn (t & Ht & Hl). exists t. split; [done|]. destruct (rq_left q); cbn in *; lia. Qed.

Lemma spoiled_step (next : St W handled) now l i q s key :
  l !! i = Some q -> stamped q -> spoiled now l key ->
  spoiled now (<[i := (advance_request next now q s).1]> l) key.
Proof.
  intros Hi Hst (x & Hx & Hk & Hs). apply list_elem_of_lookup in Hx as [j Hj].
  destruct (decide (i = j)) as [<-|Hne].
  - rewrite Hi in Hj. injection Hj as <-. exists (advance_request next now q s).1.
    destruct (advance_request_spec next now q s) as (_ & _ & _ & _ & Ho & Hu).
    split_and!; [|by rewrite advance_request_key|naive_solver].
    apply list_elem_of_lookup_2 with i, list_lookup_insert_eq. by eapply lookup_lt_Some.
  - exists x. split_and!; [|done|done]. apply list_elem_of_lookup_2 with j.
    by rewrite list_lookup_insert_ne.
Qed.

(** The step of a request with the key, as long as none has failed to store. *)
Lemma exclusive_step (next : St W handled) now l i q r w :
  let key := rq_key q in
  let s' := (advance_request next now q (r, w)).2 in
  l !! i = Some q -> unlocking (rq_phase q) = false -> exclusive key l (live r) ->
  exclusive key (<[i := (advance_request next now q (r, w)).1]> l) (live s'.1).
Proof using RL RE.
  intros key s' Hi Hun [Hlock Hone].
  destruct (advance_request_spec next now q (r, w)) as (Hp & Hs & _).
  pose proof (advance_request_key next now q (r, w)) as Hkey.
  destruct (advance_locks next key (rq_phase q) r w) as [_ Hwait Hheld Htaken].
  fold key in Hp, Hs. unfold s'. rewrite Hs. rewrite <- Hp in Hheld, Htaken. clear Hs Hp s'.
  set (q' := (advance_request next now q (r, w)).1) in *.
  assert (Hin : q ∈ l) by (by eapply list_elem_of_lookup_2).
  assert (Hone' : forall j b, holding (rq_phase q') = true -> j <> i -> l !! j = Some b ->
    rq_key b = key -> holding (rq_phase b) = true -> False).
  { intros j b Hq' Hne Hj Hb Hhb. destruct (holding (rq_phase q)) eqn:Hq.
    - exact (Hne (Hone _ _ _ _ Hj Hi Hb eq_refl Hhb Hq)).
    - apply (Htaken Hq' eq_refl). by apply (Hlock b); [eapply list_elem_of_lookup_2|..]. }
  split.
  - intros x [j Hj]%list_elem_of_lookup Hk Hh.
    apply list_lookup_insert_Some in Hj as [(<- & -> & _)|[Hne Hj]].
    { apply Hheld; [done|]. by apply Hlock. }
    assert (Hl : has_lock key (live r)) by (by apply (Hlock x); [eapply list_elem_of_lookup_2|..]).
    destruct (holding (rq_phase q)) eqn:Hq; [|by apply Hwait].
    by destruct Hne; eapply Hone.
  - intros a b x y Ha Hb Hkx Hky Hx Hy.
    apply list_lookup_insert_Some in Ha as [(<- & -> & _)|[Hna Ha]],
      Hb as [(<- & -> & _)|[Hnb Hb]]; [done|..].
    + by destruct (Hone' b y).
    + by destruct (Hone' a x).
    + by eapply Hone.
Qed.

(** The step of a request with another key. *)
Lemma exclusive_other (next : St W handled) now l i q r w key :
  l !! i = Some q -> rq_key q <> key -> exclusive key l (live r) ->
  exclusive key (<[i := (advance_request next now q (r, w)).1]> l)
    (live (advance_request next now q (r, w)).2.1).
Proof using RL RE.
  intros Hi Hne [Hlock Hone].
  destruct (advance_request_spec next now q (r, w)) as (_ & Hs & _). rewrite Hs.
  pose proof (advance_request_key next now q (r, w)) as Hkey.
  pose proof (step_other _ _ _ _ _ (advance_locks next (rq_key q) (rq_phase q) r w) key) as Hother.
  split.
  - intros x [->|Hx]%elem_of_insert_cases Hk Hh; [congruence|].
    apply Hother; [congruence|]. by apply (Hlock x).
  - intros a b x y Ha Hb Hkx Hky.
    apply list_lookup_insert_Some in Ha as [(_ & <- & _)|[_ Ha]]; [congruence|].
    apply list_lookup_insert_Some in Hb as [(_ & <- & _)|[_ Hb]]; [congruence|]. by eapply Hone.
Qed.

(** A lock that nobody has kept too long does not expire. *)
Lemma exclusive_drops l now r r' key :
  (forall q, q ∈ l -> stamped q) -> drops live l now r r' ->
  exclusive key l (live r) -> spoiled now l key \/ exclusive key l (live r').
Proof.
  intros Hst [_ He] [Hlock Hone].
  destruct (decide (Exists (fun q => rq_key q = key /\ holding (rq_phase q) = true) l)) as [Hq|Hn].
  2:{ right. split; [|done]. intros q Hq Hk Hh. destruct Hn. apply Exists_exists. eauto. }
  apply Exists_exists in Hq as (q & Hq & Hk & Hh).
  assert ((exists t, rq_taken q = Some t) /\ rq_left q = None) as [[t Ht] Hleft].
  { pose proof (Hst q Hq) as H. unfold stamped in H. by destruct (rq_phase q). }
  destruct (decide (now < t + lockTTL)) as [Hlt|Hge].
  - right. split; [|done]. intros _ _ _ _. unfold has_lock. rewrite <- Hk.
    rewrite (He q t) by done. rewrite Hk. by apply (Hlock q).
  - left. exists q. split_and!; [done..|]. left. exists t. rewrite Hleft. cbn. split; [done|lia].
Qed.

Lemma kept_apart_step (next : St W handled) c c' :
  request_step next live c c' -> kept_apart c -> kept_apart c'.
Proof using RL RE.
  intros Hs [Hst Hx]. destruct Hs as [l now [r w] i q Hi|l now now' [r w] Hn|l now r w r' He];
    cbn in *.
  - pose proof (advance_request_spec next now q (r, w)) as (_ & _ & Hq & Hun & _ & Hkeep).
    assert (Hin : q ∈ l) by (by eapply list_elem_of_lookup_2).
    split; cbn; [intros x [->|?]%elem_of_insert_cases; auto|]. intros key.
    destruct (Hx key) as [Hsp|Hex]; [left; apply spoiled_step; auto|].
    destruct (decide (rq_key q = key)) as [<-|Hne]; [|right; by apply exclusive_other].
    destruct (unlocking (rq_phase q)) eqn:Hu; [|right; by apply exclusive_step].
    left. apply spoiled_step; [done|auto|]. exists q. split_and!; [done..|]. right.
    pose proof (Hst q Hin) as H. unfold stamped in H. by destruct (rq_phase q).
  - split; [done|]. intros key. destruct (Hx key) as [(q & ? & ? & Hq)|?]; [left|by right].
    exists q. split_and!; [done..|]. destruct Hq; [left; by eapply overran_later|by right].
  - split; [done|]. intros key. destruct (Hx key) as [?|Hex]; [by left|].
    by eapply exclusive_drops.
Qed.

(** C18: mutual exclusion, for as long as a lock lives: requests with keys, any
    number of them, interleaved between any two commands to Redis, with time
    passing in between, commands that fail (executed or not, a pipeline in
    part), and entries that expire, locks too once their 30 seconds are over.
    If two requests with one key are both between taking the lock and storing
    the response, where the handler runs, then some request with that key has
    kept the lock for 30 seconds, or could not store its response: the program
    neither renews a lock nor checks that the one it gives back is its own. *)
Theorem requests_exclude_each_other (next : St W handled) (l : list request) now s c i j a b :
  (forall q, q ∈ l -> exists key, q = arrived key) ->
  rtc (request_step next live) (MkRequests l now s) c ->
  in_flight c !! i = Some a -> in_flight c !! j = Some b -> i <> j -> rq_key a = rq_key b ->
  holding (rq_phase a) = true -> holding (rq_phase b) = true ->
  exists q, q ∈ in_flight c /\ rq_key q = rq_key a /\
    (overran (rs_clock c) q \/ rq_unstored q = true).
Proof using RL RE.
  intros Hl Hr Ha Hb Hne Hk Hha Hhb.
  assert (H0 : kept_apart (MkRequests l now s)).
  { split; cbn; [by intros q (key & ->)%Hl|]. intros key. right. split.
    - by intros q (key' & ->)%Hl.
    - intros i' j' x y Hx. apply list_elem_of_lookup_2, Hl in Hx as [key' ->]. done. }
  assert (Hc : kept_apart c) by (revert H0; clear -Hr RL RE;
    induction Hr as [|c1 c2 c3 Hs _ IH]; intros H0; [done|]; apply IH; by eapply kept_apart_step).
  destruct Hc as [_ Hc]. destruct (Hc (rq_key a)) as [?|[_ Hone]]; [done|].
  destruct Hne. by eapply Hone.
Qed.

(** Two requests with one key can get from the phases [p] and [q] to others. *)
Definition reaches (next : St W handled) (key : string) (p q : phase) (s : R * W)
    (p' q' : phase) (s' : R * W) : Prop :=
  forall a b now, rq_key a = key -> rq_phase a = p -> rq_key b = key -> rq_phase b = q ->
  exists c, rtc (request_step next live) (MkRequests [a; b] now s) c /\
    rq_phase <$> in_flight c = [p'; q'] /\ store_and_world c = s'.

Lemma reaches_refl (next : St W handled) key p q s : reaches next key p q s p q s.
Proof. intros a b now _ <- _ <-. by exists (MkRequests [a; b] now s). Qed.

Lemma advance_request_phase (next : St W handled) now a s p' s' :
  advance next (rq_key a) (rq_phase a) s = (p', s') ->
  exists a', advance_request next now a s = (a', s') /\ rq_key a' = rq_key a /\ rq_phase a' = p'.
Proof. intros H. unfold advance_request. rewrite H. by eexists. Qed.

(** One step of one of two requests. *)
Lemma step_first (next : St W handled) key p q s p' s' p2 q2 s2 :
  advance next key p s = (p', s') ->
  reaches next key p' q s' p2 q2 s2 -> reaches next key p q s p2 q2 s2.
Proof.
  intros H Hr a b now <- <- Hb Hq.
  destruct (advance_request_phase next now a s p' s' H) as (a' & Ha & Hk & Hp).
  destruct (Hr a' b now Hk Hp Hb Hq) as (c & Hc & Hrest). exists c. split; [|done].
  eapply rtc_l; [|exact Hc].
  pose proof (il_request next live [a; b] now s 0 a eq_refl) as Hs. by rewrite Ha in Hs.
Qed.

Lemma step_second (next : St W handled) key p q s q' s' p2 q2 s2 :
  advance next key q s = (q', s') ->
  reaches next key p q' s' p2 q2 s2 -> reaches next key p q s p2 q2 s2.
Proof.
  intros H Hr a b now Ha Hp <- <-.
  destruct (advance_request_phase next now b s q' s' H) as (b' & Hb & Hk & Hq).
  destruct (Hr a b' now Ha Hp Hk Hq) as (c & Hc & Hrest). exists c. split; [|done].
  eapply rtc_l; [|exact Hc].
  pose proof (il_request next live [a; b] now s 1 b eq_refl) as Hs. by rewrite Hb in Hs.
Qed.

Lemma advance_check (next : St W handled) key r w :
  RedisUp R -> live r !! idempotencyKey key = None ->
  exists r', advance next key Arrived (r, w) = (Checked, (r', w)) /\ live r' = live r.
Proof using RL.
  intros Hup Hk. destruct (store_Check_run key r Hup) as (v & r' & H & Hl & Hv).
  rewrite Hk in Hv. subst v. exists r'. split; [|done]. cbn [advance]. by rewrite (on_redis_bind _ _ _ _ _ _ H).
Qed.

(** From the lock to the stored response, without another request. *)
Lemma advance_processes (next : St W handled) key r w calls w1 :
  RedisUp R -> live r !! idempotencyLock key = None -> next w = (Returned calls, w1) ->
  exists ra rb, advance next key Checked (r, w) = (Locked, (ra, w)) /\
    advance next key Locked (ra, w) = (Ran calls, (ra, w1)) /\
    advance next key (Ran calls) (ra, w1) = (Finished (Returned calls), (rb, w1)) /\
    live rb !! idempotencyLock key = None.
Proof using RL.
  intros Hup Hk Hn. destruct (store_Lock_run key r Hup) as (ok & ra & H & Hv).
  rewrite Hk in Hv. destruct Hv as [-> _].
  destruct (store_Store_run key (responseRecorder_body calls) (responseRecorder_status calls) ra Hup)
    as (rb & Hs & Hl).
  exists ra, rb. split_and!.
  - cbn [advance]. by rewrite (on_redis_bind _ _ _ _ _ _ H).
  - cbn [advance]. by rewrite (on_world_bind _ _ _ _ _ _ Hn).
  - cbn [advance]. by rewrite (on_redis_bind _ _ _ _ _ _ Hs).
  - rewrite Hl. apply stored_lookup.
Qed.

(** The lock is not enough: two requests with the same new key can both
    be executed, one after the other. The second looks for a stored response
    before the first has stored one, and asks for the lock after the first has
    given it back; it does not look again. *)
Theorem duplicate_is_processed (next : St W handled) key r w calls1 w1 calls2 w2 :
  RedisUp R ->
  live r !! idempotencyKey key = None -> live r !! idempotencyLock key = None ->
  next w = (Returned calls1, w1) -> next w1 = (Returned calls2, w2) ->
  exists r', forall now, exists c,
    rtc (request_step next live) (MkRequests [arrived key; arrived key] now (r, w)) c /\
    rq_phase <$> in_flight c = [Finished (Returned calls1); Finished (Returned calls2)] /\
    store_and_world c = (r', w2).
Proof using RL.
  intros Hup Hk Hl Hn1 Hn2.
  destruct (advance_check next key r w Hup Hk) as (ra & Ha & Hla). rewrite <- Hla in Hk, Hl.
  destruct (advance_check next key ra w Hup Hk) as (rb & Hb & Hlb). rewrite <- Hlb in Hl.
  destruct (advance_processes next key rb w calls1 w1 Hup Hl Hn1) as (rc & rd & A1 & A2 & A3 & Hl').
  destruct (advance_processes next key rd w1 calls2 w2 Hup Hl' Hn2) as (re & rf & B1 & B2 & B3 & _).
  exists rf. intros now. apply (fun H : reaches next key Arrived Arrived (r, w) _ _ (rf, w2) =>
    H (arrived key) (arrived key) now eq_refl eq_refl eq_refl eq_refl).
  eapply step_first; [exact Ha|]. eapply step_second; [exact Hb|].
  eapply step_first; [exact A1|]. eapply step_first; [exact A2|]. eapply step_first; [exact A3|].
  eapply step_second; [exact B1|]. eapply step_second; [exact B2|]. eapply step_second; [exact B3|].
  apply reaches_refl.
Qed.
End idempotency.

(** ** Witnesses: a counter behind the middleware, on the map *)

#[local] Existing Instances map_redis map_redis_laws map_redis_errs map_redis_up.

Definition count_requests : St Z handled := fun n => (Returned (writeJSON 201 (Ok (JNum n))), n + 1).

Lemma completed_request_is_replayed_witness :
  exists r1 r2 again,
    IdempotencyMiddleware count_requests "POST" "k" (∅, 0) =
      (Returned (writeJSON 201 (Ok (JNum 0))), (r1, 1)) /\
    IdempotencyMiddleware count_requests "PUT" "k" (r1, 1) = (Returned again, (r2, 1)) /\
    sent_status again = 201 /\ sent_body again = sent_body (writeJSON 201 (Ok (JNum 0))) /\
    ("Idempotency-Replayed", "true") ∈ sent_headers again /\ r2 = r1.
Proof.
  apply (completed_request_is_replayed (live := fun m => m) count_requests "PUT" "k" ∅ 0
           (writeJSON 201 (Ok (JNum 0))) 1); try done; try (by right); try apply _.
  apply writeJSON_well_written.
Defined.

Lemma key_collision_refuses_witness :
  exists r1 r2,
    IdempotencyMiddleware count_requests "POST" "lock:k" (∅, 0) =
      (Returned (writeJSON 201 (Ok (JNum 0))), (r1, 1)) /\
    IdempotencyMiddleware count_requests "POST" "k" (r1, 1) = (Returned conflict_response, (r2, 1)).
Proof.
  apply (key_collision_refuses (live := fun m => m) count_requests "k" ∅ 0
           (writeJSON 201 (Ok (JNum 0))) 1); try done; apply _.
Defined.

(** *** Runs as lists of moves, in nanoseconds *)

Inductive request_move := Next (i : nat) | Pass (d : Z) | Expire.

(** Everything may expire: nobody holds a lock that is younger than that. *)
Definition may_expire (l : list request) (now : Z) : bool :=
  forallb (fun q => negb (holding (rq_phase q)) ||
    match rq_taken q with Some t => t + lockTTL <=? now | None => true end) l.

Definition apply_request_move (c : requests (R:=gmap string string) (W:=Z)) (m : request_move) :
    requests :=
  let '(MkRequests l now (r, w)) := c in
  match m with
  | Next i =>
      match l !! i with
      | Some q =>
          let '(q, s) := advance_request count_requests now q (r, w) in MkRequests (<[i := q]> l) now s
      | None => c
      end
  | Pass d => MkRequests l (now + Z.max 0 d) (r, w)
  | Expire => if may_expire l now then MkRequests l now (∅, w) else c
  end.

Lemma apply_request_move_steps m c :
  rtc (request_step count_requests (fun m => m)) c (apply_request_move c m).
Proof.
  destruct c as [l now [r w]], m as [i|d|]; cbn [apply_request_move].
  - destruct (l !! i) as [q|] eqn:Hi; [|done]. apply rtc_once.
    pose proof (il_request count_requests (fun m => m) l now (r, w) i q Hi) as Hs.
    by destruct (advance_request count_requests now q (r, w)).
  - apply rtc_once, il_time. lia.
  - destruct (may_expire l now) eqn:He; [|done]. apply rtc_once, il_expires.
    split; [apply map_empty_subseteq|]. intros q t Hq Hh Ht Hlt. exfalso.
    unfold may_expire in He. rewrite forallb_forall in He.
    apply list_elem_of_In, He in Hq. rewrite Hh, Ht in Hq. cbn in Hq. bool_prop. lia.
Qed.

Lemma request_moves_steps ms c :
  rtc (request_step count_requests (fun m => m)) c (fold_left apply_request_move ms c).
Proof.
  revert c. induction ms as [|m ms IH]; intros c; [done|]. cbn [fold_left].
  etrans; [apply apply_request_move_steps|apply IH].
Qed.

Definition three_arrived : requests :=
  MkRequests [arrived "k"; arrived "k"; arrived "k"] 0 ((∅ : gmap string string), 0).

(** The first request takes the lock and is slow; its lock expires and the
    second takes it. *)
Definition lock_expires : list request_move :=
  [Next 0; Next 1; Next 2; Next 0; Pass lockTTL; Expire; Next 1].

(** Then the first comes to an end, and the third goes on. *)
Definition lock_given_back : list request_move := lock_expires ++ [Next 0; Next 0; Next 2].

Definition after_requests (ms : list request_move) : requests :=
  fold_left apply_request_move ms three_arrived.

Definition show_request (q : request) : bool * option Z * option Z :=
  (holding (rq_phase q), rq_taken q, rq_left q).

(** The lock is not enough in two more ways. A request that runs for longer
    than 30 seconds loses its lock to a duplicate, which runs beside it; and
    when it ends it deletes the lock of that duplicate, so that a third one
    runs beside the second, although both of these are in time. *)
Theorem expired_lock_lets_duplicates_in :
  rtc (request_step count_requests (fun m => m)) three_arrived (after_requests lock_expires) /\
  show_request <$> in_flight (after_requests lock_expires) =
    [(true, Some 0, None); (true, Some lockTTL, None); (false, None, None)] /\
  rtc (request_step count_requests (fun m => m)) three_arrived (after_requests lock_given_back) /\
  rs_clock (after_requests lock_given_back) = lockTTL /\
  show_request <$> in_flight (after_requests lock_given_back) =
    [(false, Some 0, Some lockTTL); (true, Some lockTTL, None); (true, Some lockTTL, None)].
Proof.
  split_and!; [apply request_moves_steps|vm_compute; reflexivity|apply request_moves_steps|
    vm_compute; reflexivity..].
Qed.

Lemma requests_exclude_each_other_witness :
  exists q, q ∈ in_flight (after_requests lock_expires) /\ rq_key q = "k" /\
    (overran (rs_clock (after_requests lock_expires)) q \/ rq_unstored q = true).
Proof.
  pose proof (request_moves_steps lock_expires three_arrived) as Hr.
  assert (exists a b, in_flight (after_requests lock_expires) !! 0%nat = Some a /\
    in_flight (after_requests lock_expires) !! 1%nat = Some b /\
    rq_key a = "k" /\ rq_key b = "k" /\
    holding (rq_phase a) = true /\ holding (rq_phase b) = true) as (a & b & Ha & Hb & Hka & Hkb & H1 & H2).
  { eexists _, _. split_and!; vm_compute; reflexivity. }
  fold (after_requests lock_expires) in Hr. unfold three_arrived in Hr.
  generalize dependent (after_requests lock_expires). intros c Hr Ha Hb. rewrite <- Hka.
  refine (requests_exclude_each_other (live := fun m => m) count_requests _ _ _ c 0 1 a b
    _ Hr Ha Hb _ _ H1 H2); [|done|congruence].
  intros q Hq. exists "k". set_solver.
Defined.

Lemma duplicate_is_processed_witness :
  exists r', forall now, exists c,
    rtc (request_step count_requests (fun m => m))
      (MkRequests [arrived "k"; arrived "k"] now (∅, 0)) c /\
    rq_phase <$> in_flight c =
      [Finished (Returned (writeJSON 201 (Ok (JNum 0)))); Finished (Returned (writeJSON 201 (Ok (JNum 1))))] /\
    store_and_world c = (r', 2).
Proof.
  apply (duplicate_is_processed (live := fun m => m) count_requests "k" ∅ 0
           (writeJSON 201 (Ok (JNum 0))) 1 (writeJSON 201 (Ok (JNum 1))) 2); try done; apply _.
Defined.

Lemma panic_keeps_the_lock_witness :
  exists r1, IdempotencyMiddleware (fun n => (Panicked [], n + 1)) "POST" "k" (∅, 0) =
      (Panicked [], (r1, 1)) /\
    forall r2 w2, r2 = r1 -> exists r3,
      IdempotencyMiddleware (fun n => (Panicked [], n + 1)) "PUT" "k" (r2, w2) =
        (Returned conflict_response, (r3, w2)) /\ r3 = r1.
Proof.
  apply (panic_keeps_the_lock (live := fun m => m) (fun n => (Panicked [], n + 1)) "PUT" "k" ∅ 0 [] 1);
    try done; try (by right); apply _.
Defined.
