(* ===== verification/HttpSpec.v ===== *)
(** * What the HTTP API promises

    [use_case] is the call of the application that a request asks for, [None]
    when the request is malformed; [serve_api] is proved to run it and to
    answer with the status that belongs to its outcome. *)
From S2P Require Import Prelude Go Identifiers Money Transaction Account Book Events Ports World.
From S2P Require Import LedgerService LedgerSafety Transfer TransferService TransferSpec.
From S2P Require Import Requests Postgres Projection Production Http Handlers.
From stdpp Require Import base gmap strings list.
From Stdlib Require Import SpecFloat.
Local Open Scope string_scope.
Local Open Scope list_scope.
Local Open Scope Z_scope.

(** ** Completed transfers *)
Section completed.
Context {U : UuidLib} {W : Type} `{R : !Runtime W}.
Context {s : LedgerService W} {view : W -> book} {inv : W -> Prop} {fresh : W -> UUID -> Prop}.
Context `{Safe : !SafeService s view inv fresh}.

(** The invariant is kept and no money is made or lost. *)
Definition balanced (w w' : W) : Prop :=
  inv w -> inv w' /\ forall cur, holdings cur (view w') ≡64 holdings cur (view w).

#[global] Instance balanced_preorder : PreOrder balanced.
Proof.
  split; [by intros w Hi|]. intros w1 w2 w3 H1 H2 Hi. destruct (H1 Hi) as [Hi2 E2].
  destruct (H2 Hi2) as [Hi3 E3]. split; [done|]. intros cur. by rewrite E3, E2.
Qed.

Lemma balanced_frame {A} (m : St W A) `{!Preserves view m} `{!Keeps inv m} : Steps balanced m.
Proof. intros w Hi. split; [by apply keeps|]. intros cur. by rewrite (preserves (f:=view)). Qed.

#[global] Instance now_balanced : Steps balanced time_Now.
Proof using Safe. apply balanced_frame; apply _. Qed.
#[global] Instance uuid_balanced : Steps balanced uuid_NewV7.
Proof using Safe. apply balanced_frame; apply _. Qed.

Lemma suspense_balanced cur : Steps balanced (suspenseAccountID s cur).
Proof using Safe.
  intros w Hi. unfold suspenseAccountID. rewrite bindS_run.
  destruct (getOrCreateSystemAccount_safe (suspenseName cur) "LIABILITY" cur w Hi) as (Hi1 & Hh & _).
  destruct (getOrCreateSystemAccount _ _ _ _ w) as [[acc|e] w1]; cbn in *;
    (split; [done|]; intros c; by rewrite Hh).
Qed.

Lemma leg_balanced cur (mk : AccountID -> RecordTransactionCmd) w tx w' :
  bindS (suspenseAccountID s cur) (fun id => RecordTransaction s (mk id)) w = (Ok tx, w') ->
  balanced w w'.
Proof using Safe.
  rewrite bindS_run. intros H. etrans; [exact (suspense_balanced cur w)|].
  intros Hi. split; [by apply (RecordTransaction_Ok _ _ _ _ Hi H)|].
  intros c. by eapply RecordTransaction_holdings.
Qed.

Lemma mark_balanced t :
  Steps balanced (MarkDebited t) /\ Steps balanced (MarkCompleted t).
Proof using Safe.
  split; unfold MarkDebited, MarkCompleted, addStep; destruct (bool_decide _); cbn [negb]; apply _.
Qed.

Lemma Execute_balanced cmd w o w' : Execute s cmd w = ((o, None), w') -> balanced w w'.
Proof using Safe.
  unfold Execute. destruct (NewMoney _ _) as [money|e]; [|done]. rewrite bindS_run.
  assert (Hn : Steps balanced (NewTransfer (TC_FromAccountID cmd) (TC_ToAccountID cmd) money
                                (TC_Description cmd))) by
    (unfold NewTransfer, addStep; destruct (AccountID_Equals _ _); apply _).
  specialize (Hn w). destruct (NewTransfer _ _ _ _ w) as [[t0|e] w0]; [|done]. cbn [fst snd] in *.
  rewrite bindS_run. destruct (debitSource s cmd w0) as [[tx1|e] w1] eqn:H1; cbn [fst snd];
    [|rewrite bindS_run; done].
  apply leg_balanced in H1.
  rewrite bindS_run. pose proof (proj1 (mark_balanced t0) w1) as Hd.
  destruct (MarkDebited t0 w1) as [[[e|] t1] w2]; [done|]. cbn [fst snd] in *.
  rewrite bindS_run. destruct (creditDestination s cmd w2) as [[tx2|e] w3] eqn:H2; cbn [fst snd].
  2:{ rewrite bindS_run. destruct (MarkFailed _ t1 w3) as [t2 w4]. cbn [fst snd].
      rewrite bindS_run. destruct (compensate s cmd w4) as [[tx3|e3] w5]; cbn [fst snd]; [|done].
      rewrite bindS_run. done. }
  apply leg_balanced in H2.
  rewrite bindS_run. pose proof (proj2 (mark_balanced t1) w3) as Hc.
  destruct (MarkCompleted t1 w3) as [[[e|] t2] w4]; [done|]. cbn [fst snd] in *.
  intros [= _ <-]. by rewrite Hn, H1, Hd, H2.
Qed.
End completed.

(** ** Which transfers are not created *)
Section rejected.
Context {U : UuidLib} {W : Type} `{R : !Runtime W}.
Context (s : LedgerService W).

Lemma Execute_None cmd w :
  (Execute s cmd w).1.1 = None <->
  validCurrency (TC_Currency cmd) = false \/ TC_FromAccountID cmd = TC_ToAccountID cmd.
Proof.
  split.
  - intros H. destruct (Execute_endings s cmd w); simpl in H; done || auto.
  - intros H. unfold Execute, NewMoney. destruct (validCurrency (TC_Currency cmd)); [|done].
    destruct H as [H|H]; [done|]. cbn [negb]. rewrite bindS_run. unfold NewTransfer, AccountID_Equals.
    by rewrite H, bool_decide_eq_true_2.
Qed.
(** A transfer that is not created leaves nothing behind. *)
Lemma Execute_None_world cmd w : (Execute s cmd w).1.1 = None -> (Execute s cmd w).2 = w.
Proof.
  intros H. apply Execute_None in H. unfold Execute, NewMoney.
  destruct (validCurrency (TC_Currency cmd)); [|done].
  destruct H as [H|H]; [done|]. cbn [negb]. rewrite bindS_run. unfold NewTransfer, AccountID_Equals.
  by rewrite H, bool_decide_eq_true_2.
Qed.
End rejected.

(** ** Use cases *)
Section use_cases.
Context {U : UuidLib} {O : Oracle} (int64_overflow : spec_float -> Z) (svc : LedgerService World).

Definition ignore {A} (m : M World A) : M World unit := let! _ := m in ret tt.

(** A transfer succeeds when it returns no error. *)
Definition transferred (cmd : TransferCmd) : M World unit :=
  let@ o := Execute svc cmd in
  match o.2 with None => ret tt | Some e => throw e end.

Definition transfer_cmd (from to : AccountID) (req : transferRequest) : TransferCmd :=
  MkTransferCmd from to (cents int64_overflow (TR_Amount req)) (or_default (TR_Currency req) USD)
    (or_default (TR_Description req) "Transfer").

Definition use_case (r : api_request) : option (M World unit) :=
  match r with
  | GetAccounts => Some (ignore ListAccounts)
  | GetAccountByID id => Some (ignore (GetAccountBalance id))
  | GetAccountTransactions id => Some (ignore (GetTransactionHistory id 100 0))
  | PostAccounts (Some req) =>
      Some (ignore (OpenAccount svc
        (MkOpenAccountCmd (OAR_Name req) (OAR_AccountType req) (OAR_Currency req))))
  | PostTransactions (Some req) =>
      match entryCmds (RTR_Entries req) with
      | Some entries =>
          Some (ignore (RecordTransaction svc (MkRecordTransactionCmd entries (RTR_Description req))))
      | None => None
      end
  | PostDeposit (Some req) =>
      match NewAccountID (DR_AccountID req) with
      | Ok id =>
          if cents int64_overflow (DR_Amount req) <=? 0 then None
          else Some (Deposit svc id (cents int64_overflow (DR_Amount req))
                       (or_default (DR_Currency req) USD) (or_default (DR_Description req) "Deposit"))
      | Err _ => None
      end
  | PostTransfers (Some req) =>
      match NewAccountID (TR_FromAccountID req), NewAccountID (TR_ToAccountID req) with
      | Ok from, Ok to => Some (transferred (transfer_cmd from to req))
      | _, _ => None
      end
  | PostAccounts None | PostTransactions None | PostDeposit None | PostTransfers None => None
  end.

Definition status_of (r : api_request) (ok : bool) : Z :=
  match r with
  | GetAccounts | GetAccountTransactions _ => if ok then 200 else 500
  | GetAccountByID _ => if ok then 200 else 404
  | PostDeposit _ => if ok then 200 else 422
  | PostAccounts _ | PostTransactions _ | PostTransfers _ => if ok then 201 else 422
  end.

(** The answer to a use case that ended with [ok]: a JSON response, or a panic. *)
Definition answers (r : api_request) (ok : bool) (h : handled) : Prop :=
  match h with
  | Returned calls => exists v, calls = writeJSON (status_of r ok) v
  | Panicked calls => ok = false /\ calls = []
  end.

Lemma ignore_run {A} (m : M World A) w :
  (ignore m w).2 = (m w).2 /\ is_Ok (ignore m w).1 = is_Ok (m w).1.
Proof. unfold ignore, bind, ret. by destruct (m w) as [[a|e] w']. Qed.

Lemma reply_answers r ok v : answers r ok (Returned (writeJSON (status_of r ok) v)).
Proof. by exists v. Qed.

(** [run] serves [m]: what it does to the world, and how it answers. *)
Definition serves_case (r : api_request) (run : St World handled) (m : M World unit) (w : World) : Prop :=
  (run w).2 = (m w).2 /\ answers r (is_Ok (m w).1) (run w).1.

Lemma serves_reply {A} r (m : M World A) (good : A -> res json) (bad : error -> res json) w :
  serves_case r
    (let@ x := m in
     match x with
     | Err e => reply (status_of r false) (bad e)
     | Ok a => reply (status_of r true) (good a)
     end) (ignore m) w.
Proof.
  destruct (ignore_run m w) as [H1 H2]. unfold serves_case. rewrite H1, H2, bindS_run.
  destruct (m w) as [[a|e] w']; (split; [done|apply reply_answers]).
Qed.

Lemma serves_ignored r run m w :
  serves_case r run (ignore m) w -> serves_case r run m w.
Proof. intros [H1 H2]. destruct (ignore_run m w) as [E1 E2]. unfold serves_case. by rewrite <- E1, <- E2. Qed.

Lemma serves_transfer body cmd w :
  serves_case (PostTransfers body)
    (let@ o := Execute svc cmd in
     match o with
     | (None, _) => retS (Panicked [])
     | (Some saga, Some err) => reply 422 (saga_json [("error", JStr (Error err))] saga)
     | (Some saga, None) => reply 201 (saga_json [] saga)
     end) (transferred cmd) w.
Proof.
  unfold serves_case, transferred. rewrite !bindS_run.
  destruct (Execute_endings svc cmd w); (split; [done|]); cbn;
    (split; reflexivity) || (eexists; reflexivity).
Qed.

Lemma serve_api_case r w :
  match use_case r with
  | None => exists msg, serve_api int64_overflow svc r w = (Returned (writeJSON 400 (errorResponse msg)), w)
  | Some m => serves_case r (serve_api int64_overflow svc r) m w
  end.
Proof.
  destruct r as [|[req|]|id|id|[req|]|[req|]|[req|]]; cbn [use_case serve_api];
    unfold Handler_ListAccounts, Handler_OpenAccount, Handler_GetBalance,
      Handler_GetTransactionHistory, Handler_RecordTransaction, Handler_Deposit, Handler_Transfer;
    try (by eexists); try apply serves_reply.
  - destruct (entryCmds (RTR_Entries req)); [apply serves_reply|by eexists].
  - destruct (NewAccountID (DR_AccountID req)) as [id|e]; [|by eexists].
    destruct (cents _ _ <=? 0); [by eexists|]. apply serves_ignored, serves_reply.
  - destruct (NewAccountID (TR_FromAccountID req)) as [from|e]; [|by eexists].
    destruct (NewAccountID (TR_ToAccountID req)) as [to|e]; [|by eexists].
    apply serves_transfer.
Qed.

(** The response of a handler of the API. *)
Lemma serve_api_written r w c w1 :
  serve_api int64_overflow svc r w = (Returned c, w1) ->
  exists status v, c = writeJSON status v /\ 200 <= status <= 500.
Proof.
  intros H. pose proof (serve_api_case r w) as Hc. destruct (use_case r) as [m|].
  - destruct Hc as [_ Ha]. rewrite H in Ha. destruct Ha as [v Hv]. eexists _, v. split; [exact Hv|].
    unfold status_of. destruct r, (is_Ok _); lia.
  - destruct Hc as [msg Hm]. rewrite H in Hm. injection Hm as -> _. eexists 400, _. split; [done|lia].
Qed.

Lemma transferred_world cmd w : (transferred cmd w).2 = (Execute svc cmd w).2.
Proof. unfold transferred. rewrite bindS_run. by destruct (Execute svc cmd w) as [[o [e|]] w']. Qed.

(** The only handler that panics is that of transfers that are not created. *)
Lemma serve_api_panic_inv r w calls w' :
  serve_api int64_overflow svc r w = (Panicked calls, w') ->
  exists req from to, r = PostTransfers (Some req) /\
    NewAccountID (TR_FromAccountID req) = Ok from /\ NewAccountID (TR_ToAccountID req) = Ok to /\
    use_case r = Some (transferred (transfer_cmd from to req)) /\
    (Execute svc (transfer_cmd from to req) w).1.1 = None /\
    (transferred (transfer_cmd from to req) w).2 = w.
Proof.
  intros H. destruct r as [|b|id|id|b|b|[req|]]; cbn [serve_api] in H.
  7:{ unfold Handler_Transfer in H.
      destruct (NewAccountID (TR_FromAccountID req)) as [from|e1] eqn:E1; [|done].
      destruct (NewAccountID (TR_ToAccountID req)) as [to|e2] eqn:E2; [|done].
      exists req, from, to. cbn [use_case]. rewrite E1, E2. split_and!; [done..| |].
      - rewrite bindS_run in H. fold (transfer_cmd from to req) in H.
        by destruct (Execute svc (transfer_cmd from to req) w) as [[[saga|] [e|]] w1].
      - rewrite transferred_world. apply Execute_None_world.
        rewrite bindS_run in H. fold (transfer_cmd from to req) in H.
        by destruct (Execute svc (transfer_cmd from to req) w) as [[[saga|] [e|]] w1]. }
  all: unfold Handler_ListAccounts, Handler_OpenAccount, Handler_GetBalance,
      Handler_GetTransactionHistory, Handler_RecordTransaction, Handler_Deposit in H;
      repeat (rewrite ?bindS_run in H; case_match); unfold reply, retS in H; done.
Qed.
End use_cases.
