(* ===== verification/Serving.v ===== *)
(** * The whole server: HTTP requests that run concurrently

    Each request is cut where other requests can run: between two commands that
    the idempotency middleware (internal/infra/http/idempotency.go) sends to
    Redis, and between two accesses of its handler (handlers.go) to the shared
    state. A handler that posts runs as a goroutine of the program of
    Processes.v; every other handler sends at most one statement, which only
    reads, and is one step. The requests run beside the outbox workers of
    cmd/api/main.go; stored responses expire; a restart loses the requests in
    flight, wherever they are, and keeps the tables and Redis.

    The middleware around it (Router.v) only reads the clock, which is a look at
    the state, and sets headers. *)
From S2P Require Import Prelude Go Identifiers Money Transaction Account Book Events Ports.
From S2P Require Import World LedgerService Transfer TransferService Postgres Projection Production.
From S2P Require Import Accesses OutboxWorker Processes Json Requests Http Handlers Idempotency.
From stdpp Require Import base gmap strings list.
From Stdlib Require Import SpecFloat.
Local Open Scope string_scope.
Local Open Scope list_scope.
Local Open Scope Z_scope.

Section serving.
Context {U : UuidLib} {O : Oracle} {Rd : Type} `{RC : !RedisClient Rd}.
Context {B : Type} (ow : OutboxWorker (B := B)) (ovf : spec_float -> Z).

(** ** Handlers as goroutines *)

(** What the handler of a request calls, if it gets that far and the call
    posts or opens an account. *)
Definition task_of (r : api_request) : option task :=
  match r with
  | PostAccounts (Some req) =>
      Some (OpenTask (MkOpenAccountCmd (OAR_Name req) (OAR_AccountType req) (OAR_Currency req)))
  | PostTransactions (Some req) =>
      (fun entries => RecordTask (MkRecordTransactionCmd entries (RTR_Description req))) <$>
        entryCmds (RTR_Entries req)
  | PostDeposit (Some req) =>
      match NewAccountID (DR_AccountID req) with
      | Ok id =>
          if cents ovf (DR_Amount req) <=? 0 then None
          else Some (DepositTask id (cents ovf (DR_Amount req)) (or_default (DR_Currency req) USD)
                       (or_default (DR_Description req) "Deposit"))
      | Err _ => None
      end
  | PostTransfers (Some req) =>
      match NewAccountID (TR_FromAccountID req), NewAccountID (TR_ToAccountID req) with
      | Ok from, Ok to =>
          Some (TransferTask (MkTransferCmd from to (cents ovf (TR_Amount req))
                  (or_default (TR_Currency req) USD) (or_default (TR_Description req) "Transfer")))
      | _, _ => None
      end
  | _ => None
  end.

(** What the handler writes once the call has returned. *)
Definition render (r : response) : handled :=
  match r with
  | Opened (Ok acc) => Returned (writeJSON 201 (Ok (account_json acc)))
  | Recorded (Ok tx) =>
      Returned (writeJSON 201 (Ok (JObj [("description", JStr (Transaction_description tx));
                                         ("transaction_id", JStr (TransactionID_String (Transaction_id tx)))])))
  | Deposited (Ok _) => Returned (writeJSON 200 (Ok (JObj [("status", JStr "deposited")])))
  | Transferred (Some saga, None) => Returned (writeJSON 201 (saga_json [] saga))
  | Transferred (Some saga, Some err) =>
      Returned (writeJSON 422 (saga_json [("error", JStr (Error err))] saga))
  | Transferred (None, _) => Panicked []
  | Opened (Err err) | Recorded (Err err) | Deposited (Err err) =>
      Returned (writeJSON 422 (errorResponse (Error err)))
  | Balance _ => Panicked []     (* no handler calls GetBalance of the service *)
  end.

(** ** Requests *)

(** A request for the API, decoded, or for another endpoint, of which only
    the response matters here. *)
Inductive wanted :=
| Api (r : api_request)
| Elsewhere (method : string) (h : handled).

Definition wanted_method (wd : wanted) : string :=
  match wd with Api r => api_method r | Elsewhere method _ => method end.

(** With its Idempotency-Key, "" for none. *)
Record http_call := MkCall { hc_key : string; hc_wanted : wanted }.

(** The request goes through the idempotency middleware. *)
Definition keyed (c : http_call) : bool :=
  (bool_decide (wanted_method (hc_wanted c) = "POST") || bool_decide (wanted_method (hc_wanted c) = "PUT")) &&
  negb (bool_decide (hc_key c = "")).

Definition task_for (wd : wanted) : option task :=
  match wd with Api r => task_of r | Elsewhere _ _ => None end.

(** The handler, run at once. *)
Definition handler (wd : wanted) : St World handled :=
  match wd with Api r => serve_api ovf production r | Elsewhere _ h => retS h end.

(** ** Where a request stands *)

Inductive stage :=
| AtRedis (p : phase)      (* in the middleware, before a command to Redis *)
| AtHandler                (* before its handler *)
| InHandler (i : nat)      (* its handler is the i-th goroutine of the program *)
| Answered (h : handled).

Definition arriving (c : http_call) : stage := if keyed c then AtRedis Arrived else AtHandler.

(** The handler has returned, or panicked. *)
Definition returned (c : http_call) (h : handled) : stage :=
  match h with
  | Returned calls => if keyed c then AtRedis (Ran calls) else Answered h
  | Panicked _ => Answered h
  end.

Definition after_command (p : phase) : stage :=
  match p with
  | Locked => AtHandler
  | Finished h => Answered h
  | p => AtRedis p
  end.

Definition with_world (p : program (B := B)) (w : World) : program :=
  MkProgram (p_requests p) (p_workers p) w (p_broker p).

(** Its next step. [advance] runs a handler in one phase only, [Locked], where
    no request stands. *)
Definition serve_step (c : http_call) (st : stage) : St (Rd * program) stage :=
  fun '(rd, p) =>
    match st with
    | AtRedis ph =>
        let '(ph', (rd', _)) := advance (retS (Panicked [])) (hc_key c) ph (rd, tt) in
        (after_command ph', (rd', p))
    | AtHandler =>
        match task_for (hc_wanted c) with
        | Some k =>
            (InHandler (length (p_requests p)),
             (rd, MkProgram (p_requests p ++ [MkGoroutine k []]) (p_workers p) (p_world p) (p_broker p)))
        | None =>
            let '(h, w') := handler (hc_wanted c) (p_world p) in
            (returned c h, (rd, with_world p w'))
        end
    | InHandler i =>
        match p_requests p !! i with
        | Some g =>
            match stands g with
            | inl _ =>
                let '(g', w') := advance_one g (p_world p) in
                (InHandler i, (rd, MkProgram (<[i := g']> (p_requests p)) (p_workers p) w' (p_broker p)))
            | inr resp => (returned c (render resp), (rd, p))
            end
        | None => (InHandler i, (rd, p))
        end
    | Answered h => (Answered h, (rd, p))
    end.

Fixpoint serve_steps (n : nat) (c : http_call) (st : stage) : St (Rd * program) stage :=
  match n with
  | 0%nat => retS st
  | S n => let@ st := serve_step c st in serve_steps n c st
  end.

(** ** The server *)

Record server := MkServer {
  sv_calls : list (http_call * stage);
  sv_redis : Rd;
  sv_program : program (B := B);
}.

Context (live : Rd -> gmap string string).

(** Any entries may expire, with two provisos: the status of a response, which
    is stored with it, does not expire before it, and neither expires between
    the two commands with which a request reads them. *)
Record expires (calls : list (http_call * stage)) (rd rd' : Rd) : Prop := {
  expires_less : live rd' ⊆ live rd;
  expires_status key :
    is_Some (live rd' !! idempotencyKey key) ->
    live rd' !! idempotencyStatus key = live rd !! idempotencyStatus key;
  expires_unread c cached :
    (c, AtRedis (Hit cached)) ∈ calls ->
    live rd' !! idempotencyStatus (hc_key c) = live rd !! idempotencyStatus (hc_key c);
}.

(** The requests that come. *)
Context (traffic : http_call -> Prop).

Inductive server_step : server -> server -> Prop :=
| serve_accept c l rd p :
    traffic c -> server_step (MkServer l rd p) (MkServer (l ++ [(c, arriving c)]) rd p)
| serve_advance i c st l rd p :
    l !! i = Some (c, st) ->
    server_step (MkServer l rd p)
      (MkServer (<[i := (c, (serve_step c st (rd, p)).1)]> l)
         (serve_step c st (rd, p)).2.1 (serve_step c st (rd, p)).2.2)
| serve_starts l rd rs ws w b :
    server_step (MkServer l rd (MkProgram rs ws w b)) (MkServer l rd (MkProgram rs (ws ++ [Idle]) w b))
| serve_worker j c l rd rs ws w b :
    ws !! j = Some c ->
    server_step (MkServer l rd (MkProgram rs ws w b))
      (MkServer l rd (MkProgram rs (<[j := (batch_step ow c (w, b)).1]> ws) (batch_step ow c (w, b)).2.1
         (batch_step ow c (w, b)).2.2))
| serve_skips j rows l rd rs ws w w' b :
    ws !! j = Some Idle -> rows ⊆+ pending (t_outbox (w_db w)) ->
    Z.of_nat (length rows) <= OW_batchSize ow -> background w w' ->
    server_step (MkServer l rd (MkProgram rs ws w b))
      (MkServer l rd (MkProgram rs (<[j := Batch (outbox_entry <$> rows) []]> ws) w' b))
| serve_looks l rd p w' :
    background (p_world p) w' -> server_step (MkServer l rd p) (MkServer l rd (with_world p w'))
| serve_expires l rd rd' p :
    expires l rd rd' -> server_step (MkServer l rd p) (MkServer l rd' p)
| serve_restarts l rd rs ws w b :
    server_step (MkServer l rd (MkProgram rs ws w b)) (MkServer [] rd (MkProgram [] [] (reboot w) b)).

(** An interleaving given by a list of steps, for concrete runs. *)
Inductive server_move := Accept (c : http_call) | Advance (i : nat) | Start | Publish (j : nat) | Crash.

Definition apply_server_move (m : server_move) (s : server) : server :=
  let '(MkServer l rd (MkProgram rs ws w b)) := s in
  match m with
  | Accept c => MkServer (l ++ [(c, arriving c)]) rd (MkProgram rs ws w b)
  | Advance i =>
      match l !! i with
      | Some (c, st) =>
          let '(st, (rd, p)) := serve_step c st (rd, MkProgram rs ws w b) in
          MkServer (<[i := (c, st)]> l) rd p
      | None => s
      end
  | Start => MkServer l rd (MkProgram rs (ws ++ [Idle]) w b)
  | Publish j =>
      match ws !! j with
      | Some c =>
          let '(c, (w, b)) := batch_step ow c (w, b) in MkServer l rd (MkProgram rs (<[j := c]> ws) w b)
      | None => s
      end
  | Crash => MkServer [] rd (MkProgram [] [] (reboot w) b)
  end.

(** The requests of a list of steps are of the traffic. *)
Definition in_traffic (m : server_move) : Prop := match m with Accept c => traffic c | _ => True end.

Lemma server_moved ms s :
  Forall in_traffic ms -> rtc server_step s (fold_left (fun s m => apply_server_move m s) ms s).
Proof.
  intros Hms. revert s. induction Hms as [|m ms Hm _ IH]; intros s; [done|]. cbn [fold_left].
  etrans; [|apply IH]. clear IH. destruct s as [l rd [rs ws w b]], m as [c|i| |j|]; cbn [apply_server_move].
  - by apply rtc_once, serve_accept.
  - destruct (l !! i) as [[c st]|] eqn:Hi; [|done]. apply rtc_once.
    pose proof (serve_advance i c st l rd (MkProgram rs ws w b) Hi) as H.
    by destruct (serve_step c st _) as [? [? ?]].
  - apply rtc_once, serve_starts.
  - destruct (ws !! j) as [c|] eqn:Hc; [|done]. apply rtc_once.
    pose proof (serve_worker j c l rd rs ws w b Hc) as H. by destruct (batch_step ow c (w, b)) as [? [? ?]].
  - apply rtc_once, serve_restarts.
Qed.
End serving.
