(* ===== verification/ServingTheorems.v ===== *)
(** * Theorems on the whole server

    The interleaved server refines the program of Processes.v, so that what is
    proved there of every interleaving holds of it; a request that runs alone is
    the sequential middleware around the sequential handler; and what a client
    is told has happened is durable, also when it is told so by a replay. *)
From S2P Require Import Prelude Go Strconv Identifiers Money Transaction Account Book Events Ports.
From S2P Require Import World LedgerService LedgerSafety Transfer TransferService InMemory Postgres.
From S2P Require Import Projection Production Scenario Reachable Accesses EventLog OutboxWorker.
From S2P Require Import WorkerTheorems ReadModel Processes Journal ProcessTheorems Json Requests Http.
From S2P Require Import Handlers Idempotency IdempotencyTheorems Serving.
From stdpp Require Import base gmap strings list relations sorting.
From Stdlib Require Import SpecFloat.
Local Open Scope string_scope.
Local Open Scope list_scope.
Local Open Scope Z_scope.

(** ** Handlers *)
Section handlers.
Context {U : UuidLib} {O : Oracle} (ovf : spec_float -> Z).

(** A handler that posts is its task and the rendering of its response. *)
Lemma handler_task r k w :
  task_of ovf r = Some k ->
  serve_api ovf production r w = (render (run_task production k w).1, (run_task production k w).2).
Proof.
  destruct r as [|[req|]|id|id|[req|]|[req|]|[req|]]; simpl; try done.
  - intros [= <-]. simpl. unfold responds. rewrite !bindS_run. simpl. by destruct (OpenAccount _ _ w) as [[acc|e] w'].
  - destruct (entryCmds (RTR_Entries req)) as [entries|]; [|done]. intros [= <-]. simpl. unfold responds.
    rewrite !bindS_run. simpl. by destruct (RecordTransaction _ _ w) as [[tx|e] w'].
  - destruct (NewAccountID (DR_AccountID req)) as [id|e]; [|done]. destruct (_ <=? 0); [done|].
    intros [= <-]. simpl. unfold responds. rewrite !bindS_run. simpl. by destruct (Deposit _ _ _ _ _ w) as [[[]|e] w'].
  - destruct (NewAccountID (TR_FromAccountID req)) as [from|e]; [|done].
    destruct (NewAccountID (TR_ToAccountID req)) as [to|e]; [|done]. intros [= <-]. simpl.
    unfold responds. rewrite !bindS_run. simpl. by destruct (Execute _ _ w) as [[[saga|] [e|]] w'].
Qed.

(** Any other handler only looks at the state, and refuses with 400 what
    cannot be posted. *)
Lemma handler_looks r : task_of ovf r = None -> Steps background (serve_api ovf production r).
Proof.
  assert (Hr : forall status v, Steps background (reply status v)) by (intros; apply _).
  destruct r as [|[req|]|id|id|[req|]|[req|]|[req|]]; simpl; try done; try (intros _; apply Hr).
  - intros _. unfold Handler_ListAccounts. apply steps_bindS; [apply _| |intros [l|e]; apply Hr].
    apply steps_wrapErr.
    apply (background_range (fun n => exec (fun _ d =>
      (Ok (merge_sort view_name_le (unordered n (map_to_list (t_account_balances d)).*2)), d)))).
    intros n. by apply background_exec.
  - intros _. unfold Handler_GetBalance, GetAccountBalance. apply steps_bindS; [apply _| |intros [l|e]; apply Hr].
    apply steps_bind; [apply _|by apply steps_wrapErr, background_exec|]. intros [v|]; apply _.
  - intros _. unfold Handler_GetTransactionHistory, GetTransactionHistory.
    apply steps_bindS; [apply _| |intros [l|e]; apply Hr]. apply steps_wrapErr.
    apply (background_range (fun n => exec (fun _ d => (Ok (take 100 (drop 0 (merge_sort newer
         (List.filter (fun r => bool_decide (th_AccountID r = id))
            (unordered n (t_transaction_history d)))))), d)))).
    intros n. by apply background_exec.
  - destruct (entryCmds (RTR_Entries req)) as [entries|] eqn:E; [done|]. intros _. apply Hr.
  - destruct (NewAccountID (DR_AccountID req)) as [id|e]; [|intros _; apply Hr].
    destruct (_ <=? 0); [intros _; apply Hr|done].
  - destruct (NewAccountID (TR_FromAccountID req)) as [from|e]; [|intros _; apply Hr].
    destruct (NewAccountID (TR_ToAccountID req)) as [to|e]; [done|intros _; apply Hr].
Qed.

Lemma refused_post r w :
  task_of ovf r = None -> api_method r = "POST" ->
  exists v, (serve_api ovf production r w).1 = Returned (writeJSON 400 v).
Proof.
  destruct r as [|[req|]|id|id|[req|]|[req|]|[req|]]; simpl; try done; try (intros _ _; by eexists).
  - destruct (entryCmds (RTR_Entries req)) as [entries|]; [done|]. intros _ _. by eexists.
  - destruct (NewAccountID (DR_AccountID req)) as [id|e]; [|intros _ _; by eexists].
    destruct (_ <=? 0); [intros _ _; by eexists|done].
  - destruct (NewAccountID (TR_FromAccountID req)) as [from|e]; [|intros _ _; by eexists].
    destruct (NewAccountID (TR_ToAccountID req)) as [to|e]; [done|intros _ _; by eexists].
Qed.
End handlers.

Section serving.
Context {U : UuidLib} {O : Oracle} {Rd : Type} `{RC : !RedisClient Rd}.
Context {B : Type} (ow : OutboxWorker (B := B)) (ovf : spec_float -> Z).

(** ** The server refines the program *)

Lemma handler_world wd p :
  task_for ovf wd = None -> rtc (program_step ow) p (with_world p (handler ovf wd (p_world p)).2).
Proof.
  intros Hk. destruct p as [rs ws w b]. apply rtc_once, step_looks. cbn [p_world].
  destruct wd as [r|m h]; [by apply (handler_looks ovf r)|reflexivity].
Qed.

Lemma serve_step_program c st rd p :
  rtc (program_step ow) p (serve_step ovf c st (rd, p)).2.2.
Proof.
  destruct st as [ph| |i|h]; simpl; [..|done].
  - by destruct (advance _ _ ph (rd, tt)) as [ph' [rd' []]].
  - destruct (task_for ovf (hc_wanted c)) as [k|] eqn:Hk.
    + destruct p as [rs ws w b]. apply rtc_once, step_arrives.
    + pose proof (handler_world _ p Hk) as H. by destruct (handler ovf (hc_wanted c) (p_world p)).
  - destruct (p_requests p !! i) as [g|] eqn:Hi; [|done]. destruct (stands g); [|done].
    destruct p as [rs ws w b]. pose proof (step_request ow i g rs ws w b Hi) as H. cbn [p_world].
    destruct (advance_one g w). by apply rtc_once.
Qed.

Context (live : Rd -> gmap string string) (traffic : http_call -> Prop).
Notation step := (server_step ow ovf live traffic).

Lemma server_step_program s s' : step s s' -> rtc (program_step ow) (sv_program s) (sv_program s').
Proof.
  intros [c l rd p _|i c st l rd p _|l rd rs ws w b|j c l rd rs ws w b Hj
    |j rows l rd rs ws w w' b Hj Hr Hn Ho|l rd p w' Ho|l rd rd' p _|l rd rs ws w b];
    cbn [sv_program]; try done.
  - apply serve_step_program.
  - apply rtc_once, step_starts.
  - by apply rtc_once, step_worker.
  - by apply rtc_once, step_skips.
  - destruct p as [rs ws w b]. by apply rtc_once, step_looks.
  - apply rtc_once, step_restarts.
Qed.

Lemma server_steps_program s s' : rtc step s s' -> rtc (program_step ow) (sv_program s) (sv_program s').
Proof. induction 1 as [s|s1 s2 s3 Hs _ IH]; [done|]. etrans; [by apply server_step_program|done]. Qed.

(** ** A request alone *)

Lemma serve_steps_app n m c st (s : Rd * program (B := B)) :
  serve_steps ovf (n + m) c st s = serve_steps ovf m c (serve_steps ovf n c st s).1 (serve_steps ovf n c st s).2.
Proof. revert st s. induction n as [|n IH]; intros st s; [done|]. simpl. by rewrite !bindS_run, IH. Qed.

(** [c] gets from [st] to [st'] by its own steps. *)
Definition gets (c : http_call) (st : stage) (s : Rd * program (B := B)) (st' : stage)
    (s' : Rd * program (B := B)) : Prop :=
  exists n, serve_steps ovf n c st s = (st', s').

Lemma gets_trans c st1 s1 st2 s2 st3 s3 :
  gets c st1 s1 st2 s2 -> gets c st2 s2 st3 s3 -> gets c st1 s1 st3 s3.
Proof. intros [n Hn] [m Hm]. exists (n + m)%nat. by rewrite serve_steps_app, Hn. Qed.

Lemma gets_step c st s st' s' : serve_step ovf c st s = (st', s') -> gets c st s st' s'.
Proof. intros H. exists 1%nat. simpl. by rewrite bindS_run, H. Qed.

Lemma gets_redis c ph rd (p : program (B := B)) ph' rd' :
  advance (retS (Panicked [])) (hc_key c) ph (rd, tt) = (ph', (rd', tt)) ->
  gets c (AtRedis ph) (rd, p) (after_command ph') (rd', p).
Proof. intros H. apply gets_step. simpl. by rewrite H. Qed.

(** Its goroutine, which runs alone. *)
Lemma gets_goroutine c rd n g (p : program (B := B)) i resp :
  p_requests p !! i = Some g -> stands (advance_many n g (p_world p)).1 = inr resp ->
  exists p', gets c (InHandler i) (rd, p) (returned c (render resp)) (rd, p') /\
    p_world p' = (advance_many n g (p_world p)).2.
Proof.
  revert g p. induction n as [|n IH]; intros g p Hi Hs.
  { exists p. split; [|done]. apply gets_step. simpl in *. by rewrite Hi, Hs. }
  simpl in Hs |- *. rewrite bindS_run in Hs |- *. destruct (stands g) as [x|r] eqn:Hg.
  - set (w' := (advance_one g (p_world p)).2) in *. set (g' := (advance_one g (p_world p)).1) in *.
    destruct (IH g' (MkProgram (<[i := g']> (p_requests p)) (p_workers p) w' (p_broker p)))
      as (p' & Hp' & Hw); [|done|].
    { simpl. apply list_lookup_insert_eq. by eapply lookup_lt_Some. }
    exists p'. split; [|done]. eapply gets_trans; [|exact Hp']. apply gets_step. simpl.
    rewrite Hi, Hg. unfold w', g'. by destruct (advance_one g (p_world p)).
  - assert (Ha : advance_one g (p_world p) = (g, p_world p)) by (unfold advance_one; by rewrite Hg).
    rewrite Ha in Hs |- *. by apply IH.
Qed.

(** Its handler, from the call to the return. *)
Lemma gets_handler c rd (p : program (B := B)) :
  exists p', gets c AtHandler (rd, p) (returned c (handler ovf (hc_wanted c) (p_world p)).1) (rd, p') /\
    p_world p' = (handler ovf (hc_wanted c) (p_world p)).2.
Proof.
  destruct (task_for ovf (hc_wanted c)) as [k|] eqn:Hk.
  - destruct (goroutine_alone k (p_world p)) as (n & Hw & Hs).
    set (p1 := MkProgram (p_requests p ++ [MkGoroutine k []]) (p_workers p) (p_world p) (p_broker p)).
    destruct (gets_goroutine c rd n (MkGoroutine k []) p1 (length (p_requests p)) (run_task production k (p_world p)).1)
      as (p' & Hp' & Hw'); [by apply list_lookup_middle|done|].
    exists p'. split; [|rewrite Hw'].
    + destruct (hc_wanted c) as [r|m h] eqn:Hr; [|done]. simpl in Hk. cbn [handler].
      rewrite (handler_task ovf r k) by done. eapply gets_trans; [|exact Hp']. apply gets_step. simpl.
      rewrite Hr. simpl. by rewrite Hk.
    + destruct (hc_wanted c) as [r|m h]; [|done]. cbn [handler]. by rewrite (handler_task ovf r k).
  - exists (with_world p (handler ovf (hc_wanted c) (p_world p)).2). split; [|done]. apply gets_step. simpl.
    rewrite Hk. by destruct (handler ovf (hc_wanted c) (p_world p)).
Qed.

(** A command to Redis does not touch the world. *)
Lemma advance_command {W} (next : St W handled) key ph rd w :
  ph <> Locked ->
  advance next key ph (rd, w) =
    let '(ph', (rd', _)) := advance (retS (Panicked [])) key ph (rd, tt) in (ph', (rd', w)).
Proof.
  intros Hp. destruct ph as [|cached| | |calls|calls|h]; try done; cbn [advance]; rewrite !bindS_run;
    unfold on_redis; cbn [fst snd].
  - by destruct (store_Check key rd).
  - by destruct (status_or_zero key rd).
  - by destruct (store_Lock key rd).
  - by destruct (store_Store key _ _ rd).
  - by destruct (store_Unlock key rd).
Qed.

(** The steps of the middleware around the handler, one for one. *)
Lemma gets_advance c ph rd (p : program (B := B)) :
  keyed c = true ->
  let '(ph', (rd', w')) := advance (handler ovf (hc_wanted c)) (hc_key c) ph (rd, p_world p) in
  exists p', gets c (after_command ph) (rd, p) (after_command ph') (rd', p') /\ p_world p' = w'.
Proof.
  intros Hk. assert (ph = Locked \/ ph <> Locked) as [-> |Hl] by (destruct ph; (by left) || by right).
  - destruct (gets_handler c rd p) as (p1 & Hh & Hw). cbn [advance]. rewrite bindS_run.
    unfold on_world. cbn [fst snd]. unfold returned in Hh. rewrite Hk in Hh.
    destruct (handler ovf (hc_wanted c) (p_world p)) as [[calls|calls] w']; by exists p1.
  - rewrite advance_command by done. destruct (advance _ _ ph (rd, tt)) as [ph' [rd' []]] eqn:Ha.
    exists p. split; [|done]. assert (ph = Locked \/ (exists h, ph = Finished h) \/ after_command ph = AtRedis ph)
      as [->|[[h ->]| ->]] by (destruct ph; eauto).
    + done.
    + cbn [advance] in Ha. injection Ha as <- <-. by exists 0%nat.
    + by apply gets_redis.
Qed.

Lemma gets_advance_n n c ph rd (p : program (B := B)) :
  keyed c = true ->
  let '(ph', (rd', w')) := advance_n (handler ovf (hc_wanted c)) n (hc_key c) ph (rd, p_world p) in
  exists p', gets c (after_command ph) (rd, p) (after_command ph') (rd', p') /\ p_world p' = w'.
Proof.
  intros Hk. revert ph rd p. induction n as [|n IH]; intros ph rd p; [by exists p; split; [exists 0%nat|]|].
  rewrite advance_S. pose proof (gets_advance c ph rd p Hk) as H1.
  destruct (advance _ _ ph _) as [ph1 [rd1 w1]]. destruct H1 as (p1 & G1 & <-). cbn [fst snd].
  specialize (IH ph1 rd1 p1). destruct (advance_n _ n _ ph1 _) as [ph2 [rd2 w2]].
  destruct IH as (p2 & G2 & Hw). exists p2. split; [by eapply gets_trans|done].
Qed.

Lemma keyed_spec c :
  keyed c = true <->
  (wanted_method (hc_wanted c) = "POST" \/ wanted_method (hc_wanted c) = "PUT") /\ hc_key c <> "".
Proof.
  unfold keyed. rewrite andb_true_iff, orb_true_iff, negb_true_iff, !bool_decide_eq_true, bool_decide_eq_false.
  done.
Qed.

(** C21: equivalence with the sequential server: whatever Redis and the
    database answer, a request whose steps nobody interrupts ends, and leaves
    the response, the state of Redis and the world that the middleware around
    its handler leaves, run in one go. *)
Theorem request_alone c rd (p : program (B := B)) :
  let '(h, (rd', w')) :=
    IdempotencyMiddleware (handler ovf (hc_wanted c)) (wanted_method (hc_wanted c)) (hc_key c) (rd, p_world p) in
  exists n p', serve_steps ovf n c (arriving c) (rd, p) = (Answered h, (rd', p')) /\ p_world p' = w'.
Proof.
  unfold arriving. destruct (keyed c) eqn:Hk.
  - pose proof (gets_advance_n 5 c Arrived rd p Hk) as H. apply keyed_spec in Hk as [Hm Hne].
    rewrite (advance_alone _ (wanted_method (hc_wanted c))) in H by done.
    destruct (IdempotencyMiddleware _ _ _ _) as [h [rd' w']]. destruct H as (p' & [n Hn] & Hw). by exists n, p'.
  - destruct (gets_handler c rd p) as (p' & [n Hn] & Hw).
    assert (IdempotencyMiddleware (handler ovf (hc_wanted c)) (wanted_method (hc_wanted c)) (hc_key c)
      (rd, p_world p) = on_world (handler ovf (hc_wanted c)) (rd, p_world p)) as ->.
    { unfold IdempotencyMiddleware. unfold keyed in Hk.
      apply andb_false_iff in Hk as [[-> ->]%orb_false_iff|H]; [done|].
      apply negb_false_iff in H. rewrite H. by destruct (_ && _). }
    unfold on_world. cbn [fst snd]. unfold returned in Hn. rewrite Hk in Hn.
    destruct (handler ovf (hc_wanted c) (p_world p)) as [h w']. exists n, p'. split; [|done]. by destruct h.
Qed.
End serving.
