(* ===== verification/Durability.v ===== *)
(** * What a client is told has happened is durable

    On the interleaved server of Serving.v: a client that has been told that its
    write succeeded, by the handler or by a replay of a stored response, can rely
    on a write with its key being in the event log for ever, whatever else the
    server does. *)
From S2P Require Import Prelude Go Strconv Identifiers Money Transaction Account Book Events Ports.
From S2P Require Import World LedgerService LedgerSafety Transfer TransferService Sample InMemory Postgres.
From S2P Require Import Projection Production Scenario Reachable Accesses EventLog OutboxWorker.
From S2P Require Import WorkerTheorems ReadModel Processes Journal ProcessTheorems Json Requests Http.
From S2P Require Import Handlers Idempotency IdempotencyTheorems Serving ServingTheorems.
From stdpp Require Import base gmap strings list relations.
From Stdlib Require Import SpecFloat.
Local Open Scope string_scope.
Local Open Scope list_scope.
Local Open Scope Z_scope.

(** ** Names in Redis *)

(** A key that is no name of a lock or of a status without the prefix. *)
Definition plain (key : string) : Prop := forall k, key <> "lock:" +:+ k /\ key <> "status:" +:+ k.

(** The response stored under a key, and its status, are the same. *)
Definition same_entry (key : string) (m m' : gmap string string) : Prop :=
  m' !! idempotencyKey key = m !! idempotencyKey key /\
  m' !! idempotencyStatus key = m !! idempotencyStatus key.

#[local] Instance same_entry_refl key : Reflexive (same_entry key).
Proof. by split. Qed.

Lemma plain_names key key' :
  plain key -> idempotencyKey key <> idempotencyLock key' /\ idempotencyKey key <> idempotencyStatus key' /\
  idempotencyStatus key <> idempotencyLock key'.
Proof.
  intros Hp. destruct (Hp key') as [H1 H2]. unfold idempotencyKey, idempotencyLock, idempotencyStatus. simpl.
  split_and!; intros E; simplify_eq; done.
Qed.

Lemma names_inj key key' :
  key <> key' -> idempotencyKey key <> idempotencyKey key' /\ idempotencyStatus key <> idempotencyStatus key'.
Proof.
  intros H. unfold idempotencyKey, idempotencyStatus. simpl. split; intros E; simplify_eq; done.
Qed.

Lemma locked_entry key key' v m : plain key -> same_entry key m (<[idempotencyLock key' := v]> m).
Proof. intros (H1 & _ & H2)%(plain_names _ key'). unfold same_entry. by rewrite !lookup_insert_ne. Qed.

Lemma unlocked_entry key key' m : plain key -> same_entry key m (delete (idempotencyLock key') m).
Proof. intros (H1 & _ & H2)%(plain_names _ key'). unfold same_entry. by rewrite !lookup_delete_ne. Qed.

Lemma stored_entry key key' body status m :
  plain key -> plain key' -> key <> key' -> same_entry key m (IdempotencyTheorems.stored key' body status m).
Proof.
  intros Hp Hp' Hne. destruct (plain_names key key' Hp) as (A & B & C), (plain_names key' key Hp') as (_ & D & _).
  destruct (names_inj key key' Hne) as [E F]. unfold same_entry, IdempotencyTheorems.stored.
  by rewrite !lookup_delete_ne, !lookup_insert_ne by done.
Qed.

(** ** Responses of writes *)
Section serving.
Context {U : UuidLib} {O : Oracle} {Rd : Type} `{RC : !RedisClient Rd}.
Context {B : Type} (ow : OutboxWorker (B := B)) (ovf : spec_float -> Z).


(** A response of the kind of the task. *)
Definition fits (k : task) (r : response) : bool :=
  match k, r with
  | OpenTask _, Opened _ | RecordTask _, Recorded _ | DepositTask _ _ _ _, Deposited _
  | BalanceTask _, Balance _ | TransferTask _, Transferred _ => true
  | _, _ => false
  end.

(** One without an error. *)
Definition succeeded (k : task) (r : response) : bool :=
  match k, r with
  | OpenTask _, Opened (Ok _) | RecordTask _, Recorded (Ok _) | DepositTask _ _ _ _, Deposited (Ok _)
  | TransferTask _, Transferred (Some _, None) => true
  | _, _ => false
  end.

Lemma run_task_fits {W} `{!Runtime W} (s : LedgerService W) k w : fits k (run_task s k w).1.
Proof. destruct k; simpl; unfold responds; rewrite bindS_run; done. Qed.

(** What a handler that posts writes. *)
Lemma render_written k resp calls :
  fits k resp -> render resp = Returned calls ->
  exists status v, calls = writeJSON status v /\ 200 <= status <= 422 /\
    (status < 300 -> succeeded k resp = true).
Proof.
  destruct k, resp; try done; cbn [render]; repeat case_match; try done; intros _ [= <-];
    eexists _, _; (split; [reflexivity|]); (split; [lia|]); done || lia.
Qed.

(** [h] is what the handler of [c] can have written, given the events that
    are [known]. *)
Definition outcome_of (known : DomainEvent -> Prop) (c : http_call) (h : handled) : Prop :=
  match hc_wanted c with
  | Elsewhere _ h' => h = h'
  | Api r =>
      match task_of ovf r with
      | Some k => exists resp, h = render resp /\ fits k resp /\ acknowledges known k resp
      | None => api_method r = "POST" -> exists v, h = Returned (writeJSON 400 v)
      end
  end.

(** The write of [c] has succeeded, and its events are [known]. *)
Definition carried_out (known : DomainEvent -> Prop) (c : http_call) : Prop :=
  exists r k resp, hc_wanted c = Api r /\ task_of ovf r = Some k /\
    succeeded k resp = true /\ acknowledges known k resp.

Lemma outcome_mono (known known' : DomainEvent -> Prop) c h :
  (forall e, known e -> known' e) -> outcome_of known c h -> outcome_of known' c h.
Proof.
  intros Hk. unfold outcome_of. destruct (hc_wanted c) as [r|]; [|done]. destruct (task_of ovf r); [|done].
  intros (resp & ? & ? & Ha). exists resp. split_and!; [done..|]. by eapply acknowledges_mono.
Qed.

(** A write to the API is answered with a status that the recorder sees. *)
Lemma outcome_written known c r calls :
  outcome_of known c (Returned calls) -> hc_wanted c = Api r -> api_method r = "POST" ->
  responseRecorder_status calls = sent_status calls /\ 200 <= sent_status calls <= 422 /\
  (sent_status calls < 300 -> carried_out known c).
Proof.
  unfold outcome_of. intros Ho Hr Hm. rewrite Hr in Ho. destruct (task_of ovf r) as [k|] eqn:Hk.
  - destruct Ho as (resp & Hh & Hf & Ha). destruct (render_written k resp calls Hf (eq_sym Hh)) as (st & v & -> & Hst & Hs).
    split; [symmetry; apply well_written_status, writeJSON_well_written|]. split; [exact Hst|].
    intros Hlt. exists r, k, resp. auto.
  - destruct (Ho Hm) as [v [= ->]].
    split; [symmetry; apply well_written_status, writeJSON_well_written|]. split; [simpl; lia|]. simpl. lia.
Qed.

(** ** One command of the middleware *)
Context {live : Rd -> gmap string string} `{RL : !RedisLaws Rd live} (Up : RedisUp Rd).

(** What a command of a request with the key [key] does to the stored
    responses. *)
Definition command_effect (key : string) (ph : phase) (m m' : gmap string string) : Prop :=
  (forall k, plain k -> same_entry k m m') \/
  (exists calls, ph = Ran calls /\
     m' = IdempotencyTheorems.stored key (responseRecorder_body calls) (responseRecorder_status calls) m).

(** What it makes of the phase. *)
Definition next_stage (key : string) (m : gmap string string) (ph : phase) (st : stage) : Prop :=
  match ph with
  | Arrived => (exists cached, st = AtRedis (Hit cached) /\ is_Some (m !! idempotencyKey key)) \/ st = AtRedis Checked
  | Hit cached =>
      forall status, m !! idempotencyStatus key = Some (fmt_d status) -> 0 <= status <= 999 ->
        st = Answered (Returned (replayed status cached))
  | Checked => st = AtHandler \/ st = Answered (Returned conflict_response)
  | Ran calls | Unlocking calls => st = Answered (Returned calls)
  | Locked | Finished _ => True
  end.

Lemma command key ph rd ph' rd' :
  ph <> Locked -> advance (retS (Panicked [])) key ph (rd, tt) = (ph', (rd', tt)) ->
  command_effect key ph (live rd) (live rd') /\ next_stage key (live rd) ph (after_command ph').
Proof using RL Up.
  intros Hp. destruct ph as [|cached| | |calls|calls|h]; try done; cbn [advance]; unfold next_stage.
  - destruct (store_Check_run key rd Up) as (v & r' & H & Hl & Hv). rewrite (on_redis_bind _ _ _ _ _ _ H).
    intros [= <- <-]. split; [left; by rewrite Hl|]. destruct v as [v|]; [left|by right].
    exists v. split; [done|]. by destruct (live rd !! idempotencyKey key).
  - destruct (status_or_zero_live key rd Up) as (st & r' & H & Hl). rewrite (on_redis_bind _ _ _ _ _ _ H).
    intros [= <- <-]. split; [left; by rewrite Hl|]. intros status Hs Hr.
    destruct (status_or_zero_run key rd status Up Hs Hr) as (r2 & H2 & _). rewrite H in H2. by injection H2 as <- <-.
  - destruct (store_Lock_run key rd Up) as (ok & r' & H & Hl). rewrite (on_redis_bind _ _ _ _ _ _ H).
    intros [= <- <-]. destruct (live rd !! idempotencyLock key); destruct Hl as [-> ->];
      (split; [left; intros k Hk; done || by apply locked_entry|]); (by left) || by right.
  - destruct (store_Store_run key (responseRecorder_body calls) (responseRecorder_status calls) rd Up)
      as (r' & H & Hl). rewrite (on_redis_bind _ _ _ _ _ _ H). intros [= <- <-]. split; [|done].
    right. by exists calls.
  - destruct (is_Ok_run _ _ (up_Del (idempotencyLock key) rd)) as ([] & r' & H).
    pose proof (redis_Del_Ok _ _ _ H) as Hl. rewrite (on_redis_bind _ _ _ _ _ _ H). intros [= <- <-].
    split; [left; intros k Hk; rewrite Hl; by apply unlocked_entry|done].
  - intros [= <- <-]. split; [by left|done].
Qed.

(** ** The invariant of the server *)
Context (traffic : http_call -> Prop).

(** The clients do not use the names of locks as keys, and send keys to the
    API only. *)
Context (Htraffic : forall c, traffic c -> keyed c = true -> plain (hc_key c) /\ exists r, hc_wanted c = Api r).

Definition in_log (p : program (B := B)) (e : DomainEvent) : Prop := ProcessTheorems.stored e (p_world p).

(** A write with this key was answered with this status. *)
Definition recorded_for (p : program (B := B)) (key : string) (status : Z) : Prop :=
  exists c calls, traffic c /\ keyed c = true /\ hc_key c = key /\
    outcome_of (in_log p) c (Returned calls) /\ status = responseRecorder_status calls.

Definition entry_ok (rd : Rd) (p : program (B := B)) (key : string) : Prop :=
  exists status, live rd !! idempotencyStatus key = Some (fmt_d status) /\ recorded_for p key status.

Definition stage_ok (rd : Rd) (p : program (B := B)) (c : http_call) (st : stage) : Prop :=
  match st with
  | AtRedis Arrived | AtRedis Checked => keyed c = true
  | AtRedis (Hit _) => keyed c = true /\ entry_ok rd p (hc_key c)
  | AtRedis (Ran calls) | AtRedis (Unlocking calls) => keyed c = true /\ outcome_of (in_log p) c (Returned calls)
  | AtRedis Locked | AtRedis (Finished _) => False
  | AtHandler => True
  | InHandler i => exists g, p_requests p !! i = Some g /\ task_for ovf (hc_wanted c) = Some (g_task g)
  | Answered h =>
      outcome_of (in_log p) c h \/ h = Returned conflict_response \/
      (keyed c = true /\ exists status cached,
        h = Returned (replayed status cached) /\ recorded_for p (hc_key c) status)
  end.

Record serving_ok (b : B) (s : server) : Prop := {
  so_reachable : rtc (program_step ow) (booted b) (sv_program s);
  so_calls c st : (c, st) ∈ sv_calls s -> traffic c /\ stage_ok (sv_redis s) (sv_program s) c st;
  so_entries key :
    plain key -> is_Some (live (sv_redis s) !! idempotencyKey key) -> entry_ok (sv_redis s) (sv_program s) key;
}.

(** The program has gone on, with the goroutines it had. *)
Record goes_on (p p' : program (B := B)) : Prop := {
  go_log e : in_log p e -> in_log p' e;
  go_goroutine i g : p_requests p !! i = Some g -> exists g', p_requests p' !! i = Some g' /\ g_task g' = g_task g;
}.

Lemma recorded_range p key status : recorded_for p key status -> 200 <= status <= 422.
Proof using Htraffic.
  intros (c & calls & Ht & Hk & _ & Ho & ->). destruct (Htraffic c Ht Hk) as [_ [r Hr]].
  destruct (keyed_spec c) as [Hm _]. destruct (Hm Hk) as [Hm' _]. rewrite Hr in Hm'.
  assert (api_method r = "POST") as Hpost by (simpl in Hm'; destruct r; naive_solver).
  by destruct (outcome_written _ c r calls Ho Hr Hpost) as (-> & ? & _).
Qed.

Lemma recorded_mono p p' key status :
  (forall e, in_log p e -> in_log p' e) -> recorded_for p key status -> recorded_for p' key status.
Proof.
  intros Hl (c & calls & ? & ? & ? & Ho & ?). exists c, calls. split_and!; [done..| |done].
  by eapply outcome_mono.
Qed.

Lemma entry_mono rd rd' p p' key :
  (forall e, in_log p e -> in_log p' e) ->
  live rd' !! idempotencyStatus key = live rd !! idempotencyStatus key ->
  entry_ok rd p key -> entry_ok rd' p' key.
Proof.
  intros Hl He (status & Hs & Hr). exists status. rewrite He. split; [done|]. by eapply recorded_mono.
Qed.

Lemma stage_mono rd rd' p p' c st :
  goes_on p p' ->
  (forall cached, st = AtRedis (Hit cached) -> keyed c = true ->
    entry_ok rd p (hc_key c) -> entry_ok rd' p' (hc_key c)) ->
  stage_ok rd p c st -> stage_ok rd' p' c st.
Proof.
  intros [Hl Hg] He. destruct st as [[]| |i|h]; simpl; try done.
  - intros []. eauto.
  - intros [? Ho]. split; [done|]. by eapply outcome_mono.
  - intros [? Ho]. split; [done|]. by eapply outcome_mono.
  - intros (g & Hi & Hk). destruct (Hg i g Hi) as (g' & ? & Ht). exists g'. by rewrite Ht.
  - intros [Ho|[?|(? & status & cached & ? & Hr)]]; [left|by right; left|right; right].
    + by eapply outcome_mono.
    + split; [done|]. exists status, cached. split; [done|]. by eapply recorded_mono.
Qed.

(** ** The steps of a request *)

#[local] Instance goes_on_preorder : PreOrder goes_on.
Proof.
  split; [split; eauto|]. intros p1 p2 p3 [L1 G1] [L2 G2]. split; [auto|].
  intros i g (g' & H' & <-)%G1. by apply G2.
Qed.

Lemma serve_step_goes_on c st rd p : goes_on p (serve_step ovf c st (rd, p)).2.2.
Proof.
  split; [intros e; apply (stored_steps ow), serve_step_program|].
  destruct st as [ph| |i|h]; simpl; [..|eauto].
  - destruct (advance _ _ ph (rd, tt)) as [ph' [rd' []]]. eauto.
  - destruct (task_for ovf (hc_wanted c)); simpl.
    + intros i g Hi. exists g. split; [|done]. by apply lookup_app_l_Some.
    + destruct (handler ovf (hc_wanted c) (p_world p)). eauto.
  - destruct (p_requests p !! i) as [g|] eqn:Hi; [|eauto]. destruct (stands g) as [x|] eqn:Hs; [|eauto].
    destruct (advance_one g (p_world p)) as [g' w'] eqn:Ha. simpl. intros j g0 Hj.
    destruct (decide (i = j)) as [<-|Hne]; [|rewrite list_lookup_insert_ne by done; eauto].
    rewrite list_lookup_insert_eq by by eapply lookup_lt_Some. exists g'. split; [done|].
    unfold advance_one in Ha. rewrite Hs, bindS_run in Ha. injection Ha as <- _. by simplify_eq/=.
Qed.

(** The response under [key] stays as it should be, or is stored as it should be. *)
Definition entries_follow (rd : Rd) (p : program (B := B)) (rd' : Rd) (p' : program (B := B)) (key : string) : Prop :=
  (entry_ok rd p key -> entry_ok rd' p' key) /\
  (is_Some (live rd' !! idempotencyKey key) -> is_Some (live rd !! idempotencyKey key) \/ entry_ok rd' p' key).

Lemma follow_same rd p rd' p' key :
  goes_on p p' -> same_entry key (live rd) (live rd') -> entries_follow rd p rd' p' key.
Proof. intros [Hl _] [E1 E2]. split; [by apply entry_mono|]. rewrite E1. by left. Qed.

Lemma command_entries c ph rd rd' p key :
  traffic c -> stage_ok rd p c (AtRedis ph) -> command_effect (hc_key c) ph (live rd) (live rd') -> plain key ->
  entries_follow rd p rd' p key.
Proof using Htraffic.
  intros Ht Hok Hc Hkey. destruct Hc as [Hs|(calls & -> & Hl)]; [by apply follow_same, Hs|].
  destruct Hok as [Hk Ho]. destruct (decide (key = hc_key c)) as [->|Hne].
  2:{ apply follow_same; [done|]. rewrite Hl. apply stored_entry; [done| |done]. by apply Htraffic. }
  assert (entry_ok rd' p (hc_key c)); [|by split; auto]. eexists. split; [rewrite Hl; apply stored_lookup|].
  exists c, calls. auto.
Qed.

Lemma returned_ok rd p c h : outcome_of (in_log p) c h -> stage_ok rd p c (returned c h).
Proof. intros Ho. unfold returned. destruct h; [destruct (keyed c) eqn:Hk|]; simpl; auto. Qed.

(** Where a handler that does not post gets. *)
Lemma handler_outcome known c w :
  task_for ovf (hc_wanted c) = None -> outcome_of known c (handler ovf (hc_wanted c) w).1.
Proof.
  unfold outcome_of. destruct (hc_wanted c) as [r|m h]; simpl; [|done]. intros Hk. rewrite Hk. intros Hm. by apply refused_post.
Qed.

(** Where a goroutine that has ended gets. *)
Lemma goroutine_outcome p c i g resp :
  program_journal p -> p_requests p !! i = Some g -> task_for ovf (hc_wanted c) = Some (g_task g) ->
  stands g = inr resp -> outcome_of (in_log p) c (render resp).
Proof.
  intros Hj Hi%list_elem_of_lookup_2 Hk Hs. unfold outcome_of.
  destruct (hc_wanted c) as [r|m h]; simpl in Hk; [|done]. rewrite Hk. exists resp. split_and!; [done| |].
  - pose proof (stands_ended g resp (pj_honest _ Hj g Hi) Hs) as H.
    pose proof (run_task_fits transcribed (g_task g) (start (g_heard g).*2)) as Hf. by rewrite H in Hf.
  - by apply (ended_acknowledges p).
Qed.

Lemma serve_step_stage b c st rd p :
  serving_ok b (MkServer [(c, st)] rd p) ->
  stage_ok (serve_step ovf c st (rd, p)).2.1 (serve_step ovf c st (rd, p)).2.2 c (serve_step ovf c st (rd, p)).1.
Proof using RL Up Htraffic.
  intros [Hr Hc He]. destruct (Hc c st) as [Ht Hok]; [by constructor|]. cbn [sv_redis sv_program] in *.
  pose proof (serve_step_goes_on c st rd p) as Hgo.
  destruct st as [ph| |i|h]; cbn [serve_step] in *.
  - destruct (advance _ _ ph (rd, tt)) as [ph' [rd' []]] eqn:Ha. cbn [fst snd].
    destruct (decide (keyed c = true)) as [Hk|Hk]; [|by destruct ph; simpl in Hok; destruct_and?].
    destruct (Htraffic c Ht Hk) as [Hp _]. apply command in Ha as [Hce Hn]; [|by intros ->].
    pose proof (command_entries c ph rd rd' p _ Ht Hok Hce Hp) as [Hmono _].
    destruct ph as [|cached| | |calls|calls|h]; simpl in Hok, Hn; try done.
    + destruct Hn as [(cached & -> & Hsome)| ->]; [|done]. split; [done|]. by apply Hmono, He.
    + destruct Hok as [_ (status & Hs & Hrec)]. pose proof (recorded_range _ _ _ Hrec).
      rewrite (Hn status Hs) by lia. right. right. split; [done|]. by exists status, cached.
    + destruct Hn as [-> | ->]; [done|]. by right; left.
    + rewrite Hn. left. by destruct Hok.
    + rewrite Hn. left. by destruct Hok.
  - destruct (task_for ovf (hc_wanted c)) as [k|] eqn:Hk.
    + exists (MkGoroutine k []). split; [|done]. by apply list_lookup_middle.
    + pose proof (fun known => handler_outcome known c (p_world p) Hk) as Ho.
      destruct (handler ovf (hc_wanted c) (p_world p)) as [h w']. apply returned_ok, Ho.
  - destruct Hok as (g & Hi & Hk). rewrite Hi in *. destruct (stands g) as [x|resp] eqn:Hs.
    + destruct (advance_one g (p_world p)) as [g' w']. destruct (go_goroutine _ _ Hgo i g Hi) as (g2 & ? & Htask).
      exists g2. by rewrite Htask.
    + apply returned_ok. eapply goroutine_outcome; [|done..]. by eapply booted_journal.
  - done.
Qed.

Lemma serve_step_entries c st rd p key :
  traffic c -> stage_ok rd p c st -> plain key ->
  entries_follow rd p (serve_step ovf c st (rd, p)).2.1 (serve_step ovf c st (rd, p)).2.2 key.
Proof using ow RL Up Htraffic.
  intros Ht Hok Hp. pose proof (serve_step_goes_on c st rd p) as Hgo.
  destruct st as [ph| |i|h]; [|apply follow_same; [exact Hgo|simpl]..].
  - cbn [serve_step]. destruct (advance _ _ ph (rd, tt)) as [ph' [rd' []]] eqn:Ha. cbn [fst snd].
    apply command in Ha as [Hce _]; [|by intros ->]. by apply (command_entries c ph).
  - destruct (task_for ovf (hc_wanted c)); [done|]. by destruct (handler ovf (hc_wanted c) (p_world p)).
  - destruct (p_requests p !! i) as [g|]; [|done]. destruct (stands g); [|done].
    by destruct (advance_one g (p_world p)).
  - done.
Qed.

(** ** The steps of the server *)
Notation step := (server_step ow ovf live traffic).

(** A step that touches neither Redis nor the requests. *)
Lemma elsewhere_ok b l rd p p' :
  program_step ow p p' -> p_requests p' = p_requests p ->
  serving_ok b (MkServer l rd p) -> serving_ok b (MkServer l rd p').
Proof.
  intros Hs Hr [H1 H2 H3]. cbn [sv_calls sv_redis sv_program] in *.
  assert (Hgo : goes_on p p').
  { split; [intros e; apply (stored_steps ow), rtc_once, Hs|]. rewrite Hr. eauto. }
  assert (He : forall key, entry_ok rd p key -> entry_ok rd p' key).
  { intros key. apply entry_mono; [apply Hgo|done]. }
  split; cbn [sv_calls sv_redis sv_program].
  - by eapply rtc_r.
  - intros c st [Ht Hok]%H2. split; [done|]. eapply stage_mono; [exact Hgo| |exact Hok]. auto.
  - auto.
Qed.

Lemma advance_ok b l rd p i c st :
  l !! i = Some (c, st) -> serving_ok b (MkServer l rd p) ->
  serving_ok b (MkServer (<[i := (c, (serve_step ovf c st (rd, p)).1)]> l)
    (serve_step ovf c st (rd, p)).2.1 (serve_step ovf c st (rd, p)).2.2).
Proof using RL Up Htraffic.
  intros Hi%list_elem_of_lookup_2 [H1 H2 H3]. cbn [sv_calls sv_redis sv_program] in *.
  destruct (H2 c st Hi) as [Ht Hok].
  pose proof (serve_step_stage b c st rd p) as Hst. pose proof (serve_step_goes_on c st rd p) as Hgo.
  pose proof (fun key => serve_step_entries c st rd p key Ht Hok) as He.
  pose proof (serve_step_program ow ovf c st rd p) as Hp. cbn zeta in He.
  split; cbn [sv_calls sv_redis sv_program].
  - by etrans.
  - intros c' st' [[= -> ->]|Hin]%insert_cases.
    + split; [done|]. apply Hst. split; [done| |done]. by intros c0 st0 [= -> ->]%list_elem_of_singleton.
    + destruct (H2 c' st' Hin) as [Ht' Hok']. split; [done|]. eapply stage_mono; [done| |done].
      intros cached _ Hk. apply He. by apply Htraffic.
  - intros key Hkey [Hs|?]%He; [|done..]. by apply He; [|apply H3].
Qed.

Lemma server_step_ok b s s' : step s s' -> serving_ok b s -> serving_ok b s'.
Proof using RL Up Htraffic.
  intros [c l rd p Hc|i c st l rd p Hi|l rd rs ws w br|j c l rd rs ws w br Hj
    |j rows l rd rs ws w w' br Hj Hr Hn Ho|l rd p w' Ho|l rd rd' p [E1 E2 E3]|l rd rs ws w br].
  - intros [H1 H2 H3]. split; [done| |done]. intros c' st' [Hin|[= -> ->]%list_elem_of_singleton]%elem_of_app; [by apply H2|].
    split; [done|]. unfold arriving. by destruct (keyed c) eqn:Hk.
  - by apply advance_ok.
  - by apply elsewhere_ok; [apply step_starts|].
  - by apply elsewhere_ok; [apply step_worker|].
  - by apply elsewhere_ok; [apply step_skips|].
  - destruct p as [rs ws w br]. by apply elsewhere_ok; [apply step_looks|].
  - intros [H1 H2 H3]. cbn [sv_calls sv_redis sv_program] in *. split; cbn [sv_calls sv_redis sv_program].
    + done.
    + intros c st Hin. destruct (H2 c st Hin) as [Ht Hok]. split; [done|]. eapply stage_mono; [reflexivity| |done].
      intros cached -> Hk. apply entry_mono; [done|]. by eapply E3.
    + intros key Hkey Hs. assert (is_Some (live rd !! idempotencyKey key)) as Hold.
      { destruct Hs as [v Hv]. exists v. by eapply lookup_weaken. }
      eapply (entry_mono rd); [done|by apply E2|by apply H3].
  - intros [H1 H2 H3]. cbn [sv_calls sv_redis sv_program] in *.
    assert (Hs : program_step ow (MkProgram rs ws w br) (MkProgram [] [] (reboot w) br)) by constructor.
    split; cbn [sv_calls sv_redis sv_program].
    + by eapply rtc_r.
    + intros c st Hin. by apply elem_of_nil in Hin.
    + intros key Hkey Hsome. eapply (entry_mono rd); [|done|by apply H3].
      intros e. apply (stored_steps ow). by apply rtc_once.
Qed.

Lemma server_ok b rd s :
  (forall key, live rd !! idempotencyKey key = None) ->
  rtc step (MkServer [] rd (booted b)) s -> serving_ok b s.
Proof using RL Up Htraffic.
  intros Hrd H. assert (H0 : serving_ok b (MkServer [] rd (booted b))).
  { split; cbn [sv_calls sv_redis sv_program]; [done| |].
    - intros c st Hin. by apply elem_of_nil in Hin.
    - intros key _. rewrite Hrd. by intros []. }
  revert H0. induction H as [s|s1 s2 s3 Hs _ IH]; [done|]. intros H0. by eapply IH, server_step_ok.
Qed.

(** Whose success a response reports: that of the request itself, or, when it
    is marked as replayed, that of a request of the traffic with its key. *)
Definition stands_for (c : http_call) (calls : list rw_call) (c' : http_call) : Prop :=
  c' = c \/
  (("Idempotency-Replayed", "true") ∈ sent_headers calls /\ traffic c' /\
   keyed c = true /\ keyed c' = true /\ hc_key c' = hc_key c).

Lemma answered_carried_out rd p c r calls :
  stage_ok rd p c (Answered (Returned calls)) -> hc_wanted c = Api r -> api_method r = "POST" ->
  sent_status calls < 300 -> exists c', stands_for c calls c' /\ carried_out (in_log p) c'.
Proof using RL Htraffic.
  intros [Ho|[[= ->]|(Hk & status & cached & [= ->] & Hrec)]] Hr Hm Hlt.
  - exists c. split; [by left|]. by eapply outcome_written.
  - exfalso. revert Hlt. simpl. lia.
  - pose proof (recorded_range _ _ _ Hrec). destruct (replayed_sent status cached) as (Hst & _ & Hh); [lia|].
    rewrite Hst in Hlt. destruct Hrec as (c' & calls' & Ht & Hk' & Hkey & Ho & ->).
    exists c'. split; [by right|]. destruct (Htraffic c' Ht Hk') as [_ [r' Hr']].
    pose proof (proj1 (keyed_spec c') Hk') as [Hm' _]. rewrite Hr' in Hm'.
    assert (api_method r' = "POST") as Hpost by (simpl in Hm'; destruct r'; naive_solver).
    destruct (outcome_written _ c' r' calls' Ho Hr' Hpost) as (E & _ & Hc). rewrite E in Hlt. auto.
Qed.

Context (delivered : B -> list message) `{Hp : !Promise (OW_publisher ow) delivered} `{OLaws : !OracleLaws}.

End serving.

(** ** Witness: a deposit, its duplicate, and a crash *)

#[local] Existing Instances map_redis map_redis_laws map_redis_up.

Definition ten_dollars : spec_float := S754_finite false 5629499534213120 (-49).
Definition open_call : http_call :=
  MkCall "" (Api (PostAccounts (Some (MkOpenAccountRequest "Alice" "ASSET" USD)))).
Definition deposit_call : http_call :=
  MkCall "k" (Api (PostDeposit (Some (MkDepositRequest (AccountID_String alice) ten_dollars USD "")))).

Definition sample_run : list server_move :=
  Accept open_call :: repeat (Advance 0) 8 ++ Accept deposit_call :: repeat (Advance 1) 40 ++
  Accept deposit_call :: repeat (Advance 2) 3.
Definition sample_aftermath : list server_move := Crash :: Start :: repeat (Publish 0) 4.

Definition run_server (ms : list server_move) : server -> server :=
  fold_left (fun s m => apply_server_move log_worker (fun _ => min_int64) m s) ms.
Definition fresh_server : server := MkServer [] (∅ : gmap string string) (booted ([] : list message)).
Definition sample_traffic (c : http_call) : Prop := c = open_call \/ c = deposit_call.

Lemma sample_traffic_ok c :
  sample_traffic c -> keyed c = true -> plain (hc_key c) /\ exists r, hc_wanted c = Api r.
Proof. intros [-> | ->]; [done|]. intros _. split; [|by eexists]. by intros k. Qed.

Lemma sample_reachable ms s :
  Forall (in_traffic sample_traffic) ms ->
  rtc (server_step log_worker (fun _ => min_int64) (fun m => m) sample_traffic) s (run_server ms s).
Proof. apply server_moved. Qed.

Lemma sample_run_traffic : Forall (in_traffic sample_traffic) sample_run.
Proof.
  unfold sample_run. cbn [repeat app].
  repeat (apply Forall_cons; split; [exact I || (by left) || by right|]). by constructor.
Qed.

Lemma run_server_app ms ms' s : run_server (ms ++ ms') s = run_server ms' (run_server ms s).
Proof. apply fold_left_app. Qed.

Lemma sample_aftermath_traffic : Forall (in_traffic sample_traffic) sample_aftermath.
Proof. by repeat constructor. Qed.

(** The duplicate is answered with the stored response. *)
Lemma sample_replay :
  exists cached, (deposit_call, Answered (Returned (replayed 200 cached))) ∈ sv_calls (run_server sample_run fresh_server).
Proof.
  eexists. apply (list_elem_of_lookup_2 _ 2). vm_compute. reflexivity.
Qed.

