(* ===== verification/Observability.v ===== *)
(** * internal/infra/observability and internal/infra/http/metrics_middleware.go

    The health check, and the middleware that counts requests. The instruments
    of OpenTelemetry and the PING of the Redis client are third-party and
    parameters; the Ping of pgxpool is a statement like any other, so that it
    fails when the database does. *)
From S2P Require Import Prelude Go Identifiers Events World Postgres Http.
From stdpp Require Import base gmap strings list pretty.
From Stdlib Require Import SpecFloat.
Local Open Scope string_scope.
Local Open Scope list_scope.
Local Open Scope Z_scope.

(** ** time.Duration *)
Module Duration.
Definition Microsecond : Z := 1000.
Definition Millisecond : Z := 1000000.
Definition Second : Z := 1000000000.

(** [v] counts units of 10^-n: its whole part, and its fraction without
    trailing zeros. *)
Definition frac (n : nat) (v : Z) : string :=
  fmt_d (v / 10 ^ Z.of_nat n) +:+ Rfc3339.fraction n (v mod 10 ^ Z.of_nat n).

Definition magnitude (u : Z) : string :=
  if u =? 0 then "0s"
  else if u <? Microsecond then fmt_d u +:+ "ns"
  else if u <? Millisecond then frac 3 u +:+ "µs"
  else if u <? Second then frac 6 u +:+ "ms"
  else
    let secs := u / Second in
    let s := fmt_d (secs mod 60) +:+ Rfc3339.fraction 9 (u mod Second) +:+ "s" in
    let mins := secs / 60 in
    if mins =? 0 then s
    else
      let s := fmt_d (mins mod 60) +:+ "m" +:+ s in
      let hours := mins / 60 in
      if hours =? 0 then s else fmt_d hours +:+ "h" +:+ s.

(** [d.String()]. *)
Definition text (d : Z) : string := if d <? 0 then "-" +:+ magnitude (- d) else magnitude d.

Example text_ms : text 1500000 = "1.5ms". Proof. reflexivity. Qed.
Example text_us : text (-1200) = "-1.2µs". Proof. reflexivity. Qed.
Example text_hm : text 5410000000000 = "1h30m10s". Proof. reflexivity. Qed.
Example text_s : text 2050000000 = "2.05s". Proof. reflexivity. Qed.

(** [d.Round(time.Second)], half away from zero, inside the range of int64. *)
Definition round_second (d : Z) : Z :=
  if d <? 0 then - ((- d + Second / 2) / Second * Second) else (d + Second / 2) / Second * Second.

(** [d.Seconds()]. *)
Definition float64_of_int (z : Z) : spec_float := binary_normalize 53 1024 z 0 false.
Definition Seconds (d : Z) : spec_float :=
  SFadd 53 1024 (float64_of_int (Z.quot d Second))
    (SFdiv 53 1024 (float64_of_int (Z.rem d Second)) (float64_of_int Second)).
End Duration.

(** ** health.go *)
Section health.
Context {U : UuidLib} {O : Oracle}.

(** [h.redis.Ping(ctx).Err()], and the package variable [startTime]. *)
Context (redis_Ping : M World unit) (startTime : time).

Record check := MkCheck {
  check_Status : string;
  check_Latency : string;
  check_Error : string;
}.

Record healthResponse := MkHealthResponse {
  HR_Status : string;
  HR_Checks : gmap string check;
  HR_Uptime : string;
}.

Definition db_Ping : M World unit := exec (fun _ d => (Ok tt, d)).

(** The body that [checkPostgres] and [checkRedis] share. *)
Definition timed_check (ping : M World unit) : St World check :=
  let@ start := time_Now in
  let@ err := ping in
  let@ now := time_Now in
  let latency := now - start in
  retS match err with
       | Err e => MkCheck "error" (Duration.text latency) (Error e)
       | Ok _ => MkCheck "ok" (Duration.text latency) ""
       end.

Definition checkPostgres : St World check := timed_check db_Ping.
Definition checkRedis : St World check := timed_check redis_Ping.

(** SELECT COUNT( * ) FROM outbox WHERE published = FALSE *)
Definition count_unpublished : M World Z :=
  exec (fun _ d => (Ok (Z.of_nat (length (List.filter (fun r => negb (ob_published r)) (t_outbox d)))), d)).

Definition backlog_status (count : Z) : string :=
  let status := "ok" in
  let status := if 100 <? count then "warning" else status in
  if 1000 <? count then "critical" else status.

Definition checkOutboxBacklog : St World check :=
  let@ r := count_unpublished in
  retS match r with
       | Err e => MkCheck "error" "" (Error e)
       | Ok count => MkCheck (backlog_status count) (fmt_d count +:+ " pending") ""
       end.

(** [omitempty] drops a field that is empty; maps are written in key order. *)
Definition nonempty (name value : string) : list (string * json) :=
  if bool_decide (value = "") then [] else [(name, JStr value)].

Definition check_json (c : check) : json :=
  JObj (("status", JStr (check_Status c)) ::
        nonempty "latency" (check_Latency c) ++ nonempty "error" (check_Error c)).

(** The keys that the handler sets, sorted. *)
Definition checks_json (m : gmap string check) : json :=
  JObj (omap (fun k => (fun c => (k, check_json c)) <$> m !! k) ["outbox"; "postgres"; "redis"]).

Definition healthResponse_json (r : healthResponse) : json :=
  JObj [("status", JStr (HR_Status r)); ("checks", checks_json (HR_Checks r));
        ("uptime", JStr (HR_Uptime r))].

Definition HealthChecker_Handler : St World handled :=
  let@ postgres := checkPostgres in
  let allHealthy := bool_decide (check_Status postgres = "ok") in
  let@ redis := checkRedis in
  let allHealthy := allHealthy && bool_decide (check_Status redis = "ok") in
  let@ outbox := checkOutboxBacklog in
  let checks := <["outbox" := outbox]> (<["redis" := redis]> (<["postgres" := postgres]> ∅)) in
  let status := if allHealthy then "healthy" else "degraded" in
  let httpStatus := if allHealthy then 200 else 503 in
  let@ now := time_Now in
  retS (Returned (writeJSON httpStatus (Ok (healthResponse_json
    (MkHealthResponse status checks (Duration.text (Duration.round_second (now - startTime)))))))).

Lemma timed_check_Ok ping w :
  check_Status (timed_check ping w).1 = "ok" <-> is_Ok (ping (tick_clock w)).1 = true.
Proof.
  unfold timed_check. rewrite !bindS_run. cbn [time_Now world_runtime fst snd].
  by destruct (ping (tick_clock w)) as [[[]|e] w'].
Qed.

(** The states in which the two pings are sent. *)
Lemma HealthChecker_status w :
  exists calls w', HealthChecker_Handler w = (Returned calls, w') /\ well_written calls /\
    sent_status calls =
      (if is_Ok (db_Ping (tick_clock w)).1 &&
          is_Ok (redis_Ping (tick_clock (checkPostgres w).2)).1 then 200 else 503).
Proof.
  unfold HealthChecker_Handler. rewrite !bindS_run. eexists _, _. split; [reflexivity|].
  split; [apply writeJSON_well_written|].
  pose proof (timed_check_Ok db_Ping w) as Hp.
  pose proof (timed_check_Ok redis_Ping (checkPostgres w).2) as Hr.
  fold checkPostgres in Hp. fold checkRedis in Hr. cbn -[bool_decide].
  replace (bool_decide (check_Status (checkPostgres w).1 = "ok"))
    with (is_Ok (db_Ping (tick_clock w)).1).
  2:{ destruct (is_Ok (db_Ping (tick_clock w)).1); symmetry;
        [apply bool_decide_eq_true|apply bool_decide_eq_false]; [by apply Hp|].
      intros E. by apply Hp in E. }
  replace (bool_decide (check_Status (checkRedis (checkPostgres w).2).1 = "ok"))
    with (is_Ok (redis_Ping (tick_clock (checkPostgres w).2)).1); [done|].
  destruct (is_Ok (redis_Ping (tick_clock (checkPostgres w).2)).1); symmetry;
    [apply bool_decide_eq_true|apply bool_decide_eq_false]; [by apply Hr|].
  intros E. by apply Hr in E.
Qed.
End health.

(** ** metrics.go and metrics_middleware.go *)

(** [attribute.KeyValue]. *)
Inductive attribute :=
| attribute_String (key value : string)
| attribute_Int (key : string) (value : Z).

Section metrics.
Context {U : UuidLib} {W : Type} `{R : !Runtime W}.

(** [RequestDuration.Record], [RequestCount.Add] and [TransfersByState.Add]. *)
Context (duration_Record : spec_float -> list attribute -> St W unit)
  (count_Add transfers_Add : Z -> list attribute -> St W unit).

Definition RecordRequest (method path : string) (status duration : Z) : St W unit :=
  let attrs := [attribute_String "method" method; attribute_String "path" path;
                attribute_Int "status" status] in
  let@ _ := duration_Record (Duration.Seconds duration) attrs in
  count_Add 1 attrs.

Definition RecordTransfer (state : string) : St W unit :=
  transfers_Add 1 [attribute_String "state" state].

(** [routePattern] reads what chi has matched by the time [next] has returned,
    empty when it has matched nothing. *)
Definition MetricsMiddleware (next : St W handled) (method : string) (routePattern : W -> string)
    (path : string) : St W handled :=
  let@ start := time_Now in
  let@ h := next in
  match h with
  | Panicked calls => retS (Panicked calls)
  | Returned calls =>
      let@ routePattern := (fun w => (routePattern w, w)) in
      let routePattern := if bool_decide (routePattern = "") then path else routePattern in
      let@ now := time_Now in
      let@ _ := RecordRequest method routePattern (statusRecorder_status calls) (now - start) in
      retS (Returned calls)
  end.

(** The middleware passes the response on unchanged. *)
Lemma MetricsMiddleware_passes next method pattern path w :
  (MetricsMiddleware next method pattern path w).1 = (next (time_Now w).2).1.
Proof.
  unfold MetricsMiddleware. rewrite !bindS_run.
  destruct (next (time_Now w).2) as [[calls|calls] w1]; cbn [fst snd]; [|done].
  by rewrite !bindS_run.
Qed.
End metrics.

(** *** The set-up of OpenTelemetry, and what is used of it *)

Class Otel (Mt : Type) := {
  Exporter : Type;
  MeterProvider : Type;
  Meter : Type;
  Float64Histogram : Type;
  Int64Counter : Type;
  Int64UpDownCounter : Type;
  prometheus_New : M Mt Exporter;
  NewMeterProvider : Exporter -> St Mt MeterProvider;
  SetMeterProvider : MeterProvider -> St Mt unit;
  provider_Meter : MeterProvider -> string -> St Mt Meter;
  (** Name, description and unit; the instrument is returned with any error. *)
  meter_Float64Histogram : Meter -> string -> string -> string -> St Mt (Float64Histogram * option error);
  meter_Int64Counter : Meter -> string -> string -> St Mt (Int64Counter * option error);
  meter_Int64UpDownCounter : Meter -> string -> string -> St Mt (Int64UpDownCounter * option error);
  Float64Histogram_Record : Float64Histogram -> spec_float -> list attribute -> St Mt unit;
  Int64Counter_Add : Int64Counter -> Z -> list attribute -> St Mt unit;
}.

Section setup.
Context {Mt : Type} `{Ot : !Otel Mt}.

Record Metrics := MkMetrics {
  RequestDuration : Float64Histogram;
  RequestCount : Int64Counter;
  ActiveAccounts : Int64UpDownCounter;
  TransactionAmount : Int64Counter;
  TransfersByState : Int64Counter;
  OutboxPending : Int64UpDownCounter;
  OutboxPublished : Int64Counter;
}.

(** The errors of the instruments are dropped. *)
Definition SetupMetrics : M Mt (Metrics * Exporter) :=
  let! exporter := prometheus_New in
  let@ provider := NewMeterProvider exporter in
  let@ _ := SetMeterProvider provider in
  let@ meter := provider_Meter provider "ledger-engine" in
  let@ requestDuration :=
    meter_Float64Histogram meter "http_request_duration_seconds" "HTTP request latency in seconds" "s" in
  let@ requestCount := meter_Int64Counter meter "http_requests_total" "Total HTTP requests" in
  let@ activeAccounts :=
    meter_Int64UpDownCounter meter "ledger_active_accounts" "Number of active accounts" in
  let@ transactionAmount :=
    meter_Int64Counter meter "ledger_transaction_amount_cents_total" "Total transaction amount in cents" in
  let@ transfersByState :=
    meter_Int64Counter meter "ledger_transfers_total" "Total transfers by final state" in
  let@ outboxPending :=
    meter_Int64UpDownCounter meter "outbox_pending_events" "Pending outbox events" in
  let@ outboxPublished :=
    meter_Int64Counter meter "outbox_published_total" "Total outbox events published" in
  ret (MkMetrics requestDuration.1 requestCount.1 activeAccounts.1 transactionAmount.1
         transfersByState.1 outboxPending.1 outboxPublished.1, exporter).

(** It fails only when the exporter does. *)
Lemma SetupMetrics_fails mt : is_Ok (SetupMetrics mt).1 = is_Ok (prometheus_New mt).1.
Proof.
  unfold SetupMetrics, bind. destruct (prometheus_New mt) as [[exporter|e] mt1]; [|done].
  repeat (rewrite bindS_run; cbn [fst snd]). done.
Qed.
End setup.
#[global] Arguments Metrics Mt {Ot}.
