(* ===== verification/Router.v ===== *)
(** * internal/infra/http/router.go

    The stack of middleware and the table of routes, from the text of a request
    to the calls on its response writer. The router and most of the middleware
    are those of chi and are parameters ([HttpStack]); their documented
    behaviour is the class [HttpStackLaws] of RouterTheorems.v. The state is that
    of Redis, of the metrics registry and of the rest of the program. *)
From S2P Require Import Prelude Go Identifiers Money Transaction Account Book Events Ports World.
From S2P Require Import LedgerService Transfer TransferService Postgres Projection Json Requests Http.
From S2P Require Import Handlers Idempotency Observability.
From stdpp Require Import base gmap strings list.
From Stdlib Require Import Ascii String SpecFloat.
Local Open Scope string_scope.
Local Open Scope list_scope.
Local Open Scope Z_scope.

(** [http.Request]: [Req_Header] is [r.Header.Get]. *)
Record http_Request := MkRequest {
  Req_Method : string;
  Req_Path : string;
  Req_Header : string -> string;
  Req_Body : string;
}.

(** ** Paths *)

Fixpoint has_char (n : nat) (s : string) : bool :=
  match s with
  | EmptyString => false
  | String c s => (nat_of_ascii c =? n)%nat || has_char n s
  end.

(** A pattern without parameters and wildcard. *)
Definition static_pattern (p : string) : bool := negb (has_char 123 p || has_char 42 p).

(** The value of a parameter: up to the next slash. *)
Fixpoint split_slash (s : string) : string * string :=
  match s with
  | EmptyString => ("", "")
  | String c s1 =>
      if (nat_of_ascii c =? 47)%nat then ("", s)
      else let '(v, r) := split_slash s1 in (String c v, r)
  end.

(** The name of a parameter, and what follows its closing brace. *)
Fixpoint split_brace (p : string) : string * string :=
  match p with
  | EmptyString => ("", "")
  | String c p1 =>
      if (nat_of_ascii c =? 125)%nat then ("", p1)
      else let '(n, r) := split_brace p1 in (String c n, r)
  end.

(** [{name}] matches one segment that is not empty, [*] at the end the rest of
    the path; the fuel is the length of the pattern. *)
Fixpoint pattern_matches (n : nat) (pattern path : string) : option (list (string * string)) :=
  match n with
  | O => match pattern, path with EmptyString, EmptyString => Some [] | _, _ => None end
  | S n =>
      match pattern with
      | EmptyString => match path with EmptyString => Some [] | _ => None end
      | String c p =>
          if (nat_of_ascii c =? 42)%nat then Some [("*", path)]
          else if (nat_of_ascii c =? 123)%nat then
            let '(name, p') := split_brace p in
            let '(v, rest) := split_slash path in
            match v with
            | EmptyString => None
            | _ => cons (name, v) <$> pattern_matches n p' rest
            end
          else
            match path with
            | EmptyString => None
            | String d rest => if Ascii.eqb c d then pattern_matches n p rest else None
            end
      end
  end.

(** A route: the method, [None] for every method, and the pattern. *)
Definition route : Type := option string * string.

Definition route_matches (method path : string) (r : route) : option (list (string * string)) :=
  match r.1 with
  | Some m => if bool_decide (m = method)
              then pattern_matches (String.length r.2) r.2 path else None
  | None => pattern_matches (String.length r.2) r.2 path
  end.

Definition catch_all (r : route) : bool := has_char 42 r.2.

(** ** Third-party code *)
Section router.
Context {U : UuidLib} {O : Oracle} {Rd : Type} `{RC : !RedisClient Rd} {Mt : Type}.

(** What the routes run on: the metrics registry, the pattern in the route
    context of the request that is served, and the world. *)
Definition route_state : Type := Mt * (string * World).
Definition route_handler : Type := http_Request -> St route_state handled.

(** And the whole stack: Redis too. *)
Definition server_state : Type := Rd * route_state.
Definition http_handler : Type := http_Request -> St server_state handled.

Class HttpStack := {
  Recoverer : http_handler -> http_handler;         (* chi/middleware.Recoverer *)
  RequestID : http_handler -> http_handler;         (* chi/middleware.RequestID *)
  cors_Handler : http_handler -> http_handler;      (* cors.Handler(options) *)
  Logger : http_handler -> http_handler;            (* chi/middleware.Logger *)
  promhttp_Handler : route_handler;
  (** The route that chi selects in a table, and the URL parameters. *)
  chi_match : list route -> string -> string -> option (nat * list (string * string));
  (** The answer when there is none (404, or 405 with the method). *)
  chi_unmatched : route_handler;
}.

Context `{Stack : !HttpStack}.

(** ** The instruments *)

(** What [MetricsMiddleware] uses of [observability.Metrics]. *)
Record request_instruments := MkInstruments {
  RequestDuration_Record : spec_float -> list attribute -> St Mt unit;
  RequestCount_Add : Z -> list attribute -> St Mt unit;
}.

Definition on_registry {A} (m : St Mt A) : St server_state A := on_world (on_redis m).

Definition on_program {A} (m : St World A) : St route_state A := on_world (on_world m).

(** [time.Now()] on the state of the server. *)
#[global] Instance server_runtime : Runtime server_state := {
  time_Now := on_world (on_program time_Now);
  uuid_NewV7 := on_world (on_program uuid_NewV7);
}.

(** The route context: [NewRouter] begins with an empty one, and routing
    writes the pattern of the route. *)
Definition set_pattern (pattern : string) : St route_state unit :=
  fun '(m, (_, w)) => (tt, (m, (pattern, w))).
Definition RoutePattern (s : server_state) : string := s.2.2.1.

(** ** RouterDeps *)

Record RouterDeps := MkRouterDeps {
  RD_Handler : LedgerService World;            (* the service behind [Handler] *)
  RD_StaticFS : option route_handler;          (* the file server on StaticFS *)
  RD_IdempotencyStore : bool;                  (* whether it is not nil *)
  RD_Metrics : option request_instruments;
  RD_HealthChecker : M World unit * time;      (* the PING of its client; startTime *)
}.

Context (int64_overflow : spec_float -> Z).
Context (deps : RouterDeps).

(** ** Routes *)

Inductive endpoint :=
| ToHealth | ToMetrics | ToListAccounts | ToOpenAccount | ToGetBalance | ToTransactionHistory
| ToRecordTransaction | ToDeposit | ToTransfer | ToFrontend.

(** The calls on the router, in their order. [Route("/api/v1", ...)] prefixes
    the patterns of its body. *)
Definition route_table : list (route * endpoint) :=
  [((Some "GET", "/health"), ToHealth);
   ((None, "/metrics"), ToMetrics);
   ((Some "GET", "/api/v1/accounts"), ToListAccounts);
   ((Some "POST", "/api/v1/accounts"), ToOpenAccount);
   ((Some "GET", "/api/v1/accounts/{accountID}"), ToGetBalance);
   ((Some "GET", "/api/v1/accounts/{accountID}/transactions"), ToTransactionHistory);
   ((Some "POST", "/api/v1/transactions"), ToRecordTransaction);
   ((Some "POST", "/api/v1/deposit"), ToDeposit);
   ((Some "POST", "/api/v1/transfers"), ToTransfer)] ++
  match RD_StaticFS deps with
  | Some _ => [((None, "/*"), ToFrontend)]
  | None => []
  end.

(** [chi.URLParam(r, name)]: the empty string when there is none. *)
Definition URLParam (params : list (string * string)) (name : string) : string :=
  match find_first (fun p => bool_decide (p.1 = name)) params with
  | Some p => p.2
  | None => ""
  end.

(** The decoded request of an endpoint of the API. *)
Definition api_request_of (e : endpoint) (params : list (string * string)) (body : string)
    : option api_request :=
  match e with
  | ToListAccounts => Some GetAccounts
  | ToOpenAccount => Some (PostAccounts (decode_openAccountRequest body))
  | ToGetBalance => Some (GetAccountByID (URLParam params "accountID"))
  | ToTransactionHistory => Some (GetAccountTransactions (URLParam params "accountID"))
  | ToRecordTransaction => Some (PostTransactions (decode_recordTransactionRequest body))
  | ToDeposit => Some (PostDeposit (decode_depositRequest body))
  | ToTransfer => Some (PostTransfers (decode_transferRequest body))
  | _ => None
  end.

Definition serve_endpoint (e : endpoint) (params : list (string * string)) : route_handler :=
  fun req =>
    match api_request_of e params (Req_Body req) with
    | Some r => on_program (serve_api int64_overflow (RD_Handler deps) r)
    | None =>
        match e, RD_StaticFS deps with
        | ToHealth, _ =>
            on_program (HealthChecker_Handler (RD_HealthChecker deps).1 (RD_HealthChecker deps).2)
        | ToMetrics, _ => promhttp_Handler req
        | _, Some fileServer => fileServer req
        | _, None => chi_unmatched req
        end
    end.

Definition matched (req : http_Request) : option (route * endpoint * list (string * string)) :=
  match chi_match (fst <$> route_table) (Req_Method req) (Req_Path req) with
  | Some (i, params) => (fun re => (re, params)) <$> route_table !! i
  | None => None
  end.

Definition routes : route_handler :=
  fun req =>
    match matched req with
    | Some (r, e, params) => let@ _ := set_pattern r.2 in serve_endpoint e params req
    | None => chi_unmatched req
    end.

(** ** The stack, innermost first *)

Definition with_idempotency : http_handler :=
  fun req =>
    if RD_IdempotencyStore deps
    then IdempotencyMiddleware (routes req) (Req_Method req) (Req_Header req "Idempotency-Key")
    else on_world (routes req).

Definition with_metrics (next : http_handler) : http_handler :=
  match RD_Metrics deps with
  | Some i => fun req =>
      MetricsMiddleware (fun d attrs => on_registry (RequestDuration_Record i d attrs))
        (fun n attrs => on_registry (RequestCount_Add i n attrs))
        (next req) (Req_Method req) RoutePattern (Req_Path req)
  | None => next
  end.

(** The handler of the server: a new route context, then the middleware. *)
Definition NewRouter : http_handler :=
  fun req =>
    let@ _ := on_world (set_pattern "") in
    Recoverer (RequestID (cors_Handler (with_metrics (Logger with_idempotency)))) req.
End router.
#[global] Arguments route_state {U} Mt.
#[global] Arguments route_handler {U} Mt.
#[global] Arguments server_state {U} Rd Mt.
#[global] Arguments http_handler {U} Rd Mt.
#[global] Arguments HttpStack {U} Rd Mt.
#[global] Arguments request_instruments Mt : clear implicits.
#[global] Arguments RouterDeps {U} Mt.
