(* ===== verification/HttpTheorems.v ===== *)
(** * Theorems on the HTTP API

    The handlers run the use case that a request asks for and answer with the
    status of its outcome; requests that are answered without an error keep the
    books balanced, on the production wiring and whatever the database does;
    which requests make a handler panic; and what dollars become in cents. *)
From S2P Require Import Prelude Go Identifiers Money Transaction Account Book Events Ports World.
From S2P Require Import LedgerService LedgerSafety Transfer TransferService TransferSpec.
From S2P Require Import Requests Sample Postgres Projection Production Scenario Http Handlers HttpSpec.
From stdpp Require Import base gmap strings list sorting.
From Stdlib Require Import SpecFloat.
Local Open Scope string_scope.
Local Open Scope list_scope.
Local Open Scope Z_scope.

(** ** Every request *)
Section api.
Context {U : UuidLib} {O : Oracle} (int64_overflow : spec_float -> Z) (svc : LedgerService World).

(** C20: refinement of the API by its use cases: a malformed request is
    answered with 400 and changes nothing; any other request leaves the world
    that its use case leaves, and is answered with one JSON response whose
    status tells whether the use case succeeded, or, when it failed, by a
    panic before anything is written. *)
Theorem serve_api_refines r w :
  match use_case int64_overflow svc r with
  | None => exists msg,
      serve_api int64_overflow svc r w = (Returned (writeJSON 400 (errorResponse msg)), w)
  | Some m =>
      (serve_api int64_overflow svc r w).2 = (m w).2 /\
      answers r (is_Ok (m w).1) (serve_api int64_overflow svc r w).1
  end.
Proof. apply serve_api_case. Qed.

(** The requests that panic: exactly the transfers with two well-formed
    account ids whose currency is not supported or whose accounts are the
    same; the handler then reads the id of a saga that was not created. *)
Theorem serve_api_panics r w :
  (exists calls w', serve_api int64_overflow svc r w = (Panicked calls, w')) <->
  exists req from to, r = PostTransfers (Some req) /\
    NewAccountID (TR_FromAccountID req) = Ok from /\ NewAccountID (TR_ToAccountID req) = Ok to /\
    (validCurrency (or_default (TR_Currency req) USD) = false \/ from = to).
Proof.
  split.
  - intros (calls & w' & H).
    destruct (serve_api_panic_inv _ _ _ _ _ _ H) as (req & from & to & -> & E1 & E2 & _ & Hn & _).
    exists req, from, to. split_and!; [done..|]. by apply Execute_None in Hn.
  - intros (req & from & to & -> & E1 & E2 & Hbad). cbn [serve_api]. unfold Handler_Transfer.
    rewrite E1, E2, bindS_run. fold (transfer_cmd int64_overflow from to req).
    apply (Execute_None svc (transfer_cmd int64_overflow from to req) w) in Hbad.
    destruct (Execute svc (transfer_cmd int64_overflow from to req) w) as [[o e] w1].
    simpl in Hbad. subst o. by eexists _, _.
Qed.
End api.

(** ** The books, seen from the API *)
Section books.
Context {U : UuidLib} {O : Oracle} {UL : UuidLaws} {OL : OracleLaws} (int64_overflow : spec_float -> Z).

Definition posts_money (r : api_request) : bool :=
  match r with PostTransactions _ | PostDeposit _ | PostTransfers _ => true | _ => false end.

(** The answer is not that of a failed posting. *)
Definition settled (r : api_request) (h : handled) : Prop :=
  posts_money r = true -> sent_status (handled_calls h) <> 422.

Inductive api_served : World -> World -> Prop :=
| served r w h w' :
    serve_api int64_overflow production r w = (h, w') -> settled r h -> api_served w w'.

Lemma query_balanced {A} (m : M World A) :
  Steps (untouched t_accounts) m -> Steps (balanced (view:=pg_view) (inv:=pg_inv)) (ignore m).
Proof using UL OL.
  intros H w. destruct (ignore_run m w) as [-> _].
  revert w. apply balanced_frame; [by apply steps_view|by apply steps_inv].
Qed.

Lemma queries_untouched id :
  Steps (untouched t_accounts) ListAccounts /\ Steps (untouched t_accounts) (GetAccountBalance id) /\
  Steps (untouched t_accounts) (GetTransactionHistory id 100 0).
Proof.
  split_and!.
  - apply steps_wrapErr, (exec_range_untouched t_accounts (fun n _ d =>
      (Ok (merge_sort view_name_le (unordered n (map_to_list (t_account_balances d)).*2)), d))).
    by split.
  - apply steps_bind; [apply _|by apply steps_wrapErr, exec_untouched|]. intros [v|]; apply _.
  - apply steps_wrapErr, (exec_range_untouched t_accounts (fun n _ d =>
      (Ok (take 100 (drop 0 (merge_sort newer
         (List.filter (fun r => bool_decide (th_AccountID r = id))
            (unordered n (t_transaction_history d)))))), d))).
    by split.
Qed.

Lemma settled_Ok r ok v :
  settled r (Returned (writeJSON (status_of r ok) v)) -> posts_money r = true -> ok = true.
Proof. destruct r, ok; try done; intros H; by destruct (H eq_refl). Qed.

(** The use case of a settled request. *)
Lemma settled_balanced r h m w :
  use_case int64_overflow production r = Some m ->
  answers r (is_Ok (m w).1) h -> settled r h ->
  (forall calls, h = Panicked calls -> (m w).2 = w) ->
  balanced (view:=pg_view) (inv:=pg_inv) w (m w).2.
Proof using UL OL.
  intros Hu Ha Hset Hpanic.
  destruct h as [calls|calls]; [|by rewrite (Hpanic calls)]. destruct Ha as [v ->]. clear Hpanic.
  destruct r as [|[req|]|id|id|[req|]|[req|]|[req|]]; cbn [use_case] in Hu; try done.
  - injection Hu as <-. apply query_balanced, (queries_untouched "").
  - injection Hu as <-. destruct (ignore_run (OpenAccount production
      (MkOpenAccountCmd (OAR_Name req) (OAR_AccountType req) (OAR_Currency req))) w) as [-> _].
    intros Hi. split; [exact (proj1 (OpenAccount_safe _ _ Hi))|]. intros cur. by rewrite OpenAccount_holdings.
  - injection Hu as <-. apply query_balanced, (queries_untouched id).
  - injection Hu as <-. apply query_balanced, (queries_untouched id).
  - destruct (entryCmds (RTR_Entries req)) as [entries|]; [|done]. injection Hu as <-.
    apply settled_Ok in Hset; [|done].
    set (cmd := MkRecordTransactionCmd entries (RTR_Description req)) in *.
    destruct (ignore_run (RecordTransaction production cmd) w) as [-> E]. rewrite E in Hset.
    apply is_Ok_run in Hset as (tx & w' & H). rewrite H. intros Hi.
    split; [exact (proj1 (RecordTransaction_Ok _ _ _ _ Hi H))|].
    intros cur. by eapply RecordTransaction_holdings.
  - destruct (NewAccountID (DR_AccountID req)) as [id|e]; [|done].
    destruct (cents _ _ <=? 0); [done|]. injection Hu as <-.
    apply settled_Ok in Hset; [|done]. apply is_Ok_run in Hset as ([] & w' & H). rewrite H.
    intros Hi. by eapply Deposit_Ok.
  - destruct (NewAccountID (TR_FromAccountID req)) as [from|e]; [|done].
    destruct (NewAccountID (TR_ToAccountID req)) as [to|e]; [|done]. injection Hu as <-.
    apply settled_Ok in Hset; [|done]. rewrite transferred_world.
    unfold transferred in Hset. rewrite bindS_run in Hset.
    destruct (Execute production _ w) as [[o [e|]] w'] eqn:H; [done|].
    by eapply Execute_balanced.
Qed.

Lemma served_balanced w w' : api_served w w' -> balanced (view:=pg_view) (inv:=pg_inv) w w'.
Proof using UL OL.
  intros [r w1 h w2 H Hset]. pose proof (serve_api_case int64_overflow production r w1) as Hc.
  destruct (use_case int64_overflow production r) as [m|] eqn:Hu.
  2:{ destruct Hc as [msg Hc]. rewrite Hc in H. injection H as <- <-. reflexivity. }
  unfold serves_case in Hc. rewrite H in Hc. cbn [fst snd] in Hc. destruct Hc as [-> Ha].
  apply (settled_balanced r h); [done..|]. intros calls ->.
  destruct (serve_api_panic_inv _ _ _ _ _ _ H) as (req & from & to & -> & E1 & E2 & Hm & _ & Hw).
  congruence.
Qed.

(** Seen from outside: from an empty ledger, after any sequence of API
    requests of which no transaction, deposit or transfer was answered with
    422 (malformed requests, failed queries, panics included), the balances
    of every currency add up to zero (modulo 2^64), whatever the database
    did. *)
Theorem api_trial_balance w w' :
  pg_inv w -> pg_view w = ∅ -> rtc api_served w w' ->
  book_wf (pg_view w') /\ forall cur, holdings cur (pg_view w') ≡64 0.
Proof using UL OL.
  intros Hi He Hr.
  assert (balanced (view:=pg_view) (inv:=pg_inv) w w') as Hb.
  { clear He Hi. induction Hr as [w|w1 w2 w3 H _ IH]; [reflexivity|].
    etrans; [by apply served_balanced|done]. }
  destruct (Hb Hi) as [Hi' Hh]. split; [apply Hi'|]. intros cur. rewrite Hh, He.
  unfold holdings. by rewrite msum_empty.
Qed.
End books.

(** ** Dollars and cents *)

(** The float64 that encoding/json reads for k/100, correctly rounded. *)
Definition float64_of (z : Z) : spec_float := binary_normalize 53 1024 z 0 false.
Definition dollars (k : Z) : spec_float := SFdiv 53 1024 (float64_of k) float64_100.

(** 0.29 is read as the float64 below 0.29, and 28 cents are deposited. *)
Example dollars_29 : dollars 29 = S754_finite false 5224175567749775 (-54).
Proof. reflexivity. Qed.

(** Bounds: an amount of k cents below ten dollars, written in dollars, is
    taken for k or for k - 1 cents, never for anything else, on every machine;
    29 cents are taken for 28. *)
Theorem cents_of_dollars (ovf : spec_float -> Z) k :
  0 <= k < 1000 ->
  k - 1 <= cents ovf (dollars k) <= k /\ cents ovf (dollars 29) = 28.
Proof.
  intros Hk. split; [|reflexivity].
  assert (H : forallb (fun n =>
    match float64_trunc (float64_mul (dollars (Z.of_nat n)) float64_100) with
    | Some z => (Z.of_nat n - 1 <=? z) && (z <=? Z.of_nat n) && in_int64b z
    | None => false
    end) (seq 0 1000) = true) by (vm_compute; reflexivity).
  rewrite forallb_forall in H. specialize (H (Z.to_nat k)). rewrite in_seq, Z2Nat.id in H by lia.
  specialize (H ltac:(lia)). unfold cents, float64_to_int64.
  destruct (float64_trunc _) as [z|]; [|done]. apply andb_true_iff in H as [H ->].
  bool_prop. lia.
Qed.

(** ** Witnesses *)

Definition overflow0 : spec_float -> Z := fun _ => 0.

Definition open_alice : api_request := PostAccounts (Some (MkOpenAccountRequest "Alice" "ASSET" USD)).
Definition deposit_10 : api_request :=
  PostDeposit (Some (MkDepositRequest (AccountID_String alice) (dollars 1000) "" "")).
Definition deposit_twice : api_request :=
  PostTransfers (Some (MkTransferRequest (AccountID_String alice) (AccountID_String alice)
    (dollars 100) "" "")).

Lemma api_trial_balance_witness :
  exists w', rtc (api_served overflow0) initial_world w' /\
    pg_view w' !! AccountID_String alice = Some (asset alice "Alice" 1000) /\
    book_wf (pg_view w') /\ forall cur, holdings cur (pg_view w') ≡64 0.
Proof.
  set (run := fun r w => (serve_api overflow0 production r w).2).
  set (w1 := run open_alice initial_world). set (w2 := run deposit_10 w1).
  set (w3 := run deposit_twice w2).
  assert (Hs : forall r w, settled r (serve_api overflow0 production r w).1 ->
    api_served overflow0 w (run r w)).
  { intros r w H. unfold run. econstructor; [apply surjective_pairing|exact H]. }
  assert (S1 : api_served overflow0 initial_world w1) by (apply Hs; by vm_compute).
  assert (S2 : api_served overflow0 w1 w2) by (apply Hs; by vm_compute).
  assert (S3 : api_served overflow0 w2 w3) by (apply Hs; by vm_compute).
  assert (Ha : pg_view w3 !! AccountID_String alice = Some (asset alice "Alice" 1000))
    by (vm_compute; reflexivity).
  exists w3. pose proof (rtc_l _ _ _ _ S1 (rtc_l _ _ _ _ S2 (rtc_once _ _ S3))) as H.
  clearbody w3. clear S1 S2 S3. split; [exact H|]. split; [exact Ha|].
  exact (api_trial_balance overflow0 initial_world w3 (proj2 initial_inv) (fmap_empty core) H).
Defined.

Lemma cents_of_dollars_witness :
  0 <= 29 < 1000 /\ 28 <= cents overflow0 (dollars 29) <= 29 /\ cents overflow0 (dollars 29) = 28.
Proof. split; [lia|]. apply (cents_of_dollars overflow0 29). lia. Defined.
