(* ===== verification/RouterTheorems.v ===== *)
(** * Theorems on the server, from the text of a request to its response

    Which handler a request reaches, what its client is answered, and what a
    request that is sent again does. *)
From S2P Require Import Prelude Go Strconv Identifiers Money Transaction Account Book Events Ports.
From S2P Require Import World LedgerService Transfer TransferService Postgres Projection Json Requests.
From S2P Require Import Production Scenario Http Handlers Idempotency IdempotencyTheorems HttpSpec.
From S2P Require Import Observability Router.
From stdpp Require Import base gmap strings list.
From Stdlib Require Import Ascii String SpecFloat.
Local Open Scope string_scope.
Local Open Scope list_scope.
Local Open Scope Z_scope.

Section router.
Context {U : UuidLib} {O : Oracle} {Rd : Type} `{RC : !RedisClient Rd} {Mt : Type}.

(** What the client is sent. *)
Definition recovered (req : http_Request) (h : handled) : list rw_call :=
  match h with
  | Returned calls => calls
  | Panicked calls =>
      calls ++ (if bool_decide (Req_Header req "Connection" = "Upgrade") then [] else [WriteHeader 500])
  end.

(** ** Documented behaviour of the third-party handlers

    RequestID and Logger pass a request on and its response back; cors adds
    headers, and answers preflight requests (OPTIONS) itself; Recoverer answers
    500 to a panic, except on a connection that is being upgraded. chi selects
    a route without a wildcard when it is the only one that matches. *)
Class HttpStackLaws `{Stack : !HttpStack Rd Mt} : Prop := {
  law_RequestID (next : http_handler Rd Mt) req s : RequestID next req s = next req s;
  law_Logger (next : http_handler Rd Mt) req s : Logger next req s = next req s;
  law_cors (next : http_handler Rd Mt) req s :
    exists hs, cors_Handler next req s =
        (after_calls (uncurry SetHeader <$> hs) (next req s).1, (next req s).2) \/
      Req_Method req = "OPTIONS" /\
      cors_Handler next req s = (Returned ((uncurry SetHeader <$> hs) ++ [WriteHeader 200]), s);
  law_Recoverer (next : http_handler Rd Mt) req s :
    Recoverer next req s = (Returned (recovered req (next req s).1), (next req s).2);
  law_chi_match table method path i r params :
    table !! i = Some r -> catch_all r = false -> route_matches method path r = Some params ->
    (forall j r', table !! j = Some r' -> j <> i ->
       route_matches method path r' = None \/ catch_all r' = true) ->
    chi_match table method path = Some (i, params);
}.

Context `{Stack : !HttpStack Rd Mt} `{Laws : !HttpStackLaws}.
Context (ovf : spec_float -> Z) (deps : RouterDeps Mt).

(** ** Routing *)

(** The requests of the API, with the value of {accountID}. *)
Definition api_route (e : endpoint) (id : string) : option (string * string * string) :=
  match e with
  | ToListAccounts => Some ("GET", "/api/v1/accounts", "/api/v1/accounts")
  | ToOpenAccount => Some ("POST", "/api/v1/accounts", "/api/v1/accounts")
  | ToGetBalance => Some ("GET", "/api/v1/accounts/{accountID}", "/api/v1/accounts/" +:+ id)
  | ToTransactionHistory =>
      Some ("GET", "/api/v1/accounts/{accountID}/transactions",
            "/api/v1/accounts/" +:+ id +:+ "/transactions")
  | ToRecordTransaction => Some ("POST", "/api/v1/transactions", "/api/v1/transactions")
  | ToDeposit => Some ("POST", "/api/v1/deposit", "/api/v1/deposit")
  | ToTransfer => Some ("POST", "/api/v1/transfers", "/api/v1/transfers")
  | _ => None
  end.

Definition api_params (e : endpoint) (id : string) : list (string * string) :=
  match e with ToGetBalance | ToTransactionHistory => [("accountID", id)] | _ => [] end.

(** One segment of a path. *)
Definition segment (id : string) : Prop := id <> "" /\ has_char 47 id = false.

Lemma split_slash_segment id rest :
  has_char 47 id = false -> rest = "" \/ (exists r, rest = String "/" r) ->
  split_slash (id +:+ rest) = (id, rest).
Proof.
  intros Hid Hr. induction id as [|c id IH]; simpl in *.
  - destruct Hr as [->|[r ->]]; reflexivity.
  - apply orb_false_iff in Hid as [-> Hid]. by rewrite IH.
Qed.

Lemma split_slash_end id : has_char 47 id = false -> split_slash id = (id, "").
Proof. intros H. rewrite <- (append_nil_r id) at 1. apply split_slash_segment; auto. Qed.

(** The table without the frontend, and the index of each route of the API. *)
Definition api_index (e : endpoint) : nat :=
  match e with
  | ToListAccounts => 2 | ToOpenAccount => 3 | ToGetBalance => 4 | ToTransactionHistory => 5
  | ToRecordTransaction => 6 | ToDeposit => 7 | ToTransfer => 8 | _ => 0
  end.

Lemma route_table_cases j r' :
  (fst <$> route_table deps) !! j = Some r' ->
  catch_all r' = true \/ (j < 9)%nat /\ (fst <$> route_table deps) !! j = (fst <$> take 9 (route_table deps)) !! j.
Proof using Type.
  unfold route_table. intros Hj. destruct (decide (j < 9)%nat) as [Hlt|Hge].
  - right. split; [done|]. do 9 (destruct j as [|j]; [done|]). lia.
  - left. do 9 (destruct j as [|j]; [lia|]). destruct (RD_StaticFS deps); [|done].
    destruct j; [by injection Hj as <-|done].
Qed.

Lemma api_route_matches e id m pat path :
  api_route e id = Some (m, pat, path) -> segment id ->
  (fst <$> route_table deps) !! api_index e = Some (Some m, pat) /\
  route_table deps !! api_index e = Some ((Some m, pat), e) /\
  catch_all (Some m, pat) = false /\
  route_matches m path (Some m, pat) = Some (api_params e id) /\
  forall j r', (fst <$> route_table deps) !! j = Some r' -> j <> api_index e ->
    route_matches m path r' = None \/ catch_all r' = true.
Proof using Type.
  intros He [Hne Hid].
  assert (H1 : split_slash ("" +:+ id) = (id, "")) by (by apply split_slash_end).
  assert (H2 : split_slash ("" +:+ (id +:+ "/transactions")) = (id, "/transactions"))
    by (apply (split_slash_segment id "/transactions"); eauto).
  split_and!.
  - destruct e; simpl in He; try done; by injection He as <- <- <-.
  - destruct e; simpl in He; try done; by injection He as <- <- <-.
  - destruct e; simpl in He; try done; by injection He as <- <- <-.
  - destruct e; simpl in He; try done; injection He as <- <- <-; try reflexivity.
    + unfold route_matches. simpl. rewrite H1. by destruct id.
    + unfold route_matches. simpl. rewrite H2. by destruct id.
  - intros j r' Hj Hne'. apply route_table_cases in Hj as Hc. destruct Hc as [Hc|[Hlt Heq]]; [by right|left].
    rewrite Heq in Hj. clear Heq.
    destruct e; simpl in He; try done; injection He as <- <- <-; simpl in Hne';
      do 9 (destruct j as [|j]; [first [done|injection Hj as <-; reflexivity|
        injection Hj as <-; unfold route_matches; simpl; rewrite ?H1, ?H2; by destruct id]|]); lia.
Qed.

Lemma matched_api e id m pat path req :
  api_route e id = Some (m, pat, path) -> segment id -> Req_Method req = m -> Req_Path req = path ->
  matched deps req = Some ((Some m, pat), e, api_params e id).
Proof using Laws.
  intros He Hid Hm Hp. destruct (api_route_matches e id m pat path He Hid) as (H1 & H2 & H0 & H3 & H4).
  unfold matched. rewrite Hm, Hp, (law_chi_match _ _ _ _ _ _ H1 H0 H3 H4). exact (f_equal (fmap (fun re => (re, api_params e id))) H2).
Qed.

(** What the request means to the API. *)
Definition api_of (e : endpoint) (id body : string) : option api_request :=
  api_request_of e (api_params e id) body.

Lemma routes_api e id m pat path req r mt p w :
  api_route e id = Some (m, pat, path) -> segment id -> Req_Method req = m -> Req_Path req = path ->
  api_of e id (Req_Body req) = Some r ->
  routes ovf deps req (mt, (p, w)) =
    ((serve_api ovf (RD_Handler deps) r w).1, (mt, (pat, (serve_api ovf (RD_Handler deps) r w).2))).
Proof using Laws.
  intros He Hid Hm Hp Hr. unfold routes. rewrite (matched_api e id m pat path req He Hid Hm Hp).
  rewrite bindS_run. cbn [set_pattern fst snd]. unfold serve_endpoint, api_of in *. rewrite Hr.
  unfold on_program, on_world. cbn [fst snd]. by destruct (serve_api _ _ _ _).
Qed.

(** ** The stack *)

Definition metered : bool := match RD_Metrics deps with Some _ => true | None => false end.

(** The clock is read before the request, and after it when it returns. *)
Definition ticked (w : World) : World := if metered then tick_clock w else w.
Definition ticked_after (h : handled) (w : World) : World :=
  match h with Returned _ => ticked w | Panicked _ => w end.

(** The same program but for the clock. *)
Definition same_data (w w' : World) : Prop :=
  w_db w' = w_db w /\ w_accounts w' = w_accounts w /\ w_transactions w' = w_transactions w.

Lemma same_data_ticked w : same_data w (ticked w).
Proof using Type. unfold ticked. by destruct metered. Qed.
Lemma same_data_after h w : same_data w (ticked_after h w).
Proof using Type. destruct h; [apply same_data_ticked|done]. Qed.

Lemma with_metrics_run (next : http_handler Rd Mt) req rd mt p w :
  let '(h, (rd1, (mt1, (p1, w1)))) := next req (rd, (mt, (p, ticked w))) in
  exists mt2, with_metrics deps next req (rd, (mt, (p, w))) =
    (h, (rd1, (mt2, (p1, ticked_after h w1)))).
Proof using Type.
  unfold with_metrics, ticked_after, ticked, metered. destruct (RD_Metrics deps) as [i|].
  2:{ destruct (next req _) as [[calls|calls] (rd1 & mt1 & p1 & w1)]; by exists mt1. }
  unfold MetricsMiddleware. rewrite bindS_run.
  change (time_Now (rd, (mt, (p, w)))) with (clock (w_clock w), (rd, (mt, (p, tick_clock w)))).
  cbn [fst snd]. rewrite bindS_run. destruct (next req _) as [[calls|calls] (rd1 & mt1 & p1 & w1)].
  2:{ by exists mt1. }
  unfold RecordRequest. cbn [fst snd]. repeat (rewrite bindS_run; cbn [fst snd]).
  change (time_Now (rd1, (mt1, (p1, w1)))) with (clock (w_clock w1), (rd1, (mt1, (p1, tick_clock w1)))).
  cbn [fst snd]. unfold on_registry, on_world, on_redis. cbn [fst snd].
  destruct (RequestDuration_Record i _ _ mt1) as [[] mt2]. cbn [fst snd].
  destruct (RequestCount_Add i _ _ mt2) as [[] mt3]. by exists mt3.
Qed.

Lemma NewRouter_run req rd mt p w :
  Req_Method req <> "OPTIONS" ->
  let '(h, s1) := with_metrics deps (Logger (with_idempotency ovf deps)) req (rd, (mt, ("", w))) in
  exists hs, NewRouter ovf deps req (rd, (mt, (p, w))) =
    (Returned ((uncurry SetHeader <$> hs) ++ recovered req h), s1).
Proof using Laws.
  intros Hm. unfold NewRouter. rewrite bindS_run.
  change (on_world (set_pattern "") (rd, (mt, (p, w)))) with (tt, (rd, (mt, ("", w)))). cbn [fst snd].
  rewrite law_Recoverer, law_RequestID.
  destruct (law_cors (with_metrics deps (Logger (with_idempotency ovf deps))) req (rd, (mt, ("", w))))
    as [hs [Hcors|[Ho _]]]; [|done].
  rewrite Hcors. cbn [fst snd].
  destruct (with_metrics deps _ req (rd, (mt, ("", w)))) as [h s1]. exists hs. cbn [fst snd].
  destruct h; simpl; [done|by rewrite <- app_assoc].
Qed.

Lemma sent_after_headers hs l :
  sent_status ((uncurry SetHeader <$> hs) ++ l) = sent_status l /\
  sent_body ((uncurry SetHeader <$> hs) ++ l) = sent_body l /\
  sent_headers ((uncurry SetHeader <$> hs) ++ l) = hs ++ sent_headers l.
Proof.
  induction hs as [|[k v] hs (H1 & H2 & H3)]; csimpl; [done|]. split_and!; [done|done|by rewrite H3].
Qed.

(** The whole stack around a handler of the routes. *)
Lemma NewRouter_stack req rd mt p w h rd1 mt1 p1 w1 :
  Req_Method req <> "OPTIONS" ->
  with_idempotency ovf deps req (rd, (mt, ("", ticked w))) = (h, (rd1, (mt1, (p1, w1)))) ->
  exists calls mt2, NewRouter ovf deps req (rd, (mt, (p, w))) =
      (Returned calls, (rd1, (mt2, (p1, ticked_after h w1)))) /\
    sent_status calls = sent_status (recovered req h) /\ sent_body calls = sent_body (recovered req h) /\
    forall x, x ∈ sent_headers (recovered req h) -> x ∈ sent_headers calls.
Proof using Laws.
  intros Hm Hi.
  pose proof (with_metrics_run (Logger (with_idempotency ovf deps)) req rd mt "" w) as Hw.
  rewrite law_Logger, Hi in Hw. destruct Hw as [mt2 Hw].
  pose proof (NewRouter_run req rd mt p w Hm) as Hr. rewrite Hw in Hr. destruct Hr as [hs Hr].
  destruct (sent_after_headers hs (recovered req h)) as (H1 & H2 & H3).
  eexists _, mt2. split; [exact Hr|]. split_and!; [done..|]. intros x Hx. rewrite H3.
  apply elem_of_app. by right.
Qed.

Lemma api_not_options e id m pat path :
  api_route e id = Some (m, pat, path) -> m <> "OPTIONS" /\ (m = "POST" \/ m = "GET").
Proof. destruct e; simpl; intros H; by simplify_eq; auto. Qed.

(** What a request of the API is answered: its handler's response, or the
    status 500 when the handler panics. *)
Definition answered (h : handled) (calls : list rw_call) : Prop :=
  match h with
  | Returned c => sent_status calls = sent_status c /\ sent_body calls = sent_body c
  | Panicked _ => sent_status calls = 500 /\ sent_body calls = ""
  end.

(** C14: from the text of a request to its response: a request for a path of
    the API that carries no idempotency key is routed to the handler of its
    method and path with its decoded body, runs it once, and is answered with
    the status and the body of its response, or with 500 when it panics; apart
    from the clock nothing else changes. *)
Theorem router_serves_api e id m pat path req r rd mt p w :
  api_route e id = Some (m, pat, path) -> segment id ->
  Req_Method req = m -> Req_Path req = path -> Req_Header req "Connection" <> "Upgrade" ->
  m = "GET" \/ Req_Header req "Idempotency-Key" = "" ->
  api_of e id (Req_Body req) = Some r ->
  let '(h, w1) := serve_api ovf (RD_Handler deps) r (ticked w) in
  exists calls mt' p' w',
    NewRouter ovf deps req (rd, (mt, (p, w))) = (Returned calls, (rd, (mt', (p', w')))) /\
    answered h calls /\ same_data w1 w'.
Proof using Laws.
  intros He Hid Hm Hp Hc Hk Hr. destruct (api_not_options _ _ _ _ _ He) as [Hno _].
  pose proof (routes_api e id m pat path req r mt "" (ticked w) He Hid Hm Hp Hr) as Hroute.
  destruct (serve_api ovf (RD_Handler deps) r (ticked w)) as [h w1] eqn:Hs. cbn [fst snd] in Hroute.
  assert (Hi : with_idempotency ovf deps req (rd, (mt, ("", ticked w))) = (h, (rd, (mt, (pat, w1))))).
  { assert (Hw : on_world (routes ovf deps req) (rd, (mt, ("", ticked w))) = (h, (rd, (mt, (pat, w1))))).
    { unfold on_world. cbn [fst snd]. by rewrite Hroute. }
    unfold with_idempotency, IdempotencyMiddleware. destruct (RD_IdempotencyStore deps); [|done].
    destruct Hk as [Hk|Hk].
    - rewrite Hm, Hk. exact Hw.
    - rewrite (bool_decide_eq_true_2 _ Hk). destruct (_ && _); exact Hw. }
  destruct (NewRouter_stack req rd mt p w h rd mt pat w1 ltac:(congruence) Hi)
    as (calls & mt2 & HN & H1 & H2 & _).
  eexists calls, mt2, pat, _. split; [exact HN|]. split; [|apply same_data_after].
  destruct h as [c|c]; [done|]. cbn [recovered] in H1, H2.
  rewrite (bool_decide_eq_false_2 _ Hc) in H1. rewrite (bool_decide_eq_false_2 _ Hc) in H2.
  assert (c = []) as ->; [|done].
  pose proof (serve_api_case ovf (RD_Handler deps) r (ticked w)) as Hcase. rewrite Hs in Hcase.
  destruct (use_case _ _ _) as [u|]; [|by destruct Hcase]. destruct Hcase as [_ Ha]. rewrite Hs in Ha.
  apply Ha.
Qed.

(** ** A request that is sent again *)

Lemma with_idempotency_on req rd mt p w :
  RD_IdempotencyStore deps = true ->
  with_idempotency ovf deps req (rd, (mt, (p, w))) =
    IdempotencyMiddleware (routes ovf deps req) (Req_Method req) (Req_Header req "Idempotency-Key")
      (rd, (mt, (p, w))).
Proof using Type. intros Hs. unfold with_idempotency. by rewrite Hs. Qed.

(** Whatever it asks for, while the entries of its key are there. *)
Lemma replayed_by_router {live : Rd -> gmap string string} `{RL : !RedisLaws Rd live} key req status body rd mt p w :
  RD_IdempotencyStore deps = true -> RedisUp Rd -> key <> "" ->
  Req_Method req = "POST" \/ Req_Method req = "PUT" -> Req_Header req "Idempotency-Key" = key ->
  live rd !! idempotencyKey key = Some body -> body <> "" ->
  live rd !! idempotencyStatus key = Some (fmt_d status) -> 0 < status <= 999 ->
  exists calls rd' mt' p' w',
    NewRouter ovf deps req (rd, (mt, (p, w))) = (Returned calls, (rd', (mt', (p', w')))) /\
    sent_status calls = status /\ sent_body calls = body /\
    ("Idempotency-Replayed", "true") ∈ sent_headers calls /\
    same_data w w' /\ live rd' = live rd.
Proof using Laws.
  intros Hs Hup Hk Hm Hkey L1 Hb L2 Hst.
  destruct (repeated_request (routes ovf deps req) (Req_Method req) key rd (mt, ("", ticked w)) status body
    Hup Hk Hm L1 Hb L2 ltac:(lia)) as (rd' & Hrun & Hl).
  rewrite <- Hkey, <- with_idempotency_on in Hrun by done.
  destruct (NewRouter_stack req rd mt p w _ _ _ _ _ ltac:(by destruct Hm as [-> | ->]) Hrun)
    as (calls & mt2 & HN & S1 & S2 & S3).
  destruct (replayed_sent status body ltac:(lia)) as (R1 & R2 & R3). cbn [recovered] in S1, S2, S3.
  eexists calls, rd', mt2, "", _. split; [exact HN|]. rewrite S1, S2.
  split_and!; [done|done|by apply S3| |done]. cbn [ticked_after].
  destruct (same_data_ticked w) as (A1 & A2 & A3), (same_data_ticked (ticked w)) as (B1 & B2 & B3).
  split_and!; congruence.
Qed.

(** C13: a write request that a client sends again is applied once: when a
    POST to the API with a new idempotency key has been answered, every later
    write request with that key, as long as the two entries of the key are
    live, whatever else has happened in between and whatever its path and body
    are, is answered with the recorded status and body, marked as replayed, and
    nothing but the clock changes. *)
Theorem retried_request_applied_once {live : Rd -> gmap string string} `{RL : !RedisLaws Rd live}
    e id pat path req key r rd mt p w c w1 :
  RD_IdempotencyStore deps = true -> RedisUp Rd ->
  api_route e id = Some ("POST", pat, path) -> segment id ->
  Req_Method req = "POST" -> Req_Path req = path ->
  Req_Header req "Idempotency-Key" = key -> key <> "" ->
  live rd !! idempotencyKey key = None -> live rd !! idempotencyLock key = None ->
  api_of e id (Req_Body req) = Some r ->
  serve_api ovf (RD_Handler deps) r (ticked w) = (Returned c, w1) -> sent_body c <> "" ->
  exists calls rd1 mt1 p1 w1',
    NewRouter ovf deps req (rd, (mt, (p, w))) = (Returned calls, (rd1, (mt1, (p1, w1')))) /\
    sent_status calls = sent_status c /\ sent_body calls = sent_body c /\ same_data w1 w1' /\
    forall req2 rd2 mt2 p2 w2,
      Req_Method req2 = "POST" \/ Req_Method req2 = "PUT" -> Req_Header req2 "Idempotency-Key" = key ->
      live rd2 !! idempotencyKey key = live rd1 !! idempotencyKey key ->
      live rd2 !! idempotencyStatus key = live rd1 !! idempotencyStatus key ->
      exists calls2 rd3 mt3 p3 w3,
        NewRouter ovf deps req2 (rd2, (mt2, (p2, w2))) = (Returned calls2, (rd3, (mt3, (p3, w3)))) /\
        sent_status calls2 = sent_status c /\ sent_body calls2 = sent_body c /\
        ("Idempotency-Replayed", "true") ∈ sent_headers calls2 /\
        same_data w2 w3 /\ live rd3 = live rd2.
Proof using Laws.
  intros Hon Hup He Hid Hm Hp Hkey Hk L1 L2 Hr Hs Hb.
  pose proof (routes_api e id "POST" pat path req r mt "" (ticked w) He Hid Hm Hp Hr) as Hroute.
  rewrite Hs in Hroute. cbn [fst snd] in Hroute.
  destruct (first_request (routes ovf deps req) key rd (mt, ("", ticked w)) c _ Hup Hk L1 L2 Hroute)
    as (rd1 & Hf & Hl). rewrite <- Hm, <- Hkey, <- with_idempotency_on in Hf by done.
  destruct (NewRouter_stack req rd mt p w _ _ _ _ _ ltac:(congruence) Hf)
    as (calls & mt1 & HN & S1 & S2 & _). cbn [recovered] in S1, S2.
  destruct (serve_api_written _ _ _ _ _ _ Hs) as (status & v & -> & Hst).
  assert (Hsent : sent_status (writeJSON status v) = status) by reflexivity.
  destruct (well_written_status _ (writeJSON_well_written status v)) as [Hrec _].
  unfold responseRecorder_body in Hl. rewrite <- Hrec in Hl.
  destruct (stored_lookup key (sent_body (writeJSON status v)) (sent_status (writeJSON status v))
              (<[idempotencyLock key := "processing"]> (live rd))) as (M1 & M2 & _).
  rewrite <- Hl in M1, M2.
  eexists calls, rd1, mt1, pat, _. split; [exact HN|].
  split_and!; [done|done|apply same_data_after..|].
  intros req2 rd2 mt2 p2 w2 Hm2 Hkey2 E1 E2. rewrite M1 in E1. rewrite M2 in E2.
  apply (replayed_by_router key); try done. lia.
Qed.
End router.

(** ** Witnesses: a server on the sample world *)

(** Handlers that pass everything on, and the first route that matches. *)
Fixpoint first_match (keep : route -> bool) (i : nat) (table : list route) (method path : string)
    : option (nat * list (string * string)) :=
  match table with
  | [] => None
  | r :: table =>
      match (if keep r then route_matches method path r else None) with
      | Some params => Some (i, params)
      | None => first_match keep (S i) table method path
      end
  end.

Definition plain_recover {U : UuidLib} {Rd Mt} (next : http_handler Rd Mt) : http_handler Rd Mt :=
  fun req s => (Returned (recovered req (next req s).1), (next req s).2).

Definition plain_stack {U : UuidLib} {Rd Mt} : HttpStack Rd Mt := {|
  Recoverer := plain_recover;
  RequestID next := next;
  cors_Handler next := next;
  Logger next := next;
  promhttp_Handler _ := retS (Returned [Write "metrics"]);
  chi_match table method path :=
    match first_match (fun r => negb (catch_all r)) 0 table method path with
    | Some m => Some m
    | None => first_match catch_all 0 table method path
    end;
  chi_unmatched _ := retS (Returned [WriteHeader 404]);
|}.

Lemma first_match_found keep k table method path i r params :
  table !! i = Some r -> keep r = true -> route_matches method path r = Some params ->
  (forall j r', table !! j = Some r' -> j <> i -> keep r' = true -> route_matches method path r' = None) ->
  first_match keep k table method path = Some ((k + i)%nat, params).
Proof.
  revert k i. induction table as [|r0 table IH]; intros k i Hi Hk Hr Ho; [done|]. simpl.
  destruct i as [|i]; simpl in Hi.
  - injection Hi as ->. rewrite Hk, Hr. by rewrite Nat.add_0_r.
  - assert ((if keep r0 then route_matches method path r0 else None) = None) as ->.
    { destruct (keep r0) eqn:E; [|done]. by apply (Ho 0%nat). }
    rewrite (IH (S k) i) by (try done; intros j r' Hj Hne; apply (Ho (S j)); simpl; auto).
    by rewrite Nat.add_succ_comm.
Qed.

Lemma plain_stack_laws {U : UuidLib} {Rd Mt} :
  HttpStackLaws (U := U) (Rd := Rd) (Mt := Mt) (Stack := plain_stack).
Proof.
  split; try done.
  - intros next req s. exists []. left. cbn. by destruct (next req s) as [[]].
  - intros table method path i r params Hi Hc Hr Ho. cbn.
    rewrite (first_match_found _ 0 table method path i r params); [done|done|by rewrite Hc|done|].
    intros j r' Hj Hne Hk. destruct (Ho j r' Hj Hne) as [H|H]; [done|]. by rewrite H in Hk.
Qed.

#[local] Existing Instances map_redis map_redis_laws map_redis_up plain_stack plain_stack_laws.

(** A registry that counts requests. *)
Definition counting : request_instruments Z :=
  MkInstruments (fun _ _ => retS tt) (fun n _ m => (tt, m + n)).
Definition sample_deps : RouterDeps Z :=
  MkRouterDeps production None true (Some counting) (ret tt, 0).

Definition overflow_min (_ : spec_float) : Z := min_int64.

(** Ten dollars for Alice, with and without a key. *)
Definition deposit_body : string :=
  Json.text (JObj [("account_id", JStr (AccountID_String alice)); ("amount", JNum 10)]).
Definition deposit_request (key : string) : http_Request :=
  MkRequest "POST" "/api/v1/deposit"
    (fun name => if bool_decide (name = "Idempotency-Key") then key else "") deposit_body.

(** The same key with another path and another body. *)
Definition other_request (key : string) : http_Request :=
  MkRequest "PUT" "/" (fun name => if bool_decide (name = "Idempotency-Key") then key else "") "{}".

Definition alice_cents (w : World) : option Z := ac_amount <$> pg_view w !! AccountID_String alice.

Definition sample_server : server_state (gmap string string) Z := (∅, (0, ("", pg_world))).
Definition served_once := NewRouter overflow_min sample_deps (deposit_request "k") sample_server.

(** Sent twice, the deposit is applied once; and so is everything else that
    carries its key. *)
Example deposit_sent_twice :
  alice_cents served_once.2.2.2.2 = Some 2000 /\
  alice_cents (NewRouter overflow_min sample_deps (deposit_request "k") served_once.2).2.2.2.2 = Some 2000 /\
  alice_cents (NewRouter overflow_min sample_deps (deposit_request "") served_once.2).2.2.2.2 = Some 3000.
Proof. vm_compute. done. Qed.

Definition sample_deposit : api_request := PostDeposit (decode_depositRequest deposit_body).
Lemma api_of_deposit key : api_of ToDeposit "x" (Req_Body (deposit_request key)) = Some sample_deposit.
Proof. reflexivity. Qed.

(** The response of the deposit, evaluated once. *)
Lemma deposited :
  exists c w1,
    serve_api overflow_min (RD_Handler sample_deps) sample_deposit (ticked sample_deps pg_world) =
      (Returned c, w1) /\
    sent_status c = 200 /\ sent_body c <> "" /\ alice_cents w1 = Some 2000.
Proof.
  eexists _, _. split; [vm_compute; reflexivity|]. split_and!; by vm_compute.
Qed.

Lemma router_serves_api_witness :
  exists calls rd mt p w',
    NewRouter overflow_min sample_deps (deposit_request "") sample_server = (Returned calls, (rd, (mt, (p, w')))) /\
    sent_status calls = 200 /\ alice_cents w' = Some 2000.
Proof.
  pose proof (router_serves_api overflow_min sample_deps ToDeposit "x" "POST" "/api/v1/deposit"
    "/api/v1/deposit" (deposit_request "") _ (∅ : gmap string string) 0 "" pg_world
    eq_refl ltac:(by split) eq_refl eq_refl ltac:(done) ltac:(by right) (api_of_deposit _)) as H.
  destruct deposited as (c & w1 & E & E1 & _ & Ew). rewrite E in H.
  destruct H as (calls & mt' & p' & w' & Hr & [Ha _] & Hd & _). exists calls, ∅, mt', p', w'.
  split; [exact Hr|]. split; [by rewrite Ha|]. rewrite <- Ew. unfold alice_cents, pg_view. by rewrite Hd.
Defined.

Lemma retried_request_applied_once_witness :
  exists calls s1 calls2 s2,
    NewRouter overflow_min sample_deps (deposit_request "k") sample_server = (Returned calls, s1) /\
    alice_cents s1.2.2.2 = Some 2000 /\
    NewRouter overflow_min sample_deps (other_request "k") s1 = (Returned calls2, s2) /\
    sent_status calls2 = 200 /\ sent_body calls2 = sent_body calls /\
    alice_cents s2.2.2.2 = Some 2000.
Proof.
  destruct deposited as (c & w1 & Hd & E1 & E2 & Ew).
  destruct (retried_request_applied_once overflow_min sample_deps (live := fun m => m) ToDeposit "x"
    "/api/v1/deposit" "/api/v1/deposit" (deposit_request "k") "k" _ (∅ : gmap string string) 0 "" pg_world
    c w1 eq_refl ltac:(apply _) eq_refl ltac:(by split) eq_refl eq_refl eq_refl ltac:(done)
    eq_refl eq_refl (api_of_deposit _) Hd E2)
    as (calls & rd1 & mt1 & p1 & w1' & Hr & S1 & S2 & (D1 & _) & Hagain).
  destruct (Hagain (other_request "k") rd1 mt1 p1 w1' ltac:(by right) eq_refl eq_refl eq_refl)
    as (calls2 & rd3 & mt3 & p3 & w3 & Hr2 & T1 & T2 & _ & (D2 & _) & _).
  exists calls, (rd1, (mt1, (p1, w1'))), calls2, (rd3, (mt3, (p3, w3))).
  assert (Hc : alice_cents w1' = Some 2000).
  { rewrite <- Ew. unfold alice_cents, pg_view. by rewrite D1. }
  split_and!; [exact Hr|exact Hc|exact Hr2|congruence|congruence|].
  rewrite <- Hc. cbn [snd]. unfold alice_cents, pg_view. by rewrite D2.
Defined.
