(* ===== verification/ServerTheorems.v ===== *)
(** * The books, seen by the clients of the server

    Whatever requests reach the router one after the other (of any method,
    path, headers and body) and whatever Postgres and Redis do, the responses
    tell whether the books still balance. *)
From S2P Require Import Prelude Go Strconv Identifiers Money Transaction Account Book Events Ports.
From S2P Require Import World LedgerService LedgerSafety Transfer TransferService Postgres Projection.
From S2P Require Import Production Scenario Json Requests Http Handlers Idempotency IdempotencyTheorems.
From S2P Require Import OutboxWorker HttpSpec HttpTheorems Observability Router RouterTheorems Main MainTheorems.
From stdpp Require Import base gmap strings list relations.
From Stdlib Require Import String SpecFloat.
Local Open Scope string_scope.
Local Open Scope list_scope.
Local Open Scope Z_scope.

(** The idempotency middleware runs the handler once, and answers with its
    response, or does not run it. *)
Lemma IdempotencyMiddleware_runs {R} `{RC : !RedisClient R} {W} (next : St W handled) method key r w :
  let '(h, (_, w')) := IdempotencyMiddleware next method key (r, w) in (h, w') = next w \/ w' = w.
Proof.
  assert (Hnext : let '(h, (_, w')) := on_world next (r, w) in (h, w') = next w \/ w' = w).
  { unfold on_world. cbn [fst snd]. destruct (next w). by left. }
  unfold IdempotencyMiddleware. destruct (_ && _); [exact Hnext|]. destruct (bool_decide _); [exact Hnext|].
  clear Hnext. destruct (store_Check key r) as [[[cached|]|e] r1] eqn:Hc;
    rewrite (on_redis_bind _ _ _ _ _ _ Hc); [|..|by right].
  - destruct (status_or_zero key r1) as [st r2] eqn:Hz. rewrite (on_redis_bind _ _ _ _ _ _ Hz). by right.
  - destruct (store_Lock key r1) as [[[|]|e] r2] eqn:Hl;
      rewrite (on_redis_bind _ _ _ _ _ _ Hl); [|by right..].
    destruct (next w) as [[calls|calls] w1] eqn:Hn; rewrite (on_world_bind _ _ _ _ _ _ Hn); [|by left].
    destruct (save_response key calls r2) as [[] r3] eqn:Hs. rewrite (on_redis_bind _ _ _ _ _ _ Hs). by left.
Qed.

Section server.
Context {U : UuidLib} {O : Oracle} {UL : UuidLaws} {OL : OracleLaws}.
Context {Rd : Type} `{RC : !RedisClient Rd} {Mt : Type}.
Context `{Stack : !HttpStack Rd Mt} `{Laws : !HttpStackLaws}.
Context (ovf : spec_float -> Z) (deps : RouterDeps Mt).

(** A third-party handler that has no business with the ledger. *)
Definition quiet (h : route_handler Mt) : Prop := forall req s, (h req s).2.2.2 = s.2.2.

Class QuietHandlers : Prop := {
  quiet_metrics : quiet promhttp_Handler;
  quiet_unmatched : quiet chi_unmatched;
  quiet_files : forall f, RD_StaticFS deps = Some f -> quiet f;
  quiet_PING : forall w, ((RD_HealthChecker deps).1 w).2 = w;
}.

Context `{Quiet : !QuietHandlers} (Hsvc : RD_Handler deps = production).

Notation bal := (balanced (view := pg_view) (inv := pg_inv)).

(** A response that is not a 422 is that of a run which kept the balance. *)
Definition fair (h : handled) (w w' : World) : Prop := sent_status (handled_calls h) <> 422 -> bal w w'.

Lemma quiet_fair h w w' : w' = w -> fair h w w'.
Proof using Type. intros -> _. reflexivity. Qed.

Lemma serve_api_fair r w : fair (serve_api ovf production r w).1 w (serve_api ovf production r w).2.
Proof using UL OL.
  intros H. apply (served_balanced ovf). eapply served; [apply surjective_pairing|]. by intros _.
Qed.

Lemma statement_balanced {A} (m : M World A) : Steps (untouched t_accounts) m -> Steps bal m.
Proof using UL OL. intros H. apply balanced_frame; [by apply steps_view|by apply steps_inv]. Qed.

Lemma health_balanced : Steps bal (HealthChecker_Handler (RD_HealthChecker deps).1 (RD_HealthChecker deps).2).
Proof using UL OL Quiet.
  assert (Steps bal db_Ping) by (apply statement_balanced, exec_untouched; by split).
  assert (Steps bal count_unpublished) by (apply statement_balanced, exec_untouched; by split).
  assert (Steps bal (RD_HealthChecker deps).1) by (intros w; by rewrite quiet_PING).
  unfold HealthChecker_Handler, checkPostgres, checkRedis, timed_check, checkOutboxBacklog. apply _.
Qed.

Lemma serve_endpoint_fair e params req mt p w :
  let '(h, (_, (_, w'))) := serve_endpoint ovf deps e params req (mt, (p, w)) in fair h w w'.
Proof using UL OL Quiet Hsvc.
  unfold serve_endpoint, on_program, on_world. destruct (api_request_of e params (Req_Body req)) as [r|].
  { cbn [fst snd]. rewrite Hsvc. pose proof (serve_api_fair r w) as H. by destruct (serve_api ovf production r w). }
  assert (Hq : forall h : route_handler Mt, quiet h ->
    let '(x, (_, (_, w'))) := h req (mt, (p, w)) in fair x w w').
  { intros h Hh. specialize (Hh req (mt, (p, w))).
    destruct (h req (mt, (p, w))) as [x (mt' & p' & w')]. by apply quiet_fair. }
  destruct e, (RD_StaticFS deps) as [f|] eqn:Hf; try (apply Hq; apply quiet_metrics || apply quiet_unmatched);
    try (by apply Hq, quiet_files).
  all: cbn [fst snd]; pose proof (health_balanced w) as H;
    destruct (HealthChecker_Handler _ _ w); by intros _.
Qed.

Lemma routes_fair req mt p w :
  let '(h, (_, (_, w'))) := routes ovf deps req (mt, (p, w)) in fair h w w'.
Proof using UL OL Quiet Hsvc.
  unfold routes. destruct (matched deps req) as [[[r e] params]|].
  - rewrite bindS_run. apply serve_endpoint_fair.
  - pose proof (quiet_unmatched req (mt, (p, w))) as H.
    destruct (chi_unmatched req (mt, (p, w))) as [h (mt' & p' & w')]. by apply quiet_fair.
Qed.

Lemma with_idempotency_fair req rd mt p w :
  let '(h, (_, (_, (_, w')))) := with_idempotency ovf deps req (rd, (mt, (p, w))) in fair h w w'.
Proof using UL OL Quiet Hsvc.
  pose proof (routes_fair req mt p w) as Hr. unfold with_idempotency. destruct (RD_IdempotencyStore deps).
  - pose proof (IdempotencyMiddleware_runs (routes ovf deps req) (Req_Method req)
      (Req_Header req "Idempotency-Key") rd (mt, (p, w))) as H.
    destruct (IdempotencyMiddleware _ _ _ _) as [h (rd' & mt' & p' & w')].
    destruct H as [H|[= _ _ ->]]; [by rewrite <- H in Hr|by apply quiet_fair].
  - unfold on_world. cbn [fst snd]. by destruct (routes ovf deps req _) as [h (mt' & p' & w')].
Qed.

Lemma now_bal w : bal w (tick_clock w).
Proof using UL OL. exact (now_balanced w). Qed.

Lemma ticked_bal w : bal w (ticked deps w).
Proof using UL OL. unfold ticked. destruct (metered deps); [apply now_bal|reflexivity]. Qed.

Lemma with_metrics_fair req rd mt p w :
  let '(h, (_, (_, (_, w')))) := with_metrics deps (Logger (with_idempotency ovf deps)) req (rd, (mt, (p, w))) in
  fair h w w'.
Proof using UL OL Laws Quiet Hsvc.
  pose proof (with_metrics_run deps (Logger (with_idempotency ovf deps)) req rd mt p w) as H.
  rewrite law_Logger in H. pose proof (with_idempotency_fair req rd mt p (ticked deps w)) as Hf.
  destruct (with_idempotency ovf deps req _) as [h (rd1 & mt1 & p1 & w1)]. destruct H as [mt2 ->].
  intros Hs. rewrite (ticked_bal w), (Hf Hs).
  destruct h; cbn [ticked_after]; [apply ticked_bal|reflexivity].
Qed.

(** The status 500 that is appended for a panic never hides a 422. *)
Lemma recovered_422 req h : sent_status (recovered req h) <> 422 -> sent_status (handled_calls h) <> 422.
Proof.
  destruct h as [calls|calls]; [done|]. cbn [recovered handled_calls].
  destruct (bool_decide _); [by rewrite app_nil_r|]. induction calls as [|[]]; simpl; auto.
Qed.

Definition server_world (s : server_state Rd Mt) : World := s.2.2.2.

Lemma NewRouter_fair req s :
  fair (NewRouter ovf deps req s).1 (server_world s) (server_world (NewRouter ovf deps req s).2).
Proof using UL OL Laws Quiet Hsvc.
  destruct s as (rd & mt & p & w). unfold NewRouter. rewrite bindS_run.
  change (on_world (set_pattern "") (rd, (mt, (p, w)))) with (tt, (rd, (mt, ("", w)))). cbn [fst snd].
  rewrite law_Recoverer, law_RequestID.
  pose proof (with_metrics_fair req rd mt "" w) as Hf.
  destruct (law_cors (with_metrics deps (Logger (with_idempotency ovf deps))) req (rd, (mt, ("", w))))
    as [hs [-> | [_ ->]]]; cbn [fst snd]; [|by apply quiet_fair].
  destruct (with_metrics deps _ req _) as [h (rd1 & mt1 & p1 & w1)]. cbn [fst snd].
  intros Hs%recovered_422. apply Hf. destruct h; cbn [after_calls handled_calls] in *;
    by rewrite (proj1 (sent_after_headers hs _)) in Hs.
Qed.

(** A request that the router has answered, with another status than 422, before
    it is sent the next one. *)
Inductive request_answered : server_state Rd Mt -> server_state Rd Mt -> Prop :=
| answered_request req s h s' :
    NewRouter ovf deps req s = (h, s') -> sent_status (handled_calls h) <> 422 -> request_answered s s'.

(** C2: the books, seen from outside: from an empty ledger, after any sequence
    of HTTP requests that are served one after the other and of which none was
    answered with 422, whatever their text, with or without idempotency keys,
    and whatever Postgres and Redis did, every account is well formed and the
    int64 balances of every currency add up to zero modulo 2^64. Requests that
    are served at the same time enjoy no such property
    ([racing_deposits_lose_one] of ProcessTheorems.v). *)
Theorem server_trial_balance s s' :
  pg_inv (server_world s) -> pg_view (server_world s) = ∅ -> rtc request_answered s s' ->
  book_wf (pg_view (server_world s')) /\ forall cur, holdings cur (pg_view (server_world s')) ≡64 0.
Proof using UL OL Laws Quiet Hsvc.
  intros Hi He Hr. assert (Hb : bal (server_world s) (server_world s')).
  { clear He Hi. induction Hr as [s|s1 s2 s3 [req s h s' H Hs] _ IH]; [reflexivity|].
    pose proof (NewRouter_fair req s) as Hf. rewrite H in Hf. etrans; [exact (Hf Hs)|exact IH]. }
  destruct (Hb Hi) as [Hi' Hh]. split; [apply Hi'|]. intros cur. rewrite Hh, He.
  unfold holdings. by rewrite msum_empty.
Qed.
End server.

(** ** Witness: the server that [main] wires *)

#[local] Existing Instances map_redis plain_stack plain_stack_laws plain_otel.

Definition no_files : route_handler Z := fun _ => retS (Returned [WriteHeader 404]).
Definition main_deps : RouterDeps Z :=
  wired (ret tt) 0 no_files (MkMetrics (Mt := Z) "duration" "count" "" "" "" "" "").

#[local] Instance main_quiet : QuietHandlers (Rd := gmap string string) main_deps.
Proof. by split; try intros f [= <-]. Qed.

(** Opening an account, a deposit with a key, the same request again, and a
    look at the health of the server. *)
Definition session : list http_Request :=
  [MkRequest "POST" "/api/v1/accounts" (fun _ => "")
     (Json.text (JObj [("name", JStr "Alice"); ("account_type", JStr "ASSET"); ("currency", JStr USD)]));
   deposit_request "k"; deposit_request "k"; MkRequest "GET" "/health" (fun _ => "") ""].

Definition serve (s : server_state (gmap string string) Z) (req : http_Request) :=
  (NewRouter overflow_min main_deps req s).2.
Fixpoint never_422 (reqs : list http_Request) (s : server_state (gmap string string) Z) : bool :=
  match reqs with
  | [] => true
  | req :: reqs =>
      negb (sent_status (handled_calls (NewRouter overflow_min main_deps req s).1) =? 422) &&
      never_422 reqs (serve s req)
  end.

Lemma session_served reqs s :
  never_422 reqs s = true -> rtc (request_answered overflow_min main_deps) s (fold_left serve reqs s).
Proof.
  revert s. induction reqs as [|req reqs IH]; intros s; simpl; [reflexivity|].
  intros [H1 H2]%andb_true_iff. eapply rtc_l; [|by apply IH].
  econstructor; [apply surjective_pairing|]. apply negb_true_iff in H1. by apply Z.eqb_neq.
Qed.

Definition empty_server : server_state (gmap string string) Z := (∅, (0, ("", initial_world))).

Lemma server_trial_balance_witness :
  exists s', rtc (request_answered overflow_min main_deps) empty_server s' /\
    alice_cents (server_world s') = Some 1000 /\
    book_wf (pg_view (server_world s')) /\ forall cur, holdings cur (pg_view (server_world s')) ≡64 0.
Proof.
  assert (Hr : rtc (request_answered overflow_min main_deps) empty_server (fold_left serve session empty_server))
    by (apply session_served; vm_compute; reflexivity).
  assert (Ha : alice_cents (server_world (fold_left serve session empty_server)) = Some 1000)
    by (vm_compute; reflexivity).
  revert Hr Ha. generalize (fold_left serve session empty_server) as s'. intros s' Hr Ha.
  exists s'. split; [exact Hr|]. split; [exact Ha|].
  exact (server_trial_balance overflow_min main_deps eq_refl empty_server s' (proj2 initial_inv)
           (fmap_empty core) Hr).
Defined.
