(* ===== verification/RequestTheorems.v ===== *)
(** * Theorems on request bodies

    A client that writes a request the way encoding/json writes the request
    type is understood: the body is decoded to that request. *)
From S2P Require Import Prelude Go Strconv Events Json JsonTheorems Requests.
From stdpp Require Import base gmap strings list.
From Stdlib Require Import String.
Local Open Scope string_scope.
Local Open Scope list_scope.
Local Open Scope Z_scope.
Import Utf8 Json.

(** ** The requests as documents *)

Definition openAccountRequest_json (r : openAccountRequest) : json :=
  JObj [("name", JStr (OAR_Name r)); ("account_type", JStr (OAR_AccountType r));
        ("currency", JStr (OAR_Currency r))].

Definition entryRequest_json (r : entryRequest) : json :=
  JObj [("account_id", JStr (ER_AccountID r)); ("amount", JNum (ER_Amount r));
        ("currency", JStr (ER_Currency r)); ("type", JStr (ER_Type r))].

Definition recordTransactionRequest_json (r : recordTransactionRequest) : json :=
  JObj [("entries", JArr (entryRequest_json <$> RTR_Entries r));
        ("description", JStr (RTR_Description r))].

(** Valid UTF-8, and amounts of 64 bits. *)
Definition sound_account (r : openAccountRequest) : Prop :=
  valid (OAR_Name r) = true /\ valid (OAR_AccountType r) = true /\ valid (OAR_Currency r) = true.
Definition sound_entry (r : entryRequest) : Prop :=
  valid (ER_AccountID r) = true /\ in_int64 (ER_Amount r) /\ valid (ER_Currency r) = true /\
  valid (ER_Type r) = true.
Definition sound_transaction (r : recordTransactionRequest) : Prop :=
  Forall sound_entry (RTR_Entries r) /\ valid (RTR_Description r) = true.

(** ** Storing the members *)

Lemma Decode_text {R} (fields : list (field R)) zero (j : json) (r : R) rest :
  (depth j <= maxNestingDepth)%nat -> follows j rest ->
  store_struct fields (value_of j) zero = (r, true) ->
  Decode fields zero (text j +:+ rest) = Some r.
Proof.
  intros Hd Hf Hs. unfold Decode. destruct (reads_all j maxNestingDepth rest Hd Hf) as [N HN].
  rewrite <- (parse_fuel (N + S (2 * String.length (text j +:+ rest)))), HN by lia. by rewrite Hs.
Qed.

(** A member for the field at [i]: no field before has its name. *)
Lemma find_field_at {R} (fields : list (field R)) i f :
  fields !! i = Some f -> forallb (fun g => negb (named f.1 g)) (take i fields) = true ->
  find_field fields f.1 = Some f.
Proof.
  intros Hi Ht. unfold find_field. assert (find_first (named f.1) fields = Some f) as ->; [|done].
  revert i Hi Ht. induction fields as [|g fields IH]; intros i Hi Ht; [done|].
  destruct i as [|i]; simpl in Hi.
  - injection Hi as ->. simpl. unfold named at 1. by rewrite bool_decide_eq_true_2.
  - simpl in Ht. apply andb_true_iff in Ht as [Hg Ht]. apply negb_true_iff in Hg. simpl.
    rewrite Hg. by apply (IH i).
Qed.

Lemma store_members_cons {R} (fields : list (field R)) i key f v members r ok :
  fields !! i = Some f -> f.1 = key -> forallb (fun g => negb (named key g)) (take i fields) = true ->
  fold_left (store_member fields) ((key, v) :: members) (r, ok) =
    fold_left (store_member fields) members ((f.2 v r).1, ok && (f.2 v r).2).
Proof.
  intros Hi <- Ht. cbn [fold_left]. f_equal. unfold store_member. cbn [fst snd].
  pose proof (find_field_at _ i _ Hi Ht) as Hf. unfold stored in *. rewrite Hf. by destruct (f.2 v r).
Qed.

Lemma store_entry e old :
  sound_entry e -> store_struct entryRequest_fields (value_of (entryRequest_json e)) old = (e, true).
Proof.
  destruct e as [id amt cur ty]. intros (H1 & H2 & H3 & H4). simpl in H1, H2, H3, H4.
  unfold entryRequest_json. cbn [value_of List.map fst snd ER_AccountID ER_Amount ER_Currency ER_Type].
  rewrite (sanitized_valid id), (sanitized_valid cur), (sanitized_valid ty) by done. unfold store_struct.
  erewrite (store_members_cons _ 0), (store_members_cons _ 1), (store_members_cons _ 2),
    (store_members_cons _ 3) by reflexivity.
  simpl. by rewrite atoi_fmt.
Qed.

Lemma store_entries l old :
  Forall sound_entry l ->
  store_elements zero_entryRequest (store_struct entryRequest_fields)
    (value_of <$> (entryRequest_json <$> l)) old = (l ++ drop (List.length l) old, true).
Proof.
  intros Hl. revert old. induction Hl as [|e l He _ IH]; intros old; [done|].
  rewrite !fmap_cons. cbn [store_elements]. rewrite store_entry, IH by done. destruct old; simpl; by rewrite ?drop_nil.
Qed.

Lemma store_new_slice l :
  Forall sound_entry l ->
  store_slice zero_entryRequest (store_struct entryRequest_fields)
    (VArr (value_of <$> (entryRequest_json <$> l))) (MkSlice [] 0) = (MkSlice l (List.length l), true).
Proof.
  intros Hl. pose proof (store_entries l [] Hl) as He. rewrite drop_nil, app_nil_r in He.
  assert (Hlen : List.length (value_of <$> (entryRequest_json <$> l)) = List.length l)
    by (by rewrite !length_fmap).
  destruct (value_of <$> _) as [|v vs]; [by destruct l|].
  unfold store_slice. cbn [backing]. by rewrite He, Hlen.
Qed.

Lemma depth_entries l : (depth (JArr (entryRequest_json <$> l)) <= 2)%nat.
Proof. simpl. apply le_n_S. induction l as [|e l IH]; csimpl; [lia|]. by apply Nat.max_lub. Qed.

Lemma depth_transaction r : (depth (recordTransactionRequest_json r) <= maxNestingDepth)%nat.
Proof.
  pose proof (depth_entries (RTR_Entries r)) as H.
  assert (3 <= maxNestingDepth)%nat by (apply Nat.leb_le; by vm_compute).
  unfold recordTransactionRequest_json. cbn [depth List.map foldr fst snd] in *. lia.
Qed.

Lemma store_transaction r :
  sound_transaction r ->
  exists s, store_struct recordTransactionRequest_fields (value_of (recordTransactionRequest_json r))
      (MkSlice [] 0, "") = ((s, RTR_Description r), true) /\ Requests.elements s = RTR_Entries r.
Proof.
  destruct r as [l desc]. intros [Hl Hd]. simpl in Hl, Hd. exists (MkSlice l (List.length l)). split.
  2:{ unfold Requests.elements. simpl. apply firstn_all. }
  unfold recordTransactionRequest_json.
  cbn [value_of List.map fst snd RTR_Entries RTR_Description]. rewrite (sanitized_valid desc) by done.
  unfold store_struct. erewrite (store_members_cons _ 0), (store_members_cons _ 1) by reflexivity.
  pose proof (store_new_slice l Hl) as He.
  change (value_of <$> (entryRequest_json <$> l)) with (List.map value_of (entryRequest_json <$> l)) in He.
  cbn [at_field snd fst fold_left]. by rewrite He.
Qed.

(** C28: round trip: the requests to open an account and to record a
    transaction, written as encoding/json writes the request types, with
    strings that are valid UTF-8 and amounts of 64 bits, are decoded to
    themselves, whatever follows them in the body: no entry, amount or
    character is lost or changed. *)
Theorem request_roundtrip :
  (forall r rest, sound_account r ->
     decode_openAccountRequest (text (openAccountRequest_json r) +:+ rest) = Some r) /\
  (forall r rest, sound_transaction r ->
     decode_recordTransactionRequest (text (recordTransactionRequest_json r) +:+ rest) = Some r).
Proof.
  split.
  - intros [name ty cur] rest (H1 & H2 & H3). simpl in H1, H2, H3.
    apply Decode_text; [apply Nat.leb_le; by vm_compute|done|].
    unfold openAccountRequest_json. cbn [value_of List.map fst snd OAR_Name OAR_AccountType OAR_Currency].
    rewrite (sanitized_valid name), (sanitized_valid ty), (sanitized_valid cur) by done. reflexivity.
  - intros r rest Hr. destruct (store_transaction r Hr) as (s & Hs & He).
    unfold decode_recordTransactionRequest.
    rewrite (Decode_text _ _ _ _ rest (depth_transaction r) I Hs), He. by destruct r.
Qed.

Definition sample_transaction : recordTransactionRequest :=
  MkRecordTransactionRequest
    [MkEntryRequest "a" 9223372036854775807 "USD" "DEBIT"; MkEntryRequest "b" (-1) "USD" "CREDIT"]
    ("<" +:+ quote +:+ encode 8364).

Lemma request_roundtrip_witness :
  sound_transaction sample_transaction /\
  decode_recordTransactionRequest
    (text (recordTransactionRequest_json sample_transaction) +:+ "}") = Some sample_transaction.
Proof.
  assert (H : sound_transaction sample_transaction).
  { split; [|by vm_compute]. repeat constructor; by vm_compute. }
  split; [exact H|]. exact (proj2 request_roundtrip sample_transaction "}" H).
Defined.
